(** * A shallow embedding of xml.c: the streaming XML parser, the path
      query engine and content extraction.

    C strings are lists of characters (the bytes before the terminating
    NUL); pointers to elements are indices into an arena of element
    records; a NULL pointer is [None].  A function that returns an error
    code or a NULL result returns [Err]; a dereference of NULL or a read
    outside a buffer is [Undef].  Loops whose iteration count is not the
    length of a list take fuel, and [NoFuel] is kept apart from the two
    other outcomes so that totality can be stated.  Allocation is assumed
    to succeed. *)

From Stdlib Require Import Ascii String.
From stdpp Require Import base list.
From Stdlib Require Import Lia.

Local Open Scope nat_scope.
Local Open Scope list_scope.

(** ** C strings *)

Definition cstr := list ascii.

Definition cs (s : string) : cstr := list_ascii_of_string s.

Definition NUL : ascii := Ascii.zero.
Definition WHITESPACE : cstr := [" "; "009"; "013"; "010"]%char.

Definition chr_in (c : ascii) (set : cstr) : bool :=
  existsb (Ascii.eqb c) set.

(** strspn(s, accept) *)
Fixpoint strspn (s accept : cstr) : nat :=
  match s with
  | [] => 0
  | c :: s' => if chr_in c accept then S (strspn s' accept) else 0
  end.

(** strcspn(s, reject) *)
Fixpoint strcspn (s reject : cstr) : nat :=
  match s with
  | [] => 0
  | c :: s' => if chr_in c reject then 0 else S (strcspn s' reject)
  end.

(** strchr(s, c) for a character c other than NUL: the offset of the
    first occurrence, [None] for a NULL result. *)
Fixpoint strchr (s : cstr) (c : ascii) : option nat :=
  match s with
  | [] => None
  | x :: s' => if Ascii.eqb x c then Some 0 else option_map S (strchr s' c)
  end.

(** The C string stored in a buffer: the characters before the first NUL. *)
Fixpoint cstring (buf : list ascii) : cstr :=
  match buf with
  | [] => []
  | c :: b => if Ascii.eqb c NUL then [] else c :: cstring b
  end.

(** tolower in the C locale *)
Definition tolower (c : ascii) : ascii :=
  let n := nat_of_ascii c in
  if (65 <=? n) && (n <=? 90) then ascii_of_nat (n + 32) else c.

(** strncasecmp(a, b, n) == 0 *)
Fixpoint strncasecmp_eq (a b : cstr) (n : nat) : bool :=
  match n with
  | 0 => true
  | S n' =>
      match a, b with
      | [], [] => true
      | x :: a', y :: b' =>
          Ascii.eqb (tolower x) (tolower y) && strncasecmp_eq a' b' n'
      | _, _ => false
      end
  end.

(** strcasecmp(a, b) == 0 *)
Fixpoint strcasecmp_eq (a b : cstr) : bool :=
  match a, b with
  | [], [] => true
  | x :: a', y :: b' => Ascii.eqb (tolower x) (tolower y) && strcasecmp_eq a' b'
  | _, _ => false
  end.

(** strncmp(a, b, n) == 0 *)
Fixpoint strncmp_eq (a b : cstr) (n : nat) : bool :=
  match n with
  | 0 => true
  | S n' =>
      match a, b with
      | [], [] => true
      | x :: a', y :: b' => Ascii.eqb x y && strncmp_eq a' b' n'
      | _, _ => false
      end
  end.

(** ** The tag pattern table *)

Definition TAG_ELEMENT_OPEN := 1.
Definition TAG_ELEMENT_CLOSE := 2.
Definition TAG_PI := 3.
Definition TAG_TYPE := 4.
Definition TAG_COMMENT := 5.
Definition TAG_CDATA := 6.

Record xml_tag_pattern := {
  type : nat;
  open : cstr;
  open_len : nat;
  close : cstr
}.

(** The table without its all-zero sentinel entry, which is the end of
    the list. *)
Definition xml_tag_patterns : list xml_tag_pattern :=
  [ {| type := TAG_ELEMENT_OPEN; open := cs "<"; open_len := 1; close := cs ">" |};
    {| type := TAG_ELEMENT_CLOSE; open := cs "</"; open_len := 2; close := cs ">" |};
    {| type := TAG_PI; open := cs "<?"; open_len := 2; close := cs "?>" |};
    {| type := TAG_TYPE; open := cs "<!"; open_len := 2; close := cs ">" |};
    {| type := TAG_COMMENT; open := cs "<!--"; open_len := 4; close := cs "-->" |};
    {| type := TAG_CDATA; open := cs "<![CDATA["; open_len := 9; close := cs "]]>" |} ].

(** ** The tree and the parser state *)

(** An attribute holds two pointers into the key buffer of its element:
    they are offsets into that buffer. *)
Record xml_attribute := {
  a_key : option nat;
  a_value : option nat
}.

(** [e_attributes] is the chain first_attribute .. last_attribute in
    link order. *)
Record xml_element := {
  e_key : option (list ascii);
  e_value : option (list ascii);
  e_parent : option nat;
  e_first_child : option nat;
  e_last_child : option nat;
  e_next : option nat;
  e_attributes : list xml_attribute
}.

Inductive parser_fn := parse_content | parse_tag_opening | parse_tag_body.

Record xml_state := {
  st_heap : list xml_element;
  st_root : option nat;
  st_current : option nat;
  st_tag : option xml_tag_pattern;
  st_length : nat;
  st_cursor : nat;
  st_empty : bool;
  st_parser : option parser_fn
}.

(** calloc'd element *)
Definition element_zero : xml_element :=
  {| e_key := None; e_value := None; e_parent := None; e_first_child := None;
     e_last_child := None; e_next := None; e_attributes := [] |}.

(** memset(&st, 0, sizeof(st)) *)
Definition state_zero : xml_state :=
  {| st_heap := []; st_root := None; st_current := None; st_tag := None;
     st_length := 0; st_cursor := 0; st_empty := false; st_parser := None |}.

Definition set_key (k : option (list ascii)) (e : xml_element) : xml_element :=
  {| e_key := k; e_value := e_value e; e_parent := e_parent e;
     e_first_child := e_first_child e; e_last_child := e_last_child e;
     e_next := e_next e; e_attributes := e_attributes e |}.

Definition set_value (v : option (list ascii)) (e : xml_element) : xml_element :=
  {| e_key := e_key e; e_value := v; e_parent := e_parent e;
     e_first_child := e_first_child e; e_last_child := e_last_child e;
     e_next := e_next e; e_attributes := e_attributes e |}.

Definition set_parent (p : option nat) (e : xml_element) : xml_element :=
  {| e_key := e_key e; e_value := e_value e; e_parent := p;
     e_first_child := e_first_child e; e_last_child := e_last_child e;
     e_next := e_next e; e_attributes := e_attributes e |}.

Definition set_first_child (c : option nat) (e : xml_element) : xml_element :=
  {| e_key := e_key e; e_value := e_value e; e_parent := e_parent e;
     e_first_child := c; e_last_child := e_last_child e;
     e_next := e_next e; e_attributes := e_attributes e |}.

Definition set_last_child (c : option nat) (e : xml_element) : xml_element :=
  {| e_key := e_key e; e_value := e_value e; e_parent := e_parent e;
     e_first_child := e_first_child e; e_last_child := c;
     e_next := e_next e; e_attributes := e_attributes e |}.

Definition set_next (n : option nat) (e : xml_element) : xml_element :=
  {| e_key := e_key e; e_value := e_value e; e_parent := e_parent e;
     e_first_child := e_first_child e; e_last_child := e_last_child e;
     e_next := n; e_attributes := e_attributes e |}.

Definition set_attributes (a : list xml_attribute) (e : xml_element) : xml_element :=
  {| e_key := e_key e; e_value := e_value e; e_parent := e_parent e;
     e_first_child := e_first_child e; e_last_child := e_last_child e;
     e_next := e_next e; e_attributes := a |}.

Definition with_heap (h : list xml_element) (st : xml_state) : xml_state :=
  {| st_heap := h; st_root := st_root st; st_current := st_current st;
     st_tag := st_tag st; st_length := st_length st; st_cursor := st_cursor st;
     st_empty := st_empty st; st_parser := st_parser st |}.

Definition with_current (c : option nat) (st : xml_state) : xml_state :=
  {| st_heap := st_heap st; st_root := st_root st; st_current := c;
     st_tag := st_tag st; st_length := st_length st; st_cursor := st_cursor st;
     st_empty := st_empty st; st_parser := st_parser st |}.

Definition with_root (r : option nat) (st : xml_state) : xml_state :=
  {| st_heap := st_heap st; st_root := r; st_current := st_current st;
     st_tag := st_tag st; st_length := st_length st; st_cursor := st_cursor st;
     st_empty := st_empty st; st_parser := st_parser st |}.

Definition with_tag (t : option xml_tag_pattern) (st : xml_state) : xml_state :=
  {| st_heap := st_heap st; st_root := st_root st; st_current := st_current st;
     st_tag := t; st_length := st_length st; st_cursor := st_cursor st;
     st_empty := st_empty st; st_parser := st_parser st |}.

Definition with_length (n : nat) (st : xml_state) : xml_state :=
  {| st_heap := st_heap st; st_root := st_root st; st_current := st_current st;
     st_tag := st_tag st; st_length := n; st_cursor := st_cursor st;
     st_empty := st_empty st; st_parser := st_parser st |}.

Definition with_cursor (n : nat) (st : xml_state) : xml_state :=
  {| st_heap := st_heap st; st_root := st_root st; st_current := st_current st;
     st_tag := st_tag st; st_length := st_length st; st_cursor := n;
     st_empty := st_empty st; st_parser := st_parser st |}.

Definition with_empty (b : bool) (st : xml_state) : xml_state :=
  {| st_heap := st_heap st; st_root := st_root st; st_current := st_current st;
     st_tag := st_tag st; st_length := st_length st; st_cursor := st_cursor st;
     st_empty := b; st_parser := st_parser st |}.

Definition with_parser (p : option parser_fn) (st : xml_state) : xml_state :=
  {| st_heap := st_heap st; st_root := st_root st; st_current := st_current st;
     st_tag := st_tag st; st_length := st_length st; st_cursor := st_cursor st;
     st_empty := st_empty st; st_parser := p |}.

(** ** Outcomes

    [Ok a]: the function returned normally.  [Err st]: it returned its
    error value (-1 or NULL) and left the parser state as [st].
    [Undef]: undefined behaviour.  [NoFuel]: the fuel of the model ran
    out. *)

Inductive result (A : Type) : Type :=
| Ok (a : A)
| Err (st : xml_state)
| Undef
| NoFuel.
Arguments Ok {A} a.
Arguments Err {A} st.
Arguments Undef {A}.
Arguments NoFuel {A}.

Definition bind {A B : Type} (r : result A) (k : A -> result B) : result B :=
  match r with
  | Ok a => k a
  | Err st => Err st
  | Undef => Undef
  | NoFuel => NoFuel
  end.

Notation "'do' x <- r ; k" := (bind r (fun x => k))
  (at level 10, x name, r at level 100, k at level 200).
Notation "'do2' x , y <- r ; k" := (bind r (fun xy => let '(x, y) := xy in k))
  (at level 10, x name, y name, r at level 100, k at level 200).

(** Reading and writing through an element pointer. *)
Definition deref (h : list xml_element) (p : nat) : result xml_element :=
  match h !! p with
  | Some e => Ok e
  | None => Undef
  end.

Definition store (h : list xml_element) (p : nat) (f : xml_element -> xml_element)
  : result (list xml_element) :=
  match h !! p with
  | Some e => Ok (<[p := f e]> h)
  | None => Undef
  end.

(** ** String operations *)

(** Reading buf[i] of a buffer whose terminating NUL is at index
    [length buf]. *)
Definition rd (buf : list ascii) (i : nat) : result ascii :=
  match buf !! i with
  | Some c => Ok c
  | None => if i =? length buf then Ok NUL else Undef
  end.

(** Writing a NUL at buf[i]; the terminator itself may be overwritten
    with NUL. *)
Definition wr0 (buf : list ascii) (i : nat) : result (list ascii) :=
  if i <? length buf then Ok (<[i := NUL]> buf)
  else if i =? length buf then Ok buf
  else Undef.

(** The C string a pointer into the buffer points to. *)
Definition str_at (buf : list ascii) (off : nat) : result cstr :=
  if off <=? length buf then Ok (cstring (drop off buf)) else Undef.

(** The loop of xml_quotedspn after the first increment of s: [rest]
    holds the buffer from the incremented s on and [n] is s - first. *)
Fixpoint quotedspn_scan (rest : list ascii) (n : nat) (q : ascii) : result nat :=
  match rest with
  | [] => Ok 0
  | c :: r =>
      if Ascii.eqb c NUL then Ok 0
      else if Ascii.eqb c "\"%char then
        (* ++s; continue; and the loop condition increments s again *)
        match r with
        | [] => Undef
        | _ :: r' => quotedspn_scan r' (n + 2) q
        end
      else if Ascii.eqb c q then Ok n
      else quotedspn_scan r (n + 1) q
  end.

(** xml_quotedspn(s, q): [s] is the buffer from the pointer s on.  The
    loop condition [*++s] moves past s[0] before anything is read. *)
Definition xml_quotedspn (s : list ascii) (q : ascii) : result nat :=
  match s with
  | [] => Undef
  | _ :: r => quotedspn_scan r 1 q
  end.

(** xml_string_append(dest, dest_len, src, src_len): [src] is the
    src_len bytes to append.  The bytes are written at offset *dest_len
    of the reallocated buffer.  Returns the new *dest and *dest_len. *)
Definition xml_string_append (dest : option (list ascii)) (dest_len : nat)
    (src : list ascii) : result (option (list ascii) * nat) :=
  if length src <? 1 then Ok (dest, dest_len)
  else
    match dest with
    | None => Ok (Some src, dest_len + length src)
    | Some s =>
        if dest_len <=? length s
        then Ok (Some (take dest_len s ++ src), dest_len + length src)
        else Undef
    end.

(** ** Creating and modifying elements *)

(** xml_element_add(p, c) *)
Definition xml_element_add (h : list xml_element) (p c : nat)
  : result (list xml_element) :=
  do h1 <- store h c (set_parent (Some p));
  do pe <- deref h1 p;
  match e_first_child pe with
  | Some _ =>
      match e_last_child pe with
      | None => Undef
      | Some l =>
          do h2 <- store h1 l (set_next (Some c));
          store h2 p (set_last_child (Some c))
      end
  | None =>
      store h1 p (fun e => set_first_child (Some c) (set_last_child (Some c) e))
  end.

(** xml_element_create(parent): the new element is the next free index. *)
Definition xml_element_create (h : list xml_element) (parent : option nat)
  : result (list xml_element * nat) :=
  let e := length h in
  let h1 := h ++ [element_zero] in
  match parent with
  | Some p => do h2 <- xml_element_add h1 p e; Ok (h2, e)
  | None => Ok (h1, e)
  end.

(** ** Appending key/value *)

(** xml_string_append(&st->current->F, &st->length, d, l) for a string
    field F of the element, read by [get] and written by [set], and the
    test of its result against NULL. *)
Definition append_current (get : xml_element -> option (list ascii))
    (set : option (list ascii) -> xml_element -> xml_element)
    (st : xml_state) (d : list ascii) : result xml_state :=
  match st_current st with
  | None => Undef
  | Some c =>
      do e <- deref (st_heap st) c;
      do2 v, n <- xml_string_append (get e) (st_length st) d;
      do h <- store (st_heap st) c (set v);
      let st1 := with_length n (with_heap h st) in
      match v with
      | None => Err st1
      | Some _ => Ok st1
      end
  end.

Definition append_current_value := append_current e_value set_value.
Definition append_current_key := append_current e_key set_key.

(** xml_value_append(st, d, l) with [d] the l bytes *)
Definition xml_value_append (st : xml_state) (d : list ascii) : result xml_state :=
  do st1 <-
    (if st_length st =? 0 then
       do2 h, e <- xml_element_create (st_heap st) (st_current st);
       Ok (with_current (Some e) (with_heap h st))
     else Ok st);
  append_current_value st1 d.

(** xml_key_append(st, d, l) with [d] the l bytes *)
Definition xml_key_append (st : xml_state) (d : list ascii) : result xml_state :=
  match st_current st with
  | None => Err st
  | Some _ =>
      match st_tag st with
      | None => Undef
      | Some t =>
          if type t =? TAG_ELEMENT_CLOSE then Ok st
          else
            do st1 <-
              (if (st_length st =? 0) && (1 <? open_len t)
               then append_current_key st (take (open_len t - 1) (drop 1 (open t)))
               else Ok st);
            append_current_key st1 d
      end
  end.

(** ** Parsing attributes *)

Definition DQUOTE : ascii := "034"%char.
Definition SQUOTE : ascii := "039"%char.
Definition EQ_WHITESPACE : cstr := "="%char :: WHITESPACE.

(** What one round of the attribute loop does: [AttrBreak] leaves the
    loop, [AttrNext buf a from] has chained attribute [a], written its
    terminators into the buffer and moved [from]. *)
Inductive attr_ctl :=
| AttrNext (buf : list ascii) (a : xml_attribute) (from : nat)
| AttrBreak.

(** The value part after a '=': [None] is the break on [!*from],
    otherwise the value pointer, its length and the new [from]. *)
Definition parse_attribute_value (buf : list ascii) (from : nat)
  : result (option (nat * nat * nat)) :=
  let from := from + 1 in
  do s <- str_at buf from;
  let from := from + strspn s WHITESPACE in
  do c <- rd buf from;
  if Ascii.eqb c NUL then Ok None
  else
    do2 qp, from <-
      (if Ascii.eqb c SQUOTE then
         let from := from + 1 in
         do p <- xml_quotedspn (drop from buf) SQUOTE; Ok ((SQUOTE, p), from)
       else if Ascii.eqb c DQUOTE then
         let from := from + 1 in
         do p <- xml_quotedspn (drop from buf) DQUOTE; Ok ((DQUOTE, p), from)
       else
         do s1 <- str_at buf from; Ok ((NUL, strcspn s1 WHITESPACE), from));
    let '(q, p) := qp in
    let value := from in
    let value_len := p in
    let from := from + p in
    do c1 <- rd buf from;
    let from := if Ascii.eqb c1 q then from + 1 else from in
    Ok (Some (value, value_len, from)).

(** The body of the while loop of xml_parse_attributes. *)
Definition parse_attribute (buf : list ascii) (from : nat) : result attr_ctl :=
  do s0 <- str_at buf from;
  let from := from + strspn s0 WHITESPACE in
  do s1 <- str_at buf from;
  let p := strcspn s1 EQ_WHITESPACE in
  if p <? 1 then Ok AttrBreak
  else
    let key := from in
    let key_len := p in
    let from := from + p in
    do s2 <- str_at buf from;
    let from := from + strspn s2 WHITESPACE in
    do c <- rd buf from;
    do r <-
      (if Ascii.eqb c "="%char then
         do v <- parse_attribute_value buf from;
         match v with
         | None => Ok None
         | Some (value, value_len, from') => Ok (Some (Some (value, value_len), from'))
         end
       else Ok (Some (None, from)));
    match r with
    | None => Ok AttrBreak
    | Some (v, from') =>
        do buf1 <- wr0 buf (key + key_len);
        do buf2 <-
          match v with
          | Some (value, value_len) => wr0 buf1 (value + value_len)
          | None => Ok buf1
          end;
        Ok (AttrNext buf2 {| a_key := Some key; a_value := option_map fst v |} from')
    end.

Fixpoint parse_attributes_loop (fuel : nat) (buf : list ascii)
    (attrs : list xml_attribute) (from : nat)
  : result (list ascii * list xml_attribute) :=
  do c <- rd buf from;
  if Ascii.eqb c NUL then Ok (buf, attrs)
  else
    match fuel with
    | 0 => NoFuel
    | S f =>
        do ctl <- parse_attribute buf from;
        match ctl with
        | AttrBreak => Ok (buf, attrs)
        | AttrNext buf' a from' => parse_attributes_loop f buf' (attrs ++ [a]) from'
        end
    end.

(** xml_parse_attributes(e, from): [from] is an offset into the key
    buffer of [e].  Every round moves [from] forward, so the length of
    the buffer is enough fuel. *)
Definition xml_parse_attributes (h : list xml_element) (e : nat) (from : nat)
  : result (list xml_element) :=
  do el <- deref h e;
  match e_key el with
  | None => Undef
  | Some buf =>
      do2 buf', attrs <- parse_attributes_loop (S (length buf)) buf (e_attributes el) from;
      store h e (fun x => set_attributes attrs (set_key (Some buf') x))
  end.

(** ** Parsing elements *)

(** xml_close_element(st) *)
Definition xml_close_element (st : xml_state) : result xml_state :=
  match st_current st with
  | None => Undef
  | Some c => do e <- deref (st_heap st) c; Ok (with_current (e_parent e) st)
  end.

(** xml_close_tag(st) *)
Definition xml_close_tag (st : xml_state) : xml_state :=
  with_parser (Some parse_content)
    (with_empty false (with_cursor 0 (with_length 0 (with_tag None st)))).

(** The for loop of xml_check_empty: [n] is p - key + 1. *)
Fixpoint check_empty_loop (buf : list ascii) (n : nat) : list ascii * bool :=
  match n with
  | 0 => (buf, false)
  | S p =>
      match buf !! p with
      | None => (buf, false)
      | Some c =>
          if chr_in c WHITESPACE then check_empty_loop buf p
          else if Ascii.eqb c "/"%char then (<[p := NUL]> buf, true)
          else (buf, false)
      end
  end.

(** xml_check_empty(st) *)
Definition xml_check_empty (st : xml_state) : result xml_state :=
  match st_current st with
  | None => Undef
  | Some c =>
      do e <- deref (st_heap st) c;
      match e_key e with
      | None => Undef
      | Some buf =>
          let '(buf', em) := check_empty_loop buf (length (cstring buf)) in
          do h <- store (st_heap st) c (set_key (Some buf'));
          Ok (with_empty (em || st_empty st) (with_heap h st))
      end
  end.

(** xml_parse_tag_name(st) *)
Definition xml_parse_tag_name (st : xml_state) : result xml_state :=
  do st1 <- xml_check_empty st;
  match st_current st1 with
  | None => Undef
  | Some c =>
      do e <- deref (st_heap st1) c;
      match e_key e with
      | None => Undef
      | Some buf =>
          let p := strcspn (cstring buf) WHITESPACE in
          do ch <- rd buf p;
          if Ascii.eqb ch NUL then Ok st1
          else
            do buf1 <- wr0 buf p;
            let p := p + 1 in
            do s <- str_at buf1 p;
            let p := p + strspn s WHITESPACE in
            do h1 <- store (st_heap st1) c (set_key (Some buf1));
            do ch1 <- rd buf1 p;
            if Ascii.eqb ch1 NUL then Ok (with_heap h1 st1)
            else
              do h2 <- xml_parse_attributes h1 c p;
              Ok (with_heap h2 st1)
      end
  end.

(** What one round of a while loop over the input does. *)
Inductive loop_ctl :=
| Continue (st : xml_state) (d : cstr)
| Break (st : xml_state) (d : cstr).

(** close[i] of a pattern, the terminating NUL included. *)
Definition close_at (t : xml_tag_pattern) (i : nat) : ascii := nth i (close t) NUL.

(** The part of the loop body of xml_parse_tag_body under [if (m)]:
    [m] is the offset of the match in [d]. *)
Definition tag_body_match (st : xml_state) (t : xml_tag_pattern) (d : cstr) (m : nat)
  : result loop_ctl :=
  do st1 <- (if st_cursor st =? 0 then xml_key_append st (take m d) else Ok st);
  let d' := drop (S m) d in
  let st2 := with_cursor (S (st_cursor st1)) st1 in
  if Ascii.eqb (close_at t (st_cursor st2)) NUL then
    do st3 <-
      (if 1 <? st_cursor st2
       then append_current_key st2 (take (st_cursor st2 - 1) (close t))
       else Ok st2);
    do st4 <-
      (if type t =? TAG_ELEMENT_OPEN then xml_parse_tag_name st3 else Ok st3);
    do st5 <-
      (if negb (type t =? TAG_ELEMENT_OPEN) || st_empty st4
       then xml_close_element st4
       else Ok st4);
    Ok (Break (xml_close_tag st5) d')
  else Ok (Continue st2 d').

(** One round of the while loop of xml_parse_tag_body on a non-empty
    [d]. *)
Definition tag_body_iter (st : xml_state) (d : cstr) : result loop_ctl :=
  match st_tag st, d with
  | None, _ => Undef
  | _, [] => Ok (Break st d)
  | Some t, c :: _ =>
      if st_cursor st =? 0 then
        match strchr d (close_at t 0) with
        | Some m => tag_body_match st t d m
        | None =>
            (* append all the rest *)
            do st1 <- xml_key_append st d;
            Ok (Break st1 (drop (length d) d))
        end
      else if Ascii.eqb (close_at t (st_cursor st)) c then
        tag_body_match st t d 0
      else
        (* the matched part of the pattern was data *)
        do st1 <- xml_key_append st (take (st_cursor st) (close t));
        let st2 := with_cursor 0 st1 in
        if Ascii.eqb (close_at t 0) c then tag_body_match st2 t d 0
        else Ok (Continue st2 d)
  end.

Fixpoint tag_body_loop (fuel : nat) (st : xml_state) (d : cstr)
  : result (xml_state * cstr) :=
  match d with
  | [] => Ok (st, d)
  | _ :: _ =>
      match fuel with
      | 0 => NoFuel
      | S f =>
          do ctl <- tag_body_iter st d;
          match ctl with
          | Continue st' d' => tag_body_loop f st' d'
          | Break st' d' => Ok (st', d')
          end
      end
  end.

(** xml_parse_tag_body(st, d): a round either consumes input or resets a
    non-zero cursor, so twice the length of [d] (and one) is enough fuel. *)
Definition xml_parse_tag_body (st : xml_state) (d : cstr) : result (xml_state * cstr) :=
  tag_body_loop (S (2 * length d)) st d.

(** The search of the opening patterns for the character [c], with [p]
    running over the table: the pattern found and the table from [p] on. *)
Fixpoint scan_patterns (ps : list xml_tag_pattern) (cursor : nat) (c : ascii)
  : option xml_tag_pattern * list xml_tag_pattern :=
  match ps with
  | [] => (None, [])
  | p :: ps' =>
      if (cursor <? open_len p) && Ascii.eqb (nth cursor (open p) NUL) c
      then (Some p, ps)
      else scan_patterns ps' cursor c
  end.

(** The inner for (;;) of xml_parse_tag_opening: the pattern found and
    the cursor it leaves.  The second search starts where the first one
    stopped. *)
Definition match_opening (cursor : nat) (c : ascii) : option xml_tag_pattern * nat :=
  let '(p, rest) := scan_patterns xml_tag_patterns cursor c in
  match p with
  | Some _ => (p, cursor)
  | None =>
      if cursor =? 0 then (None, cursor)
      else (fst (scan_patterns rest 0 c), 0)
  end.

(** xml_parse_tag_opening(st, d) *)
Fixpoint xml_parse_tag_opening (st : xml_state) (d : cstr) : result (xml_state * cstr) :=
  match d with
  | [] => Ok (st, d)
  | c :: d' =>
      let '(p, cur) := match_opening (st_cursor st) c in
      let st0 := with_cursor cur st in
      match p with
      | None =>
          match st_tag st0 with
          | None => Err st0
          | Some t =>
              do st1 <- (if 0 <? st_length st0 then xml_close_element st0 else Ok st0);
              let st2 :=
                with_parser (Some parse_tag_body) (with_cursor 0 (with_length 0 st1)) in
              do st3 <-
                (if negb (type t =? TAG_ELEMENT_CLOSE) then
                   do2 h, e <- xml_element_create (st_heap st2) (st_current st2);
                   Ok (with_current (Some e) (with_heap h st2))
                 else Ok st2);
              Ok (st3, d)
          end
      | Some t =>
          xml_parse_tag_opening (with_tag (Some t) (with_cursor (S cur) st0)) d'
      end
  end.

(** xml_parse_content(st, d) *)
Definition xml_parse_content (st : xml_state) (d : cstr) : result (xml_state * cstr) :=
  let n := strcspn d (cs "<") in
  do st1 <- (if 0 <? n then xml_value_append st (take n d) else Ok st);
  let en := drop n d in
  let st2 :=
    match en with
    | c :: _ => if Ascii.eqb c "<"%char then with_parser (Some parse_tag_opening) st1 else st1
    | [] => st1
    end in
  Ok (st2, en).

(** The call through st->parser. *)
Definition call_parser (p : parser_fn) (st : xml_state) (d : cstr)
  : result (xml_state * cstr) :=
  match p with
  | parse_content => xml_parse_content st d
  | parse_tag_opening => xml_parse_tag_opening st d
  | parse_tag_body => xml_parse_tag_body st d
  end.

(** The while loop of xml_parse_chunk. *)
Fixpoint parse_loop (fuel : nat) (st : xml_state) (d : cstr) : result xml_state :=
  match d with
  | [] => Ok st
  | _ :: _ =>
      match fuel with
      | 0 => NoFuel
      | S f =>
          match st_parser st with
          | None => Undef
          | Some p =>
              do2 st', d' <- call_parser p st d;
              parse_loop f st' d'
          end
      end
  end.

(** The two initialisations at the head of xml_parse_chunk. *)
Definition chunk_init (st : xml_state) : xml_state :=
  let st1 :=
    match st_root st with
    | Some _ => st
    | None =>
        let e := length (st_heap st) in
        with_current (Some e)
          (with_root (Some e) (with_heap (st_heap st ++ [element_zero]) st))
    end in
  match st_parser st1 with
  | Some _ => st1
  | None => xml_close_tag st1
  end.

(** xml_parse_chunk(st, d): [None] is the NULL chunk.  A call of a
    parser function consumes input or hands over to the next parser
    function, so three rounds for every character are enough fuel. *)
Definition xml_parse_chunk (st : xml_state) (d : option cstr) : result xml_state :=
  match d with
  | None => Err st
  | Some d => parse_loop (3 * length d + 3) (chunk_init st) d
  end.

(** xml_parse(data): the root and the arena it points into. *)
Definition xml_parse (data : option cstr) : result (list xml_element * nat) :=
  match xml_parse_chunk state_zero data with
  | Ok st =>
      match st_root st with
      | Some r => Ok (st_heap st, r)
      | None => Err st
      end
  | Err st => Err st
  | Undef => Undef
  | NoFuel => NoFuel
  end.

(** ** Element location *)

Record xml_query_string := {
  q_key : cstr;
  key_len : nat;
  q_value : option cstr;
  value_len : nat
}.

(** The query strings of a segment are the chain from seg->query on. *)
Record xml_path_segment := {
  tag_len : nat;
  query : list xml_query_string
}.

Definition segment_zero : xml_path_segment := {| tag_len := 0; query := [] |}.

(** The C string an attribute pointer of element [e] points to. *)
Definition attr_string (e : xml_element) (p : option nat) : result cstr :=
  match p, e_key e with
  | Some off, Some buf => str_at buf off
  | _, _ => Undef
  end.

(** The inner loop of xml_attribute_match for one query string: whether
    it left the loop with an attribute. *)
Fixpoint attribute_scan (e : xml_element) (q : xml_query_string)
    (attrs : list xml_attribute) : result bool :=
  match attrs with
  | [] => Ok false
  | a :: rest =>
      do k <- attr_string e (a_key a);
      if (length k =? key_len q) && strncmp_eq k (q_key q) (key_len q) then
        match q_value q with
        | None => Ok true
        | Some v =>
            do av <- attr_string e (a_value a);
            if (length av =? value_len q) && strncmp_eq av v (value_len q)
            then Ok true
            else attribute_scan e q rest
        end
      else attribute_scan e q rest
  end.

Fixpoint attribute_match_queries (e : xml_element) (qs : list xml_query_string)
  : result bool :=
  match qs with
  | [] => Ok true
  | q :: qs' =>
      do b <- attribute_scan e q (e_attributes e);
      if b then attribute_match_queries e qs' else Ok false
  end.

(** xml_attribute_match(e, seg) *)
Definition xml_attribute_match (h : list xml_element) (e : option nat)
    (seg : xml_path_segment) : result bool :=
  match e with
  | None => Ok false
  | Some p => do el <- deref h p; attribute_match_queries el (query seg)
  end.

(** The do-while loop of xml_first_path_segment; [sep] and [stop] are
    offsets into [path] and [qs] is seg->query. *)
Fixpoint query_loop (fuel : nat) (path : cstr) (sep stop : nat)
    (qs : list xml_query_string) : result (list xml_query_string) :=
  match fuel with
  | 0 => NoFuel
  | S f =>
      let k := S sep in
      let ks := drop k path in
      let kl := strcspn ks (cs "=&/") in
      let v := k + kl in
      let '(q, sep') :=
        match drop v path with
        | "="%char :: vs =>
            let vl := strcspn vs (cs "&/") in
            ({| q_key := ks; key_len := kl; q_value := Some vs; value_len := vl |},
             S v + vl)
        | _ =>
            ({| q_key := ks; key_len := kl; q_value := None; value_len := 0 |}, v)
        end in
      let qs' := q :: qs in
      if (sep' <? length path) && (sep' <? stop)
      then query_loop f path sep' stop qs'
      else Ok qs'
  end.

(** xml_first_path_segment(seg, path): the segment and the start of the
    next one. *)
Definition xml_first_path_segment (seg : xml_path_segment) (path : cstr)
  : result (xml_path_segment * option cstr) :=
  let next := strchr path "/"%char in
  let tl := match next with None => length path | Some n => n end in
  let next' := option_map (fun n => drop (S n) path) next in
  match strchr path "?"%char with
  | Some len =>
      if len <? tl then
        do qs <- query_loop (S (length path)) path len tl (query seg);
        Ok ({| tag_len := len; query := qs |}, next')
      else Ok ({| tag_len := tl; query := [] |}, next')
  | None => Ok ({| tag_len := tl; query := [] |}, next')
  end.

(** The while loop of xml_last_path_segment for a [prev] that is not
    [path] itself: the offset it stops at. *)
Fixpoint back_to_slash (path : cstr) (prev : nat) : nat :=
  match prev with
  | 0 => 0
  | S p =>
      if (0 <? p) && negb (Ascii.eqb (nth p path NUL) "/"%char)
      then back_to_slash path p
      else p
  end.

(** xml_last_path_segment(seg, path, prev) for a non-NULL [path]; [prev]
    is an offset into [path].  With [prev] equal to [path] the loop
    steps in front of the string. *)
Definition xml_last_path_segment (seg : xml_path_segment) (path : cstr)
    (prev : option nat) : result (xml_path_segment * nat) :=
  let prev0 := match prev with None => length path | Some n => n end in
  match prev0 with
  | 0 => Undef
  | S _ =>
      let prev1 := back_to_slash path prev0 in
      let p := if Ascii.eqb (nth prev1 path NUL) "/"%char then S prev1 else prev1 in
      do2 seg', nx <- xml_first_path_segment seg (drop p path);
      Ok (seg', prev1)
  end.

(** The loop [for (e = from; e; e = e->next)] over a sibling chain with
    a body that may return: [test] gives the value returned at an
    element, or [None] to go on with the next one. *)
Fixpoint scan_siblings (n : nat) (h : list xml_element)
    (test : nat -> xml_element -> result (option nat)) (from : option nat)
  : result (option nat) :=
  match from with
  | None => Ok None
  | Some ei =>
      match n with
      | 0 => NoFuel
      | S n' =>
          do ee <- deref h ei;
          do r <- test ei ee;
          match r with
          | Some x => Ok (Some x)
          | None => scan_siblings n' h test (e_next ee)
          end
      end
  end.

(** The test of xml_find on a child with key buffer [k]. *)
Definition tag_match (k : list ascii) (path : cstr) (n : nat) : bool :=
  (length (cstring k) =? n) && strncasecmp_eq (cstring k) path n.

(** The condition of the if statement in the loop of xml_find. *)
Definition child_match (h : list xml_element) (path : cstr) (seg : xml_path_segment)
    (ci : nat) (ce : xml_element) : result bool :=
  match e_key ce with
  | None => Ok false
  | Some k =>
      if tag_match k path (tag_len seg)
      then xml_attribute_match h (Some ci) seg
      else Ok false
  end.

(** The body of the loop of xml_find, with [find] the recursive call. *)
Definition find_test (h : list xml_element) (path : cstr) (seg : xml_path_segment)
    (next : option cstr) (find : nat -> option cstr -> result (option nat))
    (ci : nat) (ce : xml_element) : result (option nat) :=
  do m <- child_match h path seg ci ce;
  if m then
    match next with
    | None => Ok (Some ci)
    | Some nx => find ci (Some nx)
    end
  else Ok None.

(** xml_find(e, path) *)
Fixpoint xml_find (fuel : nat) (h : list xml_element) (e : nat) (path : option cstr)
  : result (option nat) :=
  match fuel with
  | 0 => NoFuel
  | S f =>
      match path with
      | None | Some [] => Ok None
      | Some p =>
          do2 seg, next <- xml_first_path_segment segment_zero p;
          do el <- deref h e;
          scan_siblings f h (find_test h p seg next (xml_find f h)) (e_first_child el)
      end
  end.

(** The condition of the if statement in the macro FIND. *)
Definition next_match (h : list xml_element) (last_key : option (list ascii))
    (seg : xml_path_segment) (ei : nat) (ee : xml_element) : result bool :=
  match e_key ee with
  | None => Ok false
  | Some k =>
      match last_key with
      | None => Undef
      | Some lk =>
          if strcasecmp_eq (cstring k) (cstring lk)
          then xml_attribute_match h (Some ei) seg
          else Ok false
      end
  end.

(** The macro FIND(from) of xml_find_next_from: the first element of the
    sibling chain from [from] on that has a key equal to that of [last]
    up to case and matches the attributes of [seg]. *)
Definition find_from (fuel : nat) (h : list xml_element) (last_key : option (list ascii))
    (seg : xml_path_segment) (from : option nat) : result (option nat) :=
  scan_siblings fuel h
    (fun ei ee => do m <- next_match h last_key seg ei ee;
                  Ok (if m then Some ei else None))
    from.

(** xml_find_next_from(last, path, prev) *)
Fixpoint xml_find_next_from (fuel : nat) (h : list xml_element) (last : option nat)
    (path : option cstr) (prev : option nat) : result (option nat) :=
  match fuel with
  | 0 => NoFuel
  | S f =>
      match last with
      | None => Ok None
      | Some li =>
          do2 seg, prev' <-
            match path with
            | Some p =>
                do2 s, n <- xml_last_path_segment segment_zero p prev;
                Ok (s, Some n)
            | None => Ok (segment_zero, prev)
            end;
          do le <- deref h li;
          do r <- find_from f h (e_key le) seg (e_next le);
          match r with
          | Some x => Ok (Some x)
          | None =>
              (* try other branches *)
              (fix branches (n : nat) (p : option nat) : result (option nat) :=
                 match p with
                 | None => Ok None
                 | Some pi =>
                     match n with
                     | 0 => NoFuel
                     | S n' =>
                         do pe <- deref h pi;
                         match e_key pe with
                         | None => Ok None
                         | Some _ =>
                             do p' <- xml_find_next_from f h (Some pi) path prev';
                             match p' with
                             | None => Ok None
                             | Some qi =>
                                 do qe <- deref h qi;
                                 do r' <- find_from f h (e_key le) seg (e_first_child qe);
                                 match r' with
                                 | Some x => Ok (Some x)
                                 | None => branches n' p'
                                 end
                             end
                         end
                     end
                 end) f (e_parent le)
          end
      end
  end.

(** xml_find_next(last, path) *)
Definition xml_find_next (fuel : nat) (h : list xml_element) (last : option nat)
    (path : option cstr) : result (option nat) :=
  xml_find_next_from fuel h last path None.

(** ** Content concatenation *)

(** xml_content_len(e), and its loop from child [c] on with the sum [s]. *)
Fixpoint xml_content_len (fuel : nat) (h : list xml_element) (e : nat) : result nat :=
  match fuel with
  | 0 => NoFuel
  | S f =>
      do el <- deref h e;
      (fix children (n : nat) (c : option nat) (s : nat) : result nat :=
         match c with
         | None => Ok s
         | Some ci =>
             match n with
             | 0 => NoFuel
             | S n' =>
                 do ce <- deref h ci;
                 match e_value ce with
                 | Some v => children n' (e_next ce) (s + length (cstring v))
                 | None =>
                     do l <- xml_content_len f h ci;
                     children n' (e_next ce) (s + l)
                 end
             end
         end) f (e_first_child el) 0
  end.

(** xml_content_cpy(e, t): [t] is what has been written to the target. *)
Fixpoint xml_content_cpy (fuel : nat) (h : list xml_element) (e : nat) (t : list ascii)
  : result (list ascii) :=
  match fuel with
  | 0 => NoFuel
  | S f =>
      do el <- deref h e;
      (fix children (n : nat) (c : option nat) (t : list ascii) : result (list ascii) :=
         match c with
         | None => Ok t
         | Some ci =>
             match n with
             | 0 => NoFuel
             | S n' =>
                 do ce <- deref h ci;
                 match e_value ce with
                 | Some v => children n' (e_next ce) (t ++ cstring v)
                 | None =>
                     do t' <- xml_content_cpy f h ci t;
                     children n' (e_next ce) t'
                 end
             end
         end) f (e_first_child el) t
  end.

(** xml_content(e): [Ok None] is the NULL result. *)
Definition xml_content (fuel : nat) (h : list xml_element) (e : option nat)
  : result (option cstr) :=
  match e with
  | None => Ok None
  | Some ei =>
      do l <- xml_content_len fuel h ei;
      if l <? 1 then Ok None
      else do s <- xml_content_cpy fuel h ei []; Ok (Some s)
  end.

(** xml_content_find(root, path) *)
Definition xml_content_find (fuel : nat) (h : list xml_element) (root : nat)
    (path : option cstr) : result (option cstr) :=
  do e <- xml_find fuel h root path;
  xml_content fuel h e.

(** * Properties *)

(** ** No function of the model runs out of fuel *)

Lemma bind_nofuel {A B : Type} (r : result A) (k : A -> result B) :
  r <> NoFuel -> (forall a, k a <> NoFuel) -> bind r k <> NoFuel.
Proof. destruct r; simpl; auto; discriminate. Qed.

Create HintDb nofuel.

Ltac nofuel_step :=
  first
    [ done
    | solve [eauto with nofuel]
    | lazymatch goal with |- _ <> _ => fail | |- _ => intro end
    | apply bind_nofuel
    | match goal with
      | |- context [let '(_, _) := ?p in _] => destruct p
      | |- context [match ?x with _ => _ end] => destruct x eqn:?
      end ].
Ltac nofuel := repeat nofuel_step.

Lemma deref_nofuel h p : deref h p <> NoFuel.
Proof. unfold deref. nofuel. Qed.
Lemma store_nofuel h p f : store h p f <> NoFuel.
Proof. unfold store. nofuel. Qed.
Lemma rd_nofuel buf i : rd buf i <> NoFuel.
Proof. unfold rd. nofuel. Qed.
Lemma wr0_nofuel buf i : wr0 buf i <> NoFuel.
Proof. unfold wr0. nofuel. Qed.
Lemma str_at_nofuel buf i : str_at buf i <> NoFuel.
Proof. unfold str_at. nofuel. Qed.
Lemma xml_string_append_nofuel d n s : xml_string_append d n s <> NoFuel.
Proof. unfold xml_string_append. nofuel. Qed.
#[global] Hint Resolve deref_nofuel store_nofuel rd_nofuel wr0_nofuel
  str_at_nofuel xml_string_append_nofuel : nofuel.

Lemma xml_element_add_nofuel h p c : xml_element_add h p c <> NoFuel.
Proof. unfold xml_element_add. nofuel. Qed.
#[global] Hint Resolve xml_element_add_nofuel : nofuel.
Lemma xml_element_create_nofuel h p : xml_element_create h p <> NoFuel.
Proof. unfold xml_element_create. nofuel. Qed.
#[global] Hint Resolve xml_element_create_nofuel : nofuel.
Lemma append_current_nofuel get set st d : append_current get set st d <> NoFuel.
Proof. unfold append_current. nofuel. Qed.
Lemma append_current_value_nofuel st d : append_current_value st d <> NoFuel.
Proof. apply append_current_nofuel. Qed.
Lemma append_current_key_nofuel st d : append_current_key st d <> NoFuel.
Proof. apply append_current_nofuel. Qed.
#[global] Hint Resolve append_current_value_nofuel append_current_key_nofuel : nofuel.
Lemma xml_value_append_nofuel st d : xml_value_append st d <> NoFuel.
Proof. unfold xml_value_append. nofuel. Qed.
Lemma xml_key_append_nofuel st d : xml_key_append st d <> NoFuel.
Proof. unfold xml_key_append. nofuel. Qed.
Lemma xml_close_element_nofuel st : xml_close_element st <> NoFuel.
Proof. unfold xml_close_element. nofuel. Qed.
Lemma xml_check_empty_nofuel st : xml_check_empty st <> NoFuel.
Proof. unfold xml_check_empty. nofuel. Qed.
#[global] Hint Resolve xml_value_append_nofuel xml_key_append_nofuel
  xml_close_element_nofuel xml_check_empty_nofuel : nofuel.

Lemma quotedspn_scan_nofuel q : forall k s n, length s <= k -> quotedspn_scan s n q <> NoFuel.
Proof.
  induction k as [|k IH]; intros s n Hk.
  - destruct s; [done|simpl in Hk; lia].
  - destruct s as [|c r]; [done|]. simpl in Hk. simpl.
    destruct (Ascii.eqb c NUL); [done|].
    destruct (Ascii.eqb c _).
    + destruct r as [|x r']; [done|]. apply IH. simpl in Hk. lia.
    + destruct (Ascii.eqb c q); [done|]. apply IH. lia.
Qed.

Lemma xml_quotedspn_nofuel s q : xml_quotedspn s q <> NoFuel.
Proof. destruct s; [done|]. simpl. by eapply quotedspn_scan_nofuel. Qed.
#[global] Hint Resolve xml_quotedspn_nofuel : nofuel.

Lemma parse_attribute_value_nofuel buf from : parse_attribute_value buf from <> NoFuel.
Proof. unfold parse_attribute_value. nofuel. Qed.
#[global] Hint Resolve parse_attribute_value_nofuel : nofuel.
Lemma parse_attribute_nofuel buf from : parse_attribute buf from <> NoFuel.
Proof. unfold parse_attribute. nofuel. Qed.
#[global] Hint Resolve parse_attribute_nofuel : nofuel.

Lemma bind_Ok {A B : Type} (r : result A) (k : A -> result B) (b : B) :
  bind r k = Ok b -> exists a, r = Ok a /\ k a = Ok b.
Proof. destruct r; simpl; try discriminate. eauto. Qed.

Ltac inv_ok :=
  repeat
    match goal with
    | H : bind _ _ = Ok _ |- _ => apply bind_Ok in H as (? & ? & H)
    | H : (let '(_, _) := ?p in _) = Ok _ |- _ => destruct p
    | H : (if ?b then _ else _) = Ok _ |- _ => destruct b eqn:?
    | H : match ?x with _ => _ end = Ok _ |- _ => destruct x eqn:?
    | H : Ok _ = Ok _ |- _ => injection H as H
    | H : Undef = Ok _ |- _ => discriminate H
    | H : Err _ = Ok _ |- _ => discriminate H
    | H : NoFuel = Ok _ |- _ => discriminate H
    end.

Lemma wr0_length buf i buf' : wr0 buf i = Ok buf' -> length buf' = length buf.
Proof.
  unfold wr0. intros H. inv_ok; subst; [apply length_insert|done].
Qed.

Lemma parse_attribute_value_gt buf from v vl from' :
  parse_attribute_value buf from = Ok (Some (v, vl, from')) -> from < from'.
Proof.
  unfold parse_attribute_value. intros H. inv_ok; simplify_eq;
    repeat case_match; lia.
Qed.

Lemma parse_attribute_next buf from buf' a from' :
  parse_attribute buf from = Ok (AttrNext buf' a from') ->
  length buf' = length buf /\ from < from'.
Proof.
  unfold parse_attribute. intros H. inv_ok; simplify_eq;
    repeat match goal with
    | H : wr0 _ _ = Ok _ |- _ => apply wr0_length in H
    | H : parse_attribute_value _ _ = Ok _ |- _ => apply parse_attribute_value_gt in H
    | H : (_ <? _) = false |- _ => apply Nat.ltb_ge in H
    end; split; try congruence; lia.
Qed.

Lemma parse_attributes_loop_nofuel fuel : forall buf attrs from,
  length buf - from < fuel -> parse_attributes_loop fuel buf attrs from <> NoFuel.
Proof.
  induction fuel as [|fuel IH]; intros buf attrs from Hf; [lia|].
  simpl. unfold rd at 1.
  destruct (buf !! from) as [c|] eqn:Hc; simpl.
  - destruct (Ascii.eqb c NUL); [done|].
    destruct (parse_attribute buf from) as [[buf' a from'|]| | |] eqn:Hp; simpl; try done.
    + apply parse_attribute_next in Hp as [Hl Hlt].
      apply lookup_lt_Some in Hc. apply IH. lia.
    + by apply parse_attribute_nofuel in Hp.
  - destruct (from =? length buf); simpl; done.
Qed.

Lemma xml_parse_attributes_nofuel h e from : xml_parse_attributes h e from <> NoFuel.
Proof.
  unfold xml_parse_attributes. apply bind_nofuel; [apply deref_nofuel|].
  intros el. destruct (e_key el) as [buf|]; [|done].
  apply bind_nofuel; [apply parse_attributes_loop_nofuel; lia|].
  intros [? ?]. apply store_nofuel.
Qed.
#[global] Hint Resolve xml_parse_attributes_nofuel : nofuel.

Lemma xml_parse_tag_name_nofuel st : xml_parse_tag_name st <> NoFuel.
Proof. unfold xml_parse_tag_name. nofuel. Qed.
#[global] Hint Resolve xml_parse_tag_name_nofuel : nofuel.

Lemma tag_body_match_nofuel st t d m : tag_body_match st t d m <> NoFuel.
Proof. unfold tag_body_match. nofuel. Qed.
#[global] Hint Resolve tag_body_match_nofuel : nofuel.

Lemma tag_body_iter_nofuel st d : tag_body_iter st d <> NoFuel.
Proof. unfold tag_body_iter. nofuel. Qed.
#[global] Hint Resolve tag_body_iter_nofuel : nofuel.

(** ** Fuel of the tag body loop *)

Lemma strchr_lt (s : cstr) (c : ascii) (m : nat) :
  strchr s c = Some m -> m < length s.
Proof.
  revert m. induction s as [|x s IH]; intros m; simpl; [discriminate|].
  destruct (Ascii.eqb x c).
  - intros [= <-]. lia.
  - destruct (strchr s c) as [k|]; simpl; [|discriminate].
    intros [= <-]. specialize (IH k eq_refl). lia.
Qed.

(** The measure that every round of the tag body loop decreases. *)
Definition body_measure (st : xml_state) (d : cstr) : nat :=
  2 * length d + (if st_cursor st =? 0 then 0 else 1).

Lemma tag_body_match_continue st t d m st' d' :
  m < length d ->
  tag_body_match st t d m = Ok (Continue st' d') ->
  length d' < length d.
Proof.
  intros Hm. unfold tag_body_match.
  intros H. apply bind_Ok in H as (st1 & _ & H).
  destruct (Ascii.eqb _ NUL).
  - apply bind_Ok in H as (? & _ & H). apply bind_Ok in H as (? & _ & H).
    apply bind_Ok in H as (? & _ & H). discriminate.
  - injection H as _ <-. rewrite length_drop. lia.
Qed.

Lemma tag_body_iter_continue st d st' d' :
  tag_body_iter st d = Ok (Continue st' d') ->
  body_measure st' d' < body_measure st d.
Proof.
  unfold tag_body_iter, body_measure.
  destruct (st_tag st) as [t|]; [|discriminate].
  destruct d as [|c d0]; [discriminate|].
  destruct (st_cursor st =? 0) eqn:Hc.
  - destruct (strchr (c :: d0) (close_at t 0)) as [m|] eqn:Hm.
    + intros H. apply tag_body_match_continue in H; [|by eapply strchr_lt].
      destruct (st_cursor st' =? 0); lia.
    + intros H. apply bind_Ok in H as (? & _ & H). discriminate.
  - destruct (Ascii.eqb (close_at t (st_cursor st)) c).
    + intros H. apply tag_body_match_continue in H; [|simpl; lia].
      destruct (st_cursor st' =? 0); lia.
    + intros H. apply bind_Ok in H as (st1 & _ & H).
      destruct (Ascii.eqb (close_at t 0) c).
      * apply tag_body_match_continue in H; [|simpl; lia].
        destruct (st_cursor st' =? 0); lia.
      * injection H as <- <-. simpl. lia.
Qed.

Lemma tag_body_loop_fuel f1 : forall f2 st d,
  body_measure st d <= f1 -> body_measure st d <= f2 ->
  tag_body_loop f1 st d = tag_body_loop f2 st d.
Proof.
  induction f1 as [|f1 IH]; intros f2 st d H1 H2.
  - destruct d; [by destruct f2|]. unfold body_measure in H1. simpl in H1. lia.
  - destruct d as [|c d]; [by destruct f2|].
    destruct f2 as [|f2]; [unfold body_measure in H2; simpl in H2; lia|].
    simpl. destruct (tag_body_iter st (c :: d)) as [[st' d'|st' d']| | |] eqn:Hi; try done.
    simpl. apply tag_body_iter_continue in Hi. apply IH; lia.
Qed.

Lemma tag_body_loop_total f : forall st d,
  body_measure st d <= f -> tag_body_loop f st d <> NoFuel.
Proof.
  induction f as [|f IH]; intros st d H.
  - destruct d; [done|]. unfold body_measure in H. simpl in H. lia.
  - destruct d as [|c d]; [done|].
    simpl. destruct (tag_body_iter st (c :: d)) as [[st' d'|st' d']| | |] eqn:Hi; try done.
    + simpl. apply tag_body_iter_continue in Hi. apply IH; lia.
    + by apply tag_body_iter_nofuel in Hi.
Qed.

(** The tag body parser, one round at a time. *)
Lemma xml_parse_tag_body_unfold st c d :
  xml_parse_tag_body st (c :: d) =
  do ctl <- tag_body_iter st (c :: d);
  match ctl with
  | Continue st' d' => xml_parse_tag_body st' d'
  | Break st' d' => Ok (st', d')
  end.
Proof.
  unfold xml_parse_tag_body at 1.
  change (tag_body_loop (S (2 * length (c :: d))) st (c :: d)) with
    (do ctl <- tag_body_iter st (c :: d);
     match ctl with
     | Continue st' d' => tag_body_loop (2 * length (c :: d)) st' d'
     | Break st' d' => Ok (st', d')
     end).
  destruct (tag_body_iter st (c :: d)) as [[st' d'|st' d']| | |] eqn:Hi; try done.
  unfold bind. apply tag_body_iter_continue in Hi.
  unfold xml_parse_tag_body. unfold body_measure in Hi.
  apply tag_body_loop_fuel; unfold body_measure; destruct (st_cursor st' =? 0);
    destruct (st_cursor st =? 0); lia.
Qed.

Lemma xml_parse_tag_body_nil st : xml_parse_tag_body st [] = Ok (st, []).
Proof. reflexivity. Qed.

Lemma xml_parse_tag_body_nofuel st d : xml_parse_tag_body st d <> NoFuel.
Proof.
  apply tag_body_loop_total. unfold body_measure.
  destruct (st_cursor st =? 0); lia.
Qed.

Lemma xml_parse_tag_opening_nofuel d : forall st, xml_parse_tag_opening st d <> NoFuel.
Proof.
  induction d as [|c d IH]; intros st; [done|].
  simpl. destruct (match_opening (st_cursor st) c) as [[t|] cur]; [apply IH|].
  nofuel.
Qed.

Lemma xml_parse_content_nofuel st d : xml_parse_content st d <> NoFuel.
Proof. unfold xml_parse_content. nofuel. Qed.

Lemma call_parser_nofuel p st d : call_parser p st d <> NoFuel.
Proof.
  destruct p; simpl;
    auto using xml_parse_content_nofuel, xml_parse_tag_opening_nofuel,
      xml_parse_tag_body_nofuel.
Qed.

(** ** What a call of a parser function consumes *)

Lemma tag_body_match_rest st t d m ctl :
  m < length d ->
  tag_body_match st t d m = Ok ctl ->
  match ctl with Continue _ d' | Break _ d' => d' = drop (S m) d end.
Proof.
  unfold tag_body_match. intros Hm H. inv_ok; by subst.
Qed.

Lemma tag_body_iter_rest st d ctl :
  tag_body_iter st d = Ok ctl ->
  d <> [] ->
  match ctl with
  | Continue _ d' => length d' <= length d
  | Break _ d' => length d' < length d
  end.
Proof.
  unfold tag_body_iter. intros H Hd.
  destruct (st_tag st) as [t|]; [|discriminate].
  destruct d as [|c d0]; [done|].
  assert (Hm : forall st0 m ctl', m < length (c :: d0) ->
            tag_body_match st0 t (c :: d0) m = Ok ctl' ->
            match ctl' with
            | Continue _ d' => length d' <= length (c :: d0)
            | Break _ d' => length d' < length (c :: d0)
            end).
  { intros st0 m ctl' Hlt Hc. apply tag_body_match_rest in Hc; [|done].
    destruct ctl'; subst; rewrite length_drop; lia. }
  destruct (st_cursor st =? 0).
  - destruct (strchr (c :: d0) (close_at t 0)) as [m|] eqn:Hs.
    + apply Hm in H; [done|by eapply strchr_lt].
    + inv_ok. subst. rewrite length_drop. simpl length. lia.
  - destruct (Ascii.eqb (close_at t (st_cursor st)) c).
    + apply Hm in H; [done|simpl; lia].
    + apply bind_Ok in H as (st1 & _ & H).
      destruct (Ascii.eqb (close_at t 0) c).
      * apply Hm in H; [done|simpl; lia].
      * injection H as <-. simpl. lia.
Qed.

Lemma tag_body_loop_rest f : forall st d st' d',
  tag_body_loop f st d = Ok (st', d') ->
  length d' <= length d /\ (d <> [] -> length d' < length d).
Proof.
  induction f as [|f IH]; intros st d st' d' H.
  - destruct d; [|discriminate]. injection H as _ <-. done.
  - destruct d as [|c d]; [injection H as _ <-; done|].
    simpl in H. apply bind_Ok in H as (ctl & Hi & H).
    apply tag_body_iter_rest in Hi; [|done].
    destruct ctl as [s2 d2|s2 d2].
    + apply IH in H as [H1 H2]. split; [lia|]. intros _.
      destruct d2 as [|c2 d2]; [simpl in *; lia|].
      specialize (H2 ltac:(done)). lia.
    + injection H as _ <-. split; [lia|done].
Qed.

Lemma xml_parse_tag_opening_rest d : forall st st' d',
  xml_parse_tag_opening st d = Ok (st', d') ->
  length d' <= length d /\ (d' = [] \/ st_parser st' = Some parse_tag_body).
Proof.
  induction d as [|c d IH]; intros st st' d' H.
  - injection H as _ <-. auto.
  - simpl in H. destruct (match_opening (st_cursor st) c) as [[t|] cur].
    + apply IH in H as [H1 H2]. simpl. split; [lia|done].
    + inv_ok; simplify_eq; (split; [done|right]);
        repeat match goal with
        | H : xml_close_element _ = Ok _ |- _ =>
            unfold xml_close_element in H; inv_ok; subst
        end; done.
Qed.

Lemma xml_parse_content_rest st d st' d' :
  xml_parse_content st d = Ok (st', d') ->
  d <> [] ->
  length d' < length d \/
  (length d' = length d /\ st_parser st' = Some parse_tag_opening).
Proof.
  unfold xml_parse_content. intros H Hd.
  destruct (strcspn d (cs "<")) as [|n] eqn:Hn;
    apply bind_Ok in H as (st1 & _ & H); injection H as <- <-.
  - right. rewrite drop_0. split; [done|].
    destruct d as [|c d]; [done|]. simpl in Hn.
    unfold chr_in in Hn. simpl in Hn. rewrite orb_false_r in Hn.
    destruct (Ascii.eqb c "<"); [done|discriminate].
  - left. rewrite length_drop. destruct d; [done|simpl; lia].
Qed.

(** ** Fuel of the chunk loop *)

Definition parser_weight (st : xml_state) : nat :=
  match st_parser st with
  | Some parse_content => 2
  | Some parse_tag_opening => 1
  | _ => 0
  end.

(** The measure that every round of the chunk loop decreases. *)
Definition chunk_measure (st : xml_state) (d : cstr) : nat :=
  3 * length d + parser_weight st.

Lemma parser_weight_le st : parser_weight st <= 2.
Proof. unfold parser_weight. repeat case_match; lia. Qed.

Lemma call_parser_measure p st d st' d' :
  st_parser st = Some p -> d <> [] ->
  call_parser p st d = Ok (st', d') ->
  chunk_measure st' d' < chunk_measure st d.
Proof.
  intros Hp Hd H. unfold chunk_measure.
  pose proof (parser_weight_le st') as Hw.
  unfold parser_weight at 2. rewrite Hp.
  destruct p; simpl in H.
  - apply xml_parse_content_rest in H as [H|[H1 H2]]; [lia| |done].
    unfold parser_weight. rewrite H2. lia.
  - apply xml_parse_tag_opening_rest in H as [H1 [->|H2]].
    + destruct d; [done|]. simpl in *. lia.
    + unfold parser_weight. rewrite H2. lia.
  - apply tag_body_loop_rest in H as [_ H]. specialize (H Hd). lia.
Qed.

Lemma parse_loop_fuel f1 : forall f2 st d,
  chunk_measure st d <= f1 -> chunk_measure st d <= f2 ->
  parse_loop f1 st d = parse_loop f2 st d.
Proof.
  induction f1 as [|f1 IH]; intros f2 st d H1 H2.
  - destruct d; [by destruct f2|]. unfold chunk_measure in H1. simpl in H1. lia.
  - destruct d as [|c d]; [by destruct f2|].
    destruct f2 as [|f2]; [unfold chunk_measure in H2; simpl in H2; lia|].
    simpl. destruct (st_parser st) as [p|] eqn:Hp; [|done].
    destruct (call_parser p st (c :: d)) as [[st' d']| | |] eqn:Hc; try done.
    simpl. apply call_parser_measure in Hc; [|done..]. apply IH; lia.
Qed.

Lemma parse_loop_nofuel f : forall st d,
  chunk_measure st d <= f -> parse_loop f st d <> NoFuel.
Proof.
  induction f as [|f IH]; intros st d H.
  - destruct d; [done|]. unfold chunk_measure in H. simpl in H. lia.
  - destruct d as [|c d]; [done|].
    simpl. destruct (st_parser st) as [p|] eqn:Hp; [|done].
    destruct (call_parser p st (c :: d)) as [[st' d']| | |] eqn:Hc; try done.
    + simpl. apply call_parser_measure in Hc; [|done..]. apply IH; lia.
    + by apply call_parser_nofuel in Hc.
Qed.

(** The chunk loop with the fuel of xml_parse_chunk. *)
Definition run (st : xml_state) (d : cstr) : result xml_state :=
  parse_loop (3 * length d + 3) st d.

Lemma run_nil st : run st [] = Ok st.
Proof. reflexivity. Qed.

Lemma run_cons st c d :
  run st (c :: d) =
  match st_parser st with
  | None => Undef
  | Some p => do2 st', d' <- call_parser p st (c :: d); run st' d'
  end.
Proof.
  pose proof (parser_weight_le st) as Hw.
  unfold run at 1.
  rewrite (parse_loop_fuel _ (S (3 * length d + 5)))
    by (unfold chunk_measure; simpl length; lia).
  cbn [parse_loop].
  destruct (st_parser st) as [p|] eqn:Hp; [|done].
  destruct (call_parser p st (c :: d)) as [[st' d']| | |] eqn:Hc; try done.
  unfold bind. apply call_parser_measure in Hc; [|done..].
  pose proof (parser_weight_le st). pose proof (parser_weight_le st').
  unfold run. unfold chunk_measure in Hc. simpl length in Hc.
  apply parse_loop_fuel; unfold chunk_measure; lia.
Qed.

Lemma run_nofuel st d : run st d <> NoFuel.
Proof.
  apply parse_loop_nofuel. unfold chunk_measure.
  pose proof (parser_weight_le st). lia.
Qed.

Lemma xml_parse_chunk_run st d : xml_parse_chunk st (Some d) = run (chunk_init st) d.
Proof. reflexivity. Qed.

(** ** Appending in pieces *)

(** The string under construction is as long as st->length says. *)
Definition buffer_ok (get : xml_element -> option (list ascii)) (st : xml_state) : Prop :=
  st_length st <> 0 ->
  exists c e s, st_current st = Some c /\ st_heap st !! c = Some e /\
    get e = Some s /\ length s = st_length st.

(** What xml_string_append writes behind, by st->length. *)
Definition cur_buf (get : xml_element -> option (list ascii)) (st : xml_state)
    (e : xml_element) : list ascii :=
  if st_length st =? 0 then [] else default [] (get e).

Lemma with_heap_length_id st :
  with_length (st_length st) (with_heap (st_heap st) st) = st.
Proof. by destruct st. Qed.

(** The fields of the state that appending leaves alone. *)
Definition same_ctl (st s : xml_state) : Prop :=
  st_current s = st_current st /\ st_tag s = st_tag st /\
  st_parser s = st_parser st /\ st_cursor s = st_cursor st /\
  st_empty s = st_empty st /\ st_root s = st_root st.

Lemma same_ctl_refl st : same_ctl st st.
Proof. by repeat split. Qed.

Lemma same_ctl_trans a b c : same_ctl a b -> same_ctl b c -> same_ctl a c.
Proof. unfold same_ctl. intros (?&?&?&?&?&?) (?&?&?&?&?&?). repeat split; congruence. Qed.

Section append_current.
Variable get : xml_element -> option (list ascii).
Variable set : option (list ascii) -> xml_element -> xml_element.
Hypothesis get_set : forall v e, get (set v e) = v.
Hypothesis set_get : forall e, set (get e) e = e.
Hypothesis set_set : forall v w e, set v (set w e) = set v e.

Lemma append_current_cons st c e x d :
  buffer_ok get st ->
  st_current st = Some c -> st_heap st !! c = Some e ->
  append_current get set st (x :: d) =
  Ok (with_length (st_length st + length (x :: d))
        (with_heap (<[c := set (Some (cur_buf get st e ++ x :: d)) e]> (st_heap st)) st)).
Proof.
  intros Hb Hc He. unfold append_current, deref, store, cur_buf.
  rewrite Hc, He. cbn [bind]. unfold xml_string_append.
  change (length (x :: d) <? 1) with false. cbv iota.
  destruct (st_length st =? 0) eqn:Hl.
  - apply Nat.eqb_eq in Hl. rewrite Hl.
    destruct (get e) as [s|]; cbn; [|done]. by rewrite take_0.
  - apply Nat.eqb_neq in Hl. destruct (Hb Hl) as (c' & e' & s & Hc' & He' & Hs & Hlen).
    simplify_eq. rewrite Hs. cbn [default].
    rewrite <- Hlen, Nat.leb_refl. cbn. by rewrite take_ge.
Qed.

Lemma append_current_nil st c e s :
  st_current st = Some c -> st_heap st !! c = Some e -> get e = Some s ->
  append_current get set st [] = Ok st.
Proof.
  intros Hc He Hs. unfold append_current, deref, store.
  rewrite Hc, He. cbn. rewrite Hs. cbn.
  rewrite <- Hs, set_get, list_insert_id by done.
  by rewrite with_heap_length_id.
Qed.

Lemma append_current_undef st c d :
  st_current st = Some c -> st_heap st !! c = None ->
  append_current get set st d = Undef.
Proof.
  intros Hc He. unfold append_current, deref. by rewrite Hc, He.
Qed.

(** Appending [x ++ z] is appending [x] and then [z]. *)
Lemma append_current_app st x z :
  buffer_ok get st -> x <> [] ->
  append_current get set st (x ++ z) =
  do s <- append_current get set st x; append_current get set s z.
Proof.
  intros Hb Hx. destruct x as [|a x]; [done|].
  destruct (st_current st) as [c|] eqn:Hc; [|unfold append_current; by rewrite Hc].
  destruct (st_heap st !! c) as [e|] eqn:He;
    [|by rewrite !(append_current_undef st c)].
  rewrite <- app_comm_cons.
  rewrite (append_current_cons st c e a (x ++ z)), (append_current_cons st c e a x) by done.
  cbn [bind].
  set (st1 := with_length _ (with_heap (<[c:=set (Some (cur_buf get st e ++ a :: x)) e]> _) st)).
  assert (Hlt : c < length (st_heap st)) by by eapply lookup_lt_Some.
  assert (He1 : st_heap st1 !! c = Some (set (Some (cur_buf get st e ++ a :: x)) e))
    by (by apply list_lookup_insert_eq).
  assert (Hb1 : buffer_ok get st1).
  { intros _. exists c, (set (Some (cur_buf get st e ++ a :: x)) e), (cur_buf get st e ++ a :: x).
    split_and!; [done|done|apply get_set|].
    unfold st1. cbn. rewrite length_app. cbn. unfold cur_buf.
    destruct (st_length st =? 0) eqn:Hl.
    - apply Nat.eqb_eq in Hl. rewrite Hl. done.
    - apply Nat.eqb_neq in Hl. destruct (Hb Hl) as (c' & e' & s & Hc' & He' & Hs & Hlen).
      simplify_eq. rewrite Hs. cbn. lia. }
  destruct z as [|b z].
  - rewrite (append_current_nil st1 c _ _ Hc He1 (get_set _ _)).
    by rewrite app_nil_r.
  - rewrite (append_current_cons st1 c _ b z Hb1 Hc He1).
    unfold st1. cbn. rewrite list_insert_insert_eq, set_set.
    unfold cur_buf at 2. cbn. rewrite get_set. cbn.
    replace (st_length st + S (length x) =? 0) with false
      by (symmetry; apply Nat.eqb_neq; lia).
    rewrite length_app. cbn. rewrite <- app_assoc. cbn.
    f_equal. unfold with_length, with_heap. cbn. f_equal. lia.
Qed.

Lemma append_current_ok st d s :
  buffer_ok get st ->
  append_current get set st d = Ok s ->
  same_ctl st s /\ buffer_ok get s /\ (d <> [] -> st_length s <> 0).
Proof.
  intros Hb H.
  destruct (st_current st) as [c|] eqn:Hc; [|unfold append_current in H; by rewrite Hc in H].
  destruct (st_heap st !! c) as [e|] eqn:He;
    [|by rewrite (append_current_undef st c) in H].
  destruct d as [|a x].
  - destruct (get e) as [b|] eqn:Hg.
    + rewrite (append_current_nil st c e b) in H by done.
      injection H as <-. split_and!; [apply same_ctl_refl|done|done].
    + unfold append_current, deref, store in H.
      repeat (rewrite ?Hc, ?He, ?Hg in H; cbn in H). discriminate.
  - rewrite (append_current_cons st c e a x) in H by done.
    injection H as <-. split_and!; [by repeat split| |cbn; lia].
    intros _. exists c, (set (Some (cur_buf get st e ++ a :: x)) e), (cur_buf get st e ++ a :: x).
    split_and!; [done|apply list_lookup_insert_eq; by eapply lookup_lt_Some|apply get_set|].
    cbn. rewrite length_app. cbn. unfold cur_buf.
    destruct (st_length st =? 0) eqn:Hl.
    + apply Nat.eqb_eq in Hl. rewrite Hl. done.
    + apply Nat.eqb_neq in Hl. destruct (Hb Hl) as (c' & e' & s & Hc' & He' & Hs & Hlen).
      simplify_eq. rewrite Hs. cbn. lia.
Qed.
End append_current.

Lemma get_set_key v e : e_key (set_key v e) = v.
Proof. done. Qed.
Lemma set_get_key e : set_key (e_key e) e = e.
Proof. by destruct e. Qed.
Lemma set_set_key v w e : set_key v (set_key w e) = set_key v e.
Proof. done. Qed.
Lemma get_set_value v e : e_value (set_value v e) = v.
Proof. done. Qed.
Lemma set_get_value e : set_value (e_value e) e = e.
Proof. by destruct e. Qed.
Lemma set_set_value v w e : set_value v (set_value w e) = set_value v e.
Proof. done. Qed.

Lemma append_current_key_app st x z :
  buffer_ok e_key st -> x <> [] ->
  append_current_key st (x ++ z) =
  do s <- append_current_key st x; append_current_key s z.
Proof.
  apply (append_current_app e_key set_key get_set_key set_get_key set_set_key).
Qed.

Lemma append_current_key_ok st d s :
  buffer_ok e_key st -> append_current_key st d = Ok s ->
  same_ctl st s /\ buffer_ok e_key s /\ (d <> [] -> st_length s <> 0).
Proof. apply (append_current_ok e_key set_key get_set_key set_get_key). Qed.

Lemma append_current_value_app st x z :
  buffer_ok e_value st -> x <> [] ->
  append_current_value st (x ++ z) =
  do s <- append_current_value st x; append_current_value s z.
Proof.
  apply (append_current_app e_value set_value get_set_value set_get_value set_set_value).
Qed.

Lemma append_current_value_ok st d s :
  buffer_ok e_value st -> append_current_value st d = Ok s ->
  same_ctl st s /\ buffer_ok e_value s /\ (d <> [] -> st_length s <> 0).
Proof. apply (append_current_ok e_value set_value get_set_value set_get_value). Qed.


(** The active tag pattern is an entry of the table. *)
Definition tag_ok (st : xml_state) : Prop :=
  forall t, st_tag st = Some t -> t ∈ xml_tag_patterns.

Ltac table_cases H :=
  unfold xml_tag_patterns in H;
  repeat (apply elem_of_cons in H as [->|H]);
  [ .. | by apply elem_of_nil in H ].

Lemma opener_rest_nonempty t :
  t ∈ xml_tag_patterns -> (1 <? open_len t) = true ->
  take (open_len t - 1) (drop 1 (open t)) <> [].
Proof. intros H. table_cases H; done. Qed.

Lemma tag_ok_same st s : same_ctl st s -> tag_ok st -> tag_ok s.
Proof. intros (_ & Ht & _) H t. rewrite Ht. apply H. Qed.

(** The first step of xml_key_append: the rest of the opening pattern. *)
Definition key_opener (st : xml_state) (t : xml_tag_pattern) : result xml_state :=
  if (st_length st =? 0) && (1 <? open_len t)
  then append_current_key st (take (open_len t - 1) (drop 1 (open t)))
  else Ok st.

Lemma key_opener_ok st t s :
  buffer_ok e_key st -> t ∈ xml_tag_patterns ->
  key_opener st t = Ok s ->
  same_ctl st s /\ buffer_ok e_key s /\
  ((st_length s =? 0) && (1 <? open_len t) = false).
Proof.
  unfold key_opener. intros Hb Ht H.
  destruct ((st_length st =? 0) && (1 <? open_len t)) eqn:Hc.
  - apply andb_prop in Hc as [_ Hc].
    apply append_current_key_ok in H as (H1 & H2 & H3); [|done].
    split_and!; [done..|].
    specialize (H3 (opener_rest_nonempty t Ht Hc)).
    apply Nat.eqb_neq in H3. by rewrite H3.
  - injection H as <-. split_and!; [apply same_ctl_refl|done..].
Qed.

Lemma xml_key_append_eq st d :
  xml_key_append st d =
  match st_current st with
  | None => Err st
  | Some _ =>
      match st_tag st with
      | None => Undef
      | Some t =>
          if type t =? TAG_ELEMENT_CLOSE then Ok st
          else do st1 <- key_opener st t; append_current_key st1 d
      end
  end.
Proof. reflexivity. Qed.

Lemma xml_key_append_ok st d s :
  buffer_ok e_key st -> tag_ok st ->
  xml_key_append st d = Ok s ->
  same_ctl st s /\ buffer_ok e_key s.
Proof.
  intros Hb Ht. rewrite xml_key_append_eq.
  destruct (st_current st) as [c|]; [|done].
  destruct (st_tag st) as [t|] eqn:Htag; [|done].
  destruct (type t =? TAG_ELEMENT_CLOSE).
  - intros [= <-]. split; [apply same_ctl_refl|done].
  - intros H. apply bind_Ok in H as (st1 & H1 & H).
    apply key_opener_ok in H1 as (Hs1 & Hb1 & _); [|by auto..].
    apply append_current_key_ok in H as (Hs & Hb2 & _); [|done].
    split; [by eapply same_ctl_trans|done].
Qed.

(** Appending [x ++ z] to the key is appending [x] and then [z]. *)
Lemma xml_key_append_app st x z :
  buffer_ok e_key st -> tag_ok st -> x <> [] ->
  xml_key_append st (x ++ z) =
  do s <- xml_key_append st x; xml_key_append s z.
Proof.
  intros Hb Ht Hx. rewrite !(xml_key_append_eq st).
  destruct (st_current st) as [c|] eqn:Hc; [|done].
  destruct (st_tag st) as [t|] eqn:Htag; [|done].
  destruct (type t =? TAG_ELEMENT_CLOSE) eqn:Hty.
  - cbn [bind]. rewrite xml_key_append_eq, Hc, Htag, Hty. done.
  - destruct (key_opener st t) as [st1| | |] eqn:Ho; try done.
    cbn [bind].
    apply key_opener_ok in Ho as ((Hc1 & Ht1 & _) & Hb1 & Hl1); [|by auto..].
    rewrite append_current_key_app by done.
    destruct (append_current_key st1 x) as [s| | |] eqn:Ha; try done.
    cbn [bind].
    apply append_current_key_ok in Ha as ((Hc2 & Ht2 & _) & Hb2 & Hl2); [|done].
    rewrite xml_key_append_eq, Hc2, Hc1, Hc, Ht2, Ht1, Htag, Hty.
    unfold key_opener. specialize (Hl2 Hx). apply Nat.eqb_neq in Hl2.
    by rewrite Hl2.
Qed.

(** ** The tag body parser on a chunk and its continuation *)

Definition rmap {A B : Type} (f : A -> B) (r : result A) : result B :=
  do a <- r; Ok (f a).

Definition ctl_app (y : cstr) (ctl : loop_ctl) : loop_ctl :=
  match ctl with
  | Continue s d => Continue s (d ++ y)
  | Break s d => Break s (d ++ y)
  end.

Lemma strchr_app_Some x y c m :
  strchr x c = Some m -> strchr (x ++ y) c = Some m.
Proof.
  revert m. induction x as [|a x IH]; intros m; [done|]. simpl.
  destruct (Ascii.eqb a c); [done|].
  destruct (strchr x c) as [k|]; [|done]. intros [= <-].
  by rewrite (IH k).
Qed.

Lemma strchr_app_None x y c :
  strchr x c = None ->
  strchr (x ++ y) c = option_map (fun m => length x + m) (strchr y c).
Proof.
  induction x as [|a x IH]; [intros _; simpl; by destruct (strchr y c)|].
  simpl. destruct (Ascii.eqb a c); [done|].
  destruct (strchr x c) as [k|]; [done|]. intros _.
  rewrite IH by done. by destruct (strchr y c).
Qed.

Lemma tag_body_match_app st t d y m :
  m < length d ->
  tag_body_match st t (d ++ y) m = rmap (ctl_app y) (tag_body_match st t d m).
Proof.
  intros Hm. unfold tag_body_match.
  rewrite take_app_le by lia. rewrite drop_app_le by lia.
  destruct (if st_cursor st =? 0 then xml_key_append st (take m d) else Ok st)
    as [st1| | |]; try done.
  cbn [bind rmap].
  destruct (Ascii.eqb _ NUL); [|done].
  destruct (if 1 <? _ then _ else _) as [st3| | |]; try done. cbn [bind].
  destruct (if type t =? _ then _ else _) as [st4| | |]; try done. cbn [bind].
  destruct (if negb _ || _ then _ else _) as [st5| | |]; try done.
Qed.

(** A round of the loop that does not run into the end of the chunk
    does the same when more input follows. *)
Lemma tag_body_iter_app st t c x y :
  st_tag st = Some t ->
  st_cursor st <> 0 \/ strchr (c :: x) (close_at t 0) <> None ->
  tag_body_iter st (c :: x ++ y) = rmap (ctl_app y) (tag_body_iter st (c :: x)).
Proof.
  intros Ht Hc. unfold tag_body_iter. rewrite Ht.
  destruct (st_cursor st =? 0) eqn:Hcur.
  - apply Nat.eqb_eq in Hcur. destruct Hc as [Hc|Hc]; [done|].
    destruct (strchr (c :: x) (close_at t 0)) as [m|] eqn:Hs; [|done].
    rewrite (app_comm_cons x y c), (strchr_app_Some _ _ _ _ Hs).
    apply tag_body_match_app. by eapply strchr_lt.
  - destruct (Ascii.eqb (close_at t (st_cursor st)) c).
    + apply (tag_body_match_app st t (c :: x) y 0). simpl. lia.
    + destruct (xml_key_append st _) as [st1| | |]; try done. cbn [bind rmap].
      destruct (Ascii.eqb (close_at t 0) c); [|done].
      apply (tag_body_match_app _ t (c :: x) y 0). simpl. lia.
Qed.

(** What holds of the state while a tag body is parsed. *)
Definition body_inv (st : xml_state) : Prop :=
  st_parser st = Some parse_tag_body /\ buffer_ok e_key st /\ tag_ok st.

Lemma body_inv_key_append st d s :
  body_inv st -> xml_key_append st d = Ok s -> body_inv s /\ same_ctl st s.
Proof.
  intros (Hp & Hb & Ht) H. apply xml_key_append_ok in H as [Hs Hb']; [|done..].
  split; [|done]. split_and!; [|done|by eapply tag_ok_same].
  destruct Hs as (_ & _ & -> & _). done.
Qed.

Lemma body_inv_with_cursor n st : body_inv st -> body_inv (with_cursor n st).
Proof. done. Qed.

Lemma tag_body_match_inv st t d m s d' :
  body_inv st -> tag_body_match st t d m = Ok (Continue s d') -> body_inv s.
Proof.
  intros Hi H. unfold tag_body_match in H.
  apply bind_Ok in H as (st1 & H1 & H).
  assert (body_inv st1) as Hi1.
  { destruct (st_cursor st =? 0); [by apply body_inv_key_append in H1 as [? _]|].
    by injection H1 as <-. }
  destruct (Ascii.eqb _ NUL).
  - inv_ok; discriminate.
  - injection H as <- _. by apply body_inv_with_cursor.
Qed.

Lemma tag_body_iter_inv st d s d' :
  body_inv st -> tag_body_iter st d = Ok (Continue s d') -> body_inv s.
Proof.
  intros Hi H. unfold tag_body_iter in H.
  destruct (st_tag st) as [t|]; [|done]. destruct d as [|c d]; [done|].
  destruct (st_cursor st =? 0).
  - destruct (strchr _ _); [by eapply tag_body_match_inv|].
    inv_ok; discriminate.
  - destruct (Ascii.eqb _ c); [by eapply tag_body_match_inv|].
    apply bind_Ok in H as (st1 & H1 & H).
    apply body_inv_key_append in H1 as [Hi1 _]; [|done].
    destruct (Ascii.eqb _ c).
    + eapply tag_body_match_inv; [|done]. by apply body_inv_with_cursor.
    + injection H as <- _. by apply body_inv_with_cursor.
Qed.

(** A match of the first character of the closing pattern behind data
    that an earlier chunk brought. *)
Lemma tag_body_match_shift st t x y m :
  st_cursor st = 0 -> body_inv st -> x <> [] ->
  tag_body_match st t (x ++ y) (length x + m) =
  do s1 <- xml_key_append st x; tag_body_match s1 t y m.
Proof.
  intros Hcur (Hp & Hb & Ht) Hx. unfold tag_body_match at 1.
  rewrite Hcur. cbn [Nat.eqb].
  rewrite take_app_add.
  replace (S (length x + m)) with (length x + S m) by lia.
  rewrite drop_app_add.
  rewrite xml_key_append_app by done.
  destruct (xml_key_append st x) as [s1| | |] eqn:Hk; try done.
  cbn [bind]. unfold tag_body_match.
  apply xml_key_append_ok in Hk as [(_ & _ & _ & Hc & _) _]; [|done..].
  rewrite Hc, Hcur. done.
Qed.

(** Parsing the tag body of [x ++ y] and going on is parsing that of
    [x] and going on with what it left and [y]. *)
Lemma tag_body_app_nil y st :
  st_parser st = Some parse_tag_body ->
  (do2 s, d <- xml_parse_tag_body st y; run s d) = run st y.
Proof.
  intros Hp. destruct y as [|c y]; [done|].
  by rewrite run_cons, Hp.
Qed.

Lemma tag_body_app_cons c0 y0 n : forall st x,
  body_measure st x <= n -> body_inv st ->
  (do2 s, d <- xml_parse_tag_body st (x ++ c0 :: y0); run s d) =
  (do2 s1, x1 <- xml_parse_tag_body st x; run s1 (x1 ++ c0 :: y0)).
Proof.
  set (y := c0 :: y0).
  induction n as [|n IH]; intros st x Hn Hi.
  - destruct x as [|c x]; [|unfold body_measure in Hn; simpl in Hn; lia].
    apply tag_body_app_nil, Hi.
  - destruct x as [|c x]; [apply tag_body_app_nil, Hi|].
    rewrite <- app_comm_cons. rewrite !xml_parse_tag_body_unfold.
    destruct (st_tag st) as [t|] eqn:Ht;
      [|unfold tag_body_iter; by rewrite Ht].
    destruct (Nat.eq_dec (st_cursor st) 0) as [Hc|Hc];
      [destruct (strchr (c :: x) (close_at t 0)) as [m|] eqn:Hs|].
    + rewrite (tag_body_iter_app st t) by (done || right; by rewrite Hs).
      destruct (tag_body_iter st (c :: x)) as [[s d|s d]| | |] eqn:Hit; try done.
      cbn [rmap bind ctl_app].
      apply IH; [|by eapply tag_body_iter_inv].
      apply tag_body_iter_continue in Hit. lia.
    + (* the chunk ends inside the data of the tag *)
      unfold tag_body_iter at 2. rewrite Ht.
      apply Nat.eqb_eq in Hc as Hc'. rewrite Hc', Hs.
      unfold tag_body_iter. rewrite Ht, Hc'.
      rewrite (app_comm_cons x y c), (strchr_app_None _ _ _ Hs).
      destruct (strchr y (close_at t 0)) as [m|] eqn:Hy; cbn [option_map].
      * rewrite tag_body_match_shift by done.
        destruct (xml_key_append st (c :: x)) as [s1| | |] eqn:Hk; try done.
        cbn [bind]. rewrite drop_all. cbn [app].
        apply body_inv_key_append in Hk as [Hi1 (_ & Ht1 & Hp1 & Hc1 & _)]; [|done].
        unfold y at 2. rewrite run_cons, Hp1. destruct Hi as (-> & _).
        cbn [call_parser]. rewrite xml_parse_tag_body_unfold. unfold tag_body_iter.
        fold y. rewrite Ht1, Ht, Hc1, Hc', Hy. done.
      * rewrite xml_key_append_app by (done || apply Hi).
        destruct (xml_key_append st (c :: x)) as [s1| | |] eqn:Hk; try done.
        cbn [bind]. rewrite !drop_all. cbn [app].
        apply body_inv_key_append in Hk as [Hi1 (_ & Ht1 & Hp1 & Hc1 & _)]; [|done].
        unfold y at 2. rewrite run_cons, Hp1. destruct Hi as (-> & _).
        cbn [call_parser]. rewrite xml_parse_tag_body_unfold. unfold tag_body_iter.
        fold y. rewrite Ht1, Ht, Hc1, Hc', Hy. rewrite drop_all. done.
    + rewrite (tag_body_iter_app st t) by (done || by left).
      destruct (tag_body_iter st (c :: x)) as [[s d|s d]| | |] eqn:Hit; try done.
      cbn [rmap bind ctl_app].
      apply IH; [|by eapply tag_body_iter_inv].
      apply tag_body_iter_continue in Hit. lia.
Qed.

Lemma bind_ext {A B : Type} (r : result A) (k k' : A -> result B) :
  (forall a, k a = k' a) -> bind r k = bind r k'.
Proof. intros H. destruct r; simpl; auto. Qed.

Lemma tag_body_app y st x :
  body_inv st ->
  (do2 s, d <- xml_parse_tag_body st (x ++ y); run s d) =
  (do2 s1, x1 <- xml_parse_tag_body st x; run s1 (x1 ++ y)).
Proof.
  intros Hi. destruct y as [|c0 y0].
  - rewrite app_nil_r. apply bind_ext. intros [s d]. by rewrite app_nil_r.
  - by eapply tag_body_app_cons.
Qed.

(** ** The other two parser functions on a chunk and its continuation *)

Lemma tag_opening_app y : forall x st,
  st_parser st = Some parse_tag_opening ->
  (do2 s, d <- xml_parse_tag_opening st (x ++ y); run s d) =
  (do2 s1, x1 <- xml_parse_tag_opening st x; run s1 (x1 ++ y)).
Proof.
  induction x as [|c x IH]; intros st Hp.
  - cbn [app xml_parse_tag_opening bind].
    destruct y as [|c y]; [done|]. by rewrite run_cons, Hp.
  - rewrite <- app_comm_cons. cbn [xml_parse_tag_opening].
    destruct (match_opening (st_cursor st) c) as [[t|] cur]; [by apply IH|].
    destruct (st_tag (with_cursor cur st)) as [t|]; [|done].
    destruct (if 0 <? _ then _ else _) as [st1| | |]; try done. cbn [bind].
    destruct (if negb _ then _ else _) as [st3| | |]; try done.
Qed.

Lemma strcspn_le s r : strcspn s r <= length s.
Proof. induction s as [|c s IH]; simpl; [lia|]. destruct (chr_in c r); simpl; lia. Qed.

Lemma strcspn_app_lt x y r :
  strcspn x r < length x -> strcspn (x ++ y) r = strcspn x r.
Proof.
  induction x as [|c x IH]; simpl; [lia|].
  destruct (chr_in c r); [done|]. intros H. rewrite IH; [done|lia].
Qed.

Lemma strcspn_app_all x y r :
  strcspn x r = length x -> strcspn (x ++ y) r = length x + strcspn y r.
Proof.
  induction x as [|c x IH]; simpl; [done|].
  destruct (chr_in c r); [done|]. intros [= H]. by rewrite IH.
Qed.

(** The first step of xml_value_append: the element for a new text. *)
Definition value_element (st : xml_state) : result xml_state :=
  if st_length st =? 0 then
    do2 h, e <- xml_element_create (st_heap st) (st_current st);
    Ok (with_current (Some e) (with_heap h st))
  else Ok st.

Lemma xml_value_append_eq st d :
  xml_value_append st d = do st1 <- value_element st; append_current_value st1 d.
Proof. reflexivity. Qed.

Lemma value_element_ok st s :
  buffer_ok e_value st -> value_element st = Ok s ->
  buffer_ok e_value s /\ st_length s = st_length st /\
  st_tag s = st_tag st /\ st_parser s = st_parser st.
Proof.
  unfold value_element. intros Hb H.
  destruct (st_length st =? 0) eqn:Hl.
  - apply bind_Ok in H as ([h e] & _ & H). injection H as <-.
    apply Nat.eqb_eq in Hl. split_and!; [|done..].
    intros Hn. by cbn in Hn.
  - by injection H as <-.
Qed.

Lemma xml_value_append_ok st d s :
  buffer_ok e_value st -> xml_value_append st d = Ok s ->
  buffer_ok e_value s /\ st_tag s = st_tag st /\ st_parser s = st_parser st /\
  (d <> [] -> st_length s <> 0).
Proof.
  intros Hb H. rewrite xml_value_append_eq in H.
  apply bind_Ok in H as (st1 & H1 & H).
  apply value_element_ok in H1 as (Hb1 & _ & Ht & Hp); [|done].
  apply append_current_value_ok in H as ((_ & Ht' & Hp' & _) & Hb' & Hl); [|done].
  split_and!; [done|congruence|congruence|done].
Qed.

Lemma xml_value_append_app st x z :
  buffer_ok e_value st -> x <> [] ->
  xml_value_append st (x ++ z) =
  do s <- xml_value_append st x;
  if 0 <? length z then xml_value_append s z else Ok s.
Proof.
  intros Hb Hx. rewrite !(xml_value_append_eq st).
  destruct (value_element st) as [st1| | |] eqn:H1; try done. cbn [bind].
  apply value_element_ok in H1 as (Hb1 & _); [|done].
  destruct z as [|b z].
  - rewrite app_nil_r. by destruct (append_current_value st1 x).
  - rewrite append_current_value_app by done.
    destruct (append_current_value st1 x) as [s| | |] eqn:Ha; try done.
    cbn [bind length Nat.ltb Nat.leb].
    apply append_current_value_ok in Ha as (_ & _ & Hl); [|done].
    rewrite xml_value_append_eq. unfold value_element.
    specialize (Hl Hx). apply Nat.eqb_neq in Hl. by rewrite Hl.
Qed.

Lemma content_app y st x :
  st_parser st = Some parse_content -> buffer_ok e_value st -> x <> [] ->
  (do2 s, d <- xml_parse_content st (x ++ y); run s d) =
  (do2 s1, x1 <- xml_parse_content st x; run s1 (x1 ++ y)).
Proof.
  intros Hp Hb Hx. unfold xml_parse_content.
  pose proof (strcspn_le x (cs "<")) as Hle.
  destruct (decide (strcspn x (cs "<") < length x)) as [Hlt|Hge].
  - rewrite strcspn_app_lt by done.
    rewrite take_app_le, drop_app_le by lia.
    destruct (if 0 <? _ then _ else _) as [st1| | |]; try done. cbn [bind].
    destruct (drop (strcspn x (cs "<")) x) as [|a r] eqn:Hd; [|done].
    apply (f_equal length) in Hd. rewrite length_drop in Hd. cbn [length] in Hd. lia.
  - assert (Hall : strcspn x (cs "<") = length x) by lia.
    rewrite strcspn_app_all, Hall by done.
    rewrite take_app_add, drop_app_add, firstn_all, drop_all.
    destruct x as [|a x]; [done|].
    replace (0 <? length (a :: x) + strcspn y (cs "<")) with true
      by (symmetry; apply Nat.ltb_lt; simpl; lia).
    change (0 <? length (a :: x)) with true. cbv iota.
    rewrite xml_value_append_app by done.
    destruct (xml_value_append st (a :: x)) as [st1| | |] eqn:Hv; try done.
    cbn [bind app].
    apply xml_value_append_ok in Hv as (_ & _ & Hp1 & _); [|done].
    destruct y as [|b y]; [done|].
    rewrite run_cons, Hp1, Hp. cbn [call_parser]. unfold xml_parse_content.
    rewrite length_take.
    destruct (strcspn (b :: y) (cs "<")) as [|k] eqn:Hk; [done|].
    replace (0 <? S k `min` length (b :: y)) with true; [done|].
    symmetry. apply Nat.ltb_lt. simpl. lia.
Qed.

(** ** The invariant of the parser state *)

(** The active tag pattern comes from the table and the string under
    construction, the value in content mode and the key in tag body mode,
    is as long as st->length says. *)
Definition wf (st : xml_state) : Prop :=
  tag_ok st /\
  match st_parser st with
  | Some parse_content => buffer_ok e_value st
  | Some parse_tag_body => buffer_ok e_key st
  | _ => True
  end.

Lemma wf_of_body_inv st : body_inv st -> wf st.
Proof. intros (Hp & Hb & Ht). split; [done|]. by rewrite Hp. Qed.

Lemma body_inv_of_wf st : wf st -> st_parser st = Some parse_tag_body -> body_inv st.
Proof. intros [Ht Hb] Hp. rewrite Hp in Hb. done. Qed.

Lemma wf_close_tag st : wf (xml_close_tag st).
Proof. split; [by intros t|]. cbn. by intros Hn. Qed.

Lemma wf_state_zero : wf state_zero.
Proof. split; [by intros t|done]. Qed.

Lemma scan_patterns_None ps cur c rest :
  scan_patterns ps cur c = (None, rest) -> rest = [].
Proof.
  induction ps as [|p ps IH]; simpl; [by intros [= <-]|].
  destruct (_ && _); [done|apply IH].
Qed.

Lemma scan_patterns_Some ps cur c t rest :
  scan_patterns ps cur c = (Some t, rest) -> t ∈ ps.
Proof.
  induction ps as [|p ps IH]; simpl; [done|].
  destruct (_ && _).
  - intros [= -> _]. apply elem_of_cons. by left.
  - intros H. apply elem_of_cons. right. by apply IH.
Qed.

Lemma match_opening_Some cur c t cur' :
  match_opening cur c = (Some t, cur') -> t ∈ xml_tag_patterns.
Proof.
  unfold match_opening.
  destruct (scan_patterns xml_tag_patterns cur c) as [[p|] rest] eqn:Hs.
  - intros [= -> _]. by eapply scan_patterns_Some.
  - apply scan_patterns_None in Hs as ->.
    destruct (cur =? 0); cbn; intros [= ]; done.
Qed.

Lemma xml_parse_tag_opening_wf d : forall st s d',
  tag_ok st -> st_parser st = Some parse_tag_opening ->
  xml_parse_tag_opening st d = Ok (s, d') -> wf s.
Proof.
  induction d as [|c d IH]; intros st s d' Ht Hp H.
  - injection H as <- _. split; [done|by rewrite Hp].
  - cbn [xml_parse_tag_opening] in H.
    destruct (match_opening (st_cursor st) c) as [[t|] cur] eqn:Hm.
    + apply IH in H; [done| |done].
      intros t' [= <-]. by eapply match_opening_Some.
    + destruct (st_tag (with_cursor cur st)) as [t|] eqn:Htag; [|done].
      apply bind_Ok in H as (st1 & H1 & H).
      assert (st_tag st1 = Some t) as Ht1.
      { destruct (0 <? _); [|by injection H1 as <-].
        unfold xml_close_element in H1. inv_ok; by subst. }
      apply bind_Ok in H as (st3 & H3 & H). injection H as <- _.
      assert (st_tag st3 = Some t /\ st_parser st3 = Some parse_tag_body /\
              st_length st3 = 0) as (Ht3 & Hp3 & Hl3).
      { destruct (negb _); inv_ok; by subst. }
      split; [|rewrite Hp3; by intros Hn].
      intros t'. rewrite Ht3. intros [= <-]. by apply Ht.
Qed.

Lemma xml_parse_content_wf st d s d' :
  tag_ok st -> buffer_ok e_value st -> st_parser st = Some parse_content ->
  xml_parse_content st d = Ok (s, d') -> wf s.
Proof.
  intros Ht Hb Hp H. unfold xml_parse_content in H.
  apply bind_Ok in H as (st1 & H1 & H). injection H as <- _.
  assert (tag_ok st1 /\ buffer_ok e_value st1 /\ st_parser st1 = Some parse_content)
    as (Ht1 & Hb1 & Hp1).
  { destruct (0 <? _); [|by injection H1 as <-].
    apply xml_value_append_ok in H1 as (? & Htag & ? & _); [|done].
    split_and!; [|done|congruence]. intros t. rewrite Htag. apply Ht. }
  destruct (drop _ d) as [|a r]; [split; [done|by rewrite Hp1]|].
  destruct (Ascii.eqb a "<"); [|split; [done|by rewrite Hp1]].
  split; done.
Qed.

Lemma tag_body_iter_break_wf st d s d' :
  body_inv st -> tag_body_iter st d = Ok (Break s d') -> wf s.
Proof.
  intros Hi H. unfold tag_body_iter in H.
  destruct (st_tag st) as [t|]; [|done].
  destruct d as [|c d]; [injection H as <- _; by apply wf_of_body_inv|].
  assert (Hm : forall st0 m, tag_body_match st0 t (c :: d) m = Ok (Break s d') -> wf s).
  { intros st0 m Hb. unfold tag_body_match in Hb.
    apply bind_Ok in Hb as (st1 & _ & Hb).
    destruct (Ascii.eqb _ NUL); [|done].
    inv_ok; subst; apply wf_close_tag. }
  destruct (st_cursor st =? 0).
  - destruct (strchr _ _); [by eapply Hm|].
    apply bind_Ok in H as (st1 & H1 & H). injection H as <- _.
    apply body_inv_key_append in H1 as [H1 _]; [|done]. by apply wf_of_body_inv.
  - destruct (Ascii.eqb _ c); [by eapply Hm|].
    apply bind_Ok in H as (st1 & H1 & H).
    destruct (Ascii.eqb _ c); [by eapply Hm|done].
Qed.

Lemma tag_body_loop_wf f : forall st d s d',
  body_inv st -> tag_body_loop f st d = Ok (s, d') -> wf s.
Proof.
  induction f as [|f IH]; intros st d s d' Hi H.
  - destruct d; [|done]. injection H as <- _. by apply wf_of_body_inv.
  - destruct d as [|c d]; [injection H as <- _; by apply wf_of_body_inv|].
    cbn [tag_body_loop] in H. apply bind_Ok in H as ([s2 d2|s2 d2] & Hit & H).
    + eapply IH; [|done]. by eapply tag_body_iter_inv.
    + injection H as <- _. by eapply tag_body_iter_break_wf.
Qed.

Lemma call_parser_wf p st d s d' :
  wf st -> st_parser st = Some p -> call_parser p st d = Ok (s, d') -> wf s.
Proof.
  intros [Ht Hb] Hp H. rewrite Hp in Hb. destruct p; cbn [call_parser] in H.
  - by eapply xml_parse_content_wf.
  - by eapply xml_parse_tag_opening_wf.
  - eapply tag_body_loop_wf; [|done]. done.
Qed.

(** ** Chunks *)

(** Feeding [x ++ y] to the chunk loop is feeding [x] and then [y]. *)
Lemma run_app y n : forall st x,
  chunk_measure st x <= n -> wf st ->
  run st (x ++ y) = do s <- run st x; run s y.
Proof.
  induction n as [|n IH]; intros st x Hn Hwf.
  - destruct x; [done|]. unfold chunk_measure in Hn. simpl in Hn. lia.
  - destruct x as [|c x]; [done|].
    rewrite <- app_comm_cons, !run_cons.
    destruct (st_parser st) as [p|] eqn:Hp; [|done].
    transitivity (do2 s1, x1 <- call_parser p st (c :: x); run s1 (x1 ++ y)).
    + rewrite app_comm_cons. destruct Hwf as [Ht Hb]. rewrite Hp in Hb.
      destruct p; cbn [call_parser].
      * by apply content_app.
      * by apply tag_opening_app.
      * by apply tag_body_app.
    + destruct (call_parser p st (c :: x)) as [[s1 x1]| | |] eqn:Hc; try done.
      cbn [bind]. apply IH; [|by eapply call_parser_wf].
      apply call_parser_measure in Hc; [lia|done..].
Qed.

(** No parser function writes st->root or clears st->parser. *)
Definition keeps (st s : xml_state) : Prop :=
  st_root s = st_root st /\ (is_Some (st_parser st) -> is_Some (st_parser s)).

Lemma keeps_refl st : keeps st st.
Proof. done. Qed.

Lemma keeps_trans a b c : keeps a b -> keeps b c -> keeps a c.
Proof. intros [? ?] [? ?]. split; [congruence|auto]. Qed.

Lemma keeps_same_ctl st s : same_ctl st s -> keeps st s.
Proof. intros (_ & _ & Hp & _ & _ & Hr). split; [done|by rewrite Hp]. Qed.

Ltac keeps_tac := inv_ok; subst; try done; split; cbn; eauto.

Lemma append_current_keeps get set st d s :
  append_current get set st d = Ok s -> keeps st s.
Proof. unfold append_current. intros H. keeps_tac. Qed.

Lemma xml_key_append_keeps st d s : xml_key_append st d = Ok s -> keeps st s.
Proof.
  rewrite xml_key_append_eq. unfold key_opener, append_current_key. intros H.
  inv_ok; subst; try done;
    repeat match goal with
    | H : append_current _ _ _ _ = Ok _ |- _ => apply append_current_keeps in H
    end; eauto using keeps_trans.
Qed.

Lemma xml_value_append_keeps st d s : xml_value_append st d = Ok s -> keeps st s.
Proof.
  rewrite xml_value_append_eq. unfold value_element, append_current_value. intros H.
  inv_ok; subst;
    repeat match goal with
    | H : append_current _ _ _ _ = Ok _ |- _ => apply append_current_keeps in H
    end; eauto using keeps_trans.
Qed.

Lemma xml_close_element_keeps st s : xml_close_element st = Ok s -> keeps st s.
Proof. unfold xml_close_element. intros H. keeps_tac. Qed.

Lemma xml_parse_tag_name_keeps st s : xml_parse_tag_name st = Ok s -> keeps st s.
Proof.
  unfold xml_parse_tag_name, xml_check_empty. intros H.
  inv_ok; subst; try done; split; cbn; eauto.
Qed.

Lemma tag_body_match_keeps st t d m ctl :
  tag_body_match st t d m = Ok ctl ->
  match ctl with Continue s _ | Break s _ => keeps st s end.
Proof.
  unfold tag_body_match. intros H.
  apply bind_Ok in H as (st1 & H1 & H).
  assert (keeps st st1) as K1.
  { destruct (st_cursor st =? 0); [by apply xml_key_append_keeps in H1|].
    by injection H1 as <-. }
  destruct (Ascii.eqb _ NUL).
  - apply bind_Ok in H as (st3 & H3 & H).
    apply bind_Ok in H as (st4 & H4 & H).
    apply bind_Ok in H as (st5 & H5 & H). injection H as <-.
    assert (keeps st1 st3) as K3.
    { destruct (1 <? _); [by apply append_current_keeps in H3|].
      by injection H3 as <-. }
    assert (keeps st3 st4) as K4.
    { destruct (type t =? _); [by apply xml_parse_tag_name_keeps in H4|].
      by injection H4 as <-. }
    assert (keeps st4 st5) as K5.
    { destruct (negb _ || _); [by apply xml_close_element_keeps in H5|].
      by injection H5 as <-. }
    split; cbn; [|eauto].
    destruct K1 as [? _], K3 as [? _], K4 as [? _], K5 as [? _]. congruence.
  - injection H as <-. done.
Qed.

Lemma tag_body_iter_keeps st d ctl :
  tag_body_iter st d = Ok ctl ->
  match ctl with Continue s _ | Break s _ => keeps st s end.
Proof.
  unfold tag_body_iter. intros H.
  destruct (st_tag st) as [t|]; [|done].
  destruct d as [|c d]; [by injection H as <-|].
  destruct (st_cursor st =? 0).
  - destruct (strchr _ _); [by eapply tag_body_match_keeps|].
    apply bind_Ok in H as (st1 & H1 & H). injection H as <-.
    by apply xml_key_append_keeps in H1.
  - destruct (Ascii.eqb _ c); [by eapply tag_body_match_keeps|].
    apply bind_Ok in H as (st1 & H1 & H). apply xml_key_append_keeps in H1.
    destruct (Ascii.eqb _ c).
    + apply tag_body_match_keeps in H. destruct ctl; by eapply keeps_trans.
    + injection H as <-. done.
Qed.

Lemma tag_body_loop_keeps f : forall st d s d',
  tag_body_loop f st d = Ok (s, d') -> keeps st s.
Proof.
  induction f as [|f IH]; intros st d s d' H.
  - destruct d; [|done]. by injection H as <- _.
  - destruct d as [|c d]; [by injection H as <- _|].
    cbn [tag_body_loop] in H. apply bind_Ok in H as ([s2 d2|s2 d2] & Hit & H);
      apply tag_body_iter_keeps in Hit.
    + apply IH in H. by eapply keeps_trans.
    + by injection H as <- _.
Qed.

Lemma xml_parse_tag_opening_keeps d : forall st s d',
  xml_parse_tag_opening st d = Ok (s, d') -> keeps st s.
Proof.
  induction d as [|c d IH]; intros st s d' H.
  - by injection H as <- _.
  - cbn [xml_parse_tag_opening] in H.
    destruct (match_opening (st_cursor st) c) as [[t|] cur] eqn:Hm.
    + apply IH in H. destruct H as [H1 H2]. split; [done|]. intros. by apply H2.
    + unfold xml_close_element in H. keeps_tac.
Qed.

Lemma xml_parse_content_keeps st d s d' :
  xml_parse_content st d = Ok (s, d') -> keeps st s.
Proof.
  unfold xml_parse_content. intros H.
  apply bind_Ok in H as (st1 & H1 & H). injection H as <- _.
  assert (keeps st st1) as [K1 K2].
  { destruct (0 <? _); [by apply xml_value_append_keeps in H1|].
    by injection H1 as <-. }
  destruct (drop _ d) as [|a r]; [done|].
  destruct (Ascii.eqb a "<"); [|done]. split; cbn; eauto.
Qed.

Lemma call_parser_keeps p st d s d' :
  call_parser p st d = Ok (s, d') -> keeps st s.
Proof.
  destruct p; cbn [call_parser]; intros H.
  - by eapply xml_parse_content_keeps.
  - by eapply xml_parse_tag_opening_keeps.
  - by eapply tag_body_loop_keeps.
Qed.

Lemma parse_loop_keeps f : forall st d s,
  parse_loop f st d = Ok s -> keeps st s.
Proof.
  induction f as [|f IH]; intros st d s H.
  - destruct d; [|done]. by injection H as <-.
  - destruct d as [|c d]; [by injection H as <-|].
    cbn [parse_loop] in H. destruct (st_parser st) as [p|]; [|done].
    apply bind_Ok in H as ([s1 d1] & Hc & H).
    apply call_parser_keeps in Hc. apply IH in H. by eapply keeps_trans.
Qed.

(** After a chunk the root and the parser are set. *)
Lemma chunk_init_started st :
  is_Some (st_root (chunk_init st)) /\ is_Some (st_parser (chunk_init st)).
Proof.
  unfold chunk_init. destruct (st_root st) eqn:Hr, (st_parser st) eqn:Hp; cbn;
    rewrite ?Hr, ?Hp; cbn; rewrite ?Hr, ?Hp; eauto.
Qed.

Lemma chunk_init_id st :
  is_Some (st_root st) -> is_Some (st_parser st) -> chunk_init st = st.
Proof.
  intros [r Hr] [p Hp]. unfold chunk_init. by rewrite Hr, Hp.
Qed.

Lemma xml_parse_chunk_started st d s :
  xml_parse_chunk st (Some d) = Ok s ->
  is_Some (st_root s) /\ is_Some (st_parser s).
Proof.
  intros H. apply parse_loop_keeps in H as [H1 H2].
  destruct (chunk_init_started st) as [Hr Hp].
  rewrite H1. auto.
Qed.

Lemma wf_chunk_init_zero : wf (chunk_init state_zero).
Proof. split; [by intros t|]. cbn. by intros Hn. Qed.

(** C1.  Splitting a document [d] at any offset [i] and feeding the two
    pieces to xml_parse_chunk one after the other, starting from a fresh
    state, ends in the same state (the same tree, with the same keys,
    values, attributes and sibling links, and the same return value) as
    feeding [d] in one chunk; and the parse of [d] does return.  This
    holds for every input, a split inside a delimiter or an attribute
    value included. *)
Theorem xml_parse_chunk_split (d : cstr) (i : nat) :
  (do s <- xml_parse_chunk state_zero (Some (take i d));
   xml_parse_chunk s (Some (drop i d))) =
  xml_parse_chunk state_zero (Some d) /\
  xml_parse_chunk state_zero (Some d) <> NoFuel.
Proof.
  split; [|apply run_nofuel].
  rewrite (xml_parse_chunk_run state_zero d).
  replace (run (chunk_init state_zero) d)
    with (run (chunk_init state_zero) (take i d ++ drop i d))
    by (by rewrite take_drop).
  rewrite (run_app _ _ _ _ (Nat.le_refl _) wf_chunk_init_zero).
  destruct (xml_parse_chunk state_zero (Some (take i d))) as [s| | |] eqn:H;
    rewrite xml_parse_chunk_run in H; rewrite H; try done.
  cbn [bind]. rewrite xml_parse_chunk_run.
  apply parse_loop_keeps in H as [H1 H2].
  rewrite chunk_init_id; [done|rewrite H1; by eexists|apply H2; by eexists].
Qed.

(** ** Empty and missing chunks *)

(** C8, as the claim states it, fails on a fresh state: the empty chunk
    makes xml_parse_chunk allocate the root element, so the tree is not
    what it was. *)
Lemma empty_chunk_creates_root :
  ~ (exists s, xml_parse_chunk state_zero (Some []) = Ok s /\
               st_heap s = st_heap state_zero /\ st_root s = st_root state_zero).
Proof. intros (s & [= <-] & H & _). discriminate H. Qed.

(** C8, amended.  An empty chunk returns success after the two
    initialisations at the head of xml_parse_chunk and nothing else.
    Without a root, a new element with no key, value, parent, children
    or attributes is appended to the arena and becomes root and insertion
    point; with a root, the arena, the root and the insertion point are
    what they were.  Without a parser function, the state is put into
    content mode with tag, length, cursor and empty flag cleared; with
    one, these five fields are what they were.  So a state that has a
    root and a parser function, as every state returned by an earlier
    call has, is left as it is.  A NULL chunk returns the error and
    leaves the state as it is. *)
Theorem xml_parse_chunk_empty_null (st : xml_state) (r : nat) (p : parser_fn)
    (c : option cstr) :
  (exists s, xml_parse_chunk st (Some []) = Ok s /\
     match st_root st with
     | None =>
         st_heap s = st_heap st ++ [element_zero] /\
         st_root s = Some (length (st_heap st)) /\
         st_current s = Some (length (st_heap st))
     | Some _ =>
         st_heap s = st_heap st /\ st_root s = st_root st /\
         st_current s = st_current st
     end /\
     match st_parser st with
     | None =>
         st_parser s = Some parse_content /\ st_tag s = None /\
         st_length s = 0 /\ st_cursor s = 0 /\ st_empty s = false
     | Some _ =>
         st_parser s = st_parser st /\ st_tag s = st_tag st /\
         st_length s = st_length st /\ st_cursor s = st_cursor st /\
         st_empty s = st_empty st
     end) /\
  e_key element_zero = None /\ e_value element_zero = None /\
  e_parent element_zero = None /\ e_first_child element_zero = None /\
  e_last_child element_zero = None /\ e_next element_zero = None /\
  e_attributes element_zero = [] /\
  xml_parse_chunk (with_parser (Some p) (with_root (Some r) st)) (Some []) =
    Ok (with_parser (Some p) (with_root (Some r) st)) /\
  (do s <- xml_parse_chunk st c; xml_parse_chunk s (Some [])) = xml_parse_chunk st c /\
  xml_parse_chunk st None = Err st.
Proof.
  split_and!; try done.
  - exists (chunk_init st). split; [done|].
    destruct st as [h ro cu tg len cur em pa].
    destruct ro, pa; cbn; done.
  - destruct c as [d|]; [|done].
    destruct (xml_parse_chunk st (Some d)) as [s| | |] eqn:H; try done.
    cbn [bind]. apply xml_parse_chunk_started in H as [Hr Hp].
    rewrite xml_parse_chunk_run, chunk_init_id by done. done.
Qed.

(** ** Quoted spans *)

(** C9 fails at an escaped quote in the first position: the loop of
    xml_quotedspn steps over s[0] before it reads anything, so in the
    value made of a backslash, a quote and the letter a, closed by a
    quote, the backslash is never seen and the quote behind it ends the
    span after one character. *)
Lemma xml_quotedspn_first_escape :
  xml_quotedspn ["\"%char; DQUOTE; "a"%char; DQUOTE] DQUOTE = Ok 1.
Proof. reflexivity. Qed.

(** The same value behind one more character is scanned as the claim
    says: the escaped quote is data and the span ends at the closing
    quote. *)
Lemma xml_quotedspn_later_escape :
  xml_quotedspn ["b"%char; "\"%char; DQUOTE; "a"%char; DQUOTE] DQUOTE = Ok 4.
Proof. reflexivity. Qed.

(** ** Closing tags *)

(** Data of a closing tag is dropped by xml_key_append. *)
Lemma xml_key_append_close st t c d :
  st_current st = Some c -> st_tag st = Some t -> type t = TAG_ELEMENT_CLOSE ->
  xml_key_append st d = Ok st.
Proof. intros Hc Ht Hty. unfold xml_key_append. by rewrite Hc, Ht, Hty. Qed.

Lemma strchr_first s c r :
  c ∉ s -> strchr (s ++ c :: r) c = Some (length s).
Proof.
  induction s as [|a s IH]; intros Hn; simpl.
  - by rewrite Ascii.eqb_refl.
  - apply not_elem_of_cons in Hn as [Hne Hn].
    destruct (Ascii.eqb a c) eqn:He; [apply Ascii.eqb_eq in He; congruence|].
    by rewrite IH.
Qed.

(** The body of a closing tag up to its '>' pops the insertion point
    and does nothing else. *)
Lemma xml_parse_tag_body_close (st : xml_state) (t : xml_tag_pattern) (c : nat)
    (e : xml_element) (name rest : cstr) :
  st_tag st = Some t -> type t = TAG_ELEMENT_CLOSE -> close t = cs ">" ->
  st_cursor st = 0 ->
  st_current st = Some c -> st_heap st !! c = Some e ->
  ">"%char ∉ name ->
  xml_parse_tag_body st (name ++ ">"%char :: rest) =
  Ok (xml_close_tag (with_current (e_parent e) st), rest).
Proof.
  intros Ht Hty Hcl Hcur Hc He Hn.
  destruct st as [h r cu tg len cur em pa]. simpl in Ht, Hcur, Hc, He. subst.
  destruct (name ++ ">"%char :: rest) as [|a d] eqn:Hd; [by destruct name|].
  rewrite xml_parse_tag_body_unfold, <- Hd.
  unfold tag_body_iter, tag_body_match, xml_key_append, close_at, xml_close_element, deref.
  cbn [st_tag st_cursor st_current st_heap st_length with_cursor Nat.eqb].
  rewrite Hd at 1. rewrite Hcl, Hty. cbn [cs list_ascii_of_string nth].
  rewrite (strchr_first _ _ _ Hn). cbn. rewrite He. cbn.
  replace (S (length name)) with (length name + 1) by lia.
  rewrite drop_app_add. reflexivity.
Qed.

(** C10.  In a closing tag xml_key_append stores nothing, whatever it is
    given; and in the body of a closing tag, whatever stands before the
    '>' is dropped and never compared with anything: the tree is left as
    it is, the insertion point moves to the parent of the current
    element, the parser goes back to content mode and the input behind
    the '>' is left for it.  So two closing tags with different names do
    the same. *)
Theorem close_tag_ignores_name (st : xml_state) (t : xml_tag_pattern) (c : nat)
    (e : xml_element) (name name' rest : cstr) :
  st_tag st = Some t -> type t = TAG_ELEMENT_CLOSE -> close t = cs ">" ->
  st_cursor st = 0 ->
  st_current st = Some c -> st_heap st !! c = Some e ->
  ">"%char ∉ name -> ">"%char ∉ name' ->
  xml_key_append st name = Ok st /\
  xml_parse_tag_body st (name ++ ">"%char :: rest) =
    Ok (xml_close_tag (with_current (e_parent e) st), rest) /\
  xml_parse_tag_body st (name' ++ ">"%char :: rest) =
    xml_parse_tag_body st (name ++ ">"%char :: rest) /\
  st_heap (xml_close_tag (with_current (e_parent e) st)) = st_heap st /\
  st_parser (xml_close_tag (with_current (e_parent e) st)) = Some parse_content.
Proof.
  intros Ht Hty Hcl Hcur Hc He Hn Hn'.
  split; [by apply (xml_key_append_close st t c)|].
  rewrite (xml_parse_tag_body_close st t c e name rest) by done.
  rewrite (xml_parse_tag_body_close st t c e name' rest) by done.
  split_and!; reflexivity.
Qed.

(** The state a result holds, for the examples. *)
Definition state_of (r : result xml_state) : xml_state :=
  match r with
  | Ok s => s
  | _ => state_zero
  end.

(** The parser in the closing tag of the document [<a>x</b]. *)
Definition st_in_close : xml_state :=
  Eval vm_compute in state_of (xml_parse_chunk state_zero (Some (cs "<a>x</b"))).

Lemma close_tag_ignores_name_witness :
  xml_parse_tag_body st_in_close (cs "c" ++ ">"%char :: cs "y") =
    Ok (xml_close_tag (with_current (Some 0) st_in_close), cs "y") /\
  xml_parse_tag_body st_in_close (cs "a" ++ ">"%char :: cs "y") =
    xml_parse_tag_body st_in_close (cs "c" ++ ">"%char :: cs "y").
Proof.
  assert (Hc : ">"%char ∉ cs "c").
  { intros H. apply elem_of_cons in H as [H|H]; [discriminate H|].
    by apply elem_of_nil in H. }
  assert (Ha : ">"%char ∉ cs "a").
  { intros H. apply elem_of_cons in H as [H|H]; [discriminate H|].
    by apply elem_of_nil in H. }
  pose proof (close_tag_ignores_name st_in_close
           {| type := TAG_ELEMENT_CLOSE; open := cs "</"; open_len := 2; close := cs ">" |}
           1
           {| e_key := Some (cs "a"); e_value := None; e_parent := Some 0;
              e_first_child := Some 2; e_last_child := Some 2; e_next := None;
              e_attributes := [] |}
           (cs "c") (cs "a") (cs "y")
           eq_refl eq_refl eq_refl eq_refl eq_refl eq_refl Hc Ha)
    as (_ & H1 & H2 & _).
  exact (conj H1 H2).
Defined.

(** ** Element location *)


Lemma strncasecmp_eq_iff n : forall a b,
  length a = n ->
  strncasecmp_eq a b n = true <-> map tolower a = map tolower (take n b).
Proof.
  induction n as [|n IH]; intros a b Hl.
  - destruct a; [done|discriminate Hl].
  - destruct a as [|x a]; [discriminate Hl|]. injection Hl as Hl.
    destruct b as [|y b]; [done|]. simpl.
    rewrite andb_true_iff, Ascii.eqb_eq, (IH a b Hl).
    split; [intros [-> ->]; done|intros [= -> ->]; done].
Qed.

Lemma strcasecmp_eq_iff a : forall b,
  strcasecmp_eq a b = true <-> map tolower a = map tolower b.
Proof.
  induction a as [|x a IH]; intros [|y b]; simpl; try done.
  rewrite andb_true_iff, Ascii.eqb_eq, IH.
  split; [intros [-> ->]; done|intros [= -> ->]; done].
Qed.

Lemma tag_match_iff k path n :
  tag_match k path n = true <->
  length (cstring k) = n /\ map tolower (cstring k) = map tolower (take n path).
Proof.
  unfold tag_match. rewrite andb_true_iff, Nat.eqb_eq.
  split; intros [Hl H]; (split; [done|]); by apply (strncasecmp_eq_iff n).
Qed.

Definition doc1 : cstr := cs "<a><b>1</b><b>2</b></a>".

(** The arena a successful parse leaves. *)
Definition tree_of (d : cstr) : list xml_element :=
  match xml_parse (Some d) with
  | Ok (h, _) => h
  | _ => []
  end.

Definition tree1 : list xml_element := Eval vm_compute in tree_of doc1.

(** The key of an element as a C string. *)
Definition key_of (h : list xml_element) (e : nat) : option cstr :=
  el ← h !! e; k ← e_key el; Some (cstring k).

(** ** Attribute constraints *)

Lemma strncmp_eq_iff n : forall a b,
  length a = n -> strncmp_eq a b n = true <-> a = take n b.
Proof.
  induction n as [|n IH]; intros a b Hl.
  - destruct a; [done|discriminate Hl].
  - destruct a as [|x a]; [discriminate Hl|]. injection Hl as Hl.
    destruct b as [|y b]; [done|]. simpl.
    rewrite andb_true_iff, Ascii.eqb_eq, (IH a b Hl).
    split; [intros [-> ->]; done|intros [= -> ->]; done].
Qed.

Lemma span_eq_iff (k b : cstr) (n : nat) :
  n <= length b ->
  (length k =? n) && strncmp_eq k b n = true <-> k = take n b.
Proof.
  intros Hn. rewrite andb_true_iff, Nat.eqb_eq. split.
  - intros [Hl H]. by apply (strncmp_eq_iff n).
  - intros ->. assert (length (take n b) = n) as Hl by (rewrite length_take; lia).
    split; [done|]. by apply (strncmp_eq_iff n).
Qed.

(** The key span of a query string and its value span. *)
Definition constraint_key (q : xml_query_string) : cstr := take (key_len q) (q_key q).
Definition constraint_value (q : xml_query_string) : option cstr :=
  take (value_len q) <$> q_value q.

(** The spans of a query string lie in the path. *)
Definition query_ok (q : xml_query_string) : Prop :=
  key_len q <= length (q_key q) /\
  forall v, q_value q = Some v -> value_len q <= length v.

Definition doc2 : cstr :=
  cs "<a><b x=" ++ [DQUOTE] ++ cs "1" ++ [DQUOTE] ++ cs ">p</b><b x=" ++
  [DQUOTE] ++ cs "2" ++ [DQUOTE] ++ cs ">q</b></a>".

Definition tree2 : list xml_element := Eval vm_compute in tree_of doc2.

(** The element a pointer of the examples points to. *)
Definition element_at (h : list xml_element) (e : nat) : xml_element :=
  default element_zero (h !! e).

(** The segment of the path [b?x=1]. *)
Definition seg_x1 : xml_path_segment :=
  {| tag_len := 1;
     query := [ {| q_key := cs "x=1"; key_len := 1;
                   q_value := Some (cs "1"); value_len := 1 |} ] |}.

(** ** Content of a leaf *)

Lemma strcspn_all (s : cstr) (c : ascii) :
  c ∉ s -> strcspn s [c] = length s.
Proof.
  induction s as [|a s IH]; intros Hn; [done|].
  apply not_elem_of_cons in Hn as [Hne Hn]. simpl.
  destruct (Ascii.eqb a c) eqn:He; [apply Ascii.eqb_eq in He; congruence|].
  simpl. by rewrite IH.
Qed.

Lemma cstring_id (s : cstr) : NUL ∉ s -> cstring s = s.
Proof.
  induction s as [|a s IH]; intros Hn; [done|].
  apply not_elem_of_cons in Hn as [Hne Hn]. simpl.
  destruct (Ascii.eqb a NUL) eqn:He; [apply Ascii.eqb_eq in He; congruence|].
  by rewrite IH.
Qed.

(** The parser after [<a>]. *)
Definition st_after_open : xml_state :=
  Eval vm_compute in state_of (xml_parse_chunk state_zero (Some (cs "<a>"))).

Lemma run_open : run (chunk_init state_zero) (cs "<a>") = Ok st_after_open.
Proof. vm_compute. reflexivity. Qed.

Lemma wf_st_after_open : wf st_after_open.
Proof. split; [by intros t|]. cbn. by intros Hn. Qed.

(** C7, as the claim states it, fails on a leaf without text: for
    [<a></a>] the text between the tags is the empty string, and
    xml_content returns NULL, not an empty string. *)
Lemma content_of_empty_leaf :
  xml_find 10 (tree_of (cs "<a></a>")) 0 (Some (cs "a")) = Ok (Some 1) /\
  xml_content 10 (tree_of (cs "<a></a>")) (Some 1) = Ok None /\
  xml_content 10 (tree_of (cs "<a></a>")) (Some 1) <> Ok (Some []).
Proof. split_and!; [vm_compute; reflexivity..|vm_compute; discriminate]. Qed.

(** ** What the parser leaves alone *)

(** A setter that keeps the links of an element. *)
Definition keeps_links (f : xml_element -> xml_element) : Prop :=
  forall e, e_parent (f e) = e_parent e /\ e_first_child (f e) = e_first_child e /\
    e_last_child (f e) = e_last_child e /\ e_next (f e) = e_next e.

Section frame.
(** [P] is a property of the arena and [ok c] says that element [c] may
    be the insertion point.  The hypotheses are the steps the parser
    takes on the arena: it allocates, it writes strings and attributes
    of the insertion point, it links a new child below the insertion
    point and behind its last child, and it moves the insertion point
    to a new child or to the parent. *)
Variable P : list xml_element -> Prop.
Variable ok : nat -> Prop.
Hypothesis P_alloc : forall h, P h -> P (h ++ [element_zero]) /\ ok (length h).
Hypothesis P_content : forall h c e f,
  P h -> ok c -> h !! c = Some e -> keeps_links f -> P (<[c := f e]> h).
Hypothesis P_parent : forall h c e p,
  P h -> ok c -> ok p -> h !! c = Some e -> P (<[c := set_parent (Some p) e]> h).
Hypothesis P_last : forall h c e n,
  P h -> ok c -> ok n -> h !! c = Some e -> P (<[c := set_last_child (Some n) e]> h).
Hypothesis P_first : forall h c e n,
  P h -> ok c -> ok n -> h !! c = Some e ->
  P (<[c := set_first_child (Some n) (set_last_child (Some n) e)]> h).
Hypothesis P_next : forall h p pe l le n,
  P h -> ok p -> h !! p = Some pe -> e_last_child pe = Some l -> h !! l = Some le ->
  P (<[l := set_next n le]> h).
Hypothesis P_up : forall h c e q,
  P h -> ok c -> h !! c = Some e -> e_parent e = Some q -> ok q.

Definition framed (st : xml_state) : Prop :=
  P (st_heap st) /\ forall c, st_current st = Some c -> ok c.

Lemma xml_element_create_framed h parent h' e :
  P h -> (forall p, parent = Some p -> ok p) ->
  xml_element_create h parent = Ok (h', e) -> P h' /\ ok e.
Proof.
  intros HP Hpar H. unfold xml_element_create in H.
  destruct (P_alloc h HP) as [HP1 Hok].
  destruct parent as [p|]; [|by injection H as <- <-].
  specialize (Hpar p eq_refl).
  apply bind_Ok in H as (h2 & H2 & H). injection H as <- <-. split; [|done].
  unfold xml_element_add, store, deref in H2.
  destruct ((h ++ [element_zero]) !! length h) as [ce|] eqn:Hce; [|done].
  cbn [bind] in H2.
  set (h1 := <[length h := set_parent (Some p) ce]> (h ++ [element_zero])) in *.
  assert (P h1) as HP2 by (by apply P_parent).
  destruct (h1 !! p) as [pe|] eqn:Hpe; [|done]. cbn [bind] in H2.
  destruct (e_first_child pe).
  - destruct (e_last_child pe) as [l|] eqn:Hl; [|done].
    destruct (h1 !! l) as [le|] eqn:Hle; [|done]. cbn [bind] in H2.
    assert (P (<[l := set_next (Some (length h)) le]> h1)) as HP3
      by (by apply (P_next h1 p pe l le)).
    destruct (<[l:=set_next (Some (length h)) le]> h1 !! p) as [pe'|] eqn:Hpe';
      [|done]. injection H2 as <-.
    by apply P_last.
  - injection H2 as <-. by apply P_first.
Qed.

Lemma append_current_framed get set st d s :
  (forall v, keeps_links (set v)) ->
  framed st -> append_current get set st d = Ok s -> framed s.
Proof.
  intros Hset [HP Hc] H. unfold append_current, deref, store in H.
  destruct (st_current st) as [c|] eqn:Hcur; [|done].
  destruct (st_heap st !! c) as [e|] eqn:He; [|done]. cbn [bind] in H.
  apply bind_Ok in H as ([v n] & _ & H). destruct v; [|done]. injection H as <-.
  split; [|by cbn; rewrite Hcur]. cbn. apply P_content; auto.
Qed.

Lemma keeps_links_key v : keeps_links (set_key v).
Proof. by intros e. Qed.
Lemma keeps_links_value v : keeps_links (set_value v).
Proof. by intros e. Qed.

Lemma xml_key_append_framed st d s :
  framed st -> xml_key_append st d = Ok s -> framed s.
Proof.
  rewrite xml_key_append_eq. unfold key_opener, append_current_key. intros Hl H.
  inv_ok; subst; try done;
    repeat match goal with
    | H : append_current _ _ _ _ = Ok _ |- _ =>
        eapply append_current_framed in H;
          [|apply keeps_links_key|eassumption]
    end; done.
Qed.

Lemma xml_value_append_framed st d s :
  framed st -> xml_value_append st d = Ok s -> framed s.
Proof.
  rewrite xml_value_append_eq. unfold value_element, append_current_value.
  intros [HP Hc] H. apply bind_Ok in H as (st1 & H1 & H).
  eapply append_current_framed in H; [done|apply keeps_links_value|].
  destruct (st_length st =? 0); [|by injection H1 as <-].
  apply bind_Ok in H1 as ([h e] & Hcr & H1). injection H1 as <-.
  apply xml_element_create_framed in Hcr as [Hh He]; [|done..].
  split; [done|]. cbn. by intros c [= <-].
Qed.

Lemma xml_close_element_framed st s :
  framed st -> xml_close_element st = Ok s -> framed s.
Proof.
  intros [HP Hc] H. unfold xml_close_element, deref in H.
  destruct (st_current st) as [c|]; [|done].
  destruct (st_heap st !! c) as [e|] eqn:He; [|done]. injection H as <-.
  split; [done|]. cbn. intros q Hq. eapply P_up; eauto.
Qed.

Lemma xml_check_empty_framed st s :
  framed st -> xml_check_empty st = Ok s -> framed s.
Proof.
  intros [HP Hc] H. unfold xml_check_empty, deref, store in H.
  destruct (st_current st) as [c|] eqn:Hcur; [|done].
  destruct (st_heap st !! c) as [e|] eqn:He; [|done]. cbn [bind] in H.
  destruct (e_key e) as [buf|]; [|done].
  destruct (check_empty_loop buf _) as [buf' em]. injection H as <-.
  split; [|by cbn; rewrite Hcur]. cbn. apply P_content; auto using keeps_links_key.
Qed.

Lemma xml_parse_attributes_framed h c from h' :
  P h -> ok c -> xml_parse_attributes h c from = Ok h' -> P h'.
Proof.
  intros HP Hc H. unfold xml_parse_attributes, deref, store in H.
  destruct (h !! c) as [el|] eqn:He; [|done]. cbn [bind] in H.
  destruct (e_key el) as [buf|]; [|done].
  apply bind_Ok in H as ([buf' attrs] & _ & H). injection H as <-.
  by apply (P_content h c el (fun x => set_attributes attrs (set_key (Some buf') x))).
Qed.

Lemma xml_parse_tag_name_framed st s :
  framed st -> xml_parse_tag_name st = Ok s -> framed s.
Proof.
  intros Hl H. unfold xml_parse_tag_name in H.
  apply bind_Ok in H as (st1 & H1 & H).
  apply xml_check_empty_framed in H1; [|done]. pose proof H1 as [HP1 Hc1].
  destruct (st_current st1) as [c|] eqn:Hcur; [|done].
  unfold deref, store in H.
  destruct (st_heap st1 !! c) as [e|] eqn:He; [|done]. cbn [bind] in H.
  destruct (e_key e) as [buf|]; [|done].
  apply bind_Ok in H as (ch & _ & H).
  destruct (Ascii.eqb ch NUL); [by injection H as <-|].
  apply bind_Ok in H as (buf1 & _ & H). apply bind_Ok in H as (s1 & _ & H).
  cbn [bind] in H. apply bind_Ok in H as (ch1 & _ & H).
  assert (P (<[c := set_key (Some buf1) e]> (st_heap st1))) as HP2
    by (apply P_content; auto using keeps_links_key).
  destruct (Ascii.eqb ch1 NUL).
  - injection H as <-. split; [done|]. by cbn; rewrite Hcur.
  - apply bind_Ok in H as (h2 & Ha & H). injection H as <-.
    apply xml_parse_attributes_framed in Ha; [|done|auto].
    split; [done|]. by cbn; rewrite Hcur.
Qed.

Lemma tag_body_match_framed st t d m ctl :
  framed st -> tag_body_match st t d m = Ok ctl ->
  match ctl with Continue s _ | Break s _ => framed s end.
Proof.
  intros Hl H. unfold tag_body_match in H.
  apply bind_Ok in H as (st1 & H1 & H).
  assert (framed st1) as Hl1.
  { destruct (st_cursor st =? 0); [by eapply xml_key_append_framed|].
    by injection H1 as <-. }
  destruct (Ascii.eqb _ NUL); [|by injection H as <-].
  apply bind_Ok in H as (st3 & H3 & H).
  apply bind_Ok in H as (st4 & H4 & H).
  apply bind_Ok in H as (st5 & H5 & H). injection H as <-.
  assert (framed st3) as Hl3.
  { destruct (1 <? _); [|by injection H3 as <-].
    eapply append_current_framed in H3; [done|apply keeps_links_key|done]. }
  assert (framed st4) as Hl4.
  { destruct (type t =? _); [by eapply xml_parse_tag_name_framed|].
    by injection H4 as <-. }
  assert (framed st5) as Hl5.
  { destruct (negb _ || _); [by eapply xml_close_element_framed|].
    by injection H5 as <-. }
  done.
Qed.

Lemma tag_body_iter_framed st d ctl :
  framed st -> tag_body_iter st d = Ok ctl ->
  match ctl with Continue s _ | Break s _ => framed s end.
Proof.
  intros Hl H. unfold tag_body_iter in H.
  destruct (st_tag st) as [t|]; [|done].
  destruct d as [|c d]; [by injection H as <-|].
  destruct (st_cursor st =? 0).
  - destruct (strchr _ _); [by eapply tag_body_match_framed|].
    apply bind_Ok in H as (st1 & H1 & H). injection H as <-.
    by eapply xml_key_append_framed.
  - destruct (Ascii.eqb _ c); [by eapply tag_body_match_framed|].
    apply bind_Ok in H as (st1 & H1 & H).
    apply xml_key_append_framed in H1; [|done].
    destruct (Ascii.eqb _ c); [by eapply tag_body_match_framed in H|].
    by injection H as <-.
Qed.

Lemma tag_body_loop_framed f : forall st d s d',
  framed st -> tag_body_loop f st d = Ok (s, d') -> framed s.
Proof.
  induction f as [|f IH]; intros st d s d' Hl H.
  - destruct d; [|done]. by injection H as <- _.
  - destruct d as [|c d]; [by injection H as <- _|].
    cbn [tag_body_loop] in H. apply bind_Ok in H as ([s2 d2|s2 d2] & Hit & H);
      apply tag_body_iter_framed in Hit; try done.
    + by eapply IH.
    + by injection H as <- _.
Qed.

Lemma xml_parse_tag_opening_framed d : forall st s d',
  framed st -> xml_parse_tag_opening st d = Ok (s, d') -> framed s.
Proof.
  induction d as [|c d IH]; intros st s d' Hl H.
  - by injection H as <- _.
  - cbn [xml_parse_tag_opening] in H.
    destruct (match_opening (st_cursor st) c) as [[t|] cur] eqn:Hm.
    + by eapply IH in H.
    + destruct (st_tag (with_cursor cur st)) as [t|]; [|done].
      apply bind_Ok in H as (st1 & H1 & H).
      assert (framed st1) as [HP1 Hc1].
      { destruct (0 <? _); [by eapply xml_close_element_framed in H1|].
        by injection H1 as <-. }
      apply bind_Ok in H as (st3 & H3 & H). injection H as <- _.
      destruct (negb _); [|by injection H3 as <-].
      apply bind_Ok in H3 as ([h e] & Hcr & H3). injection H3 as <-.
      apply xml_element_create_framed in Hcr as [Hh He]; [|done..].
      split; [done|]. cbn. by intros q [= <-].
Qed.

Lemma xml_parse_content_framed st d s d' :
  framed st -> xml_parse_content st d = Ok (s, d') -> framed s.
Proof.
  intros Hl H. unfold xml_parse_content in H.
  apply bind_Ok in H as (st1 & H1 & H). injection H as <- _.
  assert (framed st1) as Hl1.
  { destruct (0 <? _); [by eapply xml_value_append_framed|by injection H1 as <-]. }
  destruct (drop _ d) as [|a r]; [done|]. by destruct (Ascii.eqb a "<").
Qed.

Lemma parse_loop_framed f : forall st d s,
  framed st -> parse_loop f st d = Ok s -> framed s.
Proof.
  induction f as [|f IH]; intros st d s Hl H.
  - destruct d; [|done]. by injection H as <-.
  - destruct d as [|c d]; [by injection H as <-|].
    cbn [parse_loop] in H. destruct (st_parser st) as [p|]; [|done].
    apply bind_Ok in H as ([s1 d1] & Hc & H). eapply IH; [|done].
    destruct p; cbn [call_parser] in Hc.
    + by eapply xml_parse_content_framed.
    + by eapply xml_parse_tag_opening_framed.
    + by eapply tag_body_loop_framed.
Qed.
End frame.

(** ** Self-closing elements *)

(** Element [k] of the arena has no parent link pointing to it and is
    [e0] apart from its next link. *)
Definition left_heap (k : nat) (e0 : xml_element) (h : list xml_element) : Prop :=
  (forall i e, h !! i = Some e -> e_parent e <> Some k) /\
  exists e, h !! k = Some e /\ set_next None e = set_next None e0.

(** Element [k] has been left for good: it is not the insertion point
    and no element below it can become the insertion point. *)
Definition left_behind (k : nat) (e0 : xml_element) (st : xml_state) : Prop :=
  framed (left_heap k e0) (fun c => c <> k) st.

Lemma left_insert_other k e0 h c e' :
  left_heap k e0 h -> c <> k -> c < length h -> e_parent e' <> Some k ->
  left_heap k e0 (<[c := e']> h).
Proof.
  intros [Hp (e & He & Heq)] Hc Hlt Hpar. split.
  - intros i ei Hi. destruct (decide (i = c)) as [->|Hne].
    + rewrite list_lookup_insert_eq in Hi by done. by injection Hi as <-.
    + rewrite list_lookup_insert_ne in Hi by done. by eapply Hp.
  - exists e. by rewrite list_lookup_insert_ne.
Qed.

Lemma left_alloc k e0 h :
  left_heap k e0 h -> left_heap k e0 (h ++ [element_zero]) /\ length h <> k.
Proof.
  intros [Hp (e & He & Heq)]. pose proof (lookup_lt_Some _ _ _ He) as Hlt.
  split; [|lia]. split.
  - intros i e' Hi. apply lookup_app_Some in Hi as [Hi|[_ Hi]]; [by eapply Hp|].
    apply list_lookup_singleton_Some in Hi as [_ <-]. done.
  - exists e. split; [|done]. by apply lookup_app_l_Some.
Qed.

Lemma left_content k e0 h c e f :
  left_heap k e0 h -> c <> k -> h !! c = Some e -> keeps_links f ->
  left_heap k e0 (<[c := f e]> h).
Proof.
  intros Hl Hc He Hf. apply left_insert_other; [done|done|by eapply lookup_lt_Some|].
  destruct (Hf e) as (-> & _). destruct Hl as [Hp _]. by eapply Hp.
Qed.

Lemma left_parent k e0 h c e p :
  left_heap k e0 h -> c <> k -> p <> k -> h !! c = Some e ->
  left_heap k e0 (<[c := set_parent (Some p) e]> h).
Proof.
  intros Hl Hc Hp He. apply left_insert_other; [done|done|by eapply lookup_lt_Some|].
  cbn. congruence.
Qed.

Lemma left_last k e0 h c e n :
  left_heap k e0 h -> c <> k -> n <> k -> h !! c = Some e ->
  left_heap k e0 (<[c := set_last_child (Some n) e]> h).
Proof.
  intros Hl Hc _ He. apply left_insert_other; [done|done|by eapply lookup_lt_Some|].
  destruct Hl as [Hp _]. by eapply (Hp c e).
Qed.

Lemma left_first k e0 h c e n :
  left_heap k e0 h -> c <> k -> n <> k -> h !! c = Some e ->
  left_heap k e0 (<[c := set_first_child (Some n) (set_last_child (Some n) e)]> h).
Proof.
  intros Hl Hc _ He. apply left_insert_other; [done|done|by eapply lookup_lt_Some|].
  destruct Hl as [Hp _]. by eapply (Hp c e).
Qed.

Lemma left_next k e0 h p pe l le n :
  left_heap k e0 h -> p <> k -> h !! p = Some pe -> e_last_child pe = Some l ->
  h !! l = Some le -> left_heap k e0 (<[l := set_next n le]> h).
Proof.
  intros Hl _ _ _ Hle. destruct (decide (l = k)) as [->|Hne].
  - destruct Hl as [Hp (e & He & Heq)]. rewrite He in Hle. injection Hle as <-. split.
    + intros i ei Hi. destruct (decide (i = k)) as [->|Hne].
      * rewrite list_lookup_insert_eq in Hi by (by eapply lookup_lt_Some).
        injection Hi as <-. by eapply (Hp k e).
      * rewrite list_lookup_insert_ne in Hi by done. by eapply Hp.
    + exists (set_next n e). split; [|done].
      apply list_lookup_insert_eq. by eapply lookup_lt_Some.
  - apply left_insert_other; [done|done|by eapply lookup_lt_Some|].
    destruct Hl as [Hp _]. by eapply (Hp l le).
Qed.

Lemma left_up k e0 h c e q :
  left_heap k e0 h -> c <> k -> h !! c = Some e -> e_parent e = Some q -> q <> k.
Proof. intros [Hp _] _ He Hq ->. by eapply Hp. Qed.

Lemma parse_loop_left k e0 f st d s :
  left_behind k e0 st -> parse_loop f st d = Ok s -> left_behind k e0 s.
Proof.
  apply (parse_loop_framed (left_heap k e0) (fun c => c <> k)
           (left_alloc k e0) (left_content k e0) (left_parent k e0) (left_last k e0)
           (left_first k e0) (left_next k e0) (left_up k e0)).
Qed.

(** The parser after the document [<a/>]. *)
Definition st_after_empty : xml_state :=
  Eval vm_compute in state_of (xml_parse_chunk state_zero (Some (cs "<a/>"))).

(** The element of [<a/>]: the slash of its key has been overwritten
    with NUL. *)
Definition empty_a : xml_element :=
  {| e_key := Some ["a"%char; NUL]; e_value := None; e_parent := Some 0;
     e_first_child := None; e_last_child := None; e_next := None;
     e_attributes := [] |}.

(** ** The key of a special tag *)

(** The key of element [c]. *)
Definition key_at (c : nat) (st : xml_state) : option (list ascii) :=
  el ← st_heap st !! c; e_key el.

Lemma append_current_key_view st c e d s :
  buffer_ok e_key st ->
  st_current st = Some c -> st_heap st !! c = Some e ->
  (d = [] -> st_length st <> 0) ->
  append_current_key st d = Ok s ->
  same_ctl st s /\ buffer_ok e_key s /\
  length (st_heap s) = length (st_heap st) /\
  key_at c s = Some (cur_buf e_key st e ++ d) /\
  st_length s = st_length st + length d.
Proof.
  intros Hb Hc He Hd H. unfold append_current_key in *.
  pose proof (append_current_ok _ _ get_set_key set_get_key _ _ _ Hb H) as (Hs & Hb' & _).
  split; [done|]. split; [done|].
  destruct d as [|a d].
  - specialize (Hd eq_refl). destruct (Hb Hd) as (c' & e' & k & Hc' & He' & Hk & Hl).
    simplify_eq. rewrite (append_current_nil _ _ set_get_key st c e k) in H by done.
    injection H as <-. split; [done|]. split; [|simpl; lia].
    unfold key_at, cur_buf. rewrite He. cbn. rewrite Hk.
    apply Nat.eqb_neq in Hd. rewrite Hd. cbn. by rewrite app_nil_r.
  - rewrite (append_current_cons _ _ st c e a d) in H by done.
    injection H as <-. cbn. split; [by rewrite length_insert|]. split; [|done].
    unfold key_at. cbn.
    rewrite list_lookup_insert_eq by (by eapply lookup_lt_Some). done.
Qed.

(** The tag patterns other than the opening and the closing tag of an
    element. *)
Definition special (t : xml_tag_pattern) : Prop :=
  t ∈ xml_tag_patterns /\ type t <> TAG_ELEMENT_OPEN /\ type t <> TAG_ELEMENT_CLOSE.

(** What the key of the tag holds or, before the first append, will
    start with. *)
Definition key_view (t : xml_tag_pattern) (c : nat) (st : xml_state) : list ascii :=
  if st_length st =? 0 then drop 1 (open t) else default [] (key_at c st).

(** The input of the tag read so far, from behind the first character
    of the opening pattern on. *)
Definition raw (t : xml_tag_pattern) (c : nat) (st : xml_state) : list ascii :=
  key_view t c st ++ take (st_cursor st) (close t).

(** The state while the body of the special tag [t] with element [c]
    is scanned. *)
Definition scan_inv (t : xml_tag_pattern) (c : nat) (st : xml_state) : Prop :=
  st_tag st = Some t /\ st_current st = Some c /\ c < length (st_heap st) /\
  st_parser st = Some parse_tag_body /\ buffer_ok e_key st /\
  st_cursor st < length (close t) /\ (st_length st = 0 -> st_cursor st = 0).

Lemma special_opener t :
  special t ->
  (1 <? open_len t) = true /\
  exists a r, take (open_len t - 1) (drop 1 (open t)) = a :: r /\ drop 1 (open t) = a :: r.
Proof.
  intros (Ht & Ho & Hc). table_cases Ht; try done; (split; [done|]); by eexists _, _.
Qed.

Lemma special_type t : special t -> (type t =? TAG_ELEMENT_CLOSE) = false /\
  (type t =? TAG_ELEMENT_OPEN) = false.
Proof. intros (Ht & Ho & Hc). split; by apply Nat.eqb_neq. Qed.

(** xml_key_append on the key of a special tag. *)
Lemma xml_key_append_view t c st d s :
  special t -> scan_inv t c st ->
  xml_key_append st d = Ok s ->
  same_ctl st s /\ buffer_ok e_key s /\
  length (st_heap s) = length (st_heap st) /\
  st_length s <> 0 /\
  key_at c s = Some (key_view t c st ++ d).
Proof.
  intros Hsp (Ht & Hc & Hlt & Hp & Hb & Hcur & Hz) H.
  destruct (special_type t Hsp) as [Hty _].
  destruct (special_opener t Hsp) as (Hop & a & r & Hop1 & Hop2).
  rewrite xml_key_append_eq, Hc, Ht, Hty in H. unfold key_opener in H.
  destruct (lookup_lt_is_Some_2 _ _ Hlt) as [e He]. rewrite Hop in H.
  unfold key_view. rewrite Hop2.
  destruct (st_length st =? 0) eqn:Hl; cbn [andb] in H.
  - apply bind_Ok in H as (s1 & H1 & H). rewrite Hop1 in H1.
    apply (append_current_key_view st c e) in H1 as (Hs1 & Hb1 & Hh1 & Hk1 & Hl1);
      [|done..].
    assert (e_key <$> st_heap s1 !! c = Some (Some (a :: r))) as Hk1'.
    { unfold key_at in Hk1. unfold cur_buf in Hk1. rewrite Hl in Hk1.
      destruct (st_heap s1 !! c); [cbn in *; by rewrite Hk1|done]. }
    destruct (st_heap s1 !! c) as [e1|] eqn:He1; [|done]. injection Hk1' as Hk1'.
    destruct Hs1 as (Hc1 & Hrest1).
    apply (append_current_key_view s1 c e1) in H as (Hs2 & Hb2 & Hh2 & Hk2 & Hl2);
      [|done|congruence|done|simpl in Hl1; lia].
    split_and!; [by eapply same_ctl_trans|done|congruence|simpl in Hl1; lia|].
    rewrite Hk2. unfold cur_buf. rewrite Hk1'.
    replace (st_length s1 =? 0) with false by (symmetry; apply Nat.eqb_neq; simpl in Hl1; lia).
    done.
  - cbn [bind] in H. apply Nat.eqb_neq in Hl as Hl'.
    apply (append_current_key_view st c e) in H as (Hs2 & Hb2 & Hh2 & Hk2 & Hl2);
      [|done..].
    split_and!; [done|done|done|lia|].
    rewrite Hk2. unfold cur_buf, key_at. rewrite Hl, He. done.
Qed.

Lemma take_S_nth (l : list ascii) (n : nat) :
  n < length l -> take (S n) l = take n l ++ [nth n l NUL].
Proof.
  revert n. induction l as [|a l IH]; intros n Hn; [simpl in Hn; lia|].
  destruct n as [|n]; [done|]. simpl in *. f_equal. apply IH. lia.
Qed.

Lemma close_at_NUL t n :
  special t -> n <= length (close t) ->
  Ascii.eqb (close_at t n) NUL = bool_decide (n = length (close t)).
Proof.
  intros (Ht & Ho & Hc) Hn. unfold close_at.
  table_cases Ht; try done; cbn in Hn |- *;
    repeat (destruct n as [|n]; [done|]); lia.
Qed.

Lemma close_nonempty t : special t -> 0 < length (close t).
Proof. intros (Ht & Ho & Hc). table_cases Ht; try done; cbn; lia. Qed.

Lemma removelast_snoc (l : list ascii) (x : ascii) : removelast (l ++ [x]) = l.
Proof. apply removelast_last. Qed.

Lemma scan_inv_key t c st :
  scan_inv t c st -> st_length st <> 0 ->
  key_at c st = Some (key_view t c st).
Proof.
  intros (Ht & Hc & Hlt & Hp & Hb & Hcur & Hz) Hl.
  destruct (Hb Hl) as (c' & e & k & Hc' & He & Hk & _). simplify_eq.
  unfold key_view, key_at. apply Nat.eqb_neq in Hl. rewrite Hl, He. cbn. by rewrite Hk.
Qed.

(** The match of a character of the closing pattern: the state before
    the cursor moves. *)
Lemma tag_body_match_key t c st d m st1 :
  special t -> scan_inv t c st ->
  st_cursor st = 0 \/ m = 0 ->
  (if st_cursor st =? 0 then xml_key_append st (take m d) else Ok st) = Ok st1 ->
  same_ctl st st1 /\ buffer_ok e_key st1 /\
  length (st_heap st1) = length (st_heap st) /\ st_length st1 <> 0 /\
  key_at c st1 = Some (key_view t c st ++ take m d).
Proof.
  intros Hsp Hi Hor H. destruct (st_cursor st =? 0) eqn:Hc.
  - by eapply xml_key_append_view.
  - injection H as <-. apply Nat.eqb_neq in Hc. destruct Hor as [? | ->]; [done|].
    pose proof Hi as (Ht & Hcu & Hlt & Hp & Hb & Hcur & Hz).
    assert (st_length st <> 0) as Hl by (intros Hl; by apply Hz in Hl).
    split_and!; [apply same_ctl_refl|done|done|done|].
    rewrite take_0, app_nil_r. by apply scan_inv_key.
Qed.

(** The match of a character of the closing pattern of a special tag:
    what it has read and, when the pattern is complete, the key it
    leaves. *)
Lemma tag_body_match_view t c st d m ctl :
  special t -> scan_inv t c st ->
  d !! m = Some (close_at t (st_cursor st)) ->
  st_cursor st = 0 \/ m = 0 ->
  tag_body_match st t d m = Ok ctl ->
  match ctl with
  | Continue s d' =>
      d' = drop (S m) d /\ scan_inv t c s /\ raw t c s = raw t c st ++ take (S m) d
  | Break s d' =>
      d' = drop (S m) d /\ st_parser s = Some parse_content /\
      key_at c s = Some (removelast (raw t c st ++ take (S m) d)) /\
      exists x, raw t c st ++ take (S m) d = x ++ close t
  end.
Proof.
  intros Hsp Hi Hd Hor H. unfold tag_body_match in H.
  apply bind_Ok in H as (st1 & H1 & H).
  apply (tag_body_match_key t c) in H1 as (Hs1 & Hb1 & Hh1 & Hl1 & Hk1); [|done..].
  pose proof Hi as (Ht & Hcu & Hlt & Hp & Hb & Hcur & Hz).
  destruct Hs1 as (Hc1 & Ht1 & Hp1 & Hn1 & He1 & Hr1).
  cbn [st_cursor with_cursor] in H. rewrite Hn1 in H.
  rewrite (close_at_NUL t (S (st_cursor st))) in H by (done || lia).
  assert (take (S m) d = take m d ++ [close_at t (st_cursor st)]) as Htk
    by (by apply take_S_r).
  assert (take (S (st_cursor st)) (close t) =
          take (st_cursor st) (close t) ++ [close_at t (st_cursor st)]) as Htc
    by (by apply take_S_nth).
  assert (key_view t c st ++ take m d ++ take (st_cursor st) (close t) =
          (key_view t c st ++ take (st_cursor st) (close t)) ++ take m d) as Hswap.
  { destruct Hor as [Hn0 | ->]; [rewrite Hn0|]; by rewrite ?take_0, ?app_nil_r. }
  unfold raw. rewrite Htk.
  case_bool_decide as Hfin.
  - apply bind_Ok in H as (st3 & H3 & H). apply bind_Ok in H as (st4 & H4 & H).
    apply bind_Ok in H as (st5 & H5 & H). injection H as <-.
    destruct (special_type t Hsp) as [_ Hty]. rewrite Hty in H4, H5.
    injection H4 as <-. cbn [negb orb] in H5.
    assert (key_at c st3 =
              Some (key_view t c st ++ take m d ++ take (st_cursor st) (close t)) /\
            st_current st3 = Some c /\ c < length (st_heap st3)) as (Hk3 & Hc3 & Hlt3).
    { destruct (1 <? S (st_cursor st)) eqn:Hone.
      - destruct (lookup_lt_is_Some_2 (st_heap st1) c) as [e1 He1']; [lia|].
        apply (append_current_key_view _ c e1) in H3 as (Hs3 & Hb3 & Hh3 & Hk3 & Hl3);
          [|done|cbn; congruence|done|by intros _].
        destruct Hs3 as (Hc3 & _). cbn in Hc3, Hh3.
        split_and!; [|congruence|lia].
        rewrite Hk3. unfold cur_buf. cbn [st_length with_cursor].
        apply Nat.eqb_neq in Hl1. rewrite Hl1.
        unfold key_at in Hk1. rewrite He1' in Hk1. cbn in Hk1. rewrite Hk1. cbn.
        by rewrite Nat.sub_0_r, <- app_assoc.
      - injection H3 as <-. cbn. apply Nat.ltb_ge in Hone.
        replace (st_cursor st) with 0 by lia. rewrite take_0, app_nil_r.
        split_and!; [done|congruence|lia]. }
    unfold xml_close_element, deref in H5. rewrite Hc3 in H5.
    destruct (lookup_lt_is_Some_2 _ _ Hlt3) as [e3 He3]. rewrite He3 in H5.
    injection H5 as <-. split_and!; [done|done| |].
    + change (key_at c (xml_close_tag (with_current (e_parent e3) st3)))
        with (key_at c st3).
      by rewrite Hk3, Hswap, app_assoc, removelast_snoc.
    + exists (key_view t c st ++ take m d).
      rewrite app_assoc, <- Hswap, <- !app_assoc, <- Htc.
      by rewrite (take_ge (close t)) by lia.
  - injection H as <-. split_and!; [done| |].
    + split_and!; cbn; try congruence; try lia; first [exact Hb1|by intros Hz'].
    + unfold key_view. cbn [st_length st_cursor with_cursor].
      apply Nat.eqb_neq in Hl1 as Hl1'. rewrite Hl1', Htc.
      change (key_at c (with_cursor (S (st_cursor st)) st1)) with (key_at c st1).
      rewrite Hk1. cbn [default].
      fold (key_view t c st). by rewrite !app_assoc, <- Hswap, !app_assoc.
Qed.

Lemma strchr_lookup (s : cstr) (c : ascii) (m : nat) :
  strchr s c = Some m -> s !! m = Some c.
Proof.
  revert m. induction s as [|x s IH]; intros m; simpl; [done|].
  destruct (Ascii.eqb x c) eqn:He.
  - intros [= <-]. apply Ascii.eqb_eq in He. by subst.
  - destruct (strchr s c) as [k|]; [|done]. intros [= <-]. by apply IH.
Qed.

(** One round of the tag body loop on a special tag. *)
Lemma tag_body_iter_view t c st d ctl :
  special t -> scan_inv t c st ->
  tag_body_iter st d = Ok ctl ->
  match ctl with
  | Continue s d' =>
      exists w, d = w ++ d' /\ scan_inv t c s /\ raw t c s = raw t c st ++ w
  | Break s d' =>
      st_parser s = Some parse_content ->
      exists w x, d = w ++ d' /\ raw t c st ++ w = x ++ close t /\
        key_at c s = Some (removelast (raw t c st ++ w))
  end.
Proof.
  intros Hsp Hi H. pose proof Hi as (Ht & Hcu & Hlt & Hp & Hb & Hcur & Hz).
  assert (Hm : forall st0 m ctl', scan_inv t c st0 -> raw t c st0 = raw t c st ->
            d !! m = Some (close_at t (st_cursor st0)) ->
            st_cursor st0 = 0 \/ m = 0 ->
            tag_body_match st0 t d m = Ok ctl' ->
            match ctl' with
            | Continue s d' =>
                exists w, d = w ++ d' /\ scan_inv t c s /\ raw t c s = raw t c st ++ w
            | Break s d' =>
                st_parser s = Some parse_content ->
                exists w x, d = w ++ d' /\ raw t c st ++ w = x ++ close t /\
                  key_at c s = Some (removelast (raw t c st ++ w))
            end).
  { intros st0 m ctl' Hi0 Hraw Hd Hor Hmatch.
    apply (tag_body_match_view t c) in Hmatch; [|done..].
    rewrite Hraw in Hmatch. destruct ctl' as [s d'|s d'].
    - destruct Hmatch as (-> & Hs & Hr). exists (take (S m) d).
      by rewrite take_drop.
    - destruct Hmatch as (-> & _ & Hk & x & Hx). intros _.
      exists (take (S m) d), x. by rewrite take_drop. }
  unfold tag_body_iter in H. rewrite Ht in H.
  destruct d as [|ch d0]; [injection H as <-; intros; congruence|].
  destruct (st_cursor st =? 0) eqn:Hc0.
  - apply Nat.eqb_eq in Hc0.
    destruct (strchr (ch :: d0) (close_at t 0)) as [m|] eqn:Hs.
    + apply (Hm st m); [done|done| |by left|done].
      rewrite Hc0. by apply strchr_lookup.
    + apply bind_Ok in H as (st1 & H1 & H). injection H as <-.
      apply (xml_key_append_view t c) in H1 as ((_ & _ & Hp1 & _) & _); [|done..].
      intros; congruence.
  - destruct (Ascii.eqb (close_at t (st_cursor st)) ch) eqn:Hch.
    + apply (Hm st 0); [done|done| |by right|done].
      apply Ascii.eqb_eq in Hch. by rewrite Hch.
    + apply bind_Ok in H as (st1 & H1 & H).
      apply (xml_key_append_view t c) in H1 as (Hs1 & Hb1 & Hh1 & Hl1 & Hk1); [|done..].
      destruct Hs1 as (Hc1 & Ht1 & Hp1 & Hn1 & He1 & Hr1).
      assert (scan_inv t c (with_cursor 0 st1)) as Hi2.
      { split_and!; cbn; try congruence; try lia; done. }
      assert (raw t c (with_cursor 0 st1) = raw t c st) as Hraw2.
      { unfold raw at 1, key_view. cbn [st_length st_cursor with_cursor].
        apply Nat.eqb_neq in Hl1. rewrite Hl1, take_0, app_nil_r.
        change (key_at c (with_cursor 0 st1)) with (key_at c st1). by rewrite Hk1. }
      destruct (Ascii.eqb (close_at t 0) ch) eqn:Hch0.
      * apply (Hm (with_cursor 0 st1) 0); [done|done| |by left|done].
        apply Ascii.eqb_eq in Hch0. cbn. congruence.
      * injection H as <-. exists []. by rewrite app_nil_r.
Qed.

Lemma tag_body_loop_view t c f : forall st d s d',
  special t -> scan_inv t c st ->
  tag_body_loop f st d = Ok (s, d') ->
  st_parser s = Some parse_content ->
  exists w x, d = w ++ d' /\ raw t c st ++ w = x ++ close t /\
    key_at c s = Some (removelast (raw t c st ++ w)).
Proof.
  induction f as [|f IH]; intros st d s d' Hsp Hi H Hps.
  - destruct d; [|done]. injection H as <- _. destruct Hi as (_ & _ & _ & Hp & _). congruence.
  - destruct d as [|ch d].
    { injection H as <- _. destruct Hi as (_ & _ & _ & Hp & _). congruence. }
    cbn [tag_body_loop] in H. apply bind_Ok in H as (ctl & Hit & H).
    apply (tag_body_iter_view t c) in Hit; [|done..].
    destruct ctl as [s2 d2|s2 d2].
    + destruct Hit as (w & Hd & Hi2 & Hraw).
      destruct (IH _ _ _ _ Hsp Hi2 H Hps) as (w2 & x & Hd2 & Hx & Hk).
      exists (w ++ w2), x. rewrite Hraw, <- !app_assoc in *.
      split_and!; [by rewrite Hd, Hd2|done|done].
    + injection H as <- <-. by apply Hit.
Qed.

(** C2, as the claim states it, fails on the closing tag of an
    element: its opening pattern has two bytes and its delimiter is
    matched in full, but nothing of it is put into a key.  After
    [<a></b>] the only key of the tree is that of the element a. *)
Lemma closing_tag_key_not_stored :
  map e_key (tree_of (cs "<a></b>")) = [None; Some (cs "a")] /\
  ~ (exists e, e ∈ tree_of (cs "<a></b>") /\ e_key e = Some (cs "/b")).
Proof.
  split; [vm_compute; reflexivity|].
  intros (e & He & Hk). vm_compute in He.
  repeat (apply elem_of_cons in He as [->|He]; [discriminate Hk|]).
  by apply elem_of_nil in He.
Qed.

(** The parser at the start of the body of a comment in the element a. *)
Definition st_in_comment : xml_state :=
  Eval vm_compute in
    match xml_parse_tag_opening (with_parser (Some parse_tag_opening) st_after_open)
            (cs "<!--x") with
    | Ok (s, _) => s
    | _ => state_zero
    end.

Definition st_after_comment : xml_state :=
  Eval vm_compute in
    match xml_parse_tag_body st_in_comment (cs "x-y-->z") with
    | Ok (s, _) => s
    | _ => state_zero
    end.

(** ** A closed leaf and its text *)

(** Element [p] with its only child [k], the text: [p] is [ep] apart
    from its next link, [k] is [ek], nothing else is below [p] or [k] and
    only [p] has [k] as last child. *)
Definition leaf_heap (p k : nat) (ep ek : xml_element) (h : list xml_element) : Prop :=
  p <> k /\
  (forall i e, h !! i = Some e -> i <> k -> e_parent e <> Some p /\ e_parent e <> Some k) /\
  (exists e, h !! p = Some e /\ set_next None e = set_next None ep) /\
  h !! k = Some ek /\
  (forall i e, h !! i = Some e -> e_last_child e = Some k -> i = p).

Definition leaf_ok (p k c : nat) : Prop := c <> p /\ c <> k.

Lemma leaf_insert_other p k ep ek h c e' :
  leaf_heap p k ep ek h -> leaf_ok p k c -> c < length h ->
  e_parent e' <> Some p -> e_parent e' <> Some k -> e_last_child e' <> Some k ->
  leaf_heap p k ep ek (<[c := e']> h).
Proof.
  intros (Hpk & Hpar & (e & He & Heq) & Hk & Hlast) [Hcp Hck] Hlt H1 H2 H3.
  split_and!; [done| | | |].
  - intros i ei Hi Hik. destruct (decide (i = c)) as [->|Hne].
    + rewrite list_lookup_insert_eq in Hi by done. by injection Hi as <-.
    + rewrite list_lookup_insert_ne in Hi by done. by eapply Hpar.
  - exists e. by rewrite list_lookup_insert_ne.
  - by rewrite list_lookup_insert_ne.
  - intros i ei Hi Hl. destruct (decide (i = c)) as [->|Hne].
    + rewrite list_lookup_insert_eq in Hi by done. injection Hi as <-. done.
    + rewrite list_lookup_insert_ne in Hi by done. by eapply Hlast.
Qed.

Lemma leaf_elem p k ep ek h c e :
  leaf_heap p k ep ek h -> leaf_ok p k c -> h !! c = Some e ->
  e_parent e <> Some p /\ e_parent e <> Some k /\ e_last_child e <> Some k.
Proof.
  intros (Hpk & Hpar & _ & _ & Hlast) [Hcp Hck] He.
  destruct (Hpar c e He Hck) as [H1 H2]. split_and!; [done..|].
  intros Hl. by apply (Hlast c e He) in Hl.
Qed.

Lemma leaf_alloc p k ep ek h :
  leaf_heap p k ep ek h ->
  leaf_heap p k ep ek (h ++ [element_zero]) /\ leaf_ok p k (length h).
Proof.
  intros (Hpk & Hpar & (e & He & Heq) & Hk & Hlast).
  pose proof (lookup_lt_Some _ _ _ He). pose proof (lookup_lt_Some _ _ _ Hk).
  split; [|split; lia]. split_and!; [done| | | |].
  - intros i e' Hi Hik. apply lookup_app_Some in Hi as [Hi|[_ Hi]]; [by eapply Hpar|].
    apply list_lookup_singleton_Some in Hi as [_ <-]. done.
  - exists e. split; [|done]. by apply lookup_app_l_Some.
  - by apply lookup_app_l_Some.
  - intros i e' Hi Hl. apply lookup_app_Some in Hi as [Hi|[_ Hi]]; [by eapply Hlast|].
    apply list_lookup_singleton_Some in Hi as [_ <-]. done.
Qed.

Lemma leaf_content p k ep ek h c e f :
  leaf_heap p k ep ek h -> leaf_ok p k c -> h !! c = Some e -> keeps_links f ->
  leaf_heap p k ep ek (<[c := f e]> h).
Proof.
  intros Hl Hc He Hf. destruct (leaf_elem _ _ _ _ _ _ _ Hl Hc He) as (H1 & H2 & H3).
  destruct (Hf e) as (Hfp & _ & Hfl & _).
  apply leaf_insert_other; [done|done|by eapply lookup_lt_Some|..]; congruence.
Qed.

Lemma leaf_parent p k ep ek h c e q :
  leaf_heap p k ep ek h -> leaf_ok p k c -> leaf_ok p k q -> h !! c = Some e ->
  leaf_heap p k ep ek (<[c := set_parent (Some q) e]> h).
Proof.
  intros Hl Hc [Hq1 Hq2] He. destruct (leaf_elem _ _ _ _ _ _ _ Hl Hc He) as (H1 & H2 & H3).
  apply leaf_insert_other; [done|done|by eapply lookup_lt_Some|..]; cbn; congruence.
Qed.

Lemma leaf_last p k ep ek h c e n :
  leaf_heap p k ep ek h -> leaf_ok p k c -> leaf_ok p k n -> h !! c = Some e ->
  leaf_heap p k ep ek (<[c := set_last_child (Some n) e]> h).
Proof.
  intros Hl Hc [Hn1 Hn2] He. destruct (leaf_elem _ _ _ _ _ _ _ Hl Hc He) as (H1 & H2 & H3).
  apply leaf_insert_other; [done|done|by eapply lookup_lt_Some|..]; cbn; congruence.
Qed.

Lemma leaf_first p k ep ek h c e n :
  leaf_heap p k ep ek h -> leaf_ok p k c -> leaf_ok p k n -> h !! c = Some e ->
  leaf_heap p k ep ek (<[c := set_first_child (Some n) (set_last_child (Some n) e)]> h).
Proof.
  intros Hl Hc [Hn1 Hn2] He. destruct (leaf_elem _ _ _ _ _ _ _ Hl Hc He) as (H1 & H2 & H3).
  apply leaf_insert_other; [done|done|by eapply lookup_lt_Some|..]; cbn; congruence.
Qed.

Lemma leaf_next p k ep ek h q qe l le n :
  leaf_heap p k ep ek h -> leaf_ok p k q -> h !! q = Some qe ->
  e_last_child qe = Some l -> h !! l = Some le ->
  leaf_heap p k ep ek (<[l := set_next n le]> h).
Proof.
  intros Hl Hq Hqe Hlast Hle.
  destruct (leaf_elem _ _ _ _ _ _ _ Hl Hq Hqe) as (_ & _ & Hlk).
  assert (l <> k) as Hne by congruence.
  destruct (decide (l = p)) as [->|Hnp].
  - destruct Hl as (Hpk & Hpar & (e & He & Heq) & Hk & Hlc).
    rewrite He in Hle. injection Hle as <-.
    pose proof (lookup_lt_Some _ _ _ He) as Hlt.
    split_and!; [done| | | |].
    + intros i ei Hi Hik. destruct (decide (i = p)) as [->|Hip].
      * rewrite list_lookup_insert_eq in Hi by done. injection Hi as <-.
        by apply (Hpar p e).
      * rewrite list_lookup_insert_ne in Hi by done. by eapply Hpar.
    + exists (set_next n e). split; [|done]. by apply list_lookup_insert_eq.
    + by rewrite list_lookup_insert_ne.
    + intros i ei Hi Hil. destruct (decide (i = p)) as [->|Hip]; [done|].
      rewrite list_lookup_insert_ne in Hi by done. by eapply Hlc.
  - assert (leaf_ok p k l) as Hokl by done.
    destruct (leaf_elem _ _ _ _ _ _ _ Hl Hokl Hle) as (H1 & H2 & H3).
    apply leaf_insert_other; [done|done|by eapply lookup_lt_Some|..]; cbn; congruence.
Qed.

Lemma leaf_up p k ep ek h c e q :
  leaf_heap p k ep ek h -> leaf_ok p k c -> h !! c = Some e -> e_parent e = Some q ->
  leaf_ok p k q.
Proof.
  intros Hl Hc He Hq. destruct (leaf_elem _ _ _ _ _ _ _ Hl Hc He) as (H1 & H2 & _).
  split; congruence.
Qed.

Lemma parse_loop_leaf p k ep ek f st d s :
  framed (leaf_heap p k ep ek) (leaf_ok p k) st ->
  parse_loop f st d = Ok s ->
  framed (leaf_heap p k ep ek) (leaf_ok p k) s.
Proof.
  apply (parse_loop_framed (leaf_heap p k ep ek) (leaf_ok p k)
           (leaf_alloc p k ep ek) (leaf_content p k ep ek) (leaf_parent p k ep ek)
           (leaf_last p k ep ek) (leaf_first p k ep ek) (leaf_next p k ep ek)
           (leaf_up p k ep ek)).
Qed.

(** The content of a closed leaf is its text. *)
Lemma xml_content_leaf p k ep ek h text f :
  leaf_heap p k ep ek h ->
  e_first_child ep = Some k -> e_value ek = Some text -> e_next ek = None ->
  text <> [] -> NUL ∉ text ->
  xml_content (S (S f)) h (Some p) = Ok (Some text).
Proof.
  intros (Hpk & _ & (e & He & Heq) & Hk & _) Hfc Hv Hn Hne Hnul.
  apply (f_equal e_first_child) in Heq. cbn in Heq. rewrite Hfc in Heq.
  destruct text as [|a x]; [done|].
  assert (Hlen : xml_content_len (S (S f)) h p = Ok (length (a :: x))).
  { cbn -[cstring]. unfold deref. rewrite He. cbn -[cstring]. rewrite Heq.
    cbn -[cstring]. unfold deref. rewrite Hk. cbn -[cstring]. rewrite Hv, Hn.
    rewrite (cstring_id _ Hnul). by destruct f. }
  assert (Hcpy : xml_content_cpy (S (S f)) h p [] = Ok (a :: x)).
  { cbn -[cstring]. unfold deref. rewrite He. cbn -[cstring]. rewrite Heq.
    cbn -[cstring]. unfold deref. rewrite Hk. cbn -[cstring]. rewrite Hv, Hn.
    rewrite (cstring_id _ Hnul). by destruct f. }
  unfold xml_content. rewrite Hlen. cbn [bind]. rewrite Hcpy. reflexivity.
Qed.

(** The state in which the text of a leaf starts: the tag of element
    [p] has just been completed, [p] has no children yet, and no link of
    the arena points to [p] as a parent or beyond the arena. *)
Definition fresh_leaf (st : xml_state) (p : nat) (pe : xml_element) : Prop :=
  st_parser st = Some parse_content /\ st_tag st = None /\
  st_length st = 0 /\ st_cursor st = 0 /\
  st_current st = Some p /\ st_heap st !! p = Some pe /\ e_first_child pe = None /\
  forall i e, st_heap st !! i = Some e ->
    e_parent e <> Some p /\ e_parent e <> Some (length (st_heap st)) /\
    e_last_child e <> Some (length (st_heap st)).

(** The leaf element with its text linked below it, and the text. *)
Definition leaf_parent_elem (h : list xml_element) (pe : xml_element) : xml_element :=
  set_first_child (Some (length h)) (set_last_child (Some (length h)) pe).
Definition leaf_text_elem (p : nat) (text : cstr) : xml_element :=
  set_value (Some text) (set_parent (Some p) element_zero).

(** The arena after the text has been appended. *)
Definition leaf_arena (h : list xml_element) (p : nat) (pe : xml_element)
    (text : cstr) : list xml_element :=
  <[length h := leaf_text_elem p text]>
    (<[p := leaf_parent_elem h pe]>
       (<[length h := set_parent (Some p) element_zero]> (h ++ [element_zero]))).

Lemma leaf_arena_lookup h p pe text i :
  h !! p = Some pe ->
  leaf_arena h p pe text !! i =
    if decide (i = length h) then Some (leaf_text_elem p text)
    else if decide (i = p) then Some (leaf_parent_elem h pe)
    else h !! i.
Proof.
  intros Hp. pose proof (lookup_lt_Some _ _ _ Hp) as Hlt. unfold leaf_arena.
  destruct (decide (i = length h)) as [->|Hik].
  - apply list_lookup_insert_eq. rewrite !length_insert, length_app. simpl. lia.
  - rewrite list_lookup_insert_ne by done.
    destruct (decide (i = p)) as [->|Hip].
    + apply list_lookup_insert_eq. rewrite !length_insert, length_app. simpl. lia.
    + rewrite !list_lookup_insert_ne by done.
      destruct (decide (i < length h)) as [Hi|Hi]; [by apply lookup_app_l|].
      rewrite !lookup_ge_None_2; [done|lia|rewrite length_app; simpl; lia].
Qed.

Lemma xml_element_create_leaf h p pe :
  h !! p = Some pe -> e_first_child pe = None ->
  xml_element_create h (Some p) =
  Ok (<[p := leaf_parent_elem h pe]>
        (<[length h := set_parent (Some p) element_zero]> (h ++ [element_zero])),
      length h).
Proof.
  intros Hp Hfc. pose proof (lookup_lt_Some _ _ _ Hp) as Hlt.
  unfold xml_element_create, xml_element_add, store, deref.
  rewrite list_lookup_middle by done. cbn [bind].
  rewrite (list_lookup_insert_ne (h ++ [element_zero]) (length h) p) by lia.
  rewrite lookup_app_l by done.
  rewrite Hp. cbn [bind]. by rewrite Hfc.
Qed.

(** The state after the text of the leaf. *)
Definition leaf_state (st : xml_state) (p : nat) (pe : xml_element) (text : cstr)
  : xml_state :=
  with_length (length text)
    (with_heap (leaf_arena (st_heap st) p pe text)
       (with_current (Some (length (st_heap st))) st)).

Lemma xml_value_append_leaf st p pe a x :
  fresh_leaf st p pe ->
  xml_value_append st (a :: x) = Ok (leaf_state st p pe (a :: x)).
Proof.
  intros (Hpa & Htag & Hl & Hcur & Hc & Hp & Hfc & Hfree).
  pose proof (lookup_lt_Some _ _ _ Hp) as Hlt.
  rewrite xml_value_append_eq. unfold value_element. rewrite Hl, Hc. cbn [Nat.eqb].
  rewrite (xml_element_create_leaf _ _ _ Hp Hfc). cbn [bind].
  unfold append_current_value.
  erewrite append_current_cons;
    [|by intros Hn; cbn in Hn|reflexivity|].
  2: { cbn. rewrite list_lookup_insert_ne by lia.
       apply list_lookup_insert_eq. rewrite length_app. simpl. lia. }
  unfold leaf_state, leaf_arena, leaf_text_elem, cur_buf. cbn. rewrite Hl. cbn.
  f_equal.
Qed.

Definition pat_open : xml_tag_pattern :=
  {| type := TAG_ELEMENT_OPEN; open := cs "<"; open_len := 1; close := cs ">" |}.
Definition pat_close : xml_tag_pattern :=
  {| type := TAG_ELEMENT_CLOSE; open := cs "</"; open_len := 2; close := cs ">" |}.

Lemma match_opening_lt : match_opening 0 "<"%char = (Some pat_open, 0).
Proof. reflexivity. Qed.

Lemma match_opening_slash : match_opening 1 "/"%char = (Some pat_close, 1).
Proof. reflexivity. Qed.

Lemma match_opening_2 (c : ascii) :
  c <> "-"%char -> c <> "["%char -> match_opening 2 c = (None, 0).
Proof.
  intros H1 H2. unfold match_opening. cbn -[Ascii.eqb].
  destruct (Ascii.eqb "-" c) eqn:E1; [apply Ascii.eqb_eq in E1; congruence|].
  destruct (Ascii.eqb "[" c) eqn:E2; [apply Ascii.eqb_eq in E2; congruence|].
  reflexivity.
Qed.

(** The name of a closing tag does not start like a comment or a CDATA
    section behind the two bytes of the opening pattern. *)
Definition close_name_ok (name : cstr) : Prop :=
  match name with
  | c :: _ => c <> "-"%char /\ c <> "["%char
  | [] => True
  end.

Lemma close_head name rest :
  close_name_ok name ->
  exists c r, name ++ ">"%char :: rest = c :: r /\ c <> "-"%char /\ c <> "["%char.
Proof.
  destruct name as [|c name]; intros H.
  - exists ">"%char, rest. by split_and!.
  - exists c, (name ++ ">"%char :: rest). destruct H. by split_and!.
Qed.

(** The state after the closing tag of the leaf. *)
Definition leaf_closed (st : xml_state) (p : nat) (pe : xml_element) (text : cstr)
  : xml_state :=
  xml_close_tag
    (with_current (e_parent pe)
       (with_tag (Some pat_close) (with_heap (leaf_arena (st_heap st) p pe text) st))).

Lemma run_leaf_close st p pe a x name rest :
  fresh_leaf st p pe -> close_name_ok name -> ">"%char ∉ name ->
  run (leaf_state st p pe (a :: x)) ("<"%char :: "/"%char :: name ++ ">"%char :: rest) =
  run (leaf_closed st p pe (a :: x)) rest.
Proof.
  intros (Hpa & Htag & Hl & Hcur & Hc & Hp & Hfc & Hfree) Hname Hgt.
  destruct (close_head name rest Hname) as (c & r & Hd & Hc1 & Hc2).
  destruct st as [h ro cu tg len cur em pa]. simpl in Hpa, Htag, Hl, Hcur, Hc, Hp. subst.
  unfold leaf_state.
  rewrite run_cons.
  cbn -[run leaf_arena match_opening xml_parse_tag_body xml_parse_tag_opening].
  rewrite run_cons.
  cbn -[run leaf_arena match_opening xml_parse_tag_body].
  rewrite match_opening_lt.
  cbn -[run leaf_arena match_opening xml_parse_tag_body].
  rewrite match_opening_slash.
  cbn -[run leaf_arena match_opening xml_parse_tag_body].
  rewrite Hd.
  cbn -[run leaf_arena match_opening xml_parse_tag_body].
  rewrite (match_opening_2 c Hc1 Hc2).
  cbn -[run leaf_arena match_opening xml_parse_tag_body].
  unfold deref.
  rewrite (leaf_arena_lookup _ _ _ _ _ Hp). rewrite decide_True by done.
  cbn -[run leaf_arena match_opening xml_parse_tag_body].
  rewrite run_cons.
  cbn -[run leaf_arena match_opening xml_parse_tag_body].
  rewrite <- Hd.
  erewrite (xml_parse_tag_body_close _ pat_close p (leaf_parent_elem h pe)); try done.
  all: cbn -[leaf_arena run]; try reflexivity.
  rewrite (leaf_arena_lookup _ _ _ _ _ Hp).
  pose proof (lookup_lt_Some _ _ _ Hp).
  rewrite decide_False by lia. by rewrite decide_True.
Qed.

Lemma run_leaf_text st p pe a x :
  fresh_leaf st p pe -> "<"%char ∉ a :: x ->
  run st (a :: x) = Ok (leaf_state st p pe (a :: x)).
Proof.
  intros Hf Hn. pose proof Hf as (Hpa & _).
  rewrite run_cons, Hpa. cbn [call_parser]. unfold xml_parse_content.
  change (cs "<") with ["<"%char]. rewrite (strcspn_all _ _ Hn).
  rewrite firstn_all, drop_all.
  change (0 <? length (a :: x)) with true. cbv iota.
  by rewrite (xml_value_append_leaf st p pe a x Hf).
Qed.

Lemma wf_fresh_leaf st p pe : fresh_leaf st p pe -> wf st.
Proof.
  intros (Hpa & Htag & Hl & _). split.
  - intros t. by rewrite Htag.
  - rewrite Hpa. intros Hn. by rewrite Hl in Hn.
Qed.

Lemma framed_leaf_closed st p pe text :
  fresh_leaf st p pe ->
  framed (leaf_heap p (length (st_heap st)) (leaf_parent_elem (st_heap st) pe)
            (leaf_text_elem p text))
         (leaf_ok p (length (st_heap st)))
         (leaf_closed st p pe text).
Proof.
  intros (Hpa & Htag & Hl & Hcur & Hc & Hp & Hfc & Hfree).
  pose proof (lookup_lt_Some _ _ _ Hp) as Hlt.
  destruct (Hfree p pe Hp) as (Hpp & Hpk & Hpl).
  split; [|cbn; intros c Hq; split; congruence].
  cbn -[leaf_arena]. split_and!; [lia| | | |].
  - intros i e Hi Hik. rewrite (leaf_arena_lookup _ _ _ _ _ Hp) in Hi.
    rewrite decide_False in Hi by done.
    destruct (decide (i = p)) as [->|Hip]; [by injection Hi as <-|].
    destruct (Hfree i e Hi) as (? & ? & ?). done.
  - exists (leaf_parent_elem (st_heap st) pe). split; [|done].
    rewrite (leaf_arena_lookup _ _ _ _ _ Hp).
    rewrite decide_False by lia. by rewrite decide_True.
  - rewrite (leaf_arena_lookup _ _ _ _ _ Hp). by rewrite decide_True.
  - intros i e Hi Hlast. rewrite (leaf_arena_lookup _ _ _ _ _ Hp) in Hi.
    destruct (decide (i = length (st_heap st))) as [->|Hik];
      [injection Hi as <-; done|].
    destruct (decide (i = p)) as [->|Hip]; [done|].
    destruct (Hfree i e Hi) as (? & ? & ?). done.
Qed.

(** * Further properties *)

(** ** Any number of chunks *)

Lemma parse_loop_wf f : forall st d s,
  wf st -> parse_loop f st d = Ok s -> wf s.
Proof.
  induction f as [|f IH]; intros st d s Hwf H.
  - destruct d; [|done]. by injection H as <-.
  - destruct d as [|c d]; [by injection H as <-|].
    cbn [parse_loop] in H.
    destruct (st_parser st) as [p|] eqn:Hp; [|done].
    apply bind_Ok in H as ([st' d'] & Hc & H).
    apply (IH st' d' s); [|done]. by eapply call_parser_wf.
Qed.

(** Feeding the chunks of a list to xml_parse_chunk, one call after the
    other on the same state, up to the first call that fails. *)
Fixpoint xml_parse_chunks (st : xml_state) (ds : list cstr) : result xml_state :=
  match ds with
  | [] => Ok st
  | d :: ds' => do s <- xml_parse_chunk st (Some d); xml_parse_chunks s ds'
  end.

Lemma xml_parse_chunks_run ds : forall st,
  wf st -> is_Some (st_root st) -> is_Some (st_parser st) ->
  xml_parse_chunks st ds = run st (concat ds).
Proof.
  induction ds as [|d ds IH]; intros st Hwf Hr Hp; [done|].
  cbn [xml_parse_chunks concat].
  rewrite (run_app _ _ _ _ (Nat.le_refl _) Hwf).
  rewrite xml_parse_chunk_run, chunk_init_id by done.
  destruct (run st d) as [s| | |] eqn:H; try done. cbn [bind].
  pose proof (parse_loop_keeps _ _ _ _ H) as [H1 H2].
  apply IH; [by eapply parse_loop_wf|by rewrite H1|auto].
Qed.

(** X1.  A document may be fed in any number of pieces: calling
    xml_parse_chunk on a fresh state with the chunks of a non-empty list,
    one after the other, ends exactly as one call with their
    concatenation does, in the same state when the calls succeed and with
    the same failure when one of them fails. *)
Theorem xml_parse_chunks_concat (d : cstr) (ds : list cstr) :
  xml_parse_chunks state_zero (d :: ds) =
  xml_parse_chunk state_zero (Some (concat (d :: ds))).
Proof.
  cbn [xml_parse_chunks concat]. rewrite !xml_parse_chunk_run.
  rewrite (run_app _ _ _ _ (Nat.le_refl _) wf_chunk_init_zero).
  destruct (run (chunk_init state_zero) d) as [s| | |] eqn:H; try done. cbn [bind].
  pose proof (parse_loop_keeps _ _ _ _ H) as [H1 H2].
  apply xml_parse_chunks_run;
    [by apply (parse_loop_wf _ _ _ _ wf_chunk_init_zero H)|by rewrite H1|apply H2; by eexists].
Qed.

(** ** Closed subtrees *)

(** The elements of [S] are closed under children, [k] is the only one
    of them that is the last child of an element outside, and all of them
    are as they are in [h0], the next link of [k] apart. *)
Definition frozen (S : nat -> Prop) (k : nat) (h0 h : list xml_element) : Prop :=
  (forall i e, h !! i = Some e -> ~ S i ->
     (forall q, e_parent e = Some q -> ~ S q) /\
     (forall l, e_last_child e = Some l -> S l -> l = k)) /\
  (forall i, S i -> exists e0 e, h0 !! i = Some e0 /\ h !! i = Some e /\
     set_next None e = set_next None e0 /\ (i <> k -> e = e0)).

Lemma frozen_insert S k h0 h c e' :
  frozen S k h0 h -> ~ S c -> c < length h ->
  (forall q, e_parent e' = Some q -> ~ S q) ->
  (forall l, e_last_child e' = Some l -> S l -> l = k) ->
  frozen S k h0 (<[c := e']> h).
Proof.
  intros [Hout Hin] Hc Hlt Hpar Hlast. split.
  - intros i e Hi Hni. destruct (decide (i = c)) as [->|Hne].
    + rewrite list_lookup_insert_eq in Hi by done. by injection Hi as <-.
    + rewrite list_lookup_insert_ne in Hi by done. by apply (Hout i e).
  - intros i Hi. destruct (Hin i Hi) as (e0 & e & H0 & He & Heq).
    exists e0, e. split; [done|]. split; [|done].
    rewrite list_lookup_insert_ne; [done|]. by intros ->.
Qed.

Lemma frozen_alloc S k h0 h :
  frozen S k h0 h -> frozen S k h0 (h ++ [element_zero]) /\ ~ S (length h).
Proof.
  intros [Hout Hin]. split; [split|].
  - intros i e Hi Hni. apply lookup_app_Some in Hi as [Hi|[_ Hi]]; [by apply (Hout i e)|].
    apply list_lookup_singleton_Some in Hi as [_ <-]. done.
  - intros i Hi. destruct (Hin i Hi) as (e0 & e & H0 & He & Heq).
    exists e0, e. split; [done|]. split; [|done]. by apply lookup_app_l_Some.
  - intros Hs. destruct (Hin _ Hs) as (e0 & e & _ & He & _).
    apply lookup_lt_Some in He. lia.
Qed.

Lemma frozen_content S k h0 h c e f :
  frozen S k h0 h -> ~ S c -> h !! c = Some e -> keeps_links f ->
  frozen S k h0 (<[c := f e]> h).
Proof.
  intros Hf Hc He Hk. destruct (Hk e) as (Hp & _ & Hl & _).
  apply frozen_insert; [done|done|by eapply lookup_lt_Some|rewrite Hp|rewrite Hl];
    by apply (proj1 Hf c e).
Qed.

Lemma frozen_parent S k h0 h c e p :
  frozen S k h0 h -> ~ S c -> ~ S p -> h !! c = Some e ->
  frozen S k h0 (<[c := set_parent (Some p) e]> h).
Proof.
  intros Hf Hc Hp He.
  apply frozen_insert; [done|done|by eapply lookup_lt_Some| |].
  - by intros q [= <-].
  - by apply (proj1 Hf c e).
Qed.

Lemma frozen_last S k h0 h c e n :
  frozen S k h0 h -> ~ S c -> ~ S n -> h !! c = Some e ->
  frozen S k h0 (<[c := set_last_child (Some n) e]> h).
Proof.
  intros Hf Hc Hn He.
  apply frozen_insert; [done|done|by eapply lookup_lt_Some| |].
  - by apply (proj1 Hf c e).
  - by intros l [= <-] Hs.
Qed.

Lemma frozen_first S k h0 h c e n :
  frozen S k h0 h -> ~ S c -> ~ S n -> h !! c = Some e ->
  frozen S k h0 (<[c := set_first_child (Some n) (set_last_child (Some n) e)]> h).
Proof.
  intros Hf Hc Hn He.
  apply frozen_insert; [done|done|by eapply lookup_lt_Some| |].
  - by apply (proj1 Hf c e).
  - by intros l [= <-] Hs.
Qed.

Lemma frozen_next S k h0 h p pe l le n :
  frozen S k h0 h -> ~ S p -> h !! p = Some pe -> e_last_child pe = Some l ->
  h !! l = Some le -> frozen S k h0 (<[l := set_next n le]> h).
Proof.
  intros Hf Hp Hpe Hl Hle. pose proof (lookup_lt_Some _ _ _ Hle) as Hlt.
  destruct Hf as [Hout Hin]. split.
  - intros i e Hi Hni. destruct (decide (i = l)) as [->|Hne].
    + rewrite list_lookup_insert_eq in Hi by done. injection Hi as <-.
      by apply (Hout l le).
    + rewrite list_lookup_insert_ne in Hi by done. by apply (Hout i e).
  - intros i Hi. destruct (Hin i Hi) as (e0 & e & H0 & He & Heq & Hne).
    destruct (decide (i = l)) as [->|Hil].
    + assert (l = k) as -> by (by apply (Hout p pe Hpe Hp)).
      exists e0, (set_next n le). split; [done|].
      rewrite list_lookup_insert_eq by done. split; [done|].
      rewrite He in Hle. injection Hle as <-. by split.
    + exists e0, e. rewrite list_lookup_insert_ne by done. done.
Qed.

Lemma frozen_up S k h0 h c e q :
  frozen S k h0 h -> ~ S c -> h !! c = Some e -> e_parent e = Some q -> ~ S q.
Proof. intros [Hout _] Hc He Hq. by apply (Hout c e). Qed.

Lemma parse_loop_frozen S k h0 f st d s :
  framed (frozen S k h0) (fun c => ~ S c) st -> parse_loop f st d = Ok s ->
  framed (frozen S k h0) (fun c => ~ S c) s.
Proof.
  apply (parse_loop_framed (frozen S k h0) (fun c => ~ S c)
           (frozen_alloc S k h0) (frozen_content S k h0) (frozen_parent S k h0)
           (frozen_last S k h0) (frozen_first S k h0) (frozen_next S k h0)
           (frozen_up S k h0)).
Qed.

Lemma chunk_init_frozen S k h0 st :
  framed (frozen S k h0) (fun c => ~ S c) st ->
  framed (frozen S k h0) (fun c => ~ S c) (chunk_init st).
Proof.
  intros [HP Hc]. unfold chunk_init.
  destruct (st_root st); [by destruct (st_parser st)|].
  destruct (frozen_alloc S k h0 _ HP) as [HP1 Hn].
  assert (framed (frozen S k h0) (fun c => ~ S c)
            (with_current (Some (length (st_heap st)))
               (with_root (Some (length (st_heap st)))
                  (with_heap (st_heap st ++ [element_zero]) st)))) as Hf.
  { split; [done|]. by intros c [= <-]. }
  by destruct (st_parser _).
Qed.

(** X2.  What the insertion point has left is never touched again.
    Let [S] be a set of elements of the tree that is closed under
    children, with the insertion point outside, and let [k] be the only
    element of [S] that may be the last child of an element outside (the
    top of a subtree).  Then after any further chunk that is parsed with
    success every element of [S] is what it was (key, value, attributes,
    parent and children), apart from the next link of [k], which a new
    sibling may set; no element outside [S] has its parent in [S], so the
    subtree has gained nothing; and the insertion point is still
    outside. *)
Theorem closed_subtree_frozen (S : nat -> Prop) (k : nat) (st s : xml_state)
    (d : cstr) :
  (forall i, S i -> i < length (st_heap st)) ->
  (forall i e, st_heap st !! i = Some e -> ~ S i ->
     (forall q, e_parent e = Some q -> ~ S q) /\
     (forall l, e_last_child e = Some l -> S l -> l = k)) ->
  (forall c, st_current st = Some c -> ~ S c) ->
  xml_parse_chunk st (Some d) = Ok s ->
  (forall i, S i -> exists e0 e, st_heap st !! i = Some e0 /\ st_heap s !! i = Some e /\
     set_next None e = set_next None e0 /\ (i <> k -> e = e0)) /\
  (forall i e q, st_heap s !! i = Some e -> ~ S i -> e_parent e = Some q -> ~ S q) /\
  (forall c, st_current s = Some c -> ~ S c).
Proof.
  intros Hdom Hout Hcur H. rewrite xml_parse_chunk_run in H.
  assert (framed (frozen S k (st_heap st)) (fun c => ~ S c) st) as Hf.
  { split; [|done]. split; [done|]. intros i Hi.
    destruct (lookup_lt_is_Some_2 _ _ (Hdom i Hi)) as [e He].
    by exists e, e. }
  apply chunk_init_frozen in Hf.
  apply (parse_loop_frozen S k (st_heap st)) in H as [[Hout' Hin'] Hcur']; [|done].
  split_and!; [done| |done].
  intros i e q Hi Hni Hq. by apply (Hout' i e Hi Hni).
Qed.

Definition st_closed_a : xml_state :=
  Eval vm_compute in state_of (xml_parse_chunk state_zero (Some (cs "<r><a>x</a>"))).
Definition st_closed_a_more : xml_state :=
  Eval vm_compute in state_of (xml_parse_chunk st_closed_a (Some (cs "<b/>y</r>"))).

Lemma closed_subtree_frozen_witness :
  (forall i, i = 2 \/ i = 3 -> exists e0 e,
     st_heap st_closed_a !! i = Some e0 /\ st_heap st_closed_a_more !! i = Some e /\
     set_next None e = set_next None e0 /\ (i <> 2 -> e = e0)) /\
  (forall i e q, st_heap st_closed_a_more !! i = Some e -> ~ (i = 2 \/ i = 3) ->
     e_parent e = Some q -> ~ (q = 2 \/ q = 3)) /\
  (forall c, st_current st_closed_a_more = Some c -> ~ (c = 2 \/ c = 3)).
Proof.
  apply (closed_subtree_frozen (fun i => i = 2 \/ i = 3) 2 st_closed_a st_closed_a_more
           (cs "<b/>y</r>")).
  - intros i [-> | ->]; cbn; lia.
  - intros [|[|[|[|i]]]] e; cbn; intros [= <-] Hn; cbn;
      try (exfalso; apply Hn; auto; fail);
      (split; [intros q Hq; try discriminate Hq; injection Hq as <-; lia
              |intros l Hl Hs; try discriminate Hl; injection Hl as <-; lia]).
  - cbn. intros c [= <-]. lia.
  - vm_compute. reflexivity.
Defined.

(** ** Tags in content mode *)

(** The element a tag met in content mode is handled in: behind text the
    current element is the element of the text, and
    xml_parse_tag_opening closes it first. *)
Definition insertion_point (st : xml_state) : option nat :=
  if 0 <? st_length st
  then c ← st_current st; e ← st_heap st !! c; e_parent e
  else st_current st.

Lemma run_close_tag st c e name rest :
  st_parser st = Some parse_content -> st_cursor st = 0 ->
  is_Some (st_current st) ->
  insertion_point st = Some c -> st_heap st !! c = Some e ->
  close_name_ok name -> ">"%char ∉ name ->
  run st ("<"%char :: "/"%char :: name ++ ">"%char :: rest) =
  run (xml_close_tag (with_current (e_parent e) st)) rest.
Proof.
  intros Hpa Hcur [c0 Hc0] Hip He Hname Hgt.
  destruct (close_head name rest Hname) as (a & r & Hd & Ha1 & Ha2).
  destruct st as [h ro cu tg len cur em pa].
  unfold insertion_point in Hip. simpl in Hpa, Hcur, Hc0, Hip, He. subst.
  rewrite run_cons.
  cbn -[run match_opening xml_parse_tag_body xml_parse_tag_opening].
  rewrite run_cons.
  cbn -[run match_opening xml_parse_tag_body].
  rewrite match_opening_lt.
  cbn -[run match_opening xml_parse_tag_body].
  rewrite match_opening_slash.
  cbn -[run match_opening xml_parse_tag_body].
  rewrite Hd.
  cbn -[run match_opening xml_parse_tag_body].
  rewrite (match_opening_2 a Ha1 Ha2).
  cbn -[run match_opening xml_parse_tag_body].
  assert (forall st1 : xml_state,
            st_current st1 = Some c -> st_heap st1 = h ->
            run (with_parser (Some parse_tag_body) (with_cursor 0 (with_length 0
                   (with_tag (Some pat_close) st1)))) (a :: r) =
            run (xml_close_tag (with_current (e_parent e) st1)) rest) as Hbody.
  { intros st1 Hc1 Hh1. destruct st1 as [h1 ro1 cu1 tg1 len1 cur1 em1 pa1].
    simpl in Hc1, Hh1. subst.
    rewrite run_cons. cbn [st_parser with_parser call_parser].
    rewrite <- Hd.
    rewrite (xml_parse_tag_body_close _ pat_close c e) by done.
    reflexivity. }
  destruct len as [|len]; cbn [Nat.ltb Nat.leb] in Hip.
  - injection Hip as ->. cbn [bind].
    etransitivity; [|etransitivity; [apply (Hbody
      {| st_heap := h; st_root := ro; st_current := Some c; st_tag := tg;
         st_length := 0; st_cursor := 0; st_empty := em;
         st_parser := Some parse_content |}); reflexivity|]]; reflexivity.
  - unfold deref. cbn in Hip. destruct (h !! c0) as [e0|] eqn:He0; [|done].
    cbn in Hip. cbv iota. cbn [bind]. rewrite Hip.
    etransitivity; [|etransitivity; [apply (Hbody
      {| st_heap := h; st_root := ro; st_current := Some c; st_tag := tg;
         st_length := S len; st_cursor := 0; st_empty := em;
         st_parser := Some parse_content |}); reflexivity|]]; reflexivity.
Qed.

Lemma match_opening_1 (c : ascii) :
  c <> "/"%char -> c <> "?"%char -> c <> "!"%char -> match_opening 1 c = (None, 0).
Proof.
  intros H1 H2 H3. unfold match_opening. cbn -[Ascii.eqb].
  destruct (Ascii.eqb "/" c) eqn:E1; [apply Ascii.eqb_eq in E1; congruence|].
  destruct (Ascii.eqb "?" c) eqn:E2; [apply Ascii.eqb_eq in E2; congruence|].
  destruct (Ascii.eqb "!" c) eqn:E3; [apply Ascii.eqb_eq in E3; congruence|].
  reflexivity.
Qed.

(** The state in which the body of an opening tag is entered: the new
    element [k] of the arena [h] is the insertion point. *)
Definition tag_entered (st : xml_state) (h : list xml_element) (k : nat) : xml_state :=
  with_current (Some k)
    (with_heap h
       (with_parser (Some parse_tag_body)
          (with_cursor 0 (with_length 0 (with_tag (Some pat_open) st))))).

Lemma run_open_tag st c a d :
  st_parser st = Some parse_content -> st_cursor st = 0 ->
  is_Some (st_current st) -> insertion_point st = Some c ->
  a <> "/"%char -> a <> "?"%char -> a <> "!"%char ->
  run st ("<"%char :: a :: d) =
  do2 h, k <- xml_element_create (st_heap st) (Some c);
  run (tag_entered st h k) (a :: d).
Proof.
  intros Hpa Hcur [c0 Hc0] Hip Ha1 Ha2 Ha3.
  destruct st as [h ro cu tg len cur em pa].
  unfold insertion_point in Hip. simpl in Hpa, Hcur, Hc0, Hip. subst.
  rewrite run_cons.
  cbn -[run match_opening xml_parse_tag_body xml_parse_tag_opening xml_element_create].
  rewrite run_cons.
  cbn -[run match_opening xml_parse_tag_body xml_element_create].
  rewrite match_opening_lt.
  cbn -[run match_opening xml_parse_tag_body xml_element_create].
  rewrite (match_opening_1 a Ha1 Ha2 Ha3).
  cbn -[run match_opening xml_parse_tag_body xml_element_create].
  destruct len as [|len]; cbn [Nat.ltb Nat.leb] in Hip.
  - injection Hip as ->. cbn -[run xml_element_create].
    by destruct (xml_element_create h (Some c)) as [[h2 k]| | |].
  - unfold deref. cbn in Hip. destruct (h !! c0) as [e0|] eqn:He0; [|done].
    cbn in Hip. cbv iota. cbn -[run xml_element_create]. rewrite Hip.
    by destruct (xml_element_create h (Some c)) as [[h2 k]| | |].
Qed.

(** The body of an opening tag up to its '>', entered with an element
    that has no key yet: the text of the tag becomes the key buffer and
    xml_parse_tag_name splits it. *)
Lemma tag_body_open st k ek a t rest :
  st_tag st = Some pat_open -> st_cursor st = 0 -> st_length st = 0 ->
  st_current st = Some k -> st_heap st !! k = Some ek -> e_key ek = None ->
  ">"%char ∉ a :: t ->
  xml_parse_tag_body st ((a :: t) ++ ">"%char :: rest) =
  do st4 <- xml_parse_tag_name
              (with_cursor 1
                 (with_length (length (a :: t))
                    (with_heap (<[k := set_key (Some (a :: t)) ek]> (st_heap st)) st)));
  do st5 <- (if st_empty st4 then xml_close_element st4 else Ok st4);
  Ok (xml_close_tag st5, rest).
Proof.
  intros Htag Hcur Hlen Hc He Hk Hgt.
  destruct st as [h ro cu tg len cur em pa]. simpl in Htag, Hcur, Hlen, Hc, He. subst.
  change ((a :: t) ++ ">"%char :: rest) with (a :: (t ++ ">"%char :: rest)).
  rewrite xml_parse_tag_body_unfold.
  change (a :: (t ++ ">"%char :: rest)) with ((a :: t) ++ ">"%char :: rest).
  unfold tag_body_iter.
  cbn [st_tag st_cursor Nat.eqb app].
  change (a :: (t ++ ">"%char :: rest)) with ((a :: t) ++ ">"%char :: rest).
  change (close_at pat_open 0) with ">"%char.
  rewrite (strchr_first _ _ _ Hgt).
  unfold tag_body_match. cbn [st_cursor Nat.eqb].
  rewrite take_app_length.
  replace (drop (S (length (a :: t))) ((a :: t) ++ ">"%char :: rest)) with rest.
  2:{ replace (S (length (a :: t))) with (length (a :: t) + 1) by lia.
      by rewrite drop_app_add. }
  unfold xml_key_append, append_current_key, append_current, deref, store.
  cbn [st_current st_tag type pat_open Nat.eqb TAG_ELEMENT_OPEN TAG_ELEMENT_CLOSE
       st_length open_len Nat.ltb Nat.leb andb bind st_heap].
  rewrite He. cbn [bind]. rewrite Hk.
  unfold xml_string_append. cbn [length Nat.ltb Nat.leb bind].
  cbn -[xml_parse_tag_name xml_close_element xml_close_tag length].
  destruct (xml_parse_tag_name _) as [st4| | |]; [|done..].
  cbn -[xml_close_element xml_close_tag].
  destruct (st_empty st4); [|done].
  by destruct (xml_close_element st4).
Qed.
(** No parent link of the arena points to [k]. *)
Definition no_parent (k : nat) (h : list xml_element) : Prop :=
  forall i e, h !! i = Some e -> e_parent e <> Some k.

Lemma no_parent_insert k h c e f :
  no_parent k h -> h !! c = Some e -> e_parent (f e) = e_parent e ->
  no_parent k (<[c := f e]> h).
Proof.
  intros Hn Hc Hf i ei Hi. destruct (decide (i = c)) as [->|Hne].
  - rewrite list_lookup_insert_eq in Hi by (by eapply lookup_lt_Some).
    injection Hi as <-. rewrite Hf. by eapply Hn.
  - rewrite list_lookup_insert_ne in Hi by done. by eapply Hn.
Qed.

(** The arena has no link to the next free index. *)
Definition no_dangling (h : list xml_element) : Prop :=
  forall i e, h !! i = Some e ->
    e_parent e <> Some (length h) /\ e_last_child e <> Some (length h).

Lemma xml_element_create_fresh h p h2 k :
  p < length h -> no_dangling h ->
  xml_element_create h (Some p) = Ok (h2, k) ->
  k = length h /\ h2 !! k = Some (set_parent (Some p) element_zero) /\
  no_parent k h2.
Proof.
  intros Hp Hd H. unfold xml_element_create in H.
  apply bind_Ok in H as (h3 & H3 & H). injection H as <- <-.
  split; [done|].
  unfold xml_element_add, store, deref in H3.
  rewrite list_lookup_middle in H3 by done. cbn [bind] in H3.
  set (e1 := set_parent (Some p) element_zero) in *.
  set (h1 := <[length h := e1]> (h ++ [element_zero])) in *.
  assert (h1 !! length h = Some e1) as Hk.
  { unfold h1. apply list_lookup_insert_eq. rewrite length_app. simpl. lia. }
  assert (no_parent (length h) h1) as Hn1.
  { intros i e Hi.
    destruct (decide (i = length h)) as [->|Hne].
    - rewrite Hk in Hi. injection Hi as <-. cbn. intros [= ->]. lia.
    - unfold h1 in Hi. rewrite list_lookup_insert_ne in Hi by done.
      apply lookup_app_Some in Hi as [Hi|[Hge Hi]].
      + by apply (Hd i e).
      + destruct (i - length h) as [|j] eqn:Hj; [lia|done]. }
  assert (exists pe, h !! p = Some pe /\ h1 !! p = Some pe) as (pe & Hpe & Hpe1).
  { destruct (lookup_lt_is_Some_2 h p Hp) as [pe Hpe]. exists pe. split; [done|].
    unfold h1. rewrite list_lookup_insert_ne by lia. by rewrite lookup_app_l. }
  rewrite Hpe1 in H3. cbn [bind] in H3.
  destruct (e_first_child pe).
  - destruct (e_last_child pe) as [l|] eqn:Hl; [|done].
    assert (l <> length h) as Hlk.
    { intros ->. by destruct (Hd p pe Hpe). }
    destruct (h1 !! l) as [le|] eqn:Hle; [|done]. cbn [bind] in H3.
    destruct (<[l:=set_next (Some (length h)) le]> h1 !! p) as [pe'|] eqn:Hpe';
      [|done]. injection H3 as <-.
    split.
    + rewrite !list_lookup_insert_ne by lia. done.
    + apply (no_parent_insert _ _ p pe' (set_last_child (Some (length h))));
        [|done|done].
      by apply (no_parent_insert _ _ l le (set_next (Some (length h)))).
  - injection H3 as <-. split.
    + rewrite list_lookup_insert_ne by lia. done.
    + by apply (no_parent_insert _ _ p pe
                  (fun e => set_first_child (Some (length h))
                              (set_last_child (Some (length h)) e))).
Qed.

(** xml_parse_tag_name writes the key and the attributes of the current
    element and the empty flag, and nothing else of the arena. *)
Lemma xml_parse_tag_name_shape st s c e buf :
  st_current st = Some c -> st_heap st !! c = Some e -> e_key e = Some buf ->
  xml_parse_tag_name st = Ok s ->
  st_current s = Some c /\
  st_empty s = snd (check_empty_loop buf (length (cstring buf))) || st_empty st /\
  exists key attrs,
    st_heap s = <[c := set_attributes attrs (set_key key e)]> (st_heap st).
Proof.
  intros Hc He Hk H. unfold xml_parse_tag_name in H.
  apply bind_Ok in H as (st1 & H1 & H).
  unfold xml_check_empty, deref, store in H1. rewrite Hc, He in H1. cbn [bind] in H1.
  rewrite Hk in H1. destruct (check_empty_loop buf _) as [buf' em].
  injection H1 as <-. cbn [snd].
  pose proof (lookup_lt_Some _ _ _ He) as Hlt.
  cbn [st_current with_empty with_heap st_heap] in H. rewrite Hc in H.
  unfold deref, store in H. rewrite list_lookup_insert_eq in H by done.
  cbn [bind e_key set_key] in H.
  apply bind_Ok in H as (ch & _ & H).
  destruct (Ascii.eqb ch NUL).
  { injection H as <-. split_and!; [done..|].
    exists (Some buf'), (e_attributes e). cbn. by destruct e. }
  apply bind_Ok in H as (buf1 & _ & H). apply bind_Ok in H as (s0 & _ & H).
  apply bind_Ok in H as (ch1 & _ & H).
  rewrite list_insert_insert_eq in H.
  destruct (Ascii.eqb ch1 NUL).
  { injection H as <-. split_and!; [done..|].
    exists (Some buf1), (e_attributes e). cbn. by destruct e. }
  apply bind_Ok in H as (h2 & H2 & H). injection H as <-.
  split_and!; [done..|]. cbn [st_heap with_heap].
  unfold xml_parse_attributes, deref, store in H2.
  rewrite list_lookup_insert_eq in H2 by done. cbn [bind e_key set_key] in H2.
  apply bind_Ok in H2 as ([buf2 attrs] & _ & H2). injection H2 as <-.
  rewrite list_insert_insert_eq.
  exists (Some buf2), attrs. by destruct e.
Qed.

Lemma store_length h c f h' : store h c f = Ok h' -> length h' = length h.
Proof.
  unfold store. destruct (h !! c); [|done]. intros [= <-]. apply length_insert.
Qed.

Lemma xml_element_create_length h p h2 k :
  xml_element_create h (Some p) = Ok (h2, k) -> length h2 = S (length h).
Proof.
  unfold xml_element_create, xml_element_add. intros H.
  apply bind_Ok in H as (h3 & H3 & H). injection H as <- <-.
  apply bind_Ok in H3 as (h1 & H1 & H3). apply store_length in H1.
  rewrite length_app in H1. cbn [length] in H1.
  apply bind_Ok in H3 as (pe & _ & H3).
  destruct (e_first_child pe).
  - destruct (e_last_child pe); [|done].
    apply bind_Ok in H3 as (h4 & H4 & H3). apply store_length in H4, H3. lia.
  - apply store_length in H3. lia.
Qed.

Definition is_space (c : ascii) : Prop := chr_in c WHITESPACE = true.

Lemma check_empty_loop_slash body ws : forall tail,
  Forall is_space ws ->
  check_empty_loop (body ++ "/"%char :: ws ++ tail) (length body + 1 + length ws) =
  (body ++ NUL :: ws ++ tail, true).
Proof.
  induction ws as [|w ws IH] using rev_ind; intros tail Hws.
  - cbn [length app]. replace (length body + 1 + 0) with (S (length body)) by lia.
    cbn [check_empty_loop]. rewrite list_lookup_middle by done.
    cbn. f_equal. replace (length body) with (length body + 0) by lia.
    by rewrite insert_app_r.
  - apply Forall_app in Hws as [Hws Hw]. rewrite Forall_singleton in Hw.
    rewrite length_app. cbn [length].
    replace (length body + 1 + (length ws + 1)) with (S (length body + 1 + length ws))
      by lia.
    cbn [check_empty_loop]. rewrite <- !app_assoc. cbn [app].
    replace (body ++ "/"%char :: ws ++ w :: tail)
      with ((body ++ "/"%char :: ws) ++ w :: tail)
      by (by rewrite <- app_assoc).
    rewrite (list_lookup_middle (body ++ "/"%char :: ws) tail w)
      by (rewrite length_app; cbn [length]; lia).
    unfold is_space in Hw. rewrite Hw.
    rewrite <- app_assoc. cbn [app]. by rewrite (IH (w :: tail)).
Qed.

Lemma is_space_not (c : ascii) (ws : cstr) :
  chr_in c WHITESPACE = false -> Forall is_space ws -> c ∉ ws.
Proof.
  intros Hc Hws Hin. rewrite Forall_forall in Hws.
  specialize (Hws c Hin). unfold is_space in Hws. congruence.
Qed.

(** The parser has completed a tag in the element [p]: [k] is the
    element of the tag, a child of [p] without children and without text
    that the insertion point has left. *)
Definition tag_done (st s1 : xml_state) (p k : nat) (e1 : xml_element) : Prop :=
  st_current s1 = Some p /\ st_parser s1 = Some parse_content /\
  st_root s1 = st_root st /\ left_behind k e1 s1 /\
  e_parent e1 = Some p /\ e_first_child e1 = None /\ e_last_child e1 = None /\
  e_value e1 = None.

Lemma run_self_closing st p a body ws :
  st_parser st = Some parse_content -> st_cursor st = 0 ->
  is_Some (st_current st) -> insertion_point st = Some p ->
  p < length (st_heap st) -> no_dangling (st_heap st) ->
  a <> "/"%char -> a <> "?"%char -> a <> "!"%char ->
  ">"%char ∉ a :: body -> NUL ∉ a :: body -> Forall is_space ws ->
  (exists s1 e1, tag_done st s1 p (length (st_heap st)) e1 /\
     forall rest,
       run st ("<"%char :: (a :: body) ++ "/"%char :: ws ++ ">"%char :: rest) =
       run s1 rest) \/
  (forall rest s,
     run st ("<"%char :: (a :: body) ++ "/"%char :: ws ++ ">"%char :: rest) <> Ok s).
Proof.
  intros Hpa Hcur Hc Hip Hp Hd Ha1 Ha2 Ha3 Hgt Hnul Hws.
  set (t := body ++ "/"%char :: ws).
  assert (forall rest, (a :: body) ++ "/"%char :: ws ++ ">"%char :: rest =
                       (a :: t) ++ ">"%char :: rest) as Hshape.
  { intros rest. unfold t. cbn [app]. by rewrite <- app_assoc. }
  assert (">"%char ∉ a :: t) as Hgt'.
  { unfold t. rewrite app_comm_cons. intros Hin.
    apply elem_of_app in Hin as [Hin|Hin]; [done|].
    apply elem_of_cons in Hin as [Hin|Hin]; [done|].
    by apply (is_space_not ">"%char ws). }
  assert (NUL ∉ a :: t) as Hnul'.
  { unfold t. rewrite app_comm_cons. intros Hin.
    apply elem_of_app in Hin as [Hin|Hin]; [done|].
    apply elem_of_cons in Hin as [Hin|Hin]; [done|].
    by apply (is_space_not NUL ws). }
  destruct (xml_element_create (st_heap st) (Some p)) as [[h2 k]| | |] eqn:Hcr.
  2-4: right; intros rest s; rewrite Hshape; cbn [app];
       rewrite (run_open_tag st p) by done; by rewrite Hcr.
  destruct (xml_element_create_fresh _ _ _ _ Hp Hd Hcr) as (-> & Hk & Hnp).
  set (k := length (st_heap st)) in *.
  set (e0 := set_parent (Some p) element_zero) in *.
  set (X := with_cursor 1 (with_length (length (a :: t))
              (with_heap (<[k := set_key (Some (a :: t)) e0]> h2) (tag_entered st h2 k)))).
  assert (forall rest,
            run st ("<"%char :: (a :: body) ++ "/"%char :: ws ++ ">"%char :: rest) =
            do2 st', d' <-
              (do st4 <- xml_parse_tag_name X;
               do st5 <- (if st_empty st4 then xml_close_element st4 else Ok st4);
               Ok (xml_close_tag st5, rest));
            run st' d') as Hrun.
  { intros rest. rewrite Hshape. cbn [app].
    rewrite (run_open_tag st p) by done. rewrite Hcr. cbn [bind].
    rewrite run_cons. cbn [tag_entered st_parser with_current with_heap with_parser
                            call_parser].
    change (a :: t ++ ">"%char :: rest) with ((a :: t) ++ ">"%char :: rest).
    by rewrite (tag_body_open _ k e0 a t rest). }
  destruct (xml_parse_tag_name X) as [st4| | |] eqn:Hn.
  2-4: right; intros rest s; by rewrite Hrun.
  left.
  pose proof (lookup_lt_Some _ _ _ Hk) as Hlt.
  assert (st_heap X !! k = Some (set_key (Some (a :: t)) e0)) as HX.
  { cbn. by apply list_lookup_insert_eq. }
  destruct (xml_parse_tag_name_shape X st4 k _ (a :: t) eq_refl HX eq_refl Hn)
    as (Hc4 & Hem & key & attrs & Hh4).
  rewrite (cstring_id _ Hnul') in Hem.
  assert (a :: t = (a :: body) ++ "/"%char :: ws ++ []) as Ht
    by (by rewrite app_nil_r).
  rewrite Ht in Hem at 1.
  replace (length (a :: t)) with (length (a :: body) + 1 + length ws) in Hem
    by (unfold t; cbn [length]; rewrite length_app; cbn [length]; lia).
  rewrite (check_empty_loop_slash (a :: body) ws [] Hws) in Hem. cbn [snd orb] in Hem.
  set (e1 := set_attributes attrs (set_key key (set_key (Some (a :: t)) e0))) in *.
  assert (st_heap st4 !! k = Some e1) as Hk4.
  { rewrite Hh4. apply list_lookup_insert_eq. cbn. by rewrite length_insert. }
  exists (xml_close_tag (with_current (Some p) st4)), e1. split.
  - unfold tag_done. split_and!; try done.
    + cbn. apply xml_parse_tag_name_keeps in Hn as [Hr _]. by rewrite Hr.
    + split; [|cbn; intros c [= <-]; lia]. cbn. split; [|by exists e1].
      intros i e Hi. rewrite Hh4 in Hi. cbn in Hi.
      destruct (decide (i = k)) as [->|Hne].
      * rewrite list_lookup_insert_eq in Hi by (by rewrite length_insert).
        injection Hi as <-. cbn. intros [= ->]. lia.
      * rewrite !list_lookup_insert_ne in Hi by done. by apply (Hnp i e).
  - intros rest. rewrite Hrun. cbn [bind]. rewrite Hem.
    unfold xml_close_element, deref. rewrite Hc4, Hk4. reflexivity.
Qed.

(** X3.  A self-closing tag anywhere in a document.  In content mode,
    with the tag handled in element [p], let the text of an opening tag
    up to its '>' end with '/' and white space.  If the chunk is parsed
    with success, then it is parsed as the tag followed by the rest: when
    the tag is complete its element, the next one of the arena, is a
    child of [p] without children and without a value, and the insertion
    point is [p] again; and after the rest of the chunk, whatever it is,
    the element is what it was then, apart from its next link, no element
    has it as parent and it is not the insertion point. *)
Theorem self_closing_anywhere (st s : xml_state) (p : nat) (a : ascii)
    (body ws rest : cstr) :
  st_parser st = Some parse_content -> st_cursor st = 0 -> is_Some (st_root st) ->
  is_Some (st_current st) -> insertion_point st = Some p ->
  p < length (st_heap st) -> no_dangling (st_heap st) ->
  a <> "/"%char -> a <> "?"%char -> a <> "!"%char ->
  ">"%char ∉ a :: body -> NUL ∉ a :: body -> Forall is_space ws ->
  xml_parse_chunk st
    (Some ("<"%char :: (a :: body) ++ "/"%char :: ws ++ ">"%char :: rest)) = Ok s ->
  exists s1 e1 e,
    xml_parse_chunk st
      (Some ("<"%char :: (a :: body) ++ "/"%char :: ws ++ [">"%char])) = Ok s1 /\
    xml_parse_chunk s1 (Some rest) = Ok s /\
    st_current s1 = Some p /\
    st_heap s1 !! length (st_heap st) = Some e1 /\
    st_heap s !! length (st_heap st) = Some e /\
    set_next None e = set_next None e1 /\
    e_parent e1 = Some p /\ e_first_child e1 = None /\ e_last_child e1 = None /\
    e_value e1 = None /\
    (forall i c, st_heap s !! i = Some c -> e_parent c <> Some (length (st_heap st))) /\
    st_current s <> Some (length (st_heap st)).
Proof.
  intros Hpa Hcur Hr Hc Hip Hp Hd Ha1 Ha2 Ha3 Hgt Hnul Hws H.
  rewrite xml_parse_chunk_run, chunk_init_id in H by (by rewrite ?Hpa).
  destruct (run_self_closing st p a body ws) as [(s1 & e1 & Hdone & Hrun)|Hno];
    try done; [|by apply Hno in H].
  rewrite Hrun in H.
  destruct Hdone as (Hc1 & Hp1 & Hr1 & Hleft & Hpar & Hfc & Hlc & Hv).
  pose proof Hleft as [[_ (e1' & He1 & Heq1)] _].
  pose proof (parse_loop_left _ _ _ _ _ _ Hleft H) as [[Hnp (e & He & Heq)] Hcs].
  exists s1, e1', e.
  assert (set_next None e1' = set_next None e1 ->
          e_parent e1' = e_parent e1 /\ e_first_child e1' = e_first_child e1 /\
          e_last_child e1' = e_last_child e1 /\ e_value e1' = e_value e1) as Hsame.
  { intros Hq. split_and!;
      [apply (f_equal e_parent) in Hq|apply (f_equal e_first_child) in Hq
      |apply (f_equal e_last_child) in Hq|apply (f_equal e_value) in Hq]; done. }
  destruct (Hsame Heq1) as (-> & -> & -> & ->).
  split_and!; try done.
  - rewrite xml_parse_chunk_run, chunk_init_id by (by rewrite ?Hpa).
    by rewrite Hrun.
  - rewrite xml_parse_chunk_run, chunk_init_id; [done|by rewrite Hr1|by rewrite Hp1].
  - congruence.
  - intros Hk. by apply (Hcs _ Hk).
Qed.

Lemma not_in_string (c : ascii) (l : cstr) :
  forallb (fun x => negb (Ascii.eqb c x)) l = true -> c ∉ l.
Proof.
  induction l as [|x l IH]; cbn; intros H; [by intros Hin%elem_of_nil|].
  apply andb_true_iff in H as [Hx Hl]. apply not_elem_of_cons. split; [|auto].
  intros ->. by rewrite Ascii.eqb_refl in Hx.
Qed.

Lemma no_dangling_after_open : no_dangling (st_heap st_after_open).
Proof. intros [|[|i]] e; cbn; intros [= <-]; split; cbn; congruence. Qed.

Definition st_self_closed : xml_state :=
  Eval vm_compute in
    state_of (xml_parse_chunk st_after_open (Some (cs "<b x='1'/ >t</a>"))).

Lemma self_closing_anywhere_witness :
  exists s1 e1 e,
    xml_parse_chunk st_after_open (Some (cs "<b x='1'/ >")) = Ok s1 /\
    xml_parse_chunk s1 (Some (cs "t</a>")) = Ok st_self_closed /\
    st_current s1 = Some 1 /\
    st_heap s1 !! 2 = Some e1 /\
    st_heap st_self_closed !! 2 = Some e /\
    set_next None e = set_next None e1 /\
    e_parent e1 = Some 1 /\ e_first_child e1 = None /\ e_last_child e1 = None /\
    e_value e1 = None /\
    (forall i c, st_heap st_self_closed !! i = Some c -> e_parent c <> Some 2) /\
    st_current st_self_closed <> Some 2.
Proof.
  apply (self_closing_anywhere st_after_open st_self_closed 1 "b"%char
           (cs " x='1'") (cs " ") (cs "t</a>")); try done.
  all: try (by eexists).
  all: try apply no_dangling_after_open.
  all: try (by apply not_in_string).
  all: try (by apply Forall_singleton).
  cbn. lia.
Defined.

(** X4.  A closing tag too many.  In content mode, when the element a
    tag is handled in has no parent, as the root has, a closing tag moves
    the insertion point to NULL.  Whatever follows in the chunk, if it is
    parsed with success, no element that was there is changed: what
    stands behind such a closing tag never reaches the tree. *)
Theorem stray_close_loses_rest (st s : xml_state) (r : nat) (re : xml_element)
    (name rest : cstr) :
  st_parser st = Some parse_content -> st_cursor st = 0 -> is_Some (st_root st) ->
  is_Some (st_current st) -> insertion_point st = Some r ->
  st_heap st !! r = Some re -> e_parent re = None ->
  close_name_ok name -> ">"%char ∉ name ->
  xml_parse_chunk st (Some (cs "</" ++ name ++ ">"%char :: rest)) = Ok s ->
  xml_parse_chunk st (Some (cs "</" ++ name ++ [">"%char])) =
    Ok (xml_close_tag (with_current None st)) /\
  (forall i, i < length (st_heap st) -> st_heap s !! i = st_heap st !! i) /\
  forall c, st_current s = Some c -> length (st_heap st) <= c.
Proof.
  intros Hpa Hcur Hr Hc Hip He Hpar Hname Hgt H.
  rewrite xml_parse_chunk_run, chunk_init_id in * by (by rewrite ?Hpa).
  change (cs "</" ++ name ++ ">"%char :: rest)
    with ("<"%char :: "/"%char :: name ++ ">"%char :: rest) in H.
  rewrite (run_close_tag st r re name rest) in H by done. rewrite Hpar in H.
  split.
  { change (cs "</" ++ name ++ [">"%char])
      with ("<"%char :: "/"%char :: name ++ ">"%char :: []).
    rewrite (run_close_tag st r re name []) by done. by rewrite Hpar. }
  apply (parse_loop_frozen (fun i => i < length (st_heap st)) (length (st_heap st))
           (st_heap st)) in H as [[_ Hin] Hcs].
  - split.
    + intros i Hi. destruct (Hin i Hi) as (e0 & e & H0 & He' & _ & Heq).
      rewrite H0, He'. f_equal. apply Heq. lia.
    + intros c Hcc. specialize (Hcs c Hcc). cbn in Hcs. lia.
  - split; [|done]. cbn. split.
    + intros i e Hi Hni. apply lookup_lt_Some in Hi. done.
    + intros i Hi. destruct (lookup_lt_is_Some_2 _ _ Hi) as [e Hie]. by exists e, e.
Qed.

(** The parser after the document [<a>x</a>], and after a second
    closing tag and more. *)
Definition st_doc_closed : xml_state :=
  Eval vm_compute in state_of (xml_parse_chunk state_zero (Some (cs "<a>x</a>"))).
Definition st_doc_lost : xml_state :=
  Eval vm_compute in
    state_of (xml_parse_chunk st_doc_closed (Some (cs "</a><b>lost</b>"))).

Lemma stray_close_loses_rest_witness :
  xml_parse_chunk st_doc_closed (Some (cs "</" ++ cs "a" ++ [">"%char])) =
    Ok (xml_close_tag (with_current None st_doc_closed)) /\
  (forall i, i < length (st_heap st_doc_closed) ->
     st_heap st_doc_lost !! i = st_heap st_doc_closed !! i) /\
  forall c, st_current st_doc_lost = Some c -> length (st_heap st_doc_closed) <= c.
Proof.
  apply (stray_close_loses_rest st_doc_closed st_doc_lost 0
           {| e_key := None; e_value := None; e_parent := None;
              e_first_child := Some 1; e_last_child := Some 1; e_next := None;
              e_attributes := [] |}
           (cs "a") (cs "<b>lost</b>")); try done.
  all: try (by eexists).
  all: try (by apply not_in_string).

Defined.

(** ** Attributes *)

(** No character of [s] is in the set [set]. *)
Definition avoids (set s : cstr) : Prop := Forall (fun c => chr_in c set = false) s.

Lemma strcspn_stop k set d r :
  avoids set k -> chr_in d set = true -> strcspn (k ++ d :: r) set = length k.
Proof.
  intros Hk Hd. induction Hk as [|c k Hc Hk IH]; simpl; [by rewrite Hd|].
  by rewrite Hc, IH.
Qed.

Lemma strcspn_end k set : avoids set k -> strcspn k set = length k.
Proof.
  intros Hk. induction Hk as [|c k Hc Hk IH]; simpl; [done|]. by rewrite Hc, IH.
Qed.

Lemma strspn_stop c r set : chr_in c set = false -> strspn (c :: r) set = 0.
Proof. intros Hc. simpl. by rewrite Hc. Qed.

Lemma cstring_app k r : NUL ∉ k -> cstring (k ++ r) = k ++ cstring r.
Proof.
  induction k as [|c k IH]; intros Hn; [done|].
  apply not_elem_of_cons in Hn as [Hne Hn]. simpl.
  destruct (Ascii.eqb c NUL) eqn:He; [apply Ascii.eqb_eq in He; congruence|].
  by rewrite IH.
Qed.

Lemma cstring_stop k r : NUL ∉ k -> cstring (k ++ NUL :: r) = k.
Proof. intros Hn. rewrite cstring_app by done. simpl. by rewrite app_nil_r. Qed.

Lemma str_at_app pre r : str_at (pre ++ r) (length pre) = Ok (cstring r).
Proof.
  unfold str_at. rewrite length_app.
  destruct (length pre <=? length pre + length r) eqn:Hle;
    [|apply Nat.leb_gt in Hle; lia].
  by rewrite drop_app_length.
Qed.

Lemma rd_app pre c r : rd (pre ++ c :: r) (length pre) = Ok c.
Proof. unfold rd. by rewrite list_lookup_middle. Qed.

Lemma rd_end buf : rd buf (length buf) = Ok NUL.
Proof.
  unfold rd. rewrite lookup_ge_None_2 by lia. by rewrite Nat.eqb_refl.
Qed.

Lemma rd_past buf n : length buf < n -> rd buf n = Undef.
Proof.
  intros Hn. unfold rd. rewrite lookup_ge_None_2 by lia.
  destruct (n =? length buf) eqn:He; [apply Nat.eqb_eq in He; lia|done].
Qed.

Lemma wr0_app pre c r : wr0 (pre ++ c :: r) (length pre) = Ok (pre ++ NUL :: r).
Proof.
  unfold wr0. rewrite length_app. cbn [length].
  destruct (length pre <? length pre + S (length r)) eqn:Hlt;
    [|apply Nat.ltb_ge in Hlt; lia].
  f_equal. replace (length pre) with (length pre + 0) at 1 by lia.
  by rewrite insert_app_r.
Qed.

Lemma wr0_end buf : wr0 buf (length buf) = Ok buf.
Proof.
  unfold wr0. rewrite Nat.ltb_irrefl. by rewrite Nat.eqb_refl.
Qed.

Lemma wr0_at_end buf n : n = length buf -> wr0 buf n = Ok buf.
Proof. intros ->. apply wr0_end. Qed.

(** The scan of xml_quotedspn over characters that are neither the
    quote nor a backslash nor NUL. *)
Definition plain (q : ascii) (x : cstr) : Prop :=
  Forall (fun c => c <> q /\ c <> "\"%char /\ c <> NUL) x.

Lemma quotedspn_scan_plain q x : forall n r,
  plain q x -> q <> NUL -> q <> "\"%char ->
  quotedspn_scan (x ++ q :: r) n q = Ok (n + length x).
Proof.
  induction x as [|c x IH]; intros n r Hx Hq1 Hq2.
  - simpl. destruct (Ascii.eqb q NUL) eqn:E1; [apply Ascii.eqb_eq in E1; done|].
    destruct (Ascii.eqb q "\") eqn:E2; [apply Ascii.eqb_eq in E2; done|].
    rewrite Ascii.eqb_refl. f_equal. lia.
  - apply Forall_cons in Hx as [(Hc1 & Hc2 & Hc3) Hx]. cbn [app quotedspn_scan].
    destruct (Ascii.eqb c NUL) eqn:E1; [apply Ascii.eqb_eq in E1; done|].
    destruct (Ascii.eqb c "\") eqn:E2; [apply Ascii.eqb_eq in E2; done|].
    destruct (Ascii.eqb c q) eqn:E3; [apply Ascii.eqb_eq in E3; done|].
    rewrite IH by done. f_equal. cbn [length]. lia.
Qed.

Lemma quotedspn_scan_open q x : forall n,
  plain q x -> quotedspn_scan x n q = Ok 0.
Proof.
  induction x as [|c x IH]; intros n Hx; [done|].
  apply Forall_cons in Hx as [(Hc1 & Hc2 & Hc3) Hx]. cbn [quotedspn_scan].
  destruct (Ascii.eqb c NUL) eqn:E1; [apply Ascii.eqb_eq in E1; done|].
  destruct (Ascii.eqb c "\") eqn:E2; [apply Ascii.eqb_eq in E2; done|].
  destruct (Ascii.eqb c q) eqn:E3; [apply Ascii.eqb_eq in E3; done|].
  by apply IH.
Qed.

(** Reading and writing the buffer [buf] at the end of its prefix [P]. *)
Lemma rd_at buf P c R n :
  buf = P ++ c :: R -> n = length P -> rd buf n = Ok c.
Proof. intros -> ->. apply rd_app. Qed.

Lemma rd_at_end buf n : n = length buf -> rd buf n = Ok NUL.
Proof. intros ->. apply rd_end. Qed.

Lemma str_at_at buf P R n :
  buf = P ++ R -> n = length P -> str_at buf n = Ok (cstring R).
Proof. intros -> ->. apply str_at_app. Qed.

Lemma wr0_at buf P c R n :
  buf = P ++ c :: R -> n = length P -> wr0 buf n = Ok (P ++ NUL :: R).
Proof. intros -> ->. apply wr0_app. Qed.

Lemma drop_at (buf P R : list ascii) n :
  buf = P ++ R -> n = length P -> drop n buf = R.
Proof. intros -> ->. apply drop_app_length. Qed.

Ltac seg := repeat (rewrite <- app_assoc || (progress (cbn [app]))); reflexivity.
Ltac len :=
  repeat match goal with x := _ |- _ => subst x end;
  repeat (rewrite length_app || (progress (cbn [length]))); lia.

Lemma avoids_head set c k : avoids set (c :: k) -> chr_in c set = false.
Proof. intros H. by apply Forall_cons in H as [H _]. Qed.

Lemma avoids_weaken (set1 set2 k : cstr) :
  (forall c, chr_in c set2 = false -> chr_in c set1 = false) ->
  avoids set2 k -> avoids set1 k.
Proof. intros H Hk. eapply Forall_impl; [done|]. intros c. apply H. Qed.

Lemma eq_ws_ws c : chr_in c EQ_WHITESPACE = false -> chr_in c WHITESPACE = false.
Proof.
  unfold EQ_WHITESPACE. cbn [chr_in existsb]. intros H.
  by apply orb_false_iff in H as [_ H].
Qed.

(** One attribute with a quoted value: the buffer holds [k=qvq] behind
    [pre], with the key [k] free of '=', white space and NUL and the value
    [v] not empty, its first character not the quote, and free of the
    quote, backslash and NUL behind its first character. *)
Lemma parse_attribute_quoted pre k0 k q a x post :
  avoids (NUL :: EQ_WHITESPACE) (k0 :: k) ->
  q = SQUOTE \/ q = DQUOTE -> plain q x ->
  parse_attribute (pre ++ (k0 :: k) ++ "="%char :: q :: (a :: x) ++ q :: post)
    (length pre) =
  Ok (AttrNext (pre ++ (k0 :: k) ++ NUL :: q :: (a :: x) ++ NUL :: post)
        {| a_key := Some (length pre);
           a_value := Some (length pre + length (k0 :: k) + 2) |}
        (length pre + length (k0 :: k) + 2 + length (a :: x) + 1)).
Proof.
  intros Hk Hq Hx.
  assert (avoids EQ_WHITESPACE (k0 :: k)) as Hk1.
  { eapply avoids_weaken; [|done]. intros c. cbn [chr_in existsb].
    intros H. by apply orb_false_iff in H as [_ H]. }
  assert (NUL ∉ k0 :: k) as Hk2.
  { intros Hin. unfold avoids in Hk. rewrite Forall_forall in Hk.
    specialize (Hk _ Hin). done. }
  assert (q <> NUL /\ q <> "\"%char /\ chr_in q WHITESPACE = false) as (Hq1 & Hq2 & Hq3)
    by (by destruct Hq as [-> | ->]).
  set (buf := pre ++ (k0 :: k) ++ "="%char :: q :: (a :: x) ++ q :: post).
  set (tail := q :: (a :: x) ++ q :: post).
  unfold parse_attribute.
  rewrite (str_at_at buf pre ((k0 :: k) ++ "="%char :: tail)) by (done || seg).
  cbn [bind]. rewrite cstring_app by done.
  cbn [app]. rewrite (strspn_stop k0) by (by apply eq_ws_ws, (avoids_head _ _ k)).
  rewrite Nat.add_0_r.
  rewrite (str_at_at buf pre ((k0 :: k) ++ "="%char :: tail)) by (done || seg).
  cbn [bind]. rewrite cstring_app by done.
  change (cstring ("="%char :: tail)) with ("="%char :: cstring tail).
  rewrite (strcspn_stop (k0 :: k)) by done.
  change (length (k0 :: k) <? 1) with false. cbv iota.
  rewrite (str_at_at buf (pre ++ k0 :: k) ("="%char :: tail)) by (seg || len).
  cbn [bind]. change (cstring ("="%char :: tail)) with ("="%char :: cstring tail).
  rewrite (strspn_stop "="%char) by done. rewrite Nat.add_0_r.
  rewrite (rd_at buf (pre ++ k0 :: k) "="%char tail) by (seg || len).
  cbn [bind]. change (Ascii.eqb "=" "=") with true. cbv iota.
  unfold parse_attribute_value.
  rewrite (str_at_at buf (pre ++ (k0 :: k) ++ ["="%char]) tail) by (seg || len).
  assert (strspn (cstring tail) WHITESPACE = 0) as Hsp.
  { unfold tail. cbn [cstring].
    destruct (Ascii.eqb q NUL) eqn:E1; [apply Ascii.eqb_eq in E1; done|].
    by apply strspn_stop. }
  cbn [bind]. rewrite Hsp, Nat.add_0_r.
  rewrite (rd_at buf (pre ++ (k0 :: k) ++ ["="%char]) q ((a :: x) ++ q :: post))
    by (seg || len).
  cbn [bind].
  destruct (Ascii.eqb q NUL) eqn:E1; [apply Ascii.eqb_eq in E1; done|].
  assert (xml_quotedspn (drop (length pre + length (k0 :: k) + 1 + 1) buf) q =
          Ok (length (a :: x))) as Hspan.
  { rewrite (drop_at buf (pre ++ (k0 :: k) ++ ["="%char; q]) ((a :: x) ++ q :: post))
      by (seg || len).
    cbn [app xml_quotedspn]. rewrite quotedspn_scan_plain by done. f_equal. }
  assert (rd buf (length pre + length (k0 :: k) + 1 + 1 + length (a :: x)) = Ok q)
    as Hrd.
  { apply (rd_at buf (pre ++ (k0 :: k) ++ "="%char :: q :: (a :: x)) q post);
      [seg|len]. }
  assert (wr0 buf (length pre + length (k0 :: k)) =
          Ok ((pre ++ k0 :: k) ++ NUL :: tail)) as Hw1.
  { apply (wr0_at buf (pre ++ k0 :: k) "="%char tail); [seg|len]. }
  assert (wr0 ((pre ++ k0 :: k) ++ NUL :: tail)
            (length pre + length (k0 :: k) + 1 + 1 + length (a :: x)) =
          Ok (pre ++ (k0 :: k) ++ NUL :: q :: (a :: x) ++ NUL :: post)) as Hw2.
  { rewrite (wr0_at _ (pre ++ (k0 :: k) ++ NUL :: q :: (a :: x)) q post);
      [f_equal; seg|unfold tail; seg|len]. }
  destruct Hq as [-> | ->].
  - change (Ascii.eqb SQUOTE SQUOTE) with true. cbv iota.
    rewrite Hspan. cbn [bind]. rewrite Hrd. cbn [bind].
    change (Ascii.eqb SQUOTE SQUOTE) with true. cbv iota. cbn [bind].
    rewrite Hw1. cbn [bind]. rewrite Hw2. cbn [bind option_map fst].
    replace (length pre + length (k0 :: k) + 1 + 1)
      with (length pre + length (k0 :: k) + 2) by lia.
    reflexivity.
  - change (Ascii.eqb DQUOTE SQUOTE) with false.
    change (Ascii.eqb DQUOTE DQUOTE) with true. cbv iota.
    rewrite Hspan. cbn [bind]. rewrite Hrd. cbn [bind].
    change (Ascii.eqb DQUOTE DQUOTE) with true. cbv iota. cbn [bind].
    rewrite Hw1. cbn [bind]. rewrite Hw2. cbn [bind option_map fst].
    replace (length pre + length (k0 :: k) + 1 + 1)
      with (length pre + length (k0 :: k) + 2) by lia.
    reflexivity.
Qed.

Lemma check_empty_loop_none buf z :
  chr_in z WHITESPACE = false -> z <> "/"%char ->
  check_empty_loop (buf ++ [z]) (length (buf ++ [z])) = (buf ++ [z], false).
Proof.
  intros Hz1 Hz2. rewrite length_app. cbn [length].
  replace (length buf + 1) with (S (length buf)) by lia.
  cbn [check_empty_loop]. rewrite list_lookup_middle by done. rewrite Hz1.
  destruct (Ascii.eqb z "/") eqn:E; [apply Ascii.eqb_eq in E; done|done].
Qed.

Lemma parse_attributes_loop_end f buf attrs from :
  rd buf from = Ok NUL -> parse_attributes_loop f buf attrs from = Ok (buf, attrs).
Proof. intros H. destruct f; simpl; by rewrite H. Qed.

Lemma parse_attributes_loop_step f buf attrs from c :
  rd buf from = Ok c -> c <> NUL ->
  parse_attributes_loop (S f) buf attrs from =
  do ctl <- parse_attribute buf from;
  match ctl with
  | AttrBreak => Ok (buf, attrs)
  | AttrNext buf' a from' => parse_attributes_loop f buf' (attrs ++ [a]) from'
  end.
Proof.
  intros H Hc. cbn [parse_attributes_loop]. rewrite H. cbn [bind].
  destruct (Ascii.eqb c NUL) eqn:E; [apply Ascii.eqb_eq in E; done|done].
Qed.

(** The text of an opening tag with one attribute and a quoted value. *)
Definition tag_text (name : cstr) (w : ascii) (key : cstr) (q : ascii) (v : cstr) : cstr :=
  name ++ w :: key ++ "="%char :: q :: v ++ [q].

(** The key buffer xml_parse_tag_name makes of it. *)
Definition tag_split (name key : cstr) (q : ascii) (v : cstr) : list ascii :=
  name ++ NUL :: key ++ NUL :: q :: v ++ [NUL].

Definition one_attribute (name key : cstr) : xml_attribute :=
  {| a_key := Some (length name + 1);
     a_value := Some (length name + 1 + length key + 2) |}.

Lemma xml_parse_tag_name_attribute st c e n0 n w k0 k q a x :
  st_current st = Some c -> st_heap st !! c = Some e ->
  e_key e = Some (tag_text (n0 :: n) w (k0 :: k) q (a :: x)) -> e_attributes e = [] ->
  avoids (NUL :: WHITESPACE) (n0 :: n) -> is_space w ->
  avoids (NUL :: EQ_WHITESPACE) (k0 :: k) ->
  q = SQUOTE \/ q = DQUOTE -> a <> NUL -> plain q x ->
  xml_parse_tag_name st =
  Ok (with_heap
        (<[c := set_attributes [one_attribute (n0 :: n) (k0 :: k)]
                  (set_key (Some (tag_split (n0 :: n) (k0 :: k) q (a :: x))) e)]>
           (st_heap st))
        st).
Proof.
  intros Hc He Hkey Hattr Hn Hw Hk Hq Ha Hx.
  set (name := n0 :: n) in *. set (key := k0 :: k) in *. set (v := a :: x) in *.
  set (t := tag_text name w key q v) in *.
  assert (q <> NUL /\ q <> "/"%char /\ chr_in q WHITESPACE = false) as (Hq1 & Hq2 & Hq3)
    by (by destruct Hq as [-> | ->]).
  assert (NUL ∉ name) as Hn1.
  { intros Hin. unfold avoids in Hn. rewrite Forall_forall in Hn. by specialize (Hn _ Hin). }
  assert (avoids WHITESPACE name) as Hn2.
  { eapply avoids_weaken; [|done]. intros ch. cbn [chr_in existsb].
    intros H. by apply orb_false_iff in H as [_ H]. }
  assert (NUL ∉ key) as Hk1.
  { intros Hin. unfold avoids in Hk. rewrite Forall_forall in Hk. by specialize (Hk _ Hin). }
  assert (NUL ∉ v) as Hv1.
  { unfold v. apply not_elem_of_cons. split; [done|]. intros Hin.
    unfold plain in Hx. rewrite Forall_forall in Hx. by destruct (Hx _ Hin) as (_ & _ & ?). }
  assert (w <> NUL) as Hw1 by (by intros ->).
  assert (NUL ∉ t) as Ht.
  { unfold t, tag_text. intros Hin.
    apply elem_of_app in Hin as [Hin|Hin]; [done|].
    apply elem_of_cons in Hin as [Hin|Hin]; [done|].
    apply elem_of_app in Hin as [Hin|Hin]; [done|].
    apply elem_of_cons in Hin as [Hin|Hin]; [done|].
    apply elem_of_cons in Hin as [Hin|Hin]; [done|].
    apply elem_of_app in Hin as [Hin|Hin]; [done|].
    apply list_elem_of_singleton in Hin. done. }
  unfold xml_parse_tag_name, xml_check_empty, deref, store.
  rewrite Hc, He. cbn [bind]. rewrite Hkey.
  rewrite (cstring_id t Ht).
  assert (t = (name ++ w :: key ++ "="%char :: q :: v) ++ [q]) as Ht2
    by (unfold t, tag_text; seg).
  rewrite Ht2 at 1 2. rewrite (check_empty_loop_none _ q) by done.
  rewrite <- Ht2. cbn [bind st_current with_empty with_heap st_heap].
  rewrite Hc. pose proof (lookup_lt_Some _ _ _ He) as Hlt.
  rewrite list_lookup_insert_eq by done. cbn [bind e_key set_key].
  rewrite (cstring_id t Ht).
  set (R := key ++ "="%char :: q :: v ++ [q]).
  assert (t = name ++ w :: R) as Ht3 by done.
  assert (strcspn t WHITESPACE = length name) as Hspn.
  { rewrite Ht3. by apply strcspn_stop. }
  rewrite Hspn. rewrite (rd_at t name w R) by done. cbn [bind].
  destruct (Ascii.eqb w NUL) eqn:E; [apply Ascii.eqb_eq in E; done|].
  rewrite (wr0_at t name w R) by done. cbn [bind].
  set (buf1 := name ++ NUL :: R).
  rewrite (str_at_at buf1 (name ++ [NUL]) R) by (unfold buf1; seg || len).
  cbn [bind].
  assert (strspn (cstring R) WHITESPACE = 0) as Hsp0.
  { unfold R. rewrite cstring_app by done. unfold key. cbn [app].
    apply strspn_stop, eq_ws_ws. apply (avoids_head _ _ k).
    eapply avoids_weaken; [|exact Hk].
    intros ch. cbn [chr_in existsb]. intros H. by apply orb_false_iff in H as [_ H]. }
  rewrite !Hsp0, !Nat.add_0_r.
  assert (rd buf1 (length name + 1) = Ok k0) as Hrd.
  { apply (rd_at buf1 (name ++ [NUL]) k0 (k ++ "="%char :: q :: v ++ [q]));
      [unfold buf1, R, key; seg|len]. }
  assert (k0 <> NUL) as Hk0.
  { intros ->. apply Hk1. unfold key. apply list_elem_of_here. }
  rewrite Hrd. cbn [bind].
  destruct (Ascii.eqb k0 NUL) eqn:E0; [apply Ascii.eqb_eq in E0; done|].
  rewrite list_insert_insert_eq.
  unfold xml_parse_attributes, deref, store.
  rewrite list_lookup_insert_eq by done. cbn [bind e_key set_key e_attributes].
  rewrite Hattr.
  rewrite (parse_attributes_loop_step _ _ _ _ k0 Hrd Hk0).
  assert (buf1 = (name ++ [NUL]) ++ (k0 :: k) ++ "="%char :: q :: (a :: x) ++ q :: [])
    as Hb1 by (unfold buf1, R, key, v; seg).
  replace (length name + 1) with (length (name ++ [NUL])) by len.
  rewrite Hb1 at 1. rewrite parse_attribute_quoted by done. cbn [bind app].
  rewrite parse_attributes_loop_end by (apply rd_at_end; len).
  cbn [bind]. rewrite list_insert_insert_eq.
  unfold one_attribute, tag_split.
  replace (length (name ++ [NUL])) with (length name + 1) by len.
  replace ((name ++ [NUL]) ++ k0 :: k ++ NUL :: q :: a :: x ++ [NUL])
    with (name ++ NUL :: key ++ NUL :: q :: v ++ [NUL]) by (unfold key, v; seg).
  by destruct st, e.
Qed.

(** xml_find_attribute(a, key): [attrs] is the chain from [a] on; the
    key pointers of the attributes point into the key buffer of their
    element [e]. *)
Fixpoint xml_find_attribute (e : xml_element) (attrs : list xml_attribute) (key : cstr)
  : result (option xml_attribute) :=
  match attrs with
  | [] => Ok None
  | a :: rest =>
      do k <- attr_string e (a_key a);
      if strcasecmp_eq k key then Ok (Some a) else xml_find_attribute e rest key
  end.

(** The key of attribute [a] of [e] can be read and is not [key], up to
    case. *)
Definition other_key (e : xml_element) (key : cstr) (a : xml_attribute) : Prop :=
  exists k, attr_string e (a_key a) = Ok k /\ strcasecmp_eq k key = false.

Lemma xml_find_attribute_None e key attrs :
  xml_find_attribute e attrs key = Ok None <-> Forall (other_key e key) attrs.
Proof.
  induction attrs as [|a attrs IH]; cbn [xml_find_attribute]; [by split|].
  split.
  - intros H. apply bind_Ok in H as (k & Hk & H).
    destruct (strcasecmp_eq k key) eqn:E; [done|].
    apply Forall_cons. split; [by exists k|by apply IH].
  - intros H. apply Forall_cons in H as [(k & Hk & E) H].
    rewrite Hk. cbn [bind]. rewrite E. by apply IH.
Qed.

Lemma xml_find_attribute_Some e key a attrs :
  xml_find_attribute e attrs key = Ok (Some a) <->
  exists l1 l2 k, attrs = l1 ++ a :: l2 /\ Forall (other_key e key) l1 /\
    attr_string e (a_key a) = Ok k /\ strcasecmp_eq k key = true.
Proof.
  induction attrs as [|b attrs IH]; cbn [xml_find_attribute].
  - split; [done|]. intros (l1 & l2 & k & H & _). by destruct l1.
  - split.
    + intros H. apply bind_Ok in H as (k & Hk & H).
      destruct (strcasecmp_eq k key) eqn:E.
      * injection H as <-. by exists [], attrs, k.
      * apply IH in H as (l1 & l2 & k' & -> & Hl1 & Hk' & E').
        exists (b :: l1), l2, k'. split_and!; try done.
        apply Forall_cons. split; [by exists k|done].
    + intros (l1 & l2 & k & Heq & Hl1 & Hk & E). destruct l1 as [|b' l1].
      * injection Heq as -> ->. rewrite Hk. cbn [bind]. by rewrite E.
      * injection Heq as -> ->. apply Forall_cons in Hl1 as [(k' & Hk' & E') Hl1].
        rewrite Hk'. cbn [bind]. rewrite E'. apply IH. by exists l1, l2, k.
Qed.

(** X5.  xml_find_attribute returns the first attribute of the chain
    whose key is the given key up to case, and NULL exactly when every
    attribute of the chain has another key. *)
Theorem xml_find_attribute_first (e : xml_element) (attrs : list xml_attribute)
    (key : cstr) (a : xml_attribute) :
  (xml_find_attribute e attrs key = Ok None <-> Forall (other_key e key) attrs) /\
  (xml_find_attribute e attrs key = Ok (Some a) <->
   exists l1 l2 k, attrs = l1 ++ a :: l2 /\ Forall (other_key e key) l1 /\
     attr_string e (a_key a) = Ok k /\ strcasecmp_eq k key = true) /\
  (forall k, strcasecmp_eq k key = true <-> map tolower k = map tolower key).
Proof.
  split_and!.
  - apply xml_find_attribute_None.
  - apply xml_find_attribute_Some.
  - intros k. apply strcasecmp_eq_iff.
Qed.

(** The element of the tag [<name key=qvq>] under [p]. *)
Definition attribute_element (p : nat) (name key : cstr) (q : ascii) (v : cstr)
  : xml_element :=
  set_attributes [one_attribute name key]
    (set_key (Some (tag_split name key q v)) (set_parent (Some p) element_zero)).

Lemma attribute_element_strings p name key q v :
  NUL ∉ name -> NUL ∉ key -> NUL ∉ v ->
  (cstring <$> e_key (attribute_element p name key q v)) = Some name /\
  attr_string (attribute_element p name key q v)
    (a_key (one_attribute name key)) = Ok key /\
  attr_string (attribute_element p name key q v)
    (a_value (one_attribute name key)) = Ok v.
Proof.
  intros Hn Hk Hv. unfold attribute_element, attr_string, one_attribute, tag_split.
  cbn [e_key set_attributes set_key a_key a_value fmap option_fmap option_map].
  split_and!.
  - f_equal. by apply cstring_stop.
  - rewrite (str_at_at _ (name ++ [NUL]) (key ++ NUL :: q :: v ++ [NUL]))
      by (seg || len).
    f_equal. by apply cstring_stop.
  - rewrite (str_at_at _ (name ++ NUL :: key ++ [NUL; q]) (v ++ [NUL]))
      by (seg || len).
    f_equal. by apply cstring_stop.
Qed.

Lemma avoids_not_in set c k : avoids set k -> chr_in c set = true -> c ∉ k.
Proof.
  intros Hk Hc Hin. unfold avoids in Hk. rewrite Forall_forall in Hk.
  specialize (Hk _ Hin). congruence.
Qed.

Lemma avoids_drop_gt set k :
  avoids (NUL :: ">"%char :: set) k -> avoids (NUL :: set) k /\ ">"%char ∉ k.
Proof.
  intros Hk. split.
  - eapply avoids_weaken; [|done]. intros c. cbn [chr_in existsb].
    intros H. apply orb_false_iff in H as [H1 H]. apply orb_false_iff in H as [_ H].
    by rewrite H1, H.
  - by apply (avoids_not_in _ _ _ Hk).
Qed.

(** The strings of a tag [<name key=qvq>]: the name does not start as
    another kind of tag does, name and key are not empty and free of
    white space, and the key of '='; the quote [q] is ' or the double
    quote; the value is not empty and holds neither the quote nor a
    backslash behind its first character; nothing holds NUL or '>'. *)
Definition attribute_tag_ok (name : cstr) (w : ascii) (key : cstr) (q : ascii)
    (v : cstr) : Prop :=
  (exists n0 n, name = n0 :: n /\ n0 <> "/"%char /\ n0 <> "?"%char /\ n0 <> "!"%char) /\
  avoids (NUL :: ">"%char :: WHITESPACE) name /\ is_space w /\
  key <> [] /\ avoids (NUL :: ">"%char :: EQ_WHITESPACE) key /\
  (q = SQUOTE \/ q = DQUOTE) /\
  exists a x, v = a :: x /\ a <> NUL /\ a <> ">"%char /\ plain q x /\ ">"%char ∉ x.

Lemma run_open_attribute st p name w key q v :
  st_parser st = Some parse_content -> st_cursor st = 0 -> st_empty st = false ->
  is_Some (st_current st) -> insertion_point st = Some p ->
  p < length (st_heap st) -> no_dangling (st_heap st) ->
  attribute_tag_ok name w key q v ->
  (exists s1,
     st_current s1 = Some (length (st_heap st)) /\
     st_parser s1 = Some parse_content /\ st_root s1 = st_root st /\
     st_heap s1 !! length (st_heap st) = Some (attribute_element p name key q v) /\
     forall rest,
       run st ("<"%char :: tag_text name w key q v ++ ">"%char :: rest) = run s1 rest) \/
  (forall rest s,
     run st ("<"%char :: tag_text name w key q v ++ ">"%char :: rest) <> Ok s).
Proof.
  intros Hpa Hcur Hem Hc Hip Hp Hd
    ((n0 & n & -> & Hn1 & Hn2 & Hn3) & Hn & Hw & Hkne & Hk & Hq &
     (a & x & -> & Ha1 & Ha2 & Hx & Hxgt)).
  destruct key as [|k0 k]; [done|].
  destruct (avoids_drop_gt _ _ Hn) as [Hn' Hngt].
  destruct (avoids_drop_gt _ _ Hk) as [Hk' Hkgt].
  set (t := tag_text (n0 :: n) w (k0 :: k) q (a :: x)).
  assert (exists t', t = n0 :: t') as [t' Ht'] by (by eexists).
  assert (">"%char ∉ t) as Hgt.
  { unfold t, tag_text. intros Hin.
    apply elem_of_app in Hin as [Hin|Hin]; [done|].
    apply elem_of_cons in Hin as [Hin|Hin]; [by subst w|].
    apply elem_of_app in Hin as [Hin|Hin]; [done|].
    apply elem_of_cons in Hin as [Hin|Hin]; [done|].
    apply elem_of_cons in Hin as [Hin|Hin]; [by destruct Hq as [-> | ->]|].
    apply elem_of_app in Hin as [Hin|Hin].
    - apply elem_of_cons in Hin as [Hin|Hin]; done.
    - apply list_elem_of_singleton in Hin. by destruct Hq as [-> | ->]. }
  destruct (xml_element_create (st_heap st) (Some p)) as [[h2 k']| | |] eqn:Hcr.
  2-4: right; intros rest s; rewrite Ht'; cbn [app];
       rewrite (run_open_tag st p) by done; by rewrite Hcr.
  destruct (xml_element_create_fresh _ _ _ _ Hp Hd Hcr) as (-> & Hk2 & Hnp).
  left.
  set (k1 := length (st_heap st)) in *.
  set (e0 := set_parent (Some p) element_zero) in *.
  pose proof (lookup_lt_Some _ _ _ Hk2) as Hlt.
  set (X := with_cursor 1 (with_length (length t)
              (with_heap (<[k1 := set_key (Some t) e0]> h2) (tag_entered st h2 k1)))).
  assert (xml_parse_tag_name X =
          Ok (with_heap (<[k1 := attribute_element p (n0 :: n) (k0 :: k) q (a :: x)]>
                           (st_heap X)) X)) as Hname.
  { rewrite (xml_parse_tag_name_attribute X k1 (set_key (Some t) e0) n0 n w k0 k q a x);
      try done.
    cbn. by apply list_lookup_insert_eq. }
  eexists. split_and!.
  5:{ intros rest. rewrite Ht'. cbn [app].
      rewrite (run_open_tag st p) by done. rewrite Hcr. cbn [bind].
      rewrite run_cons. cbn [tag_entered st_parser with_current with_heap with_parser
                              call_parser].
      change (n0 :: t' ++ ">"%char :: rest) with ((n0 :: t') ++ ">"%char :: rest).
      rewrite (tag_body_open _ k1 e0 n0 t' rest); try done; [|by rewrite <- Ht'].
      rewrite <- Ht'. change (xml_parse_tag_name _) with (xml_parse_tag_name X).
      rewrite Hname. cbn [bind].
      replace (st_empty _) with false by (cbn; by rewrite Hem).
      cbn [bind]. reflexivity. }
  - reflexivity.
  - reflexivity.
  - reflexivity.
  - cbn. apply list_lookup_insert_eq. by rewrite length_insert.
Qed.

(** X6.  An opening tag with an attribute, anywhere in a document.  In
    content mode, with the tag handled in element [p], a chunk starting
    with the tag [<name key=qvq>] that is parsed with success is parsed as
    the tag followed by the rest.  When the tag is complete its element,
    the next one of the arena, is a child of [p] and the insertion point;
    its key is the name, and xml_find_attribute with the key in any case
    finds an attribute whose key and value are the key and the value of
    the tag, the value without its quotes. *)
Theorem open_tag_attribute (st s : xml_state) (p : nat) (name : cstr) (w : ascii)
    (key : cstr) (q : ascii) (v rest : cstr) :
  st_parser st = Some parse_content -> st_cursor st = 0 -> st_empty st = false ->
  is_Some (st_root st) -> is_Some (st_current st) -> insertion_point st = Some p ->
  p < length (st_heap st) -> no_dangling (st_heap st) ->
  attribute_tag_ok name w key q v ->
  xml_parse_chunk st
    (Some ("<"%char :: tag_text name w key q v ++ ">"%char :: rest)) = Ok s ->
  exists s1 e,
    xml_parse_chunk st (Some ("<"%char :: tag_text name w key q v ++ [">"%char])) =
      Ok s1 /\
    xml_parse_chunk s1 (Some rest) = Ok s /\
    st_current s1 = Some (length (st_heap st)) /\
    st_heap s1 !! length (st_heap st) = Some e /\
    e_parent e = Some p /\ e_first_child e = None /\
    (cstring <$> e_key e) = Some name /\
    forall key', map tolower key = map tolower key' ->
      exists a, xml_find_attribute e (e_attributes e) key' = Ok (Some a) /\
        attr_string e (a_key a) = Ok key /\ attr_string e (a_value a) = Ok v.
Proof.
  intros Hpa Hcur Hem Hr Hc Hip Hp Hd Hok H.
  rewrite xml_parse_chunk_run, chunk_init_id in H by (by rewrite ?Hpa).
  destruct (run_open_attribute st p name w key q v)
    as [(s1 & Hc1 & Hp1 & Hr1 & He1 & Hrun)|Hno]; try done; [|by apply Hno in H].
  rewrite Hrun in H.
  destruct Hok as ((n0 & n & -> & _) & Hn & _ & _ & Hk & Hq &
                   (a & x & -> & Ha1 & _ & Hx & _)).
  assert (NUL ∉ n0 :: n) as Hn1 by (by apply (avoids_not_in _ _ _ Hn)).
  assert (NUL ∉ key) as Hk1 by (by apply (avoids_not_in _ _ _ Hk)).
  assert (NUL ∉ a :: x) as Hv1.
  { apply not_elem_of_cons. split; [done|]. intros Hin.
    unfold plain in Hx. rewrite Forall_forall in Hx. by destruct (Hx _ Hin) as (_ & _ & ?). }
  destruct (attribute_element_strings p (n0 :: n) key q (a :: x) Hn1 Hk1 Hv1)
    as (Hs1 & Hs2 & Hs3).
  exists s1, (attribute_element p (n0 :: n) key q (a :: x)).
  split_and!; try done.
  - rewrite xml_parse_chunk_run, chunk_init_id by (by rewrite ?Hpa). by rewrite Hrun.
  - rewrite xml_parse_chunk_run, chunk_init_id; [done|by rewrite Hr1|by rewrite Hp1].
  - intros key' Hkey. exists (one_attribute (n0 :: n) key). split; [|done].
    cbn [attribute_element e_attributes set_attributes xml_find_attribute].
    fold (attribute_element p (n0 :: n) key q (a :: x)).
    rewrite Hs2. cbn [bind].
    by rewrite (proj2 (strcasecmp_eq_iff key key') Hkey).
Qed.

(** The parser after [<a>], a tag with an attribute and more. *)
Definition st_with_attribute : xml_state :=
  Eval vm_compute in
    state_of (xml_parse_chunk st_after_open (Some (cs "<img src='x.png'>t</img></a>"))).

Lemma open_tag_attribute_witness :
  exists s1 e,
    xml_parse_chunk st_after_open
      (Some ("<"%char :: tag_text (cs "img") " "%char (cs "src") SQUOTE (cs "x.png") ++
             [">"%char])) = Ok s1 /\
    xml_parse_chunk s1 (Some (cs "t</img></a>")) = Ok st_with_attribute /\
    st_current s1 = Some 2 /\
    st_heap s1 !! 2 = Some e /\
    e_parent e = Some 1 /\ e_first_child e = None /\
    (cstring <$> e_key e) = Some (cs "img") /\
    forall key', map tolower (cs "src") = map tolower key' ->
      exists a, xml_find_attribute e (e_attributes e) key' = Ok (Some a) /\
        attr_string e (a_key a) = Ok (cs "src") /\
        attr_string e (a_value a) = Ok (cs "x.png").
Proof.
  apply (open_tag_attribute st_after_open st_with_attribute 1 (cs "img") " "%char
           (cs "src") SQUOTE (cs "x.png") (cs "t</img></a>")); try done.
  all: try (by eexists).
  all: try apply no_dangling_after_open.
  - cbn. lia.
  - split_and!; try done.
    + by exists "i"%char, (cs "mg").
    + by repeat constructor.
    + by repeat constructor.
    + by left.
    + exists "x"%char, (cs ".png"). split_and!; try done.
      * by repeat constructor.
      * by apply not_in_string.
Defined.

(** ** Reading behind the key buffer *)

Lemma parse_attributes_loop_past f buf attrs from :
  length buf < from -> parse_attributes_loop f buf attrs from = Undef.
Proof. intros H. destruct f; simpl; by rewrite rd_past. Qed.

(** One attribute with a value without quotes that ends the buffer. *)
Lemma parse_attribute_unquoted pre k0 k v0 v :
  avoids (NUL :: EQ_WHITESPACE) (k0 :: k) ->
  avoids (NUL :: WHITESPACE) (v0 :: v) -> v0 <> SQUOTE -> v0 <> DQUOTE ->
  parse_attribute (pre ++ (k0 :: k) ++ "="%char :: v0 :: v) (length pre) =
  Ok (AttrNext (pre ++ (k0 :: k) ++ NUL :: v0 :: v)
        {| a_key := Some (length pre);
           a_value := Some (length pre + length (k0 :: k) + 1) |}
        (length (pre ++ (k0 :: k) ++ "="%char :: v0 :: v) + 1)).
Proof.
  intros Hk Hv Hv1 Hv2.
  assert (avoids EQ_WHITESPACE (k0 :: k)) as Hk1.
  { eapply avoids_weaken; [|done]. intros c. cbn [chr_in existsb].
    intros H. by apply orb_false_iff in H as [_ H]. }
  assert (NUL ∉ k0 :: k) as Hk2 by (by apply (avoids_not_in _ _ _ Hk)).
  assert (avoids WHITESPACE (v0 :: v)) as Hv3.
  { eapply avoids_weaken; [|done]. intros c. cbn [chr_in existsb].
    intros H. by apply orb_false_iff in H as [_ H]. }
  assert (NUL ∉ v0 :: v) as Hv4 by (by apply (avoids_not_in _ _ _ Hv)).
  assert (v0 <> NUL) as Hv5.
  { intros ->. apply Hv4. apply list_elem_of_here. }
  set (buf := pre ++ (k0 :: k) ++ "="%char :: v0 :: v).
  set (tail := v0 :: v) in *.
  unfold parse_attribute.
  rewrite (str_at_at buf pre ((k0 :: k) ++ "="%char :: tail)) by (done || seg).
  cbn [bind]. rewrite cstring_app by done.
  cbn [app]. rewrite (strspn_stop k0) by (by apply eq_ws_ws, (avoids_head _ _ k)).
  rewrite Nat.add_0_r.
  rewrite (str_at_at buf pre ((k0 :: k) ++ "="%char :: tail)) by (done || seg).
  cbn [bind]. rewrite cstring_app by done.
  change (cstring ("="%char :: tail)) with ("="%char :: cstring tail).
  rewrite (strcspn_stop (k0 :: k)) by done.
  change (length (k0 :: k) <? 1) with false. cbv iota.
  rewrite (str_at_at buf (pre ++ k0 :: k) ("="%char :: tail)) by (seg || len).
  cbn [bind]. change (cstring ("="%char :: tail)) with ("="%char :: cstring tail).
  rewrite (strspn_stop "="%char) by done. rewrite Nat.add_0_r.
  rewrite (rd_at buf (pre ++ k0 :: k) "="%char tail) by (seg || len).
  cbn [bind]. change (Ascii.eqb "=" "=") with true. cbv iota.
  unfold parse_attribute_value.
  rewrite (str_at_at buf (pre ++ (k0 :: k) ++ ["="%char]) tail) by (seg || len).
  cbn [bind]. rewrite (cstring_id tail) by done.
  assert (strspn tail WHITESPACE = 0) as Hsp0
    by (by apply strspn_stop, (avoids_head _ _ v)).
  rewrite !Hsp0, !Nat.add_0_r.
  assert (buf = (pre ++ (k0 :: k) ++ ["="%char]) ++ v0 :: v) as Hb by seg.
  assert (length pre + length (k0 :: k) + 1 = length (pre ++ (k0 :: k) ++ ["="%char]))
    as Hl by len.
  rewrite (rd_at buf (pre ++ (k0 :: k) ++ ["="%char]) v0 v) by done.
  cbn [bind].
  destruct (Ascii.eqb v0 NUL) eqn:E1; [apply Ascii.eqb_eq in E1; done|].
  destruct (Ascii.eqb v0 SQUOTE) eqn:E2; [apply Ascii.eqb_eq in E2; done|].
  destruct (Ascii.eqb v0 DQUOTE) eqn:E3; [apply Ascii.eqb_eq in E3; done|].
  rewrite (str_at_at buf (pre ++ (k0 :: k) ++ ["="%char]) tail) by (seg || len).
  cbn [bind]. rewrite (cstring_id tail) by done.
  rewrite (strcspn_end tail) by done.
  rewrite (rd_at_end buf) by len.
  cbn [bind]. change (Ascii.eqb NUL NUL) with true. cbv iota. cbn [bind].
  rewrite (wr0_at buf (pre ++ k0 :: k) "="%char tail) by (seg || len).
  cbn [bind].
  rewrite (wr0_at_end ((pre ++ k0 :: k) ++ NUL :: tail)) by len.
  cbn [bind option_map fst]. do 2 f_equal; [seg|len].
Qed.

(** One attribute whose value is an opening quote that ends the
    buffer: xml_quotedspn is called at the terminating NUL and steps
    over it. *)
Lemma parse_attribute_open_quote pre k0 k q :
  avoids (NUL :: EQ_WHITESPACE) (k0 :: k) -> q = SQUOTE \/ q = DQUOTE ->
  parse_attribute (pre ++ (k0 :: k) ++ ["="%char; q]) (length pre) = Undef.
Proof.
  intros Hk Hq.
  assert (avoids EQ_WHITESPACE (k0 :: k)) as Hk1.
  { eapply avoids_weaken; [|done]. intros c. cbn [chr_in existsb].
    intros H. by apply orb_false_iff in H as [_ H]. }
  assert (NUL ∉ k0 :: k) as Hk2 by (by apply (avoids_not_in _ _ _ Hk)).
  assert (q <> NUL /\ chr_in q WHITESPACE = false) as (Hq1 & Hq3)
    by (by destruct Hq as [-> | ->]).
  set (buf := pre ++ (k0 :: k) ++ ["="%char; q]).
  unfold parse_attribute.
  rewrite (str_at_at buf pre ((k0 :: k) ++ ["="%char; q])) by (done || seg).
  cbn [bind]. rewrite cstring_app by done.
  cbn [app]. rewrite (strspn_stop k0) by (by apply eq_ws_ws, (avoids_head _ _ k)).
  rewrite Nat.add_0_r.
  rewrite (str_at_at buf pre ((k0 :: k) ++ ["="%char; q])) by (done || seg).
  cbn [bind]. rewrite cstring_app by done.
  change (cstring ["="%char; q]) with ("="%char :: cstring [q]).
  rewrite (strcspn_stop (k0 :: k)) by done.
  change (length (k0 :: k) <? 1) with false. cbv iota.
  rewrite (str_at_at buf (pre ++ k0 :: k) ["="%char; q]) by (seg || len).
  cbn [bind]. change (cstring ["="%char; q]) with ("="%char :: cstring [q]).
  rewrite (strspn_stop "="%char) by done. rewrite Nat.add_0_r.
  rewrite (rd_at buf (pre ++ k0 :: k) "="%char [q]) by (seg || len).
  cbn [bind]. change (Ascii.eqb "=" "=") with true. cbv iota.
  unfold parse_attribute_value.
  rewrite (str_at_at buf (pre ++ (k0 :: k) ++ ["="%char]) [q]) by (seg || len).
  cbn [bind].
  assert (strspn (cstring [q]) WHITESPACE = 0) as Hsp0.
  { cbn [cstring]. destruct (Ascii.eqb q NUL) eqn:E; [done|]. by apply strspn_stop. }
  rewrite !Hsp0, !Nat.add_0_r.
  rewrite (rd_at buf (pre ++ (k0 :: k) ++ ["="%char]) q []) by (seg || len).
  cbn [bind].
  destruct (Ascii.eqb q NUL) eqn:E1; [apply Ascii.eqb_eq in E1; done|].
  rewrite (drop_at buf buf []) by (by rewrite ?app_nil_r || len).
  by destruct Hq as [-> | ->].
Qed.

Lemma store_cases h c f : (exists h', store h c f = Ok h') \/ store h c f = Undef.
Proof. unfold store. destruct (h !! c); eauto. Qed.

Lemma xml_element_create_cases h p :
  (exists h2, xml_element_create h (Some p) = Ok (h2, length h) /\
     length h2 = S (length h) /\
     exists ek, h2 !! length h = Some ek /\ e_key ek = None) \/
  xml_element_create h (Some p) = Undef.
Proof.
  unfold xml_element_create, xml_element_add, store, deref.
  rewrite list_lookup_middle by done. cbn [bind].
  set (e1 := set_parent (Some p) element_zero).
  set (h1 := <[length h := e1]> (h ++ [element_zero])).
  assert (length h1 = S (length h)) as Hl1.
  { unfold h1. rewrite length_insert, length_app. cbn. lia. }
  assert (exists ek, h1 !! length h = Some ek /\ e_key ek = None) as Hk1.
  { exists e1. split; [|done]. apply list_lookup_insert_eq. rewrite length_app. cbn. lia. }
  assert (forall (h' : list xml_element) c (f : xml_element -> xml_element) (e : xml_element),
            (forall x, e_key (f x) = e_key x) -> h' !! c = Some e ->
            (exists ek, h' !! length h = Some ek /\ e_key ek = None) ->
            exists ek, <[c := f e]> h' !! length h = Some ek /\ e_key ek = None) as Hins.
  { intros h' c f e Hf Hc (ek & Hek & Hkey).
    destruct (decide (length h = c)) as [<-|Hne].
    - exists (f ek). rewrite list_lookup_insert_eq by (by eapply lookup_lt_Some).
      rewrite Hek in Hc. injection Hc as <-. by rewrite Hf.
    - exists ek. by rewrite list_lookup_insert_ne. }
  destruct (h1 !! p) as [pe|] eqn:Hpe; [|by right]. cbn [bind].
  destruct (e_first_child pe).
  - destruct (e_last_child pe) as [l|]; [|by right].
    destruct (h1 !! l) as [le|] eqn:Hle; [|by right]. cbn [bind].
    destruct (<[l:=set_next (Some (length h)) le]> h1 !! p) as [pe'|] eqn:Hpe';
      [|by right].
    left. eexists. split; [done|]. split; [by rewrite !length_insert|].
    apply (Hins _ p (set_last_child (Some (length h))) pe'); [done|done|].
    by apply (Hins _ l (set_next (Some (length h))) le).
  - left. eexists. split; [done|]. split; [by rewrite length_insert|].
    by apply (Hins _ p (fun e => set_first_child (Some (length h))
                                   (set_last_child (Some (length h)) e)) pe).
Qed.

(** xml_parse_tag_name on a key buffer that holds a name, one white
    space character and more text that ends the tag, the tag not being
    self-closing: the attribute loop runs on the text behind the name. *)
Lemma xml_parse_tag_name_attrs st c e name w r0 R z :
  st_current st = Some c -> st_heap st !! c = Some e ->
  e_key e = Some (name ++ w :: r0 :: R) ->
  avoids (NUL :: WHITESPACE) name -> is_space w ->
  chr_in r0 WHITESPACE = false -> NUL ∉ r0 :: R ->
  last (r0 :: R) = Some z -> chr_in z WHITESPACE = false -> z <> "/"%char ->
  xml_parse_tag_name st =
  do2 buf', attrs <-
    parse_attributes_loop (S (length (name ++ NUL :: r0 :: R))) (name ++ NUL :: r0 :: R)
      (e_attributes e) (length (name ++ [NUL]));
  Ok (with_heap (<[c := set_attributes attrs (set_key (Some buf') e)]> (st_heap st)) st).
Proof.
  intros Hc He Hkey Hn Hw Hr0 HR Hlast Hz1 Hz2.
  set (t := name ++ w :: r0 :: R) in *.
  assert (NUL ∉ name) as Hn1 by (by apply (avoids_not_in _ _ _ Hn)).
  assert (avoids WHITESPACE name) as Hn2.
  { eapply avoids_weaken; [|done]. intros ch. cbn [chr_in existsb].
    intros H. by apply orb_false_iff in H as [_ H]. }
  assert (w <> NUL) as Hw1 by (by intros ->).
  assert (r0 <> NUL) as Hr1.
  { intros ->. apply HR. apply list_elem_of_here. }
  assert (NUL ∉ t) as Ht.
  { unfold t. intros Hin.
    apply elem_of_app in Hin as [Hin|Hin]; [done|].
    apply elem_of_cons in Hin as [Hin|Hin]; done. }
  apply last_Some in Hlast as [R' HR'].
  assert (t = (name ++ w :: R') ++ [z]) as Ht2.
  { unfold t. rewrite HR'. seg. }
  unfold xml_parse_tag_name, xml_check_empty, deref, store.
  rewrite Hc, He. cbn [bind]. rewrite Hkey.
  rewrite (cstring_id t Ht).
  rewrite Ht2 at 1 2. rewrite (check_empty_loop_none _ z) by done.
  rewrite <- Ht2. cbn [bind st_current with_empty with_heap st_heap].
  rewrite Hc. pose proof (lookup_lt_Some _ _ _ He) as Hlt.
  rewrite list_lookup_insert_eq by done. cbn [bind e_key set_key].
  rewrite (cstring_id t Ht).
  assert (strcspn t WHITESPACE = length name) as Hspn by (by apply strcspn_stop).
  rewrite Hspn. rewrite (rd_at t name w (r0 :: R)) by done. cbn [bind].
  destruct (Ascii.eqb w NUL) eqn:E; [apply Ascii.eqb_eq in E; done|].
  rewrite (wr0_at t name w (r0 :: R)) by done. cbn [bind].
  set (buf1 := name ++ NUL :: r0 :: R).
  rewrite (str_at_at buf1 (name ++ [NUL]) (r0 :: R)) by (unfold buf1; seg || len).
  cbn [bind]. rewrite (cstring_id (r0 :: R)) by done.
  rewrite (strspn_stop r0) by done. rewrite !Nat.add_0_r.
  rewrite (rd_at buf1 (name ++ [NUL]) r0 R) by (unfold buf1; seg || len).
  cbn [bind].
  destruct (Ascii.eqb r0 NUL) eqn:E0; [apply Ascii.eqb_eq in E0; done|].
  rewrite list_insert_insert_eq.
  unfold xml_parse_attributes, deref, store.
  rewrite list_lookup_insert_eq by done. cbn [bind e_key set_key e_attributes].
  replace (length name + 1) with (length (name ++ [NUL])) by len.
  destruct (parse_attributes_loop _ _ _ _) as [[buf' attrs]| | |]; [|done..].
  cbn [bind]. rewrite list_insert_insert_eq. by destruct st, e.
Qed.

Lemma run_open_tag_undef st p n0 t' rest :
  st_parser st = Some parse_content -> st_cursor st = 0 ->
  is_Some (st_current st) -> insertion_point st = Some p ->
  n0 <> "/"%char -> n0 <> "?"%char -> n0 <> "!"%char -> ">"%char ∉ n0 :: t' ->
  (forall X c e, st_current X = Some c -> st_heap X !! c = Some e ->
     e_key e = Some (n0 :: t') -> xml_parse_tag_name X = Undef) ->
  run st ("<"%char :: (n0 :: t') ++ ">"%char :: rest) = Undef.
Proof.
  intros Hpa Hcur Hc Hip Hn1 Hn2 Hn3 Hgt Hname. cbn [app].
  rewrite (run_open_tag st p) by done.
  destruct (xml_element_create_cases (st_heap st) p)
    as [(h2 & Hcr & Hlen2 & ek & Hek & Hkey)|Hcr]; rewrite Hcr; [|done].
  cbn [bind]. rewrite run_cons.
  cbn [tag_entered st_parser with_current with_heap with_parser call_parser].
  change (n0 :: t' ++ ">"%char :: rest) with ((n0 :: t') ++ ">"%char :: rest).
  rewrite (tag_body_open _ (length (st_heap st)) ek n0 t' rest) by done.
  rewrite (Hname _ (length (st_heap st)) (set_key (Some (n0 :: t')) ek));
    [done|reflexivity| |reflexivity].
  cbn. apply list_lookup_insert_eq. by eapply lookup_lt_Some.
Qed.

(** The strings of a tag [<name key=...>]: as for [attribute_tag_ok]. *)
Definition tag_head_ok (name : cstr) (w : ascii) (key : cstr) : Prop :=
  (exists n0 n, name = n0 :: n /\ n0 <> "/"%char /\ n0 <> "?"%char /\ n0 <> "!"%char) /\
  avoids (NUL :: ">"%char :: WHITESPACE) name /\ is_space w /\
  key <> [] /\ avoids (NUL :: ">"%char :: EQ_WHITESPACE) key.

(** X7.  Two attribute texts make xml_parse_attributes read behind the
    key buffer, which is undefined behaviour.  In content mode, a tag
    [<name key=v>] whose value [v] has no quotes and ends the tag, the
    tag not being self-closing: behind the value the pointer stands on
    the terminating NUL, which is taken for the closing quote and
    stepped over, and the loop condition reads the byte behind it.  And
    a tag [<name key=q>] that ends with an opening quote: xml_quotedspn
    is called at the terminating NUL and steps over it. *)
Theorem attribute_value_reads_past_buffer (st : xml_state) (p : nat) (name : cstr)
    (w : ascii) (key : cstr) (v0 : ascii) (v : cstr) (z q : ascii) (rest : cstr) :
  st_parser st = Some parse_content -> st_cursor st = 0 -> is_Some (st_root st) ->
  is_Some (st_current st) -> insertion_point st = Some p ->
  tag_head_ok name w key ->
  avoids (NUL :: ">"%char :: WHITESPACE) (v0 :: v) ->
  v0 <> SQUOTE -> v0 <> DQUOTE -> last (v0 :: v) = Some z -> z <> "/"%char ->
  q = SQUOTE \/ q = DQUOTE ->
  xml_parse_chunk st
    (Some ("<"%char :: (name ++ w :: key ++ "="%char :: v0 :: v) ++ ">"%char :: rest)) =
    Undef /\
  xml_parse_chunk st
    (Some ("<"%char :: (name ++ w :: key ++ ["="%char; q]) ++ ">"%char :: rest)) =
    Undef.
Proof.
  intros Hpa Hcur Hr Hc Hip ((n0 & n & -> & Hn1 & Hn2 & Hn3) & Hn & Hw & Hkne & Hk)
    Hv Hv1 Hv2 Hlast Hz Hq.
  destruct key as [|k0 k]; [done|].
  destruct (avoids_drop_gt _ _ Hn) as [Hn' Hngt].
  destruct (avoids_drop_gt _ _ Hk) as [Hk' Hkgt].
  destruct (avoids_drop_gt _ _ Hv) as [Hv' Hvgt].
  assert (chr_in k0 WHITESPACE = false) as Hk0.
  { apply eq_ws_ws. apply (avoids_head _ _ k). eapply avoids_weaken; [|exact Hk'].
    intros ch. cbn [chr_in existsb]. intros H. by apply orb_false_iff in H as [_ H]. }
  assert (NUL ∉ k0 :: k) as Hknul by (by apply (avoids_not_in _ _ _ Hk')).
  assert (NUL ∉ v0 :: v) as Hvnul by (by apply (avoids_not_in _ _ _ Hv')).
  assert (">"%char <> w) as Hwgt by (by intros <-).
  rewrite !xml_parse_chunk_run, !chunk_init_id by (by rewrite ?Hpa).
  split.
  - assert (">"%char ∉ (n0 :: n) ++ w :: (k0 :: k) ++ "="%char :: v0 :: v) as Hgt1.
    { intros Hin. apply elem_of_app in Hin as [Hin|Hin]; [done|].
      apply elem_of_cons in Hin as [Hin|Hin]; [done|].
      apply elem_of_app in Hin as [Hin|Hin]; [done|].
      apply elem_of_cons in Hin as [Hin|Hin]; done. }
    apply (run_open_tag_undef st p n0 (n ++ w :: (k0 :: k) ++ "="%char :: v0 :: v));
      try done.
    intros X c e HcX HeX Hkey.
    assert (last (k0 :: k ++ "="%char :: v0 :: v) = Some z) as Hlast'.
    { rewrite app_comm_cons, last_app.
      change (last ("="%char :: v0 :: v)) with (last (v0 :: v)). by rewrite Hlast. }
    assert (chr_in z WHITESPACE = false) as Hzws.
    { apply last_Some in Hlast as [v' Hv'']. unfold avoids in Hv'. rewrite Hv'' in Hv'.
      apply Forall_app in Hv' as [_ Hv']. rewrite Forall_singleton in Hv'.
      cbn [chr_in existsb] in Hv'. by apply orb_false_iff in Hv' as [_ Hv']. }
    rewrite (xml_parse_tag_name_attrs X c e (n0 :: n) w k0
               (k ++ "="%char :: v0 :: v) z); try done.
    + rewrite (parse_attributes_loop_step _ _ _ _ k0);
        [|by apply (rd_at _ ((n0 :: n) ++ [NUL]) k0 (k ++ "="%char :: v0 :: v)); [seg|]
         |by intros ->; apply Hknul, list_elem_of_here].
      replace ((n0 :: n) ++ NUL :: k0 :: k ++ "="%char :: v0 :: v)
        with (((n0 :: n) ++ [NUL]) ++ (k0 :: k) ++ "="%char :: v0 :: v) by seg.
      rewrite parse_attribute_unquoted by done. cbn [bind].
      rewrite parse_attributes_loop_past; [done|len].
    + intros Hin. apply elem_of_cons in Hin as [Hin|Hin];
        [by subst k0; apply Hknul, list_elem_of_here|].
      apply elem_of_app in Hin as [Hin|Hin];
        [by apply Hknul, list_elem_of_further|].
      apply elem_of_cons in Hin as [Hin|Hin]; done.
  - assert (">"%char ∉ (n0 :: n) ++ w :: (k0 :: k) ++ ["="%char; q]) as Hgt1.
    { intros Hin. apply elem_of_app in Hin as [Hin|Hin]; [done|].
      apply elem_of_cons in Hin as [Hin|Hin]; [done|].
      apply elem_of_app in Hin as [Hin|Hin]; [done|].
      apply elem_of_cons in Hin as [Hin|Hin]; [done|].
      apply list_elem_of_singleton in Hin. by destruct Hq as [-> | ->]. }
    apply (run_open_tag_undef st p n0 (n ++ w :: (k0 :: k) ++ ["="%char; q]));
      try done.
    intros X c e HcX HeX Hkey.
    assert (q <> NUL /\ q <> "/"%char /\ chr_in q WHITESPACE = false) as (Hq1 & Hq2 & Hq3)
      by (by destruct Hq as [-> | ->]).
    rewrite (xml_parse_tag_name_attrs X c e (n0 :: n) w k0 (k ++ ["="%char; q]) q);
      try done.
    + rewrite (parse_attributes_loop_step _ _ _ _ k0);
        [|by apply (rd_at _ ((n0 :: n) ++ [NUL]) k0 (k ++ ["="%char; q])); [seg|]
         |by intros ->; apply Hknul, list_elem_of_here].
      replace ((n0 :: n) ++ NUL :: k0 :: k ++ ["="%char; q])
        with (((n0 :: n) ++ [NUL]) ++ (k0 :: k) ++ ["="%char; q]) by seg.
      by rewrite parse_attribute_open_quote.
    + intros Hin. apply elem_of_cons in Hin as [Hin|Hin];
        [by subst k0; apply Hknul, list_elem_of_here|].
      apply elem_of_app in Hin as [Hin|Hin];
        [by apply Hknul, list_elem_of_further|].
      apply elem_of_cons in Hin as [Hin|Hin]; [done|].
      apply list_elem_of_singleton in Hin. done.
    + rewrite app_comm_cons, last_app. done.
Qed.

Lemma attribute_value_reads_past_buffer_witness :
  xml_parse_chunk st_after_open
    (Some ("<"%char :: (cs "b" ++ " "%char :: cs "x" ++ "="%char :: "1"%char :: []) ++
           ">"%char :: cs "t")) = Undef /\
  xml_parse_chunk st_after_open
    (Some ("<"%char :: (cs "b" ++ " "%char :: cs "x" ++ ["="%char; DQUOTE]) ++
           ">"%char :: cs "t")) = Undef.
Proof.
  apply (attribute_value_reads_past_buffer st_after_open 1 (cs "b") " "%char (cs "x")
           "1"%char [] "1"%char DQUOTE (cs "t")); try done.
  all: try (by eexists).
  - split_and!; try done.
    + by exists "b"%char, [].
    + by repeat constructor.
    + by repeat constructor.
  - by repeat constructor.
  - by right.
Defined.

(** ** The empty tag *)

Lemma tag_body_empty st k ek rest :
  st_tag st = Some pat_open -> st_cursor st = 0 -> st_length st = 0 ->
  st_current st = Some k -> st_heap st !! k = Some ek -> e_key ek = None ->
  xml_parse_tag_body st (">"%char :: rest) =
  Err (with_length 0 (with_heap (<[k := set_key None ek]> (st_heap st)) st)).
Proof.
  intros Htag Hcur Hlen Hc He Hk.
  destruct st as [h ro cu tg len cur em pa]. simpl in Htag, Hcur, Hlen, Hc, He. subst.
  rewrite xml_parse_tag_body_unfold.
  unfold tag_body_iter. cbn [st_tag st_cursor Nat.eqb].
  change (close_at pat_open 0) with ">"%char.
  cbn [strchr]. change (Ascii.eqb ">" ">") with true. cbv iota.
  unfold tag_body_match. cbn [st_cursor Nat.eqb take].
  unfold xml_key_append, append_current_key, append_current, deref, store.
  cbn [st_current st_tag type pat_open Nat.eqb TAG_ELEMENT_OPEN TAG_ELEMENT_CLOSE
       st_length open_len Nat.ltb Nat.leb andb bind st_heap].
  rewrite He. cbn [bind]. rewrite Hk.
  unfold xml_string_append. cbn [length Nat.ltb Nat.leb bind].
  reflexivity.
Qed.

(** X8.  The tag [<>] is an error.  In content mode the element of the
    tag is created and linked, and then xml_key_append is called with no
    data for an element that has no key yet; xml_string_append returns
    the NULL key, which is taken for a failed allocation.  The chunk is
    rejected, and the new element stays in the tree as the insertion
    point. *)
Theorem empty_tag_is_error (st : xml_state) (p : nat) (rest : cstr) :
  st_parser st = Some parse_content -> st_cursor st = 0 -> is_Some (st_root st) ->
  is_Some (st_current st) -> insertion_point st = Some p ->
  (exists h2 st',
     xml_element_create (st_heap st) (Some p) = Ok (h2, length (st_heap st)) /\
     xml_parse_chunk st (Some (cs "<>" ++ rest)) = Err st' /\
     st_current st' = Some (length (st_heap st)) /\
     length (st_heap st') = S (length (st_heap st))) \/
  (xml_element_create (st_heap st) (Some p) = Undef /\
   xml_parse_chunk st (Some (cs "<>" ++ rest)) = Undef).
Proof.
  intros Hpa Hcur Hr Hc Hip.
  rewrite !xml_parse_chunk_run, !chunk_init_id by (by rewrite ?Hpa).
  change (cs "<>" ++ rest) with ("<"%char :: ">"%char :: rest).
  rewrite (run_open_tag st p) by done.
  destruct (xml_element_create_cases (st_heap st) p)
    as [(h2 & Hcr & Hlen2 & ek & Hek & Hkey)|Hcr]; rewrite Hcr; [|by right].
  left. cbn [bind]. rewrite run_cons.
  cbn [tag_entered st_parser with_current with_heap with_parser call_parser].
  rewrite (tag_body_empty _ (length (st_heap st)) ek) by done.
  eexists _, _. split_and!; try done.
  cbn. by rewrite length_insert.
Qed.

Lemma empty_tag_is_error_witness :
  exists st', xml_parse_chunk st_after_open (Some (cs "<>" ++ cs "x")) = Err st' /\
    st_current st' = Some 2.
Proof.
  destruct (empty_tag_is_error st_after_open 1 (cs "x"))
    as [(h2 & st' & _ & H & Hc & _)|[Hcr _]]; try done.
  all: try (by eexists).
Defined.

Lemma quotedspn_scan_skip q x : forall n rest,
  plain q x -> quotedspn_scan (x ++ rest) n q = quotedspn_scan rest (n + length x) q.
Proof.
  induction x as [|c x IH]; intros n rest Hx.
  - cbn [app length]. by rewrite Nat.add_0_r.
  - apply Forall_cons in Hx as [(Hc1 & Hc2 & Hc3) Hx]. cbn [app quotedspn_scan].
    destruct (Ascii.eqb c NUL) eqn:E1; [apply Ascii.eqb_eq in E1; done|].
    destruct (Ascii.eqb c "\") eqn:E2; [apply Ascii.eqb_eq in E2; done|].
    destruct (Ascii.eqb c q) eqn:E3; [apply Ascii.eqb_eq in E3; done|].
    rewrite IH by done. f_equal. cbn [length]. lia.
Qed.

(** X9.  What xml_quotedspn returns.  The character under the pointer
    is never looked at.  Behind it, over characters that are neither the
    quote nor a backslash, the first quote ends the span and its offset
    is returned; a backslash makes the scan step over the character
    behind it, a quote included; and without a quote the result is 0, as
    for no span at all. *)
Theorem xml_quotedspn_scan (a q c : ascii) (x y r : cstr) :
  q <> NUL -> q <> "\"%char -> plain q x -> plain q y ->
  xml_quotedspn (a :: x ++ q :: r) q = Ok (S (length x)) /\
  xml_quotedspn (a :: x ++ "\"%char :: c :: y ++ q :: r) q =
    Ok (S (length x) + 2 + length y) /\
  xml_quotedspn (a :: x) q = Ok 0.
Proof.
  intros Hq1 Hq2 Hx Hy. cbn [xml_quotedspn]. split_and!.
  - by rewrite quotedspn_scan_plain.
  - rewrite quotedspn_scan_skip by done. cbn [quotedspn_scan].
    change (Ascii.eqb "\" NUL) with false. change (Ascii.eqb "\" "\") with true.
    cbv iota. rewrite quotedspn_scan_plain by done. f_equal. 
  - by apply quotedspn_scan_open.
Qed.

Lemma xml_quotedspn_scan_witness :
  xml_quotedspn (DQUOTE :: cs "ab" ++ DQUOTE :: cs " c") DQUOTE = Ok 3 /\
  xml_quotedspn (DQUOTE :: cs "ab" ++ "\"%char :: DQUOTE :: cs "cd" ++ DQUOTE :: cs " c")
    DQUOTE = Ok 7 /\
  xml_quotedspn (DQUOTE :: cs "ab") DQUOTE = Ok 0.
Proof.
  apply (xml_quotedspn_scan DQUOTE DQUOTE DQUOTE (cs "ab") (cs "cd") (cs " c"));
    try done; by repeat constructor.
Defined.

(** ** Content length and content copy *)

(** The loops of xml_content_len and xml_content_cpy over the children
    from [c] on, with the functions themselves at the fuel [f] for the
    recursive calls. *)
Fixpoint len_children (f : nat) (h : list xml_element) (n : nat) (c : option nat)
    (s : nat) : result nat :=
  match c with
  | None => Ok s
  | Some ci =>
      match n with
      | 0 => NoFuel
      | S n' =>
          do ce <- deref h ci;
          match e_value ce with
          | Some v => len_children f h n' (e_next ce) (s + length (cstring v))
          | None =>
              do l <- xml_content_len f h ci;
              len_children f h n' (e_next ce) (s + l)
          end
      end
  end.

Fixpoint cpy_children (f : nat) (h : list xml_element) (n : nat) (c : option nat)
    (t : list ascii) : result (list ascii) :=
  match c with
  | None => Ok t
  | Some ci =>
      match n with
      | 0 => NoFuel
      | S n' =>
          do ce <- deref h ci;
          match e_value ce with
          | Some v => cpy_children f h n' (e_next ce) (t ++ cstring v)
          | None =>
              do t' <- xml_content_cpy f h ci t;
              cpy_children f h n' (e_next ce) t'
          end
      end
  end.

Lemma len_children_eq f h : forall n c s,
  (fix children (n : nat) (c : option nat) (s : nat) : result nat :=
     match c with
     | None => Ok s
     | Some ci =>
         match n with
         | 0 => NoFuel
         | S n' =>
             do ce <- deref h ci;
             match e_value ce with
             | Some v => children n' (e_next ce) (s + length (cstring v))
             | None =>
                 do l <- xml_content_len f h ci;
                 children n' (e_next ce) (s + l)
             end
         end
     end) n c s = len_children f h n c s.
Proof.
  induction n as [|n IH]; intros c s; destruct c as [ci|]; try done.
  cbn [len_children]. destruct (deref h ci) as [ce| | |]; [|done..]. cbn [bind].
  destruct (e_value ce); [apply IH|].
  destruct (xml_content_len f h ci); [|done..]. cbn [bind]. apply IH.
Qed.

Lemma cpy_children_eq f h : forall n c t,
  (fix children (n : nat) (c : option nat) (t : list ascii) : result (list ascii) :=
     match c with
     | None => Ok t
     | Some ci =>
         match n with
         | 0 => NoFuel
         | S n' =>
             do ce <- deref h ci;
             match e_value ce with
             | Some v => children n' (e_next ce) (t ++ cstring v)
             | None =>
                 do t' <- xml_content_cpy f h ci t;
                 children n' (e_next ce) t'
             end
         end
     end) n c t = cpy_children f h n c t.
Proof.
  induction n as [|n IH]; intros c t; destruct c as [ci|]; try done.
  cbn [cpy_children]. destruct (deref h ci) as [ce| | |]; [|done..]. cbn [bind].
  destruct (e_value ce); [apply IH|].
  destruct (xml_content_cpy f h ci t); [|done..]. cbn [bind]. apply IH.
Qed.

Lemma xml_content_len_unfold f h e :
  xml_content_len (S f) h e =
  do el <- deref h e; len_children f h f (e_first_child el) 0.
Proof.
  cbn [xml_content_len]. destruct (deref h e) as [el| | |]; [|done..]. cbn [bind].
  apply len_children_eq.
Qed.

Lemma xml_content_cpy_unfold f h e t :
  xml_content_cpy (S f) h e t =
  do el <- deref h e; cpy_children f h f (e_first_child el) t.
Proof.
  cbn [xml_content_cpy]. destruct (deref h e) as [el| | |]; [|done..]. cbn [bind].
  apply cpy_children_eq.
Qed.

Lemma cstring_no_NUL buf : NUL ∉ cstring buf.
Proof.
  induction buf as [|c buf IH]; cbn [cstring]; [by intros H%elem_of_nil|].
  destruct (Ascii.eqb c NUL) eqn:E; [by intros H%elem_of_nil|].
  apply not_elem_of_cons. split; [|done]. intros <-. by rewrite Ascii.eqb_refl in E.
Qed.

Lemma len_cpy_children f h
    (IH : forall e l t, xml_content_len f h e = Ok l ->
       exists s, xml_content_cpy f h e t = Ok (t ++ s) /\ length s = l /\ NUL ∉ s) :
  forall n c acc l t,
    len_children f h n c acc = Ok l ->
    exists s, cpy_children f h n c t = Ok (t ++ s) /\ acc + length s = l /\ NUL ∉ s.
Proof.
  induction n as [|n IHn]; intros c acc l t H; destruct c as [ci|];
    cbn [len_children cpy_children] in *; try done.
  - simplify_eq. exists []. rewrite app_nil_r. split_and!; [done|cbn; lia|].
    by intros Hin%elem_of_nil.
  - destruct (deref h ci) as [ce| | |]; [|done..]. cbn [bind] in *.
    destruct (e_value ce) as [v|].
    + destruct (IHn _ _ _ (t ++ cstring v) H) as (s & Hs & Hl & Hn).
      exists (cstring v ++ s). rewrite app_assoc. split_and!; [done| |].
      * rewrite length_app. lia.
      * intros Hin. apply elem_of_app in Hin as [Hin|Hin]; [|done].
        by apply (cstring_no_NUL v).
    + apply bind_Ok in H as (l1 & H1 & H).
      destruct (IH _ _ t H1) as (s1 & Hs1 & Hl1 & Hn1). rewrite Hs1. cbn [bind].
      destruct (IHn _ _ _ (t ++ s1) H) as (s & Hs & Hl & Hn).
      exists (s1 ++ s). rewrite app_assoc. split_and!; [done| |].
      * rewrite length_app. lia.
      * intros Hin. by apply elem_of_app in Hin as [Hin|Hin].
  - simplify_eq. exists []. rewrite app_nil_r. split_and!; [done|cbn; lia|].
    by intros Hin%elem_of_nil.
Qed.

Lemma xml_content_len_cpy f h : forall e l t,
  xml_content_len f h e = Ok l ->
  exists s, xml_content_cpy f h e t = Ok (t ++ s) /\ length s = l /\ NUL ∉ s.
Proof.
  induction f as [|f IH]; intros e l t H; [done|].
  rewrite xml_content_len_unfold in H. rewrite xml_content_cpy_unfold.
  destruct (deref h e) as [el| | |]; [|done..]. cbn [bind] in *.
  destruct (len_cpy_children f h IH _ _ _ _ t H) as (s & Hs & Hl & Hn).
  by exists s.
Qed.

(** X10.  xml_content_cpy writes what xml_content_len has counted.
    When xml_content_len returns [l] for an element, xml_content_cpy
    succeeds as well and writes exactly [l] bytes, none of them NUL, so
    that the buffer of [l] + 1 bytes that xml_content allocates holds them
    and the terminator; and xml_content returns those bytes, or NULL when
    there are none. *)
Theorem xml_content_fits (fuel : nat) (h : list xml_element) (e l : nat) :
  xml_content_len fuel h e = Ok l ->
  exists s, xml_content_cpy fuel h e [] = Ok s /\ length s = l /\ (NUL ∉ s) /\
    xml_content fuel h (Some e) = Ok (if (l <? 1) then None else Some s).
Proof.
  intros H. destruct (xml_content_len_cpy fuel h e l [] H) as (s & Hs & Hl & Hn).
  exists s. split_and!; try done.
  unfold xml_content. rewrite H. cbn [bind].
  destruct (l <? 1); [done|]. by rewrite Hs.
Qed.

Lemma xml_content_fits_witness :
  exists s, xml_content_cpy 10 tree1 1 [] = Ok s /\ length s = 2 /\ (NUL ∉ s) /\
    xml_content 10 tree1 (Some 1) = Ok (if (2 <? 1) then None else Some s).
Proof. apply (xml_content_fits 10 tree1 1 2). vm_compute. reflexivity. Defined.

(** ** What xml_find finds *)

(** [x] is on the chain of next links that starts at [from]. *)
Inductive on_chain (h : list xml_element) : option nat -> nat -> Prop :=
| chain_here c : on_chain h (Some c) c
| chain_next c ce x :
    h !! c = Some ce -> on_chain h (e_next ce) x -> on_chain h (Some c) x.

(** [c] is a child of [p]: it is on the chain from the first child. *)
Definition is_child (h : list xml_element) (p c : nat) : Prop :=
  exists pe, h !! p = Some pe /\ on_chain h (e_first_child pe) c.

Lemma scan_siblings_Some n h test : forall from x,
  scan_siblings n h test from = Ok (Some x) ->
  exists c ce, on_chain h from c /\ h !! c = Some ce /\ test c ce = Ok (Some x).
Proof.
  induction n as [|n IH]; intros [ei|] x H; simpl in H; try done.
  unfold deref in H. destruct (h !! ei) as [ee|] eqn:He; [|done]. cbn [bind] in H.
  apply bind_Ok in H as (r & Hr & H). destruct r as [y|].
  - injection H as ->. exists ei, ee. split_and!; [constructor|done|done].
  - destruct (IH _ _ H) as (c & ce & Hc & Hce & Ht).
    exists c, ce. split_and!; [|done|done]. by apply (chain_next h ei ee).
Qed.

Lemma scan_siblings_None n h test : forall from,
  scan_siblings n h test from = Ok None ->
  forall c, on_chain h from c -> exists ce, h !! c = Some ce /\ test c ce = Ok None.
Proof.
  induction n as [|n IH]; intros [ei|] H c Hc; simpl in H; try done;
    try (by inversion Hc).
  unfold deref in H. destruct (h !! ei) as [ee|] eqn:He; [|done]. cbn [bind] in H.
  apply bind_Ok in H as (r & Hr & H). destruct r as [y|]; [done|].
  inversion Hc as [|c' ce x Hce Hnext]; subst.
  - by exists ee.
  - rewrite He in Hce. injection Hce as <-. by apply (IH _ H).
Qed.

(** ** What xml_find_next finds *)

Lemma find_from_Some f h lk seg from x :
  find_from f h lk seg from = Ok (Some x) ->
  exists xe, h !! x = Some xe /\ next_match h lk seg x xe = Ok true.
Proof.
  unfold find_from. intros H.
  apply scan_siblings_Some in H as (c & ce & _ & Hce & Ht).
  apply bind_Ok in Ht as (m & Hm & Ht). destruct m; [|done].
  injection Ht as <-. by exists ce.
Qed.

Lemma xml_find_next_from_sound fuel h : forall li path prev x le,
  xml_find_next_from fuel h (Some li) path prev = Ok (Some x) ->
  h !! li = Some le ->
  exists seg xe, h !! x = Some xe /\ next_match h (e_key le) seg x xe = Ok true /\
    match path with
    | Some p => exists n, xml_last_path_segment segment_zero p prev = Ok (seg, n)
    | None => seg = segment_zero
    end.
Proof.
  induction fuel as [|f IH]; intros li path prev x le H Hle; [done|].
  cbn [xml_find_next_from] in H.
  apply bind_Ok in H as ([seg prev'] & Hseg & H).
  unfold deref in H at 1. rewrite Hle in H. cbn [bind] in H.
  apply bind_Ok in H as (r & Hr & H).
  assert (match path with
          | Some p => exists n, xml_last_path_segment segment_zero p prev = Ok (seg, n)
          | None => seg = segment_zero
          end) as Hpath.
  { destruct path as [p|].
    - apply bind_Ok in Hseg as ([s n] & Hs & Hseg). injection Hseg as <- <-. by exists n.
    - by injection Hseg as <- <-. }
  destruct r as [y|].
  { injection H as ->. apply find_from_Some in Hr as (xe & Hxe & Hm).
    by exists seg, xe. }
  clear Hr.
  lazymatch type of H with
  | ?B ?n0 ?p0 = _ =>
      cut (forall m q, B m q = Ok (Some x) ->
             exists xe, h !! x = Some xe /\ next_match h (e_key le) seg x xe = Ok true);
        [intros Hb; destruct (Hb _ _ H) as (xe & Hxe & Hm); by exists seg, xe|]
  end.
  clear H. induction m as [|n IHn]; intros [pi|] H; try done.
  unfold deref in H. destruct (h !! pi) as [pe|]; [|done]. cbn [bind] in H.
  destruct (e_key pe); [|done].
  apply bind_Ok in H as (p' & Hp' & H). destruct p' as [qi|]; [|done].
  destruct (h !! qi) as [qe|]; [|done]. cbn [bind] in H.
  apply bind_Ok in H as (r' & Hr' & H). destruct r' as [y|].
  - injection H as ->. by apply find_from_Some in Hr'.
  - by apply (IHn _ H).
Qed.

(** ** Text *)

(** The element xml_value_append makes for the text [text] under [p]. *)
Definition text_element (p : nat) (text : cstr) : xml_element :=
  set_value (Some text) (set_parent (Some p) element_zero).

Lemma parse_text st p a x s :
  st_parser st = Some parse_content -> st_length st = 0 ->
  st_current st = Some p -> p < length (st_heap st) -> no_dangling (st_heap st) ->
  "<"%char ∉ a :: x ->
  run st (a :: x) = Ok s ->
  st_current s = Some (length (st_heap st)) /\
  st_length s = length (a :: x) /\ st_parser s = Some parse_content /\
  st_root s = st_root st /\
  length (st_heap s) = S (length (st_heap st)) /\
  st_heap s !! length (st_heap st) = Some (text_element p (a :: x)) /\
  no_parent (length (st_heap st)) (st_heap s).
Proof.
  intros Hpa Hlen Hc Hp Hd Hlt H.
  rewrite run_cons, Hpa in H. cbn [call_parser] in H. unfold xml_parse_content in H.
  change (cs "<") with ["<"%char] in H. rewrite (strcspn_all _ _ Hlt) in H.
  rewrite firstn_all, drop_all in H.
  change (0 <? length (a :: x)) with true in H. cbv iota in H.
  unfold xml_value_append in H. rewrite Hlen, Hc in H. cbn [Nat.eqb] in H.
  destruct (xml_element_create (st_heap st) (Some p)) as [[h2 k]| | |] eqn:Hcr;
    [|done..].
  destruct (xml_element_create_fresh _ _ _ _ Hp Hd Hcr) as (-> & Hk & Hnp).
  cbn [bind] in H.
  unfold append_current_value, append_current, deref, store in H.
  cbn [st_current with_current st_heap with_heap] in H.
  rewrite Hk in H. cbn [bind e_value set_parent element_zero] in H.
  destruct st as [h ro cu tg len cur em pa]. simpl in *. subst.
  injection H as <-. cbn.
  pose proof (lookup_lt_Some _ _ _ Hk) as Hlt2.
  split_and!; try done.
  - rewrite length_insert. by apply xml_element_create_length in Hcr.
  - by apply list_lookup_insert_eq.
  - intros i e Hi. destruct (decide (i = length h)) as [->|Hne].
    + rewrite list_lookup_insert_eq in Hi by done. injection Hi as <-.
      cbn. intros [= ->]. lia.
    + rewrite list_lookup_insert_ne in Hi by done. by apply (Hnp i e).
Qed.

Lemma parse_more_text s k e t y s' :
  st_parser s = Some parse_content -> st_length s = length t -> t <> [] ->
  st_current s = Some k -> st_heap s !! k = Some e -> e_value e = Some t ->
  "<"%char ∉ y ->
  run s y = Ok s' ->
  st_heap s' = <[k := set_value (Some (t ++ y)) e]> (st_heap s) /\
  st_current s' = Some k /\ st_length s' = length (t ++ y) /\
  st_parser s' = Some parse_content.
Proof.
  intros Hpa Hlen Ht Hc He Hv Hlt H.
  destruct y as [|b y].
  { injection H as <-. rewrite app_nil_r. split_and!; try done.
    rewrite <- Hv. symmetry. replace (set_value (e_value e) e) with e by (by destruct e).
    by apply list_insert_id. }
  rewrite run_cons, Hpa in H. cbn [call_parser] in H. unfold xml_parse_content in H.
  change (cs "<") with ["<"%char] in H. rewrite (strcspn_all _ _ Hlt) in H.
  rewrite firstn_all, drop_all in H.
  change (0 <? length (b :: y)) with true in H. cbv iota in H.
  unfold xml_value_append in H. rewrite Hlen in H.
  destruct (length t =? 0) eqn:E; [apply Nat.eqb_eq in E; by destruct t|].
  cbn [bind] in H.
  unfold append_current_value, append_current, deref, store in H.
  rewrite Hc, He in H. cbn [bind] in H. rewrite Hv, Hlen in H.
  unfold xml_string_append in H. cbn [length Nat.ltb Nat.leb] in H.
  rewrite Nat.leb_refl in H. cbn [bind] in H. rewrite firstn_all in H.
  destruct s as [h ro cu tg len cur em pa]. simpl in *. subst.
  injection H as <-. cbn. split_and!; try done.
  rewrite length_app. done.
Qed.

(** X13.  Text becomes an element of its own.  In content mode with no
    text pending, a chunk of text, free of '<', is stored as the value of
    a new element without key, the next one of the arena, which is
    linked as a child of the insertion point and becomes the insertion
    point itself.  Text of a following chunk is appended to the value of
    that same element: no second element is made. *)
Theorem text_in_pieces (st s1 s : xml_state) (p : nat) (a : ascii) (x y : cstr) :
  st_parser st = Some parse_content -> st_length st = 0 -> is_Some (st_root st) ->
  st_current st = Some p -> p < length (st_heap st) -> no_dangling (st_heap st) ->
  "<"%char ∉ a :: x -> "<"%char ∉ y ->
  xml_parse_chunk st (Some (a :: x)) = Ok s1 ->
  xml_parse_chunk s1 (Some y) = Ok s ->
  st_heap s1 !! length (st_heap st) = Some (text_element p (a :: x)) /\
  st_current s1 = Some (length (st_heap st)) /\
  st_heap s !! length (st_heap st) = Some (text_element p (a :: x ++ y)) /\
  st_current s = Some (length (st_heap st)) /\
  length (st_heap s) = S (length (st_heap st)) /\
  forall i e, st_heap s !! i = Some e -> e_parent e <> Some (length (st_heap st)).
Proof.
  intros Hpa Hlen Hr Hc Hp Hd Hlt1 Hlt2 H1 H2.
  rewrite xml_parse_chunk_run, chunk_init_id in H1 by (by rewrite ?Hpa).
  destruct (parse_text st p a x s1 Hpa Hlen Hc Hp Hd Hlt1 H1)
    as (Hc1 & Hl1 & Hp1 & Hr1 & Hlen1 & Hk1 & Hnp1).
  rewrite xml_parse_chunk_run, chunk_init_id in H2;
    [|by rewrite Hr1|by rewrite Hp1].
  destruct (parse_more_text s1 _ _ (a :: x) y s Hp1 Hl1 ltac:(done) Hc1 Hk1 eq_refl
              Hlt2 H2) as (Hh & Hc2 & Hl2 & Hp2).
  pose proof (lookup_lt_Some _ _ _ Hk1) as Hlt.
  split_and!; try done.
  - rewrite Hh. by apply list_lookup_insert_eq.
  - rewrite Hh, length_insert. done.
  - intros i e Hi. rewrite Hh in Hi.
    destruct (decide (i = length (st_heap st))) as [->|Hne].
    + rewrite list_lookup_insert_eq in Hi by done. injection Hi as <-.
      cbn. intros [= ->]. lia.
    + rewrite list_lookup_insert_ne in Hi by done. by apply (Hnp1 i e).
Qed.

Definition st_text_1 : xml_state :=
  Eval vm_compute in state_of (xml_parse_chunk st_after_open (Some (cs "R&amp;"))).
Definition st_text_2 : xml_state :=
  Eval vm_compute in state_of (xml_parse_chunk st_text_1 (Some (cs "D"))).

Lemma text_in_pieces_witness :
  st_heap st_text_1 !! 2 = Some (text_element 1 (cs "R&amp;")) /\
  st_current st_text_1 = Some 2 /\
  st_heap st_text_2 !! 2 = Some (text_element 1 (cs "R&amp;D")) /\
  st_current st_text_2 = Some 2 /\
  length (st_heap st_text_2) = 3 /\
  forall i e, st_heap st_text_2 !! i = Some e -> e_parent e <> Some 2.
Proof.
  apply (text_in_pieces st_after_open st_text_1 st_text_2 1 "R"%char (cs "&amp;") (cs "D"));
    try done.
  all: try (by eexists).
  all: try apply no_dangling_after_open.
  all: try (by apply not_in_string).
  cbn. lia.
Defined.

(** ** Path segments *)

Lemma strchr_none s c : c ∉ s -> strchr s c = None.
Proof.
  induction s as [|a s IH]; intros Hn; [done|].
  apply not_elem_of_cons in Hn as [Hne Hn]. simpl.
  destruct (Ascii.eqb a c) eqn:He; [apply Ascii.eqb_eq in He; congruence|].
  by rewrite IH.
Qed.

(** What stands behind a path segment: nothing, or a '/' and the rest
    of the path. *)
Definition segment_end (tail : cstr) : Prop :=
  tail = [] \/ exists rest, tail = "/"%char :: rest.

Definition next_segment (tail : cstr) : option cstr :=
  match tail with
  | [] => None
  | _ :: rest => Some rest
  end.

Lemma strchr_slash s tail :
  "/"%char ∉ s -> segment_end tail ->
  strchr (s ++ tail) "/"%char =
    match tail with [] => None | _ => Some (length s) end /\
  option_map (fun n => drop (S n) (s ++ tail)) (strchr (s ++ tail) "/"%char) =
    next_segment tail.
Proof.
  intros Hs [-> | [rest ->]].
  - rewrite app_nil_r, strchr_none by done. done.
  - rewrite strchr_first by done. split; [done|]. cbn [option_map next_segment].
    f_equal. replace (S (length s)) with (length s + 1) by lia.
    by rewrite drop_app_add.
Qed.

Lemma strcspn_segment v set tail :
  avoids set v -> chr_in "/"%char set = true -> segment_end tail ->
  strcspn (v ++ tail) set = length v.
Proof.
  intros Hv Hset [-> | [rest ->]].
  - rewrite app_nil_r. by apply strcspn_end.
  - by apply strcspn_stop.
Qed.

Lemma path_no_constraint name tail :
  avoids (cs "/?") name -> segment_end tail ->
  xml_first_path_segment segment_zero (name ++ tail) =
  Ok ({| tag_len := length name; query := [] |}, next_segment tail).
Proof.
  intros Hn Ht.
  assert ("/"%char ∉ name) as Hn1 by (by apply (avoids_not_in _ _ _ Hn)).
  assert ("?"%char ∉ name) as Hn2 by (by apply (avoids_not_in _ _ _ Hn)).
  unfold xml_first_path_segment.
  destruct (strchr_slash name tail Hn1 Ht) as [Hsl Hnx]. rewrite Hnx, Hsl.
  destruct Ht as [-> | [rest ->]].
  - rewrite app_nil_r, (strchr_none name "?"%char) by done. done.
  - rewrite (strchr_app_None name) by (by apply strchr_none).
    cbn [strchr]. change (Ascii.eqb "/" "?") with false. cbv iota.
    destruct (strchr rest "?"%char) as [m|]; cbn [option_map]; [|done].
    destruct (length name + S m <? length name) eqn:E; [apply Nat.ltb_lt in E; lia|done].
Qed.

Lemma path_with_value name k v tail :
  avoids (cs "/?") name -> avoids (cs "=&/") k -> avoids (cs "&/") v ->
  segment_end tail ->
  exists q,
    xml_first_path_segment segment_zero (name ++ "?"%char :: k ++ "="%char :: v ++ tail) =
      Ok ({| tag_len := length name; query := [q] |}, next_segment tail) /\
    constraint_key q = k /\ constraint_value q = Some v /\ query_ok q.
Proof.
  intros Hn Hk Hv Ht.
  assert ("/"%char ∉ name) as Hn1 by (by apply (avoids_not_in _ _ _ Hn)).
  assert ("?"%char ∉ name) as Hn2 by (by apply (avoids_not_in _ _ _ Hn)).
  assert ("/"%char ∉ k) as Hk1 by (by apply (avoids_not_in _ _ _ Hk)).
  assert ("/"%char ∉ v) as Hv1 by (by apply (avoids_not_in _ _ _ Hv)).
  set (path := name ++ "?"%char :: k ++ "="%char :: v ++ tail).
  set (body := name ++ "?"%char :: k ++ "="%char :: v).
  assert (path = body ++ tail) as Hpath by (unfold path, body; seg).
  assert ("/"%char ∉ body) as Hb.
  { unfold body. intros Hin.
    apply elem_of_app in Hin as [Hin|Hin]; [done|].
    apply elem_of_cons in Hin as [Hin|Hin]; [done|].
    apply elem_of_app in Hin as [Hin|Hin]; [done|].
    apply elem_of_cons in Hin as [Hin|Hin]; done. }
  assert (length body = length name + 1 + length k + 1 + length v) as Hlb by len.
  set (q := {| q_key := k ++ "="%char :: v ++ tail; key_len := length k;
               q_value := Some (v ++ tail); value_len := length v |}).
  exists q. split_and!.
  - unfold xml_first_path_segment.
    destruct (strchr_slash body tail Hb Ht) as [Hsl Hnx]. rewrite <- Hpath in Hsl, Hnx.
    rewrite Hnx.
    assert (strchr path "?"%char = Some (length name)) as Hq
      by (by apply strchr_first).
    rewrite Hq.
    set (tl := match strchr path "/"%char with
               | Some n => n
               | None => length path
               end).
    assert (tl = length body) as Htl.
    { unfold tl. rewrite Hsl. assert (length path = length body + length tail) as Hlp
        by (rewrite Hpath; apply length_app).
      destruct tail; cbn [length] in Hlp; lia. }
    destruct (length name <? tl) eqn:E; [|apply Nat.ltb_ge in E; lia].
    cbn [query segment_zero query_loop].
    assert (drop (S (length name)) path = k ++ "="%char :: v ++ tail) as Hks.
    { apply (drop_at path (name ++ ["?"%char])); [unfold path; seg|len]. }
    rewrite !Hks. rewrite (strcspn_stop k) by done.
    assert (drop (S (length name) + length k) path = "="%char :: v ++ tail) as Hvs.
    { apply (drop_at path (name ++ "?"%char :: k)); [unfold path; seg|len]. }
    rewrite Hvs. rewrite (strcspn_segment v) by done.
    assert (S (S (length name) + length k) + length v = length body) as -> by lia.
    destruct ((length body <? length path) && (length body <? tl)) eqn:E2; [|done].
    apply andb_true_iff in E2 as [E3 E4].
    apply Nat.ltb_lt in E3, E4. lia.
  - unfold constraint_key, q. cbn. by rewrite take_app_length.
  - unfold constraint_value, q. cbn. by rewrite take_app_length.
  - unfold query_ok, q. cbn. split.
    + rewrite length_app. lia.
    + intros v' [= <-]. rewrite length_app. lia.
Qed.

Lemma path_without_value name k tail :
  avoids (cs "/?") name -> avoids (cs "=&/") k -> segment_end tail ->
  exists q,
    xml_first_path_segment segment_zero (name ++ "?"%char :: k ++ tail) =
      Ok ({| tag_len := length name; query := [q] |}, next_segment tail) /\
    constraint_key q = k /\ constraint_value q = None /\ query_ok q.
Proof.
  intros Hn Hk Ht.
  assert ("/"%char ∉ name) as Hn1 by (by apply (avoids_not_in _ _ _ Hn)).
  assert ("?"%char ∉ name) as Hn2 by (by apply (avoids_not_in _ _ _ Hn)).
  assert ("/"%char ∉ k) as Hk1 by (by apply (avoids_not_in _ _ _ Hk)).
  set (path := name ++ "?"%char :: k ++ tail).
  set (body := name ++ "?"%char :: k).
  assert (path = body ++ tail) as Hpath by (unfold path, body; seg).
  assert ("/"%char ∉ body) as Hb.
  { unfold body. intros Hin.
    apply elem_of_app in Hin as [Hin|Hin]; [done|].
    apply elem_of_cons in Hin as [Hin|Hin]; done. }
  assert (length body = length name + 1 + length k) as Hlb by len.
  set (q := {| q_key := k ++ tail; key_len := length k;
               q_value := None; value_len := 0 |}).
  exists q. split_and!.
  - unfold xml_first_path_segment.
    destruct (strchr_slash body tail Hb Ht) as [Hsl Hnx]. rewrite <- Hpath in Hsl, Hnx.
    rewrite Hnx.
    assert (strchr path "?"%char = Some (length name)) as Hq
      by (by apply strchr_first).
    rewrite Hq.
    set (tl := match strchr path "/"%char with
               | Some n => n
               | None => length path
               end).
    assert (tl = length body) as Htl.
    { unfold tl. rewrite Hsl. assert (length path = length body + length tail) as Hlp
        by (rewrite Hpath; apply length_app).
      destruct tail; cbn [length] in Hlp; lia. }
    destruct (length name <? tl) eqn:E; [|apply Nat.ltb_ge in E; lia].
    cbn [query segment_zero query_loop].
    assert (drop (S (length name)) path = k ++ tail) as Hks.
    { apply (drop_at path (name ++ ["?"%char])); [unfold path; seg|len]. }
    rewrite !Hks. rewrite (strcspn_segment k) by done.
    assert (drop (S (length name) + length k) path = tail) as Hvs.
    { apply (drop_at path (name ++ "?"%char :: k)); [unfold path; seg|len]. }
    rewrite Hvs.
    assert (S (length name) + length k = length body) as Hl2 by lia.
    assert (forall r : result (list xml_query_string),
              (if (length body <? length path) && (length body <? tl)
               then r else Ok [q]) = Ok [q]) as Hend.
    { intros r. destruct ((length body <? length path) && (length body <? tl)) eqn:E2;
        [|done].
      apply andb_true_iff in E2 as [E3 E4]. apply Nat.ltb_lt in E3, E4. lia. }
    destruct Ht as [-> | [rest ->]]; rewrite Hl2; by rewrite Hend.
  - unfold constraint_key, q. cbn. by rewrite take_app_length.
  - done.
  - unfold query_ok, q. cbn. split; [rewrite length_app; lia|done].
Qed.

(** X14.  How a path segment is read.  Let a segment stand at the head
    of a path, followed by nothing or by '/' and the rest of the path,
    its name free of '/' and '?'.  Without '?' the segment has the length
    of the name as tag length and no constraint.  With [?k] behind the
    name it has the one constraint with key [k] and no value, and with
    [?k=v] the one constraint with key [k] and value [v], for a key free
    of '=', '&' and '/' and a value free of '&' and '/'.  In every case
    the next segment starts behind the '/', and there is none without
    a '/'. *)
Theorem path_segment_syntax (name k v tail : cstr) :
  avoids (cs "/?") name -> avoids (cs "=&/") k -> avoids (cs "&/") v ->
  segment_end tail ->
  xml_first_path_segment segment_zero (name ++ tail) =
    Ok ({| tag_len := length name; query := [] |}, next_segment tail) /\
  (exists q,
     xml_first_path_segment segment_zero (name ++ "?"%char :: k ++ tail) =
       Ok ({| tag_len := length name; query := [q] |}, next_segment tail) /\
     constraint_key q = k /\ constraint_value q = None /\ query_ok q) /\
  (exists q,
     xml_first_path_segment segment_zero (name ++ "?"%char :: k ++ "="%char :: v ++ tail) =
       Ok ({| tag_len := length name; query := [q] |}, next_segment tail) /\
     constraint_key q = k /\ constraint_value q = Some v /\ query_ok q).
Proof.
  intros Hn Hk Hv Ht. split_and!.
  - by apply path_no_constraint.
  - by apply path_without_value.
  - by apply path_with_value.
Qed.

Lemma path_segment_syntax_witness :
  xml_first_path_segment segment_zero (cs "item" ++ cs "/name") =
    Ok ({| tag_len := 4; query := [] |}, Some (cs "name")) /\
  (exists q,
     xml_first_path_segment segment_zero (cs "item" ++ "?"%char :: cs "id" ++ cs "/name") =
       Ok ({| tag_len := 4; query := [q] |}, Some (cs "name")) /\
     constraint_key q = cs "id" /\ constraint_value q = None /\ query_ok q) /\
  (exists q,
     xml_first_path_segment segment_zero
       (cs "item" ++ "?"%char :: cs "id" ++ "="%char :: cs "7" ++ cs "/name") =
       Ok ({| tag_len := 4; query := [q] |}, Some (cs "name")) /\
     constraint_key q = cs "id" /\ constraint_value q = Some (cs "7") /\ query_ok q).
Proof.
  apply (path_segment_syntax (cs "item") (cs "id") (cs "7") (cs "/name")).
  - by repeat constructor.
  - by repeat constructor.
  - by repeat constructor.
  - right. by exists (cs "name").
Defined.

(** ** Termination and the length of the string under construction *)

(** X15.  xml_parse_chunk comes to an end on every chunk, from every
    state: every round of its loop, and of the loops of the parser
    functions it calls, consumes input or moves the parser on, so that
    three rounds for every character and three more are enough, and
    more rounds than that change nothing. *)
Theorem xml_parse_chunk_terminates (st : xml_state) (d : cstr) (f : nat) :
  3 * length d + 3 <= f ->
  parse_loop f (chunk_init st) d = xml_parse_chunk st (Some d) /\
  xml_parse_chunk st (Some d) <> NoFuel /\
  (forall s, xml_parse_tag_body s d <> NoFuel) /\
  (forall h e from, xml_parse_attributes h e from <> NoFuel).
Proof.
  intros Hf. split_and!.
  - cbn [xml_parse_chunk].
    pose proof (parser_weight_le (chunk_init st)) as Hw.
    apply parse_loop_fuel; unfold chunk_measure; lia.
  - rewrite xml_parse_chunk_run. apply run_nofuel.
  - intros s. apply xml_parse_tag_body_nofuel.
  - apply xml_parse_attributes_nofuel.
Qed.

Lemma xml_parse_chunk_terminates_witness :
  parse_loop 100 (chunk_init state_zero) (cs "<a x='1'>t<!-- c --></a>") =
    xml_parse_chunk state_zero (Some (cs "<a x='1'>t<!-- c --></a>")) /\
  xml_parse_chunk state_zero (Some (cs "<a x='1'>t<!-- c --></a>")) <> NoFuel.
Proof.
  destruct (xml_parse_chunk_terminates state_zero (cs "<a x='1'>t<!-- c --></a>") 100)
    as (H1 & H2 & _); [cbn; lia|]. by split.
Defined.

Lemma xml_parse_chunks_wf ds : forall st s,
  wf st -> is_Some (st_root st) -> is_Some (st_parser st) ->
  xml_parse_chunks st ds = Ok s -> wf s.
Proof.
  induction ds as [|d ds IH]; intros st s Hwf Hr Hp H.
  - by injection H as <-.
  - cbn [xml_parse_chunks] in H. apply bind_Ok in H as (s1 & H1 & H).
    rewrite xml_parse_chunk_run, chunk_init_id in H1 by done.
    pose proof (parse_loop_keeps _ _ _ _ H1) as [Hr1 Hp1].
    apply (IH s1); [by apply (parse_loop_wf _ _ _ _ Hwf H1)|by rewrite Hr1|auto|done].
Qed.

(** X16.  st->length is the length of the string under construction.
    After any number of chunks fed to a fresh state with success, the
    active tag pattern is an entry of the table, and when st->length is
    not zero the insertion point exists and its string under
    construction, the value in content mode and the key in the body of a
    tag, has exactly st->length bytes: xml_string_append, which writes at
    offset st->length, appends at the end of the string and stays inside
    the buffer it has reallocated. *)
Theorem length_is_string_length (ds : list cstr) (s : xml_state) :
  xml_parse_chunks state_zero ds = Ok s ->
  (forall t, st_tag s = Some t -> t ∈ xml_tag_patterns) /\
  (st_parser s = Some parse_content -> st_length s <> 0 ->
   exists c e buf, st_current s = Some c /\ st_heap s !! c = Some e /\
     e_value e = Some buf /\ length buf = st_length s) /\
  (st_parser s = Some parse_tag_body -> st_length s <> 0 ->
   exists c e buf, st_current s = Some c /\ st_heap s !! c = Some e /\
     e_key e = Some buf /\ length buf = st_length s).
Proof.
  intros H.
  assert (wf s) as [Ht Hb].
  { destruct ds as [|d ds]; [injection H as <-; apply wf_state_zero|].
    cbn [xml_parse_chunks] in H. apply bind_Ok in H as (s1 & H1 & H).
    rewrite xml_parse_chunk_run in H1.
    pose proof (parse_loop_keeps _ _ _ _ H1) as [Hr1 Hp1].
    apply (xml_parse_chunks_wf ds s1); try done.
    - apply (parse_loop_wf _ _ _ _ wf_chunk_init_zero H1).
    - rewrite Hr1. by eexists.
    - apply Hp1. by eexists. }
  split_and!; [done| |]; intros Hp Hl; rewrite Hp in Hb; apply (Hb Hl).
Qed.

Definition st_in_text : xml_state :=
  Eval vm_compute in
    state_of (xml_parse_chunks state_zero [cs "<a>so"; cs "me te"; cs "xt"]).

Lemma length_is_string_length_witness :
  (forall t, st_tag st_in_text = Some t -> t ∈ xml_tag_patterns) /\
  (st_parser st_in_text = Some parse_content -> st_length st_in_text <> 0 ->
   exists c e buf, st_current st_in_text = Some c /\ st_heap st_in_text !! c = Some e /\
     e_value e = Some buf /\ length buf = st_length st_in_text) /\
  (st_parser st_in_text = Some parse_tag_body -> st_length st_in_text <> 0 ->
   exists c e buf, st_current st_in_text = Some c /\ st_heap st_in_text !! c = Some e /\
     e_key e = Some buf /\ length buf = st_length st_in_text).
Proof.
  apply (length_is_string_length [cs "<a>so"; cs "me te"; cs "xt"]).
  vm_compute. reflexivity.
Defined.

(** ** Scanning the body of a special tag, round by round *)

Lemma append_current_key_total st c e d :
  buffer_ok e_key st -> st_current st = Some c -> st_heap st !! c = Some e ->
  (d = [] -> st_length st <> 0) ->
  exists s, append_current_key st d = Ok s.
Proof.
  intros Hb Hc He Hd. destruct d as [|a d].
  - destruct (Hb (Hd eq_refl)) as (c' & e' & k & Hc' & He' & Hk & _). simplify_eq.
    exists st. by apply (append_current_nil e_key set_key set_get_key st c e k).
  - eexists. unfold append_current_key.
    by apply (append_current_cons e_key set_key st c e a d).
Qed.

(** xml_key_append inside a special tag succeeds and extends the key. *)
Lemma xml_key_append_special t c st d :
  special t -> scan_inv t c st ->
  exists s, xml_key_append st d = Ok s /\ scan_inv t c s /\
    st_cursor s = st_cursor st /\ st_root s = st_root st /\
    st_length s <> 0 /\
    key_view t c s = key_view t c st ++ d.
Proof.
  intros Hsp Hi.
  assert (exists s, xml_key_append st d = Ok s) as [s H].
  { pose proof Hi as (Ht & Hc & Hlt & Hp & Hb & Hcur & Hz).
    destruct (special_type t Hsp) as [Hty _].
    destruct (special_opener t Hsp) as (Hop & a & r & Hop1 & Hop2).
    rewrite xml_key_append_eq, Hc, Ht, Hty. unfold key_opener.
    destruct (lookup_lt_is_Some_2 _ _ Hlt) as [e He]. rewrite Hop.
    destruct (st_length st =? 0) eqn:Hl; cbn [andb].
    - rewrite Hop1.
      destruct (append_current_key_total st c e (a :: r)) as [s1 H1]; [done..|].
      rewrite H1. cbn [bind].
      apply (append_current_key_view st c e) in H1 as (Hs1 & Hb1 & Hh1 & Hk1 & Hl1);
        [|done..].
      destruct Hs1 as (Hc1 & _).
      destruct (lookup_lt_is_Some_2 (st_heap s1) c) as [e1 He1]; [lia|].
      apply (append_current_key_total s1 c e1); [done|congruence|done|].
      simpl in Hl1. lia.
    - cbn [bind]. apply Nat.eqb_neq in Hl.
      by apply (append_current_key_total st c e). }
  exists s. split; [done|].
  pose proof (xml_key_append_view t c st d s Hsp Hi H) as (Hs & Hb & Hh & Hl & Hk).
  destruct Hi as (Ht & Hc & Hlt & Hp & _ & Hcur & Hz).
  destruct Hs as (Hc' & Ht' & Hp' & Hcu' & He' & Hr').
  split_and!; try done.
  - split_and!; try congruence; try lia. done.
  - unfold key_view at 1. apply Nat.eqb_neq in Hl. by rewrite Hl, Hk.
Qed.

Lemma scan_inv_with_cursor t c st n :
  scan_inv t c st -> n < length (close t) -> (st_length st = 0 -> n = 0) ->
  scan_inv t c (with_cursor n st).
Proof.
  intros (Ht & Hc & Hlt & Hp & Hb & Hcur & Hz) Hn H0.
  destruct st. by split_and!.
Qed.

Lemma key_view_with_cursor t c st n :
  key_view t c (with_cursor n st) = key_view t c st.
Proof. by destruct st. Qed.

Lemma with_cursor_cursor n st : st_cursor (with_cursor n st) = n.
Proof. by destruct st. Qed.

(** What a round leaves: the tag is still open, its cursor is [n] and
    its text has grown by [x]. *)
Definition scanned (t : xml_tag_pattern) (c : nat) (st : xml_state) (x : cstr)
    (n : nat) (s : xml_state) : Prop :=
  scan_inv t c s /\ st_cursor s = n /\ st_root s = st_root st /\
  key_view t c s = key_view t c st ++ x.

(** A round at cursor 0 that finds the first character of the closing
    pattern: the data before it goes to the key. *)
Lemma scan_find t c st d m :
  special t -> scan_inv t c st -> st_cursor st = 0 ->
  1 < length (close t) ->
  strchr d (close_at t 0) = Some m -> d <> [] ->
  exists s, tag_body_iter st d = Ok (Continue s (drop (S m) d)) /\
    scanned t c st (take m d) 1 s.
Proof.
  intros Hsp Hi Hcu Hlen Hm Hd.
  destruct (xml_key_append_special t c st (take m d) Hsp Hi)
    as (s1 & H1 & Hi1 & Hc1 & Hr1 & Hl1 & Hk1).
  pose proof Hi as (Ht & _).
  unfold tag_body_iter. rewrite Ht. destruct d as [|ch d]; [done|].
  rewrite Hcu. cbn [Nat.eqb]. rewrite Hm.
  unfold tag_body_match. rewrite Hcu. cbn [Nat.eqb]. rewrite H1. cbn [bind].
  rewrite with_cursor_cursor, Hc1, Hcu.
  rewrite (close_at_NUL t 1 Hsp) by lia.
  rewrite bool_decide_eq_false_2 by lia.
  eexists. split; [done|].
  split_and!.
  - apply scan_inv_with_cursor; [done|lia|lia].
  - by rewrite with_cursor_cursor.
  - by destruct s1.
  - by rewrite key_view_with_cursor.
Qed.

Lemma scan_inv_length t c st :
  scan_inv t c st -> st_cursor st <> 0 -> st_length st <> 0.
Proof. intros (_ & _ & _ & _ & _ & _ & Hz) Hn Hl. by apply Hz in Hl. Qed.

(** A round behind a partial match whose character continues the
    closing pattern without ending it. *)
Lemma scan_next t c st ch d :
  special t -> scan_inv t c st -> st_cursor st <> 0 ->
  ch = close_at t (st_cursor st) -> S (st_cursor st) < length (close t) ->
  tag_body_iter st (ch :: d) = Ok (Continue (with_cursor (S (st_cursor st)) st) d) /\
  scanned t c st [] (S (st_cursor st)) (with_cursor (S (st_cursor st)) st).
Proof.
  intros Hsp Hi Hcu -> Hlen. pose proof Hi as (Ht & _).
  pose proof (scan_inv_length _ _ _ Hi Hcu) as Hl.
  split.
  - unfold tag_body_iter. rewrite Ht.
    apply Nat.eqb_neq in Hcu as Hcu'. rewrite Hcu'.
    rewrite Ascii.eqb_refl. unfold tag_body_match. rewrite Hcu'. cbn [bind].
    rewrite with_cursor_cursor.
    rewrite (close_at_NUL t _ Hsp) by lia.
    by rewrite bool_decide_eq_false_2 by lia.
  - split_and!.
    + apply scan_inv_with_cursor; [done|lia|lia].
    + by rewrite with_cursor_cursor.
    + by destruct st.
    + by rewrite key_view_with_cursor, app_nil_r.
Qed.

(** A round behind a partial match whose character does not continue
    the closing pattern but is its first character: the matched part
    goes to the key and the match starts again with that character. *)
Lemma scan_restart t c st ch d :
  special t -> scan_inv t c st -> st_cursor st <> 0 ->
  ch <> close_at t (st_cursor st) -> ch = close_at t 0 ->
  1 < length (close t) ->
  exists s, tag_body_iter st (ch :: d) = Ok (Continue s d) /\
    scanned t c st (take (st_cursor st) (close t)) 1 s.
Proof.
  intros Hsp Hi Hcu Hne -> Hlen. pose proof Hi as (Ht & _).
  destruct (xml_key_append_special t c st (take (st_cursor st) (close t)) Hsp Hi)
    as (s1 & H1 & Hi1 & Hc1 & Hr1 & Hl1 & Hk1).
  assert (scan_inv t c (with_cursor 0 s1)) as Hi2
    by (apply scan_inv_with_cursor; [done|lia|done]).
  destruct (xml_key_append_special t c (with_cursor 0 s1) [] Hsp Hi2)
    as (s3 & H3 & Hi3 & Hc3 & Hr3 & Hl3 & Hk3).
  rewrite with_cursor_cursor in Hc3. rewrite key_view_with_cursor, app_nil_r in Hk3.
  unfold tag_body_iter. rewrite Ht.
  apply Nat.eqb_neq in Hcu as Hcu'. rewrite Hcu'.
  replace (Ascii.eqb (close_at t (st_cursor st)) (close_at t 0)) with false
    by (symmetry; apply Ascii.eqb_neq; congruence).
  rewrite H1. cbn [bind]. rewrite Ascii.eqb_refl.
  unfold tag_body_match. rewrite with_cursor_cursor. cbn [Nat.eqb take].
  rewrite H3. cbn [bind]. rewrite with_cursor_cursor, Hc3.
  rewrite (close_at_NUL t 1 Hsp) by lia.
  rewrite bool_decide_eq_false_2 by lia.
  eexists. split; [done|].
  split_and!.
  - apply scan_inv_with_cursor; [done|lia|lia].
  - by rewrite with_cursor_cursor.
  - transitivity (st_root s3); [by destruct s3|].
    rewrite Hr3. transitivity (st_root s1); [by destruct s1|done].
  - rewrite key_view_with_cursor. congruence.
Qed.

(** A round behind a partial match whose character neither continues
    the closing pattern nor starts it: the matched part goes to the key
    and the character is looked at again, as data. *)
Lemma scan_reset t c st ch d :
  special t -> scan_inv t c st -> st_cursor st <> 0 ->
  ch <> close_at t (st_cursor st) -> ch <> close_at t 0 ->
  exists s, tag_body_iter st (ch :: d) = Ok (Continue s (ch :: d)) /\
    scanned t c st (take (st_cursor st) (close t)) 0 s.
Proof.
  intros Hsp Hi Hcu Hne Hne0. pose proof Hi as (Ht & _).
  destruct (xml_key_append_special t c st (take (st_cursor st) (close t)) Hsp Hi)
    as (s1 & H1 & Hi1 & Hc1 & Hr1 & Hl1 & Hk1).
  unfold tag_body_iter. rewrite Ht.
  apply Nat.eqb_neq in Hcu as Hcu'. rewrite Hcu'.
  replace (Ascii.eqb (close_at t (st_cursor st)) ch) with false
    by (symmetry; apply Ascii.eqb_neq; congruence).
  rewrite H1. cbn [bind].
  replace (Ascii.eqb (close_at t 0) ch) with false
    by (symmetry; apply Ascii.eqb_neq; congruence).
  eexists. split; [done|].
  pose proof (close_nonempty t Hsp).
  split_and!.
  - apply scan_inv_with_cursor; [done|lia|done].
  - by rewrite with_cursor_cursor.
  - transitivity (st_root s1); [by destruct s1|done].
  - by rewrite key_view_with_cursor.
Qed.

(** A round at cursor 0 on data without the first character of the
    closing pattern: all of it goes to the key, and the tag stays open. *)
Lemma scan_rest t c st d :
  special t -> scan_inv t c st -> st_cursor st = 0 ->
  strchr d (close_at t 0) = None -> d <> [] ->
  exists s, tag_body_iter st d = Ok (Break s []) /\
    scanned t c st d 0 s /\ st_length s <> 0.
Proof.
  intros Hsp Hi Hcu Hm Hd. pose proof Hi as (Ht & _).
  destruct (xml_key_append_special t c st d Hsp Hi)
    as (s1 & H1 & Hi1 & Hc1 & Hr1 & Hl1 & Hk1).
  unfold tag_body_iter. rewrite Ht. destruct d as [|ch d]; [done|].
  rewrite Hcu. cbn [Nat.eqb]. rewrite Hm, H1. cbn [bind].
  rewrite drop_all. exists s1. split; [done|].
  split; [|done]. split_and!; try done. congruence.
Qed.

(** The round that completes the closing pattern: the matched part but
    its last character goes to the key, the element is closed and the
    parser is back in content mode. *)
Lemma scan_close t c st e ch d :
  special t -> scan_inv t c st -> st_cursor st <> 0 ->
  st_heap st !! c = Some e ->
  ch = close_at t (st_cursor st) -> S (st_cursor st) = length (close t) ->
  exists s, tag_body_iter st (ch :: d) = Ok (Break s d) /\
    st_parser s = Some parse_content /\ st_current s = e_parent e /\
    st_root s = st_root st /\ st_length s = 0 /\ st_cursor s = 0 /\
    key_at c s = Some (key_view t c st ++ take (st_cursor st) (close t)).
Proof.
  intros Hsp Hi Hcu He -> Hlen.
  pose proof Hi as (Ht & Hc & Hlt & Hp & Hb & Hcur & Hz).
  pose proof (scan_inv_length _ _ _ Hi Hcu) as Hl.
  destruct (special_type t Hsp) as [_ Hty].
  set (st2 := with_cursor (S (st_cursor st)) st).
  assert (cur_buf e_key st2 e = key_view t c st) as Hbuf.
  { unfold cur_buf, key_view, key_at. rewrite He.
    replace (st_length st2) with (st_length st) by (by destruct st).
    apply Nat.eqb_neq in Hl as Hl'. by rewrite Hl'. }
  destruct (take (st_cursor st) (close t)) as [|a0 r0] eqn:Htk.
  { apply (f_equal length) in Htk. rewrite length_take in Htk. simpl in Htk. lia. }
  pose proof (append_current_cons e_key set_key st2 c e a0 r0) as H3.
  rewrite Hbuf in H3. unfold append_current_key in *.
  specialize (H3 ltac:(by destruct st) ltac:(by destruct st) ltac:(by destruct st)).
  unfold tag_body_iter. rewrite Ht.
  apply Nat.eqb_neq in Hcu as Hcu'. rewrite Hcu'.
  rewrite Ascii.eqb_refl. unfold tag_body_match. rewrite Hcu'. cbn [bind].
  fold st2. replace (st_cursor st2) with (S (st_cursor st)) by (by destruct st).
  rewrite (close_at_NUL t _ Hsp) by lia.
  rewrite bool_decide_eq_true_2 by lia.
  replace (1 <? S (st_cursor st)) with true by (symmetry; apply Nat.ltb_lt; lia).
  replace (S (st_cursor st) - 1) with (st_cursor st) by lia.
  rewrite Htk. unfold append_current_key. rewrite H3. cbn [bind]. rewrite Hty.
  cbn [negb orb bind].
  unfold xml_close_element, deref.
  replace (st_current (with_length _ _)) with (Some c) by (by destruct st).
  replace (st_heap (with_length _ _))
    with (<[c:=set_key (Some (key_view t c st ++ a0 :: r0)) e]> (st_heap st))
    by (by destruct st).
  rewrite list_lookup_insert_eq by done. cbn [bind].
  eexists. split; [done|].
  split_and!; try (by destruct st; destruct e).
  unfold key_at.
  replace (st_heap (xml_close_tag _))
    with (<[c:=set_key (Some (key_view t c st ++ a0 :: r0)) e]> (st_heap st))
    by (by destruct st).
  by rewrite list_lookup_insert_eq by done.
Qed.

Lemma xml_parse_tag_body_round st d :
  d <> [] ->
  xml_parse_tag_body st d =
  do ctl <- tag_body_iter st d;
  match ctl with
  | Continue st' d' => xml_parse_tag_body st' d'
  | Break st' d' => Ok (st', d')
  end.
Proof. destruct d; [done|]. intros _. apply xml_parse_tag_body_unfold. Qed.

(** The first two rounds on data that holds the doubled first character
    of a closing pattern of three characters. *)
Lemma scan_two t c st a g x r :
  special t -> close t = [a; a; g] ->
  scan_inv t c st -> st_cursor st = 0 -> a ∉ x ->
  exists s, xml_parse_tag_body st (x ++ a :: a :: r) = xml_parse_tag_body s r /\
    scanned t c st x 2 s.
Proof.
  intros Hsp Hcl Hi Hcu Hx.
  assert (close_at t 0 = a) as H0 by (unfold close_at; by rewrite Hcl).
  assert (close_at t 1 = a) as H1 by (unfold close_at; by rewrite Hcl).
  destruct (scan_find t c st (x ++ a :: a :: r) (length x) Hsp Hi Hcu)
    as (s1 & E1 & Hi1 & Hc1 & Hr1 & Hk1).
  { rewrite Hcl. simpl. lia. }
  { rewrite H0. by apply strchr_first. }
  { by destruct x. }
  rewrite take_app_length in Hk1.
  rewrite (drop_at _ (x ++ [a]) (a :: r)) in E1
    by (rewrite <- ?app_assoc, ?length_app; simpl; (done || lia)).
  rewrite xml_parse_tag_body_round, E1 by (by destruct x). cbn [bind].
  destruct (scan_next t c s1 a r Hsp Hi1) as (E2 & Hi2 & Hc2 & Hr2 & Hk2).
  { lia. } { by rewrite Hc1. } { rewrite Hc1, Hcl. simpl. lia. }
  rewrite xml_parse_tag_body_round, E2 by done. cbn [bind].
  rewrite Hc1 in *.
  eexists. split; [done|]. by split_and!.
Qed.

(** X17.  The closing pattern of a comment or of a CDATA section is
    missed behind one more of its first character.  Let the body of the
    tag be scanned with no match pending, [a] be '-' in a comment and
    ']' in a CDATA section, and [x] be text without [a].  Behind [x] the
    closing pattern ends the tag: the parser is back in content mode, the
    rest [y] is left to it and the key has grown by [x] and by the two
    [a] of the pattern.  With one more [a] before the pattern the tag is
    not ended: the three [a] become text and the scan goes on at '>' with
    no match pending, so that the tag swallows the rest of the chunk when
    no [a] follows. *)
Theorem closer_behind_its_first_character
    (t : xml_tag_pattern) (c : nat) (st : xml_state) (a : ascii) (x y : cstr) :
  special t -> close t = [a; a; ">"%char] -> a <> ">"%char ->
  scan_inv t c st -> st_cursor st = 0 -> a ∉ x ->
  (exists s,
     xml_parse_tag_body st (x ++ [a; a; ">"%char] ++ y) = Ok (s, y) /\
     st_parser s = Some parse_content /\
     key_at c s = Some (key_view t c st ++ x ++ [a; a])) /\
  (exists s,
     xml_parse_tag_body st (x ++ [a; a; a; ">"%char] ++ y) =
       xml_parse_tag_body s (">"%char :: y) /\
     scan_inv t c s /\ st_cursor s = 0 /\
     key_view t c s = key_view t c st ++ x ++ [a; a; a]) /\
  (a ∉ y ->
   exists s,
     xml_parse_tag_body st (x ++ [a; a; a; ">"%char] ++ y) = Ok (s, []) /\
     st_parser s = Some parse_tag_body /\ st_tag s = Some t /\
     st_current s = Some c /\
     key_at c s = Some (key_view t c st ++ x ++ [a; a; a; ">"%char] ++ y)).
Proof.
  intros Hsp Hcl Hag Hi Hcu Hx.
  assert (close_at t 0 = a) as H0 by (unfold close_at; by rewrite Hcl).
  assert (close_at t 1 = a) as H1 by (unfold close_at; by rewrite Hcl).
  assert (close_at t 2 = ">"%char) as H2 by (unfold close_at; by rewrite Hcl).
  assert (exists s,
     xml_parse_tag_body st (x ++ [a; a; a; ">"%char] ++ y) =
       xml_parse_tag_body s (">"%char :: y) /\
     scan_inv t c s /\ st_cursor s = 0 /\
     key_view t c s = key_view t c st ++ x ++ [a; a; a]) as Hmiss.
  { destruct (scan_two t c st a ">"%char x (a :: ">"%char :: y) Hsp Hcl Hi Hcu Hx)
      as (s2 & E2 & Hi2 & Hc2 & Hr2 & Hk2).
    destruct (scan_restart t c s2 a (">"%char :: y) Hsp Hi2)
      as (s3 & E3 & Hi3 & Hc3 & Hr3 & Hk3).
    { lia. } { rewrite Hc2, H2. done. } { done. } { rewrite Hcl. simpl. lia. }
    destruct (scan_reset t c s3 ">"%char y Hsp Hi3)
      as (s4 & E4 & Hi4 & Hc4 & Hr4 & Hk4).
    { lia. } { rewrite Hc3, H1. done. } { rewrite H0. done. }
    exists s4. split_and!; [|done..|].
    - cbn [app]. rewrite E2.
      rewrite xml_parse_tag_body_round, E3 by done. cbn [bind].
      by rewrite xml_parse_tag_body_round, E4 by done.
    - rewrite Hk4, Hk3, Hk2, Hc3, Hc2, Hcl. cbn [take].
      by rewrite <- !app_assoc. }
  split_and!; [|done|].
  - destruct (scan_two t c st a ">"%char x (">"%char :: y) Hsp Hcl Hi Hcu Hx)
      as (s2 & E2 & Hi2 & Hc2 & Hr2 & Hk2).
    pose proof Hi2 as (_ & _ & Hlt & _).
    destruct (lookup_lt_is_Some_2 _ _ Hlt) as [e2 He2].
    destruct (scan_close t c s2 e2 ">"%char y Hsp Hi2)
      as (s & E & Hp & _ & _ & _ & _ & Hk); [lia|done|by rewrite Hc2|by rewrite Hc2, Hcl|].
    exists s. split_and!; [|done|].
    + cbn [app]. rewrite E2. by rewrite xml_parse_tag_body_round, E by done.
    + rewrite Hk, Hk2, Hc2, Hcl. cbn [take]. by rewrite <- app_assoc.
  - intros Hy. destruct Hmiss as (s4 & E & Hi4 & Hc4 & Hk4).
    destruct (scan_rest t c s4 (">"%char :: y) Hsp Hi4 Hc4)
      as (s & E5 & (Hi5 & Hc5 & Hr5 & Hk5) & Hl5); [|done|].
    { rewrite H0. cbn [strchr].
      replace (Ascii.eqb ">" a) with false by (symmetry; apply Ascii.eqb_neq; congruence).
      by rewrite strchr_none by done. }
    exists s. pose proof Hi5 as (Ht5 & Hcur5 & _ & Hp5 & _).
    split_and!; [|done..|].
    + rewrite E. by rewrite xml_parse_tag_body_round, E5 by done.
    + rewrite (scan_inv_key t c s Hi5 Hl5), Hk5, Hk4.
      by rewrite <- !app_assoc.
Qed.

Lemma closer_behind_its_first_character_witness :
  exists s,
    xml_parse_tag_body st_in_comment (cs "x--->z") = Ok (s, []) /\
    st_parser s = Some parse_tag_body /\
    st_tag s =
      Some {| type := TAG_COMMENT; open := cs "<!--"; open_len := 4; close := cs "-->" |} /\
    st_current s = Some 2 /\
    key_at 2 s = Some (cs "!--x--->z").
Proof.
  destruct (closer_behind_its_first_character
              {| type := TAG_COMMENT; open := cs "<!--"; open_len := 4; close := cs "-->" |}
              2 st_in_comment "-"%char (cs "x") (cs "z")) as (_ & _ & H).
  - split_and!; [|done..].
    repeat first [apply list_elem_of_here | apply list_elem_of_further].
  - reflexivity.
  - discriminate.
  - split_and!; try (vm_compute; reflexivity); try (vm_compute; lia).
  - reflexivity.
  - by apply not_in_string.
  - apply H. by apply not_in_string.
Defined.

(** ** The opening pattern is matched position by position *)

Definition pat_type : xml_tag_pattern :=
  {| type := TAG_TYPE; open := cs "<!"; open_len := 2; close := cs ">" |}.
Definition pat_comment : xml_tag_pattern :=
  {| type := TAG_COMMENT; open := cs "<!--"; open_len := 4; close := cs "-->" |}.
Definition pat_cdata : xml_tag_pattern :=
  {| type := TAG_CDATA; open := cs "<![CDATA["; open_len := 9; close := cs "]]>" |}.

Lemma match_opening_bang : match_opening 1 "!"%char = (Some pat_type, 1).
Proof. reflexivity. Qed.

Lemma match_opening_dash2 : match_opening 2 "-"%char = (Some pat_comment, 2).
Proof. reflexivity. Qed.

Lemma match_opening_dash3 : match_opening 3 "-"%char = (Some pat_comment, 3).
Proof. reflexivity. Qed.

(** At the fifth character only the pattern of CDATA is long enough to
    be compared, and its fifth character is 'D'. *)
Lemma match_opening_D : match_opening 4 "D"%char = (Some pat_cdata, 4).
Proof. reflexivity. Qed.

Lemma match_opening_5 (c : ascii) :
  c <> "A"%char -> match_opening 5 c = (None, 0).
Proof.
  intros H1. unfold match_opening. cbn -[Ascii.eqb].
  destruct (Ascii.eqb "A" c) eqn:E1; [apply Ascii.eqb_eq in E1; congruence|].
  reflexivity.
Qed.

(** The state in which the body of a tag of pattern [t] is entered with
    the new element [k] of the arena [h]. *)
Definition body_entered (t : xml_tag_pattern) (st : xml_state)
    (h : list xml_element) (k : nat) : xml_state :=
  with_current (Some k)
    (with_heap h
       (with_parser (Some parse_tag_body)
          (with_cursor 0 (with_length 0 (with_tag (Some t) st))))).

Lemma xml_parse_tag_opening_step st c d t cur :
  match_opening (st_cursor st) c = (Some t, cur) ->
  xml_parse_tag_opening st (c :: d) =
  xml_parse_tag_opening (with_tag (Some t) (with_cursor (S cur) (with_cursor cur st))) d.
Proof. intros H. cbn [xml_parse_tag_opening]. by rewrite H. Qed.

Ltac opening_step t n H :=
  rewrite (xml_parse_tag_opening_step _ _ _ t n) by exact H;
  unfold with_tag, with_cursor, with_parser;
  cbn [st_heap st_root st_current st_tag st_length st_cursor st_empty st_parser].

Lemma run_comment_D st c a d :
  st_parser st = Some parse_content -> st_cursor st = 0 ->
  is_Some (st_current st) -> insertion_point st = Some c ->
  a <> "A"%char ->
  run st (cs "<!--D" ++ a :: d) =
  do2 h, k <- xml_element_create (st_heap st) (Some c);
  run (body_entered pat_cdata st h k) (a :: d).
Proof.
  intros Hpa Hcur [c0 Hc0] Hip Ha.
  destruct st as [h ro cu tg len cur em pa].
  unfold insertion_point in Hip. simpl in Hpa, Hcur, Hc0, Hip. subst.
  change (cs "<!--D" ++ a :: d)
    with ("<"%char :: "!"%char :: "-"%char :: "-"%char :: "D"%char :: a :: d).
  rewrite run_cons.
  cbn -[run match_opening xml_parse_tag_body xml_parse_tag_opening xml_element_create].
  rewrite run_cons.
  unfold with_parser at 1. cbn [st_parser call_parser].
  opening_step pat_open 0 match_opening_lt.
  opening_step pat_type 1 match_opening_bang.
  opening_step pat_comment 2 match_opening_dash2.
  opening_step pat_comment 3 match_opening_dash3.
  opening_step pat_cdata 4 match_opening_D.
  cbn [xml_parse_tag_opening st_cursor].
  rewrite (match_opening_5 a Ha).
  cbn -[run match_opening xml_parse_tag_body xml_element_create].
  destruct len as [|len]; cbn [Nat.ltb Nat.leb] in Hip.
  - injection Hip as ->. cbn -[run xml_element_create].
    by destruct (xml_element_create h (Some c)) as [[h2 k]| | |].
  - unfold deref. cbn in Hip. destruct (h !! c0) as [e0|] eqn:He0; [|done].
    cbn in Hip. cbv iota. cbn -[run xml_element_create]. rewrite Hip.
    by destruct (xml_element_create h (Some c)) as [[h2 k]| | |].
Qed.

(** X18.  A comment whose text starts with 'D' is taken for a CDATA
    section.  The characters of an opening pattern are compared position
    by position with all patterns, and behind [<!--] the 'D' is the fifth
    character of the CDATA pattern, the only one that long.  In content
    mode, a chunk [<!--D] followed by text that does not go on with 'A'
    and holds no ']' leaves the parser in the body of a CDATA tag: the
    new element [k] is the insertion point, its key is the CDATA pattern
    behind its first character followed by the text behind the 'D', and
    a [-->] in that text does not close the tag. *)
Theorem comment_with_D_is_cdata (st : xml_state) (p k : nat)
    (h : list xml_element) (a : ascii) (r : cstr) :
  is_Some (st_root st) -> st_parser st = Some parse_content -> st_cursor st = 0 ->
  is_Some (st_current st) -> insertion_point st = Some p ->
  xml_element_create (st_heap st) (Some p) = Ok (h, k) ->
  a <> "A"%char -> "]"%char ∉ a :: r ->
  exists s,
    xml_parse_chunk st (Some (cs "<!--D" ++ a :: r)) = Ok s /\
    st_parser s = Some parse_tag_body /\ st_tag s = Some pat_cdata /\
    st_current s = Some k /\ st_root s = st_root st /\
    key_at k s = Some (cs "![CDATA[" ++ a :: r).
Proof.
  intros Hr Hpa Hcur Hc Hip Hcr Ha Hno.
  rewrite xml_parse_chunk_run, chunk_init_id by (done || by rewrite Hpa).
  rewrite (run_comment_D st p a r) by done. rewrite Hcr. cbn [bind].
  assert (special pat_cdata) as Hsp.
  { split_and!; [|done..].
    repeat first [apply list_elem_of_here | apply list_elem_of_further]. }
  assert (scan_inv pat_cdata k (body_entered pat_cdata st h k)) as Hi.
  { destruct (xml_element_create_cases (st_heap st) p) as [(h2 & H2 & Hl & _)|H2];
      rewrite H2 in Hcr; [|done]. injection Hcr as <- <-.
    unfold scan_inv, body_entered, buffer_ok. cbn. split_and!; try done; lia. }
  destruct (scan_rest pat_cdata k _ (a :: r) Hsp Hi)
    as (s & E & (Hi' & Hc' & Hr' & Hk') & Hl'); [by destruct st| |done|].
  { by apply strchr_none. }
  exists s. rewrite run_cons.
  replace (st_parser (body_entered pat_cdata st h k)) with (Some parse_tag_body)
    by (by destruct st).
  cbn [call_parser]. rewrite xml_parse_tag_body_round, E by done. cbn [bind].
  rewrite run_nil.
  pose proof Hi' as (Ht5 & Hcur5 & _ & Hp5 & _).
  split_and!; [done..|].
  rewrite (scan_inv_key _ _ _ Hi' Hl'), Hk'. f_equal.
Qed.

(** The arena after [<a>] with one more element linked below a. *)
Definition heap_after_open_child : list xml_element :=
  Eval vm_compute in
    match xml_element_create (st_heap st_after_open) (Some 1) with
    | Ok (h, _) => h
    | _ => []
    end.

Lemma comment_with_D_is_cdata_witness :
  exists s,
    xml_parse_chunk st_after_open (Some (cs "<!--Data--></a>")) = Ok s /\
    st_parser s = Some parse_tag_body /\ st_tag s = Some pat_cdata /\
    st_current s = Some 2 /\ st_root s = st_root st_after_open /\
    key_at 2 s = Some (cs "![CDATA[ata--></a>").
Proof.
  apply (comment_with_D_is_cdata st_after_open 1 2
           heap_after_open_child
           "a"%char (cs "ta--></a>")).
  - by eexists.
  - reflexivity.
  - reflexivity.
  - by eexists.
  - reflexivity.
  - reflexivity.
  - discriminate.
  - by apply not_in_string.
Defined.

(** ** The tree the parser builds *)

(** The elements met from [o] along the next links are those of [l], in
    that order, and the links end behind them. *)
Fixpoint chain (h : list xml_element) (o : option nat) (l : list nat) : Prop :=
  match l with
  | [] => o = None
  | k :: l' => o = Some k /\ exists e, h !! k = Some e /\ chain h (e_next e) l'
  end.

(** The elements of [l] stand in the order of their creation. *)
Definition ordered (l : list nat) : Prop :=
  forall i j a b, l !! i = Some a -> l !! j = Some b -> i < j -> a < b.

(** The children of element [p], in the order of the list of children of
    [pe], are the elements of [l]: the list starts at the first child,
    its last element is the last child, it is in the order of creation,
    and it holds exactly the elements whose parent is [p]. *)
Definition children (h : list xml_element) (p : nat) (pe : xml_element)
    (l : list nat) : Prop :=
  chain h (e_first_child pe) l /\ e_last_child pe = last l /\
  ordered l /\
  forall k, k ∈ l <-> exists ek, h !! k = Some ek /\ e_parent ek = Some p.

(** Every element is created after its parent and has its children in a
    list. *)
Definition tree_ok (h : list xml_element) : Prop :=
  (forall k ek p, h !! k = Some ek -> e_parent ek = Some p -> p < k) /\
  (forall p pe, h !! p = Some pe -> exists l, children h p pe l).

Lemma ordered_NoDup l : ordered l -> NoDup l.
Proof.
  intros H. apply NoDup_alt. intros i j x Hi Hj.
  destruct (decide (i < j)) as [Hlt|Hge].
  - pose proof (H i j x x Hi Hj Hlt). lia.
  - destruct (decide (j < i)) as [Hlt|Hge']; [|lia].
    pose proof (H j i x x Hj Hi Hlt). lia.
Qed.

Lemma ordered_snoc l k : ordered l -> (forall a, a ∈ l -> a < k) -> ordered (l ++ [k]).
Proof.
  intros H Hk i j a b Hi Hj Hij.
  pose proof (lookup_lt_Some _ _ _ Hj) as Hjl. rewrite length_app in Hjl. cbn in Hjl.
  assert (i < length l) as Hil by lia.
  rewrite lookup_app_l in Hi by done.
  destruct (decide (j < length l)) as [Hj'|Hj'].
  - rewrite lookup_app_l in Hj by done. by apply (H i j).
  - rewrite lookup_app_r in Hj by lia.
    replace (j - length l) with 0 in Hj by lia. injection Hj as <-.
    apply Hk. by eapply list_elem_of_lookup_2.
Qed.

Lemma chain_ext h h' l : forall o,
  (forall k e, k ∈ l -> h !! k = Some e ->
     exists e', h' !! k = Some e' /\ e_next e' = e_next e) ->
  chain h o l -> chain h' o l.
Proof.
  induction l as [|k l IH]; intros o Hext H; [done|].
  destruct H as (-> & e & He & H). split; [done|].
  destruct (Hext k e) as (e' & He' & Hn); [left|done|].
  exists e'. split; [done|]. rewrite Hn. apply IH; [|done].
  intros i ei Hi. apply Hext. by right.
Qed.

(** Appending the new element [k] to a list of children: the next link
    of its last element is set to [k]. *)
Lemma chain_snoc h h' k ek l : forall o,
  h' !! k = Some ek -> e_next ek = None ->
  NoDup l ->
  (forall i e, i ∈ l -> h !! i = Some e ->
     exists e', h' !! i = Some e' /\
       e_next e' = if decide (last l = Some i) then Some k else e_next e) ->
  chain h o l ->
  chain h' (match l with [] => Some k | _ => o end) (l ++ [k]).
Proof.
  intros o Hk Hn. revert o.
  induction l as [|i l IH]; intros o Hnd Hext H.
  - cbn. split; [done|]. exists ek. by split.
  - destruct H as (-> & e & He & H). cbn [app chain]. split; [done|].
    apply NoDup_cons in Hnd as [Hi Hnd].
    destruct (Hext i e) as (e' & He' & Hn'); [left|done|].
    exists e'. split; [done|]. rewrite Hn'.
    destruct l as [|j l].
    + cbn in H. rewrite H. cbn. rewrite decide_True by done.
      split; [done|]. exists ek. by split.
    + rewrite decide_False.
      2:{ change (last (i :: j :: l)) with (last (j :: l)). intros Hl.
          apply Hi. by apply last_Some_elem_of. }
      apply (IH (e_next e)); [done| |done].
      intros m em Hm Hem. destruct (Hext m em) as (em' & Hem' & Hnm); [by right|done|].
      exists em'. split; [done|]. by rewrite Hnm.
Qed.

(** Heaps with the same links hold the same trees. *)
Lemma tree_ok_links h h' :
  length h' = length h ->
  (forall i e, h !! i = Some e ->
     exists e', h' !! i = Some e' /\ e_parent e' = e_parent e /\
       e_first_child e' = e_first_child e /\ e_last_child e' = e_last_child e /\
       e_next e' = e_next e) ->
  tree_ok h -> tree_ok h'.
Proof.
  intros Hlen Hupd [Hpar Hch].
  assert (forall i e', h' !! i = Some e' ->
            exists e, h !! i = Some e /\ e_parent e' = e_parent e /\
              e_first_child e' = e_first_child e /\ e_last_child e' = e_last_child e /\
              e_next e' = e_next e) as Hback.
  { intros i e' Hi. pose proof (lookup_lt_Some _ _ _ Hi) as Hlt. rewrite Hlen in Hlt.
    destruct (lookup_lt_is_Some_2 _ _ Hlt) as [e He].
    destruct (Hupd i e He) as (e'' & He'' & ?). simplify_eq. by exists e. }
  split.
  - intros k ek p Hk Hp. destruct (Hback k ek Hk) as (e & He & Hpe & _).
    apply (Hpar k e p He). congruence.
  - intros p pe' Hp. destruct (Hback p pe' Hp) as (pe & Hpe & _ & Hf & Hl & _).
    destruct (Hch p pe Hpe) as (l & Hc & Hla & Ho & Hin).
    exists l. split_and!; [|congruence|done|].
    + rewrite Hf. apply (chain_ext h); [|done].
      intros k e _ He. destruct (Hupd k e He) as (e' & He' & _ & _ & _ & Hn). eauto.
    + intros k. rewrite Hin. split.
      * intros (ek & Hk & Hpk). destruct (Hupd k ek Hk) as (e' & He' & Hp' & _).
        exists e'. split; [done|congruence].
      * intros (ek' & Hk & Hpk). destruct (Hback k ek' Hk) as (ek & Hek & Hp' & _).
        exists ek. split; [done|congruence].
Qed.

Lemma tree_ok_content h c e f :
  tree_ok h -> h !! c = Some e -> keeps_links f -> tree_ok (<[c := f e]> h).
Proof.
  intros Ht Hc Hf. apply (tree_ok_links h); [by rewrite length_insert| |done].
  intros i ei Hi. destruct (decide (i = c)) as [->|Hne].
  - simplify_eq. exists (f e). destruct (Hf e) as (? & ? & ? & ?).
    split; [|done]. apply list_lookup_insert_eq. by eapply lookup_lt_Some.
  - exists ei. split; [|done]. by rewrite list_lookup_insert_ne.
Qed.

Lemma tree_ok_alloc h : tree_ok h -> tree_ok (h ++ [element_zero]).
Proof.
  intros [Hpar Hch].
  assert (forall i e, (h ++ [element_zero]) !! i = Some e ->
            h !! i = Some e \/ i = length h /\ e = element_zero) as Hcases.
  { intros i e Hi. destruct (decide (i < length h)) as [Hlt|Hge].
    - left. by rewrite lookup_app_l in Hi.
    - right. pose proof (lookup_lt_Some _ _ _ Hi) as Hl. rewrite length_app in Hl.
      cbn in Hl. assert (i = length h) as -> by lia.
      rewrite list_lookup_middle in Hi by done. by injection Hi as <-. }
  split.
  - intros k ek p Hk Hp. destruct (Hcases k ek Hk) as [Hk'|[-> ->]]; [|done].
    by apply (Hpar k ek).
  - intros p pe Hp. destruct (Hcases p pe Hp) as [Hp'|[-> ->]].
    + destruct (Hch p pe Hp') as (l & Hc & Hla & Ho & Hin).
      exists l. split_and!; [|done..|].
      * apply (chain_ext h); [|done]. intros k e _ He. exists e. split; [|done].
        by apply lookup_app_l_Some.
      * intros k. rewrite Hin. split.
        -- intros (ek & Hk & Hpk). exists ek. split; [|done]. by apply lookup_app_l_Some.
        -- intros (ek & Hk & Hpk). destruct (Hcases k ek Hk) as [Hk'|[-> ->]]; [|done].
           by exists ek.
    + exists []. split_and!; [done|done|by intros i j a b Hi|].
      intros k. split; [by intros Hk%elem_of_nil|].
      intros (ek & Hk & Hpk). destruct (Hcases k ek Hk) as [Hk'|[-> ->]]; [|done].
      pose proof (Hpar k ek _ Hk' Hpk). apply lookup_lt_Some in Hk'. lia.
Qed.

(** Linking the new element [length h] below [p], behind the children
    [l] that [p] has. *)
Lemma tree_ok_extend h h' p pe l ek :
  tree_ok h -> h !! p = Some pe -> children h p pe l ->
  length h' = S (length h) ->
  h' !! length h = Some ek ->
  e_parent ek = Some p -> e_first_child ek = None -> e_last_child ek = None ->
  e_next ek = None ->
  (forall i e, h !! i = Some e ->
     exists e', h' !! i = Some e' /\ e_parent e' = e_parent e /\
       e_first_child e' =
         (if decide (i = p)
          then match l with [] => Some (length h) | _ => e_first_child e end
          else e_first_child e) /\
       e_last_child e' = (if decide (i = p) then Some (length h) else e_last_child e) /\
       e_next e' = (if decide (last l = Some i) then Some (length h) else e_next e)) ->
  tree_ok h'.
Proof.
  intros [Hpar Hch] Hp (Hc & Hla & Ho & Hin) Hlen Hk Hkp Hkf Hkl Hkn Hupd.
  set (k := length h) in *.
  assert (forall i e', h' !! i = Some e' ->
            i = k /\ e' = ek \/ exists e, h !! i = Some e) as Hcases.
  { intros i e' Hi. pose proof (lookup_lt_Some _ _ _ Hi) as Hlt. rewrite Hlen in Hlt.
    destruct (decide (i = k)) as [->|Hne]; [left; split; [done|congruence]|].
    right. apply lookup_lt_is_Some_2. unfold k in Hne. lia. }
  assert (forall i e', h' !! i = Some e' -> forall q, e_parent e' = Some q -> q < i)
    as Hpar'.
  { intros i e' Hi q Hq. destruct (Hcases i e' Hi) as [[-> ->]|[e He]].
    - rewrite Hkp in Hq. injection Hq as <-. by eapply lookup_lt_Some.
    - destruct (Hupd i e He) as (e'' & He'' & Hpe & _). simplify_eq.
      apply (Hpar i e q He). congruence. }
  split; [intros i e' q Hi Hq; by eapply Hpar'|].
  intros q qe' Hq. destruct (Hcases q qe' Hq) as [[-> ->]|[qe Hqe]].
  - exists []. split_and!; [done|done|by intros i j a b Hi|].
    intros i. split; [by intros Hi%elem_of_nil|].
    intros (ei & Hi & Hpi). pose proof (Hpar' i ei Hi k Hpi).
    apply lookup_lt_Some in Hi. rewrite Hlen in Hi. unfold k in *. lia.
  - destruct (Hupd q qe Hqe) as (qe'' & Hqe'' & Hqp & Hqf & Hql & Hqn). simplify_eq.
    destruct (decide (q = p)) as [->|Hne].
    + simplify_eq. exists (l ++ [k]). split_and!.
      * rewrite Hqf.
        apply (chain_snoc h h' k ek); [done|done|by apply ordered_NoDup| |done].
        intros i e Hi He. destruct (Hupd i e He) as (e' & He' & _ & _ & _ & Hn). eauto.
      * by rewrite Hql, last_snoc.
      * apply ordered_snoc; [done|]. intros a Ha. apply Hin in Ha as (ea & Hea & _).
        by eapply lookup_lt_Some.
      * intros i. rewrite elem_of_app, list_elem_of_singleton, Hin. split.
        -- intros [(ei & Hi & Hpi)| ->]; [|by exists ek].
           destruct (Hupd i ei Hi) as (e' & He' & Hp' & _).
           exists e'. split; [done|congruence].
        -- intros (ei' & Hi & Hpi). destruct (Hcases i ei' Hi) as [[-> ->]|[ei Hei]];
             [by right|left].
           destruct (Hupd i ei Hei) as (e'' & He'' & Hp' & _). simplify_eq.
           exists ei. split; [done|congruence].
    + destruct (Hch q qe Hqe) as (lq & Hcq & Hlaq & Hoq & Hinq).
      exists lq. split_and!; [|congruence|done|].
      * rewrite Hqf. apply (chain_ext h); [|done].
        intros i e Hi He. destruct (Hupd i e He) as (e' & He' & _ & _ & _ & Hn).
        exists e'. split; [done|]. rewrite Hn. apply decide_False. intros Hl.
        apply last_Some_elem_of in Hl. apply Hin in Hl as (e2 & He2 & Hp2).
        apply Hinq in Hi as (e3 & He3 & Hp3). simplify_eq.
      * intros i. rewrite Hinq. split.
        -- intros (ei & Hi & Hpi). destruct (Hupd i ei Hi) as (e' & He' & Hp' & _).
           exists e'. split; [done|congruence].
        -- intros (ei' & Hi & Hpi). destruct (Hcases i ei' Hi) as [[-> ->]|[ei Hei]];
             [congruence|].
           destruct (Hupd i ei Hei) as (e'' & He'' & Hp' & _). simplify_eq.
           exists ei. split; [done|congruence].
Qed.

Lemma insert_snoc (h : list xml_element) (a b : xml_element) :
  <[length h := b]> (h ++ [a]) = h ++ [b].
Proof. by rewrite insert_app_r_alt, Nat.sub_diag by lia. Qed.

(** xml_element_create with a parent keeps the tree a tree. *)
Lemma xml_element_create_tree h p h' k :
  tree_ok h -> p < length h ->
  xml_element_create h (Some p) = Ok (h', k) ->
  tree_ok h' /\ k = length h /\ length h' = S (length h).
Proof.
  intros Ht Hp H. pose proof Ht as [Hpar Hch].
  destruct (lookup_lt_is_Some_2 _ _ Hp) as [pe Hpe].
  destruct (Hch p pe Hpe) as (l & Hl). pose proof Hl as (Hc & Hla & Ho & Hin).
  unfold xml_element_create, xml_element_add, store, deref in H.
  rewrite list_lookup_middle in H by done. cbn [bind] in H.
  set (ek := set_parent (Some p) element_zero) in *.
  rewrite insert_snoc in H.
  rewrite (lookup_app_l_Some _ _ _ _ Hpe) in H. cbn [bind] in H.
  assert ((h ++ [ek]) !! length h = Some ek) as Hk by (by apply list_lookup_middle).
  destruct (e_first_child pe) as [fc|] eqn:Hfc.
  - destruct (e_last_child pe) as [lst|] eqn:Hlst; [|done].
    assert (lst ∈ l) as Hlin by (by apply last_Some_elem_of).
    apply Hin in Hlin as (le & Hle & Hlp).
    pose proof (Hpar lst le p Hle Hlp) as Hplst.
    rewrite (lookup_app_l_Some _ _ _ _ Hle) in H. cbn [bind] in H.
    rewrite list_lookup_insert_ne in H by lia.
    rewrite (lookup_app_l_Some _ _ _ _ Hpe) in H. cbn [bind] in H.
    injection H as <- <-. split; [|split; [done|]].
    2:{ rewrite !length_insert, length_app. cbn. lia. }
    apply (tree_ok_extend h _ p pe l ek); try done.
    + rewrite !length_insert, length_app. cbn. lia.
    + rewrite !list_lookup_insert_ne by (apply lookup_lt_Some in Hle; lia). done.
    + intros i e Hi. pose proof (lookup_lt_Some _ _ _ Hi) as Hil.
      destruct (decide (i = p)) as [->|Hip].
      * simplify_eq. eexists. split.
        { apply list_lookup_insert_eq. rewrite length_insert, length_app. cbn. lia. }
        cbn. rewrite Hfc. split_and!; try done.
        { destruct l; [done|done]. }
        rewrite decide_False; [done|]. rewrite <- Hla. intros [= ->]. lia.
      * rewrite list_lookup_insert_ne by done.
        destruct (decide (i = lst)) as [->|Hil'].
        -- simplify_eq. eexists. split.
           { apply list_lookup_insert_eq. rewrite length_app. cbn. lia. }
           cbn. split_and!; try done. by rewrite decide_True.
        -- rewrite list_lookup_insert_ne by done.
           exists e. split; [by apply lookup_app_l_Some|].
           split_and!; try done. rewrite decide_False; [done|]. congruence.
  - assert (l = []) as -> by (destruct l as [|x l]; [done|by destruct Hc]).
    injection H as <- <-. split; [|split; [done|]].
    2:{ rewrite !length_insert, length_app. cbn. lia. }
    apply (tree_ok_extend h _ p pe [] ek); try done.
    + rewrite !length_insert, length_app. cbn. lia.
    + rewrite list_lookup_insert_ne by lia. done.
    + intros i e Hi. pose proof (lookup_lt_Some _ _ _ Hi) as Hil.
      destruct (decide (i = p)) as [->|Hip].
      * simplify_eq. eexists. split.
        { apply list_lookup_insert_eq. rewrite length_app. cbn. lia. }
        cbn. done.
      * rewrite list_lookup_insert_ne by done.
        exists e. split; [by apply lookup_app_l_Some|]. done.
Qed.

Section tracked.
(** [J h cur] is a property of the arena and the insertion point.  The
    hypotheses are the steps the parser takes: it creates an element
    below the insertion point, which becomes the insertion point, it
    writes strings and attributes of the insertion point, and it moves
    the insertion point to the parent. *)
Variable J : list xml_element -> option nat -> Prop.
Hypothesis J_create : forall h cur h' k,
  J h cur -> xml_element_create h cur = Ok (h', k) -> J h' (Some k).
Hypothesis J_content : forall h c e f,
  J h (Some c) -> h !! c = Some e -> keeps_links f -> J (<[c := f e]> h) (Some c).
Hypothesis J_up : forall h c e,
  J h (Some c) -> h !! c = Some e -> J h (e_parent e).

Definition tracked (st : xml_state) : Prop := J (st_heap st) (st_current st).

Lemma append_current_tracked get set st d s :
  (forall v, keeps_links (set v)) ->
  tracked st -> append_current get set st d = Ok s -> tracked s.
Proof.
  intros Hset HJ H. unfold tracked in *. unfold append_current, deref, store in H.
  destruct (st_current st) as [c|] eqn:Hcur; [|done].
  destruct (st_heap st !! c) as [e|] eqn:He; [|done]. cbn [bind] in H.
  apply bind_Ok in H as ([v n] & _ & H). destruct v; [|done]. injection H as <-.
  cbn. rewrite Hcur. by apply J_content.
Qed.

Lemma xml_key_append_tracked st d s :
  tracked st -> xml_key_append st d = Ok s -> tracked s.
Proof.
  rewrite xml_key_append_eq. unfold key_opener, append_current_key. intros Hl H.
  inv_ok; subst; try done;
    repeat match goal with
    | H : append_current _ _ _ _ = Ok _ |- _ =>
        eapply append_current_tracked in H;
          [|apply keeps_links_key|eassumption]
    end; done.
Qed.

Lemma xml_value_append_tracked st d s :
  tracked st -> xml_value_append st d = Ok s -> tracked s.
Proof.
  rewrite xml_value_append_eq. unfold value_element, append_current_value.
  intros HJ H. apply bind_Ok in H as (st1 & H1 & H).
  eapply append_current_tracked in H; [done|apply keeps_links_value|].
  destruct (st_length st =? 0); [|by injection H1 as <-].
  apply bind_Ok in H1 as ([h e] & Hcr & H1). injection H1 as <-.
  unfold tracked. cbn. by eapply J_create.
Qed.

Lemma xml_close_element_tracked st s :
  tracked st -> xml_close_element st = Ok s -> tracked s.
Proof.
  intros HJ H. unfold tracked in *. unfold xml_close_element, deref in H.
  destruct (st_current st) as [c|]; [|done].
  destruct (st_heap st !! c) as [e|] eqn:He; [|done]. injection H as <-.
  cbn. by eapply J_up.
Qed.

Lemma xml_check_empty_tracked st s :
  tracked st -> xml_check_empty st = Ok s -> tracked s.
Proof.
  intros HJ H. unfold tracked in *. unfold xml_check_empty, deref, store in H.
  destruct (st_current st) as [c|] eqn:Hcur; [|done].
  destruct (st_heap st !! c) as [e|] eqn:He; [|done]. cbn [bind] in H.
  destruct (e_key e) as [buf|]; [|done].
  destruct (check_empty_loop buf _) as [buf' em]. injection H as <-.
  cbn. rewrite Hcur. apply J_content; auto using keeps_links_key.
Qed.

Lemma xml_parse_attributes_tracked h c from h' :
  J h (Some c) -> xml_parse_attributes h c from = Ok h' -> J h' (Some c).
Proof.
  intros HJ H. unfold xml_parse_attributes, deref, store in H.
  destruct (h !! c) as [el|] eqn:He; [|done]. cbn [bind] in H.
  destruct (e_key el) as [buf|]; [|done].
  apply bind_Ok in H as ([buf' attrs] & _ & H). injection H as <-.
  by apply (J_content h c el (fun x => set_attributes attrs (set_key (Some buf') x))).
Qed.

Lemma xml_parse_tag_name_tracked st s :
  tracked st -> xml_parse_tag_name st = Ok s -> tracked s.
Proof.
  intros Hl H. unfold xml_parse_tag_name in H.
  apply bind_Ok in H as (st1 & H1 & H).
  apply xml_check_empty_tracked in H1; [|done]. unfold tracked in *.
  destruct (st_current st1) as [c|] eqn:Hcur; [|done].
  unfold deref, store in H.
  destruct (st_heap st1 !! c) as [e|] eqn:He; [|done]. cbn [bind] in H.
  destruct (e_key e) as [buf|]; [|done].
  apply bind_Ok in H as (ch & _ & H).
  destruct (Ascii.eqb ch NUL); [injection H as <-; by rewrite Hcur|].
  apply bind_Ok in H as (buf1 & _ & H). apply bind_Ok in H as (s1 & _ & H).
  cbn [bind] in H. apply bind_Ok in H as (ch1 & _ & H).
  assert (J (<[c := set_key (Some buf1) e]> (st_heap st1)) (Some c)) as HP2
    by (apply J_content; auto using keeps_links_key).
  destruct (Ascii.eqb ch1 NUL).
  - injection H as <-. cbn. by rewrite Hcur.
  - apply bind_Ok in H as (h2 & Ha & H). injection H as <-.
    apply xml_parse_attributes_tracked in Ha; [|done].
    cbn. by rewrite Hcur.
Qed.

Lemma tag_body_match_tracked st t d m ctl :
  tracked st -> tag_body_match st t d m = Ok ctl ->
  match ctl with Continue s _ | Break s _ => tracked s end.
Proof.
  intros Hl H. unfold tag_body_match in H.
  apply bind_Ok in H as (st1 & H1 & H).
  assert (tracked st1) as Hl1.
  { destruct (st_cursor st =? 0); [by eapply xml_key_append_tracked|].
    by injection H1 as <-. }
  destruct (Ascii.eqb _ NUL); [|by injection H as <-].
  apply bind_Ok in H as (st3 & H3 & H).
  apply bind_Ok in H as (st4 & H4 & H).
  apply bind_Ok in H as (st5 & H5 & H). injection H as <-.
  assert (tracked st3) as Hl3.
  { destruct (1 <? _); [|by injection H3 as <-].
    eapply append_current_tracked in H3; [done|apply keeps_links_key|done]. }
  assert (tracked st4) as Hl4.
  { destruct (type t =? _); [by eapply xml_parse_tag_name_tracked|].
    by injection H4 as <-. }
  assert (tracked st5) as Hl5.
  { destruct (negb _ || _); [by eapply xml_close_element_tracked|].
    by injection H5 as <-. }
  done.
Qed.

Lemma tag_body_iter_tracked st d ctl :
  tracked st -> tag_body_iter st d = Ok ctl ->
  match ctl with Continue s _ | Break s _ => tracked s end.
Proof.
  intros Hl H. unfold tag_body_iter in H.
  destruct (st_tag st) as [t|]; [|done].
  destruct d as [|c d]; [by injection H as <-|].
  destruct (st_cursor st =? 0).
  - destruct (strchr _ _); [by eapply tag_body_match_tracked|].
    apply bind_Ok in H as (st1 & H1 & H). injection H as <-.
    by eapply xml_key_append_tracked.
  - destruct (Ascii.eqb _ c); [by eapply tag_body_match_tracked|].
    apply bind_Ok in H as (st1 & H1 & H).
    apply xml_key_append_tracked in H1; [|done].
    destruct (Ascii.eqb _ c); [by eapply tag_body_match_tracked in H|].
    by injection H as <-.
Qed.

Lemma tag_body_loop_tracked f : forall st d s d',
  tracked st -> tag_body_loop f st d = Ok (s, d') -> tracked s.
Proof.
  induction f as [|f IH]; intros st d s d' Hl H.
  - destruct d; [|done]. by injection H as <- _.
  - destruct d as [|c d]; [by injection H as <- _|].
    cbn [tag_body_loop] in H. apply bind_Ok in H as ([s2 d2|s2 d2] & Hit & H);
      apply tag_body_iter_tracked in Hit; try done.
    + by eapply IH.
    + by injection H as <- _.
Qed.

Lemma xml_parse_tag_opening_tracked d : forall st s d',
  tracked st -> xml_parse_tag_opening st d = Ok (s, d') -> tracked s.
Proof.
  induction d as [|c d IH]; intros st s d' Hl H.
  - by injection H as <- _.
  - cbn [xml_parse_tag_opening] in H.
    destruct (match_opening (st_cursor st) c) as [[t|] cur] eqn:Hm.
    + by eapply IH in H.
    + destruct (st_tag (with_cursor cur st)) as [t|]; [|done].
      apply bind_Ok in H as (st1 & H1 & H).
      assert (tracked st1) as HP1.
      { destruct (0 <? _); [by eapply xml_close_element_tracked in H1|].
        by injection H1 as <-. }
      apply bind_Ok in H as (st3 & H3 & H). injection H as <- _.
      destruct (negb _); [|by injection H3 as <-].
      apply bind_Ok in H3 as ([h e] & Hcr & H3). injection H3 as <-.
      unfold tracked in *. cbn in *. by eapply J_create.
Qed.

Lemma xml_parse_content_tracked st d s d' :
  tracked st -> xml_parse_content st d = Ok (s, d') -> tracked s.
Proof.
  intros Hl H. unfold xml_parse_content in H.
  apply bind_Ok in H as (st1 & H1 & H). injection H as <- _.
  assert (tracked st1) as Hl1.
  { destruct (0 <? _); [by eapply xml_value_append_tracked|by injection H1 as <-]. }
  destruct (drop _ d) as [|a r]; [done|]. by destruct (Ascii.eqb a "<").
Qed.

Lemma parse_loop_tracked f : forall st d s,
  tracked st -> parse_loop f st d = Ok s -> tracked s.
Proof.
  induction f as [|f IH]; intros st d s Hl H.
  - destruct d; [|done]. by injection H as <-.
  - destruct d as [|c d]; [by injection H as <-|].
    cbn [parse_loop] in H. destruct (st_parser st) as [p|]; [|done].
    apply bind_Ok in H as ([s1 d1] & Hc & H). eapply IH; [|done].
    destruct p; cbn [call_parser] in Hc.
    + by eapply xml_parse_content_tracked.
    + by eapply xml_parse_tag_opening_tracked.
    + by eapply tag_body_loop_tracked.
Qed.

Lemma xml_parse_chunks_tracked ds : forall st s,
  tracked st -> is_Some (st_root st) -> is_Some (st_parser st) ->
  xml_parse_chunks st ds = Ok s -> tracked s.
Proof.
  induction ds as [|d ds IH]; intros st s HJ Hr Hp H.
  - by injection H as <-.
  - cbn [xml_parse_chunks] in H. apply bind_Ok in H as (s1 & H1 & H).
    rewrite xml_parse_chunk_run, chunk_init_id in H1 by done.
    pose proof (parse_loop_keeps _ _ _ _ H1) as [Hr1 Hp1].
    apply (IH s1); [by apply (parse_loop_tracked _ _ _ _ HJ H1)|by rewrite Hr1|auto|done].
Qed.
End tracked.

(** The arena holds a tree and the insertion point is one of its
    elements. *)
Definition tree_at (h : list xml_element) (cur : option nat) : Prop :=
  tree_ok h /\ forall c, cur = Some c -> c < length h.

Lemma tree_at_create h cur h' k :
  tree_at h cur -> xml_element_create h cur = Ok (h', k) -> tree_at h' (Some k).
Proof.
  intros [Ht Hc] H. destruct cur as [p|].
  - apply xml_element_create_tree in H as (Ht' & -> & Hl); [|done|by apply Hc].
    split; [done|]. intros c [= <-]. lia.
  - injection H as <- <-. split; [by apply tree_ok_alloc|].
    intros c [= <-]. rewrite length_app. cbn. lia.
Qed.

Lemma tree_at_content h c e f :
  tree_at h (Some c) -> h !! c = Some e -> keeps_links f ->
  tree_at (<[c := f e]> h) (Some c).
Proof.
  intros [Ht Hc] He Hf. split; [by apply tree_ok_content|].
  intros q Hq. rewrite length_insert. by apply Hc.
Qed.

Lemma tree_at_up h c e :
  tree_at h (Some c) -> h !! c = Some e -> tree_at h (e_parent e).
Proof.
  intros [Ht Hc] He. split; [done|]. intros q Hq.
  destruct Ht as [Hpar _]. pose proof (Hpar c e q He Hq).
  apply lookup_lt_Some in He. lia.
Qed.

Lemma tree_ok_nil : tree_ok [].
Proof. split; [by intros k ek p Hk|by intros p pe Hp]. Qed.

(** X19.  The parser builds a tree.  After any number of chunks fed to
    a fresh state with success, every element of the arena has been
    created after its parent, and the list of its children, from its
    first child along the next links, ends at its last child, holds
    exactly the elements whose parent it is, each of them once, and has
    them in the order of their creation, which is the order of the
    document.  The insertion point, if there is one, is an element of the
    arena. *)
Theorem parsed_tree_is_a_tree (ds : list cstr) (s : xml_state) :
  xml_parse_chunks state_zero ds = Ok s ->
  (forall p pe, st_heap s !! p = Some pe ->
     (forall q, e_parent pe = Some q -> q < p) /\
     exists l,
       chain (st_heap s) (e_first_child pe) l /\ e_last_child pe = last l /\
       NoDup l /\ ordered l /\
       forall k, k ∈ l <-> exists ek, st_heap s !! k = Some ek /\ e_parent ek = Some p) /\
  (forall c, st_current s = Some c -> c < length (st_heap s)).
Proof.
  intros H.
  assert (tracked tree_at s) as [[Hpar Hch] Hcur].
  { destruct ds as [|d ds].
    - injection H as <-. split; [apply tree_ok_nil|done].
    - cbn [xml_parse_chunks] in H. apply bind_Ok in H as (s1 & H1 & H).
      rewrite xml_parse_chunk_run in H1.
      pose proof (parse_loop_keeps _ _ _ _ H1) as [Hr1 Hp1].
      assert (tracked tree_at (chunk_init state_zero)) as H0.
      { split; [apply (tree_ok_alloc [] tree_ok_nil)|]. cbn. intros c [= <-]. lia. }
      pose proof (parse_loop_tracked tree_at tree_at_create tree_at_content tree_at_up
                    _ _ _ _ H0 H1) as HJ1.
      apply (xml_parse_chunks_tracked tree_at tree_at_create tree_at_content tree_at_up
               ds s1); [done|by rewrite Hr1|by apply Hp1|done]. }
  split; [|done]. intros p pe Hp. split; [intros q Hq; by apply (Hpar p pe)|].
  destruct (Hch p pe Hp) as (l & Hc & Hla & Ho & Hin).
  exists l. split_and!; try done. by apply ordered_NoDup.
Qed.

Definition st_two_children : xml_state :=
  Eval vm_compute in
    state_of (xml_parse_chunks state_zero [cs "<a><b>x</b"; cs "><c/>text</a>"]).

Lemma parsed_tree_is_a_tree_witness :
  (forall p pe, st_heap st_two_children !! p = Some pe ->
     (forall q, e_parent pe = Some q -> q < p) /\
     exists l,
       chain (st_heap st_two_children) (e_first_child pe) l /\
       e_last_child pe = last l /\ NoDup l /\ ordered l /\
       forall k, k ∈ l <->
         exists ek, st_heap st_two_children !! k = Some ek /\ e_parent ek = Some p) /\
  (forall c, st_current st_two_children = Some c -> c < length (st_heap st_two_children)).
Proof.
  apply (parsed_tree_is_a_tree [cs "<a><b>x</b"; cs "><c/>text</a>"]).
  vm_compute. reflexivity.
Defined.

(** ** An attribute without a value under a constraint with a value *)

Definition doc_novalue : cstr := cs "<a><b x>p</b></a>".

Definition tree_novalue : list xml_element := Eval vm_compute in tree_of doc_novalue.

Lemma attribute_scan_skip e q pre rest :
  key_len q <= length (q_key q) ->
  Forall (fun a' => exists k', attr_string e (a_key a') = Ok k' /\ k' <> constraint_key q)
    pre ->
  attribute_scan e q (pre ++ rest) = attribute_scan e q rest.
Proof.
  intros Hq Hpre. induction Hpre as [|a' pre (k' & Hk' & Hne) _ IH]; [done|].
  cbn [app attribute_scan]. rewrite Hk'. cbn [bind].
  destruct ((length k' =? key_len q) && strncmp_eq k' (q_key q) (key_len q)) eqn:Hm;
    [|done].
  apply span_eq_iff in Hm; done.
Qed.

(** C4 fails where an attribute has no value.  xml_attribute_match
    compares a constraint that has a value with every attribute that has
    the key of the constraint, and calls strlen on the value of such an
    attribute without looking whether there is one: when the first
    attribute of the element that has the key of the constraint was
    written without a value, as x in [<b x>], and the constraint has a
    value, as in [b?x=1], the NULL value is dereferenced.  The claim has
    the constraint not satisfied there and xml_find return no match; on
    [<a><b x>p</b></a>] with the path [a/b?x=1] the behaviour of xml_find
    is undefined, while [a/b?x] finds the element. *)
Theorem attribute_value_null_deref (h : list xml_element) (ei : nat) (e : xml_element)
    (seg : xml_path_segment) (q : xml_query_string) (qs : list xml_query_string)
    (pre post : list xml_attribute) (a : xml_attribute) :
  h !! ei = Some e ->
  query seg = q :: qs -> key_len q <= length (q_key q) ->
  is_Some (q_value q) ->
  e_attributes e = pre ++ a :: post ->
  Forall (fun a' => exists k', attr_string e (a_key a') = Ok k' /\ k' <> constraint_key q)
    pre ->
  attr_string e (a_key a) = Ok (constraint_key q) ->
  a_value a = None ->
  xml_attribute_match h (Some ei) seg = Undef /\
  xml_find 10 tree_novalue 0 (Some (cs "a/b?x=1")) = Undef /\
  xml_find 10 tree_novalue 0 (Some (cs "a/b?x")) = Ok (Some 2) /\
  (e_attributes <$> tree_novalue !! 2) = Some [ {| a_key := Some 2; a_value := None |} ].
Proof.
  intros He Hq Hlen [v Hv] Hattrs Hpre Hk Hnone.
  split; [|split_and!; vm_compute; reflexivity].
  unfold xml_attribute_match, deref. rewrite He. cbn [bind]. rewrite Hq.
  cbn [attribute_match_queries]. rewrite Hattrs.
  rewrite (attribute_scan_skip e q pre (a :: post)) by done.
  cbn [attribute_scan]. rewrite Hk. cbn [bind].
  assert ((length (constraint_key q) =? key_len q) &&
          strncmp_eq (constraint_key q) (q_key q) (key_len q) = true) as ->
    by (by apply span_eq_iff).
  rewrite Hv, Hnone. unfold attr_string. by destruct (e_key e).
Qed.

Lemma attribute_value_null_deref_witness :
  xml_attribute_match tree_novalue (Some 2) seg_x1 = Undef.
Proof.
  apply (attribute_value_null_deref tree_novalue 2 (element_at tree_novalue 2) seg_x1
           {| q_key := cs "x=1"; key_len := 1; q_value := Some (cs "1"); value_len := 1 |}
           [] [] [] {| a_key := Some 2; a_value := None |}).
  - reflexivity.
  - reflexivity.
  - simpl. lia.
  - by eexists.
  - reflexivity.
  - apply Forall_nil_2.
  - reflexivity.
  - reflexivity.
Defined.

(** * Element location, stated on the tree and the text of the path *)

(** Element [c] bears the name [name]: its key, read as a C string, is
    as long as the name and equal to it up to the case of letters. *)
Definition has_name (h : list xml_element) (c : nat) (name : cstr) : Prop :=
  exists ce k, h !! c = Some ce /\ e_key ce = Some k /\
    length (cstring k) = length name /\
    map tolower (cstring k) = map tolower name.

(** Element [c] has an attribute with the key [k], byte for byte, and,
    for [Some v], with the value [v], byte for byte. *)
Definition has_attribute (h : list xml_element) (c : nat) (k : cstr) (v : option cstr)
  : Prop :=
  exists ce a, h !! c = Some ce /\ a ∈ e_attributes ce /\
    attr_string ce (a_key a) = Ok k /\
    match v with
    | None => True
    | Some v => attr_string ce (a_value a) = Ok v
    end.

(** A constraint as it is written, [k] or [k=v], and a path segment as
    it is written: a name, followed, if it has constraints, by '?' and
    the constraints separated by '&'. *)
Definition constraint : Type := cstr * option cstr.

Record segment := { segment_name : cstr; segment_constraints : list constraint }.

Definition seg_name (name : cstr) : segment :=
  {| segment_name := name; segment_constraints := [] |}.
Definition seg_key (name k : cstr) : segment :=
  {| segment_name := name; segment_constraints := [(k, None)] |}.
Definition seg_key_value (name k v : cstr) : segment :=
  {| segment_name := name; segment_constraints := [(k, Some v)] |}.

Definition constraint_text (c : constraint) : cstr :=
  match snd c with
  | None => fst c
  | Some v => fst c ++ "="%char :: v
  end.

(** The constraints, each behind its separator: [sep] for the first,
    '&' for the others. *)
Fixpoint constraints_text (sep : ascii) (cl : list constraint) : cstr :=
  match cl with
  | [] => []
  | c :: cl' => sep :: constraint_text c ++ constraints_text "&"%char cl'
  end.

Definition segment_text (s : segment) : cstr :=
  segment_name s ++ constraints_text "?"%char (segment_constraints s).

(** The key holds no '=', '&' or '/', the value no '&' or '/'. *)
Definition constraint_wf (c : constraint) : Prop :=
  avoids (cs "=&/") (fst c) /\
  match snd c with
  | None => True
  | Some v => avoids (cs "&/") v
  end.

(** The name is not empty and holds no '/' and no '?'. *)
Definition segment_wf (s : segment) : Prop :=
  segment_name s <> [] /\ avoids (cs "/?") (segment_name s) /\
  Forall constraint_wf (segment_constraints s).

(** Every constraint of the segment holds of element [c]. *)
Definition constraint_of (h : list xml_element) (c : nat) (s : segment) : Prop :=
  Forall (fun kv => has_attribute h c (fst kv) (snd kv)) (segment_constraints s).

(** Element [c] matches the segment: it bears its name and its
    constraints hold of it. *)
Definition matches (h : list xml_element) (c : nat) (s : segment) : Prop :=
  has_name h c (segment_name s) /\ constraint_of h c s.

(** Whenever the scan of the attributes for a query string returns, it
    says whether an attribute has the key and, if asked for, the value
    of the query string. *)
Lemma attribute_scan_ok e q : forall attrs b,
  query_ok q ->
  attribute_scan e q attrs = Ok b ->
  (b = true <->
   exists a, a ∈ attrs /\
     attr_string e (a_key a) = Ok (constraint_key q) /\
     match constraint_value q with
     | None => True
     | Some v => attr_string e (a_value a) = Ok v
     end).
Proof.
  intros attrs b [Hk Hv]. unfold constraint_key, constraint_value. revert b.
  induction attrs as [|a attrs IH]; intros b H.
  - injection H as <-. split; [done|]. intros (a & Ha & _). by apply elem_of_nil in Ha.
  - cbn [attribute_scan] in H. apply bind_Ok in H as (k & Hka & H).
    assert (Hrest : forall b', attribute_scan e q attrs = Ok b' ->
              (forall a0, a0 = a ->
                 ~ (attr_string e (a_key a0) = Ok (take (key_len q) (q_key q)) /\
                    match take (value_len q) <$> q_value q with
                    | None => True
                    | Some v => attr_string e (a_value a0) = Ok v
                    end)) ->
              (b' = true <->
               exists a0, a0 ∈ a :: attrs /\
                 attr_string e (a_key a0) = Ok (take (key_len q) (q_key q)) /\
                 match take (value_len q) <$> q_value q with
                 | None => True
                 | Some v => attr_string e (a_value a0) = Ok v
                 end)).
    { intros b' Hb' Hna. rewrite (IH b' Hb'). split.
      - intros (a0 & H0 & H1). exists a0. split; [apply elem_of_cons; by right|done].
      - intros (a0 & H0 & H1). apply elem_of_cons in H0 as [->|H0]; [|by exists a0].
        by destruct (Hna a eq_refl). }
    destruct ((length k =? key_len q) && strncmp_eq k (q_key q) (key_len q)) eqn:Hm.
    + apply span_eq_iff in Hm as ->; [|done].
      destruct (q_value q) as [v|] eqn:Hq.
      * apply bind_Ok in H as (av & Hav & H).
        destruct ((length av =? value_len q) && strncmp_eq av v (value_len q)) eqn:Hm2.
        -- apply span_eq_iff in Hm2 as ->; [|by apply Hv].
           injection H as <-. split; [|done]. intros _.
           exists a. split; [apply elem_of_cons; by left|]. done.
        -- apply (Hrest b H). intros a0 -> [_ H2]. cbn in H2.
           rewrite Hav in H2. injection H2 as ->.
           assert ((length (take (value_len q) v) =? value_len q) &&
                   strncmp_eq (take (value_len q) v) v (value_len q) = true) as Ht
             by (apply span_eq_iff; [by apply Hv|done]).
           by rewrite Ht in Hm2.
      * injection H as <-. split; [|done]. intros _.
        exists a. split; [apply elem_of_cons; by left|]. done.
    + apply (Hrest b H). intros a0 -> [H1 _]. rewrite Hka in H1. injection H1 as ->.
      assert ((length (take (key_len q) (q_key q)) =? key_len q) &&
              strncmp_eq (take (key_len q) (q_key q)) (q_key q) (key_len q) = true) as Ht
        by (by apply span_eq_iff).
      by rewrite Ht in Hm.
Qed.

(** The query string [q] holds the constraint [c]. *)
Definition query_reads (q : xml_query_string) (c : constraint) : Prop :=
  constraint_key q = fst c /\ constraint_value q = snd c /\ query_ok q.

(** Whenever xml_attribute_match returns for query strings that hold
    the constraints [cl], it says whether every constraint holds. *)
Lemma attribute_match_queries_ok e : forall qs cl b,
  Forall2 query_reads qs cl ->
  attribute_match_queries e qs = Ok b ->
  (b = true <->
   Forall (fun kv => exists a, a ∈ e_attributes e /\
             attr_string e (a_key a) = Ok (fst kv) /\
             match snd kv with
             | None => True
             | Some v => attr_string e (a_value a) = Ok v
             end) cl).
Proof.
  induction qs as [|q qs IH]; intros cl b Hcl H.
  - apply Forall2_nil_inv_l in Hcl as ->. injection H as <-. split; [by constructor|done].
  - apply Forall2_cons_inv_l in Hcl as (c & cl' & (Hk & Hv & Hok) & Hcl & ->).
    cbn [attribute_match_queries] in H. apply bind_Ok in H as (b0 & Hb0 & H).
    pose proof (attribute_scan_ok e q _ _ Hok Hb0) as Hiff. rewrite Hk, Hv in Hiff.
    rewrite Forall_cons. destruct b0.
    + rewrite (IH cl' b Hcl H). split; [|by intros [_ ?]].
      intros Hall. split; [|done]. by apply Hiff.
    + injection H as <-. split; [done|]. intros [Hc _]. by apply Hiff in Hc.
Qed.

(** What stands behind a constraint: nothing, the '&' of the next
    constraint, or the '/' of the next segment. *)
Definition constraint_end (R : cstr) : Prop :=
  R = [] \/ (exists r, R = "&"%char :: r) \/ (exists r, R = "/"%char :: r).

Lemma constraints_text_end cl tail :
  segment_end tail -> constraint_end (constraints_text "&"%char cl ++ tail).
Proof.
  intros Ht. destruct cl as [|c cl].
  - destruct Ht as [-> | [rest ->]]; [by left|right; right; by eexists].
  - right; left. cbn. by eexists.
Qed.

Lemma strcspn_constraint_end k set R :
  avoids set k -> chr_in "&"%char set = true -> chr_in "/"%char set = true ->
  constraint_end R -> strcspn (k ++ R) set = length k.
Proof.
  intros Hk H1 H2 [-> | [[r ->] | [r ->]]].
  - rewrite app_nil_r. by apply strcspn_end.
  - by apply strcspn_stop.
  - by apply strcspn_stop.
Qed.

(** One round of the loop of xml_first_path_segment, at the constraint
    [c] that stands behind the separator at [pre]. *)
Lemma query_loop_step f path pre sep0 c R stop qs :
  constraint_wf c ->
  path = pre ++ sep0 :: constraint_text c ++ R ->
  constraint_end R ->
  exists q, query_reads q c /\
    query_loop (S f) path (length pre) stop qs =
      if (length pre + 1 + length (constraint_text c) <? length path) &&
         (length pre + 1 + length (constraint_text c) <? stop)
      then query_loop f path (length pre + 1 + length (constraint_text c)) stop (q :: qs)
      else Ok (q :: qs).
Proof.
  intros [Hk Hv] Hpath HR. destruct c as [k [v|]]; cbn [fst snd constraint_text] in *.
  - exists {| q_key := k ++ "="%char :: v ++ R; key_len := length k;
              q_value := Some (v ++ R); value_len := length v |}.
    split.
    + unfold query_reads, constraint_key, constraint_value, query_ok. cbn.
      rewrite !take_app_length. split_and!; [done|done|rewrite length_app; lia|].
      intros v' [= <-]. rewrite length_app. lia.
    + cbn [query_loop].
      assert (drop (S (length pre)) path = k ++ "="%char :: v ++ R) as Hks.
      { apply (drop_at path (pre ++ [sep0])); [rewrite Hpath; seg|len]. }
      rewrite !Hks. rewrite (strcspn_stop k) by done.
      assert (drop (S (length pre) + length k) path = "="%char :: v ++ R) as Hvs.
      { apply (drop_at path (pre ++ sep0 :: k)); [rewrite Hpath; seg|len]. }
      rewrite Hvs. rewrite (strcspn_constraint_end v) by done.
      replace (S (S (length pre) + length k) + length v)
        with (length pre + 1 + length (k ++ "="%char :: v)) by len.
      reflexivity.
  - exists {| q_key := k ++ R; key_len := length k; q_value := None; value_len := 0 |}.
    split.
    + unfold query_reads, constraint_key, constraint_value, query_ok. cbn.
      rewrite take_app_length. split_and!; [done|done|rewrite length_app; lia|done].
    + cbn [query_loop].
      assert (drop (S (length pre)) path = k ++ R) as Hks.
      { apply (drop_at path (pre ++ [sep0])); [rewrite Hpath; seg|len]. }
      rewrite !Hks. rewrite (strcspn_constraint_end k) by done.
      assert (drop (S (length pre) + length k) path = R) as Hvs.
      { apply (drop_at path (pre ++ sep0 :: k)); [rewrite Hpath; seg|len]. }
      rewrite Hvs.
      replace (S (length pre) + length k) with (length pre + 1 + length k) by lia.
      destruct HR as [-> | [[r ->] | [r ->]]]; reflexivity.
Qed.

(** The loop of xml_first_path_segment reads the constraints of a
    segment one after the other; the list of query strings holds them
    in reverse order. *)
Lemma query_loop_read cl : forall fuel pre sep0 tail qs,
  Forall constraint_wf cl -> cl <> [] -> segment_end tail -> length cl <= fuel ->
  exists qs',
    query_loop fuel (pre ++ constraints_text sep0 cl ++ tail) (length pre)
      (length (pre ++ constraints_text sep0 cl)) qs = Ok (qs' ++ qs) /\
    Forall2 query_reads qs' (reverse cl).
Proof.
  induction cl as [|c cl IH]; intros fuel pre sep0 tail qs Hwf Hne Ht Hfuel; [done|].
  apply Forall_cons in Hwf as [Hc Hwf].
  destruct fuel as [|f]; [cbn in Hfuel; lia|].
  set (path := pre ++ constraints_text sep0 (c :: cl) ++ tail).
  set (stop := length (pre ++ constraints_text sep0 (c :: cl))).
  destruct (query_loop_step f path pre sep0 c (constraints_text "&"%char cl ++ tail)
              stop qs Hc) as (q & Hq & Hstep).
  { unfold path. cbn [constraints_text]. seg. }
  { by apply constraints_text_end. }
  rewrite Hstep. clear Hstep.
  set (pre' := pre ++ sep0 :: constraint_text c).
  assert (length pre + 1 + length (constraint_text c) = length pre') as -> by len.
  assert (path = pre' ++ constraints_text "&"%char cl ++ tail) as Hpath
    by (unfold path, pre'; cbn [constraints_text]; seg).
  assert (stop = length (pre' ++ constraints_text "&"%char cl)) as Hstop.
  { unfold stop, pre'. f_equal. cbn [constraints_text]. seg. }
  destruct cl as [|c' cl'].
  - exists [q]. split; [|by apply Forall2_cons].
    assert ((length pre' <? stop) = false) as ->; [|by rewrite andb_false_r].
    apply Nat.ltb_ge. rewrite Hstop. cbn [constraints_text]. by rewrite app_nil_r.
  - assert ((length pre' <? length path) && (length pre' <? stop) = true) as ->.
    { apply andb_true_iff. split; apply Nat.ltb_lt.
      - rewrite Hpath, length_app. cbn [constraints_text length app]. lia.
      - rewrite Hstop, length_app. cbn [constraints_text length]. lia. }
    rewrite Hpath, Hstop.
    destruct (IH f pre' "&"%char tail (q :: qs)) as (qs' & Hqs' & Hall);
      [done|done|done|cbn in Hfuel |- *; lia|].
    exists (qs' ++ [q]). split.
    + rewrite Hqs'. by rewrite <- app_assoc.
    + rewrite (reverse_cons _ c). apply Forall2_app; [done|by apply Forall2_cons].
Qed.

Lemma constraints_text_length sep cl : length cl <= length (constraints_text sep cl).
Proof.
  revert sep. induction cl as [|c cl IH]; intros sep; [done|].
  cbn [constraints_text length]. rewrite length_app. specialize (IH "&"%char). lia.
Qed.

Lemma constraints_text_no_slash cl : forall sep,
  sep <> "/"%char -> Forall constraint_wf cl -> "/"%char ∉ constraints_text sep cl.
Proof.
  induction cl as [|c cl IH]; intros sep Hsep Hwf; [by intros Hin%elem_of_nil|].
  apply Forall_cons in Hwf as [[Hk Hv] Hwf]. cbn [constraints_text].
  rewrite not_elem_of_cons, not_elem_of_app. split_and!; [congruence| |by apply IH].
  assert ("/"%char ∉ fst c) by (by apply (avoids_not_in _ _ _ Hk)).
  unfold constraint_text. destruct (snd c) as [v|]; [|done].
  assert ("/"%char ∉ v) by (by apply (avoids_not_in _ _ _ Hv)).
  rewrite not_elem_of_app, not_elem_of_cons. done.
Qed.


(** The segment xml_first_path_segment reads from the text of a
    segment: its tag length is the length of the name, and whenever
    xml_attribute_match returns, it says whether the constraints hold. *)
Lemma segment_read (s : segment) (tail : cstr) :
  segment_wf s -> segment_end tail ->
  exists seg,
    xml_first_path_segment segment_zero (segment_text s ++ tail) =
      Ok (seg, next_segment tail) /\
    tag_len seg = length (segment_name s) /\
    take (tag_len seg) (segment_text s ++ tail) = segment_name s /\
    (segment_constraints s = [] -> query seg = []) /\
    forall h c b, xml_attribute_match h (Some c) seg = Ok b ->
      (b = true <-> constraint_of h c s).
Proof.
  intros (Hne & Hn & Hs) Ht. destruct s as [name cl]. unfold segment_text, constraint_of.
  cbn [segment_name segment_constraints] in *.
  assert ("/"%char ∉ name) as Hn1 by (by apply (avoids_not_in _ _ _ Hn)).
  assert ("?"%char ∉ name) as Hn2 by (by apply (avoids_not_in _ _ _ Hn)).
  destruct cl as [|c0 cl0] eqn:Hcl.
  - cbn [constraints_text]. rewrite app_nil_r.
    eexists. split; [by apply path_no_constraint|]. cbn.
    split; [done|]. split; [by rewrite take_app_length|]. split; [done|].
    intros h c b H. unfold xml_attribute_match in H.
    apply bind_Ok in H as (el & _ & H). injection H as <-. split; [by constructor|done].
  - rewrite <- Hcl in *. assert (cl <> []) as Hcne by (by rewrite Hcl).
    set (body := name ++ constraints_text "?"%char cl).
    set (path := body ++ tail).
    assert ("/"%char ∉ body) as Hb.
    { unfold body. rewrite not_elem_of_app. split; [done|].
      by apply constraints_text_no_slash. }
    assert (path = name ++ constraints_text "?"%char cl ++ tail) as Hpath
      by (unfold path, body; by rewrite <- app_assoc).
    destruct (query_loop_read cl (S (length path)) name "?"%char tail [] Hs Hcne Ht)
      as (qs & Hloop & Hall).
    { pose proof (constraints_text_length "?"%char cl) as Hlen.
      rewrite Hpath, !length_app. lia. }
    rewrite app_nil_r in Hloop. fold body in Hloop. rewrite <- Hpath in Hloop.
    exists {| tag_len := length name; query := qs |}. split_and!.
    + unfold xml_first_path_segment.
      destruct (strchr_slash body tail Hb Ht) as [Hsl Hnx]. fold path in Hsl, Hnx.
      rewrite Hnx.
      assert (strchr path "?"%char = Some (length name)) as Hq.
      { rewrite Hpath, Hcl. cbn [constraints_text]. by apply strchr_first. }
      rewrite Hq.
      set (tl := match strchr path "/"%char with
                 | Some n => n
                 | None => length path
                 end).
      assert (tl = length body) as Htl.
      { unfold tl. rewrite Hsl. assert (length path = length body + length tail) as Hlp
          by (unfold path; apply length_app).
        destruct tail; cbn [length] in Hlp; lia. }
      assert ((length name <? tl) = true) as ->.
      { apply Nat.ltb_lt. rewrite Htl. unfold body. rewrite length_app, Hcl.
        cbn [constraints_text length]. lia. }
      rewrite Htl. cbn [query segment_zero]. rewrite Hloop. done.
    + done.
    + cbn. unfold path, body. rewrite <- app_assoc. by rewrite take_app_length.
    + by intros.
    + intros h c b H. unfold xml_attribute_match, deref in H.
      destruct (h !! c) as [el|] eqn:Hel; [|done]. cbn [bind query] in H.
      rewrite (attribute_match_queries_ok el qs (reverse cl) b Hall H).
      rewrite Forall_reverse. unfold has_attribute.
      apply Forall_proper; [|done]. intros [k v]. cbn [fst snd]. split.
      * intros (a & Ha & Hka). by exists el, a.
      * intros (ce & a & Hce & Ha & Hka). simplify_eq. by exists a.
Qed.

(** The test of xml_find on a child, for the text of a segment. *)
Lemma segment_test (s : segment) (tail : cstr) :
  segment_wf s -> segment_end tail ->
  exists seg,
    xml_first_path_segment segment_zero (segment_text s ++ tail) =
      Ok (seg, next_segment tail) /\
    forall h c ce b, h !! c = Some ce ->
      child_match h (segment_text s ++ tail) seg c ce = Ok b ->
      (b = true <-> matches h c s).
Proof.
  intros Hwf Ht. destruct (segment_read s tail Hwf Ht) as (seg & Hseg & Hlen & Htake & _ & Hattr).
  exists seg. split; [done|]. intros h c ce b Hce H. unfold child_match in H.
  unfold matches, has_name.
  destruct (e_key ce) as [k|] eqn:Hk.
  - destruct (tag_match k _ _) eqn:Hm.
    + apply tag_match_iff in Hm as [Hl Hm]. rewrite Htake in Hm. rewrite Hlen in Hl.
      rewrite (Hattr h c b H). split; [|by intros [_ ?]].
      intros Hc. split; [|done]. by exists ce, k.
    + injection H as <-. split; [done|]. intros [(ce' & k' & Hce' & Hk' & Hl & Hm') _].
      rewrite Hce in Hce'. injection Hce' as <-. rewrite Hk in Hk'. injection Hk' as <-.
      assert (tag_match k (segment_text s ++ tail) (tag_len seg) = true) as Ht'
        by (apply tag_match_iff; rewrite Htake, Hlen; done).
      by rewrite Ht' in Hm.
  - injection H as <-. split; [done|]. intros [(ce' & k' & Hce' & Hk' & _) _].
    rewrite Hce in Hce'. injection Hce' as <-. by rewrite Hk in Hk'.
Qed.








(** ** Paths of several segments *)

(** The text of a path: its segments, separated by '/'. *)
Fixpoint path_text (ss : list segment) : cstr :=
  match ss with
  | [] => []
  | [s] => segment_text s
  | s :: ss' => segment_text s ++ "/"%char :: path_text ss'
  end.

(** [x] is reached from [e] along the segments: by a chain of children,
    one for every segment, each matching its segment. *)
Inductive reached_by (h : list xml_element) : nat -> list segment -> nat -> Prop :=
| reached_by_last e s c :
    is_child h e c -> matches h c s -> reached_by h e [s] c
| reached_by_step e s s' ss c x :
    is_child h e c -> matches h c s -> reached_by h c (s' :: ss) x ->
    reached_by h e (s :: s' :: ss) x.

Lemma segment_text_nonempty s : segment_wf s -> segment_text s <> [].
Proof.
  intros (Hne & _). unfold segment_text. by destruct (segment_name s).
Qed.

Lemma path_text_cons s s' ss :
  path_text (s :: s' :: ss) = segment_text s ++ "/"%char :: path_text (s' :: ss).
Proof. reflexivity. Qed.

Lemma path_text_nonempty s ss : segment_wf s -> path_text (s :: ss) <> [].
Proof.
  intros Hs. pose proof (segment_text_nonempty s Hs) as Hne.
  destruct ss; [done|]. rewrite path_text_cons. by destruct (segment_text s).
Qed.

Lemma xml_find_path_sound fuel h : forall ss e x,
  Forall segment_wf ss ->
  xml_find fuel h e (Some (path_text ss)) = Ok (Some x) -> reached_by h e ss x.
Proof.
  induction fuel as [|f IH]; intros ss e x Hwf H; [done|].
  destruct ss as [|s ss]; [done|]. apply Forall_cons in Hwf as [Hs Hwf].
  pose proof (path_text_nonempty s ss Hs) as Hne.
  cbn [xml_find] in H. destruct (path_text (s :: ss)) as [|p0 p] eqn:Hp; [done|].
  rewrite <- Hp in H. clear Hne.
  apply bind_Ok in H as ([seg next] & Hseg & H).
  unfold deref in H. destruct (h !! e) as [el|] eqn:He; [|done]. cbn [bind] in H.
  apply scan_siblings_Some in H as (c & ce & Hc & Hce & Ht).
  unfold find_test in Ht. apply bind_Ok in Ht as (m & Hm & Ht).
  assert (is_child h e c) as Hch by (by exists el).
  destruct ss as [|s' ss].
  - cbn [path_text] in Hseg, Hm.
    destruct (segment_test s [] Hs) as (seg0 & Hseg0 & Htest); [by left|].
    rewrite app_nil_r in Hseg0. rewrite Hseg0 in Hseg. injection Hseg as <- <-.
    specialize (Htest h c ce m Hce). rewrite app_nil_r in Htest.
    destruct m; [|done]. injection Ht as <-.
    apply reached_by_last; [done|]. by apply Htest.
  - rewrite path_text_cons in Hseg, Hm.
    destruct (segment_test s ("/"%char :: path_text (s' :: ss)) Hs) as (seg0 & Hseg0 & Htest);
      [right; by eexists|].
    rewrite Hseg0 in Hseg. injection Hseg as <- <-.
    specialize (Htest h c ce m Hce Hm).
    destruct m; [|done]. cbn [next_segment] in Ht.
    apply reached_by_step with (c := c); [done|by apply Htest|].
    by apply IH.
Qed.

Lemma xml_find_path_complete h e ss x :
  reached_by h e ss x -> Forall segment_wf ss ->
  forall fuel, xml_find fuel h e (Some (path_text ss)) <> Ok None.
Proof.
  induction 1 as [e s c (pe & Hpe & Hc) Hm|e s s' ss c x (pe & Hpe & Hc) Hm Hrest IH];
    intros Hwf [|f] H; try done; apply Forall_cons in Hwf as [Hs Hwf];
    cbn [xml_find] in H.
  - pose proof (path_text_nonempty s [] Hs) as Hne.
    destruct (path_text [s]) as [|p0 p] eqn:Hp; [done|]. rewrite <- Hp in H.
    cbn [path_text] in H.
    destruct (segment_test s [] Hs) as (seg0 & Hseg0 & Htest); [by left|].
    rewrite app_nil_r in Hseg0. rewrite Hseg0 in H. cbn [bind next_segment] in H.
    unfold deref in H. rewrite Hpe in H. cbn [bind] in H.
    destruct (scan_siblings_None _ _ _ _ H c Hc) as (ce & Hce & Ht).
    unfold find_test in Ht. apply bind_Ok in Ht as (m & Hcm & Ht).
    specialize (Htest h c ce m Hce). rewrite app_nil_r in Htest.
    apply (Htest Hcm) in Hm as ->. done.
  - pose proof (path_text_nonempty s (s' :: ss) Hs) as Hne.
    destruct (path_text (s :: s' :: ss)) as [|p0 p] eqn:Hp; [done|]. rewrite <- Hp in H.
    rewrite path_text_cons in H.
    destruct (segment_test s ("/"%char :: path_text (s' :: ss)) Hs) as (seg0 & Hseg0 & Htest);
      [right; by eexists|].
    rewrite Hseg0 in H. cbn [bind next_segment] in H.
    unfold deref in H. rewrite Hpe in H. cbn [bind] in H.
    destruct (scan_siblings_None _ _ _ _ H c Hc) as (ce & Hce & Ht).
    unfold find_test in Ht. apply bind_Ok in Ht as (m & Hcm & Ht).
    apply (Htest h c ce m Hce Hcm) in Hm as ->.
    by apply (IH Hwf f).
Qed.

(** X11.  xml_find is sound and complete for the child chains of the
    tree, for a path written as segments separated by '/', each a name
    followed, if it has constraints, by '?' and constraints [k] or [k=v]
    separated by '&'.  An element it returns is reached from the start
    element by a chain of children, one for every segment, each with a
    key as long as the name of its segment and equal to it up to case
    and, for every constraint [k] of the segment, with an attribute of
    key [k], for every constraint [k=v], with an attribute of key [k]
    and value [v], byte for byte.  And when some element is reached in
    this way, xml_find, if it returns, returns such an element and not
    NULL. *)
Theorem xml_find_reaches (fuel : nat) (h : list xml_element) (e : nat)
    (ss : list segment) (x : nat) :
  Forall segment_wf ss ->
  (xml_find fuel h e (Some (path_text ss)) = Ok (Some x) -> reached_by h e ss x) /\
  (reached_by h e ss x ->
   forall r, xml_find fuel h e (Some (path_text ss)) = Ok r ->
     exists y, r = Some y /\ reached_by h e ss y).
Proof.
  intros Hwf. split; [by apply xml_find_path_sound|].
  intros Hr r H. destruct r as [y|].
  - exists y. split; [done|]. by apply (xml_find_path_sound fuel).
  - by destruct (xml_find_path_complete h e ss x Hr Hwf fuel).
Qed.

(** A document with two attributes on each element b, and the segment
    [b?x=1&y=3]. *)
Definition doc3 : cstr := cs "<a><b x='1' y='2'>p</b><b x='1' y='3'>q</b></a>".

Definition tree3 : list xml_element := Eval vm_compute in tree_of doc3.

Definition seg_b_x1_y3 : segment :=
  {| segment_name := cs "b";
     segment_constraints := [(cs "x", Some (cs "1")); (cs "y", Some (cs "3"))] |}.

Lemma segment_wf_b_x1_y3 : segment_wf seg_b_x1_y3.
Proof.
  split_and!; [done|unfold avoids; by repeat constructor|].
  repeat constructor; unfold avoids; by repeat constructor.
Qed.

Lemma xml_find_reaches_witness :
  reached_by tree3 0 [seg_name (cs "a"); seg_b_x1_y3] 4.
Proof.
  apply (proj1 (xml_find_reaches 10 tree3 0 [seg_name (cs "a"); seg_b_x1_y3] 4
                  ltac:(repeat constructor; try done; try apply segment_wf_b_x1_y3;
                        unfold avoids; by repeat constructor))).
  vm_compute. reflexivity.
Defined.

(** ** The last segment of a path *)

Lemma back_to_slash_none (t : cstr) : forall n,
  "/"%char ∉ t -> n <= length t -> back_to_slash t n = 0.
Proof.
  intros n Ht. induction n as [|p IH]; intros Hn; [done|].
  cbn [back_to_slash]. destruct p as [|p]; [done|].
  change (0 <? S p) with true. cbn [andb].
  destruct (Ascii.eqb (nth (S p) t NUL) "/"%char) eqn:E; [|cbn [negb]; apply IH; lia].
  apply Ascii.eqb_eq in E. exfalso. apply Ht. rewrite <- E.
  apply list_elem_of_In, nth_In. lia.
Qed.

Lemma back_to_slash_last (pre t : cstr) : forall n,
  "/"%char ∉ t -> n <= length t ->
  back_to_slash (pre ++ "/"%char :: t) (S (length pre + n)) = length pre.
Proof.
  intros n Ht. induction n as [|p IH]; intros Hn.
  - rewrite Nat.add_0_r. cbn [back_to_slash].
    replace (nth (length pre) (pre ++ "/"%char :: t) NUL) with "/"%char
      by (by rewrite app_nth2, Nat.sub_diag by lia).
    rewrite Ascii.eqb_refl. cbn [negb]. by rewrite andb_false_r.
  - cbn [back_to_slash].
    replace (length pre + S p) with (S (length pre + p)) by lia.
    change (0 <? S (length pre + p)) with true. cbn [andb].
    replace (nth (S (length pre + p)) (pre ++ "/"%char :: t) NUL) with (nth p t NUL).
    2:{ rewrite app_nth2 by lia.
        replace (S (length pre + p) - length pre) with (S p) by lia. done. }
    destruct (Ascii.eqb (nth p t NUL) "/"%char) eqn:E; [|cbn [negb]; apply IH; lia].
    apply Ascii.eqb_eq in E. exfalso. apply Ht. rewrite <- E.
    apply list_elem_of_In, nth_In. lia.
Qed.

(** A path ends with the text [t] of its last segment: [t] stands
    alone or behind the last '/'. *)
Definition ends_with_segment (path t : cstr) : Prop :=
  path = t \/ exists pre, path = pre ++ "/"%char :: t.

(** xml_last_path_segment called without a previous position reads the
    text behind the last '/'. *)
Lemma xml_last_path_segment_text (path t : cstr) :
  t <> [] -> "/"%char ∉ t -> ends_with_segment path t ->
  exists n,
    xml_last_path_segment segment_zero path None =
    do2 seg, nx <- xml_first_path_segment segment_zero t; Ok (seg, n).
Proof.
  intros Hne Ht [-> | [pre ->]]; unfold xml_last_path_segment.
  - destruct t as [|t0 t]; [done|]. cbn [length].
    rewrite (back_to_slash_none (t0 :: t) (S (length t))) by (done || (cbn; lia)).
    cbn [nth]. apply not_elem_of_cons in Ht as [Ht0 _].
    replace (Ascii.eqb t0 "/") with false by (symmetry; apply Ascii.eqb_neq; congruence).
    cbn [drop]. by exists 0.
  - rewrite length_app. cbn [length].
    replace (length pre + S (length t)) with (S (length pre + length t)) by lia.
    rewrite (back_to_slash_last pre t (length t)) by done.
    replace (nth (length pre) (pre ++ "/"%char :: t) NUL) with "/"%char
      by (by rewrite app_nth2, Nat.sub_diag by lia).
    rewrite Ascii.eqb_refl.
    replace (drop (S (length pre)) (pre ++ "/"%char :: t)) with t.
    2:{ symmetry. apply (drop_at _ (pre ++ ["/"%char]) t).
        - by rewrite <- app_assoc.
        - rewrite length_app. cbn. lia. }
    by exists (length pre).
Qed.

Lemma segment_text_no_slash s : segment_wf s -> "/"%char ∉ segment_text s.
Proof.
  intros (_ & Hn & Hs).
  assert ("/"%char ∉ segment_name s) as Hn1 by (by apply (avoids_not_in _ _ _ Hn)).
  unfold segment_text. rewrite not_elem_of_app. split; [done|].
  by apply constraints_text_no_slash.
Qed.

(** The segment xml_find_next works with, for a path that ends with the
    text of [s]. *)
Lemma last_segment_read (path : cstr) (s : segment) :
  segment_wf s -> ends_with_segment path (segment_text s) ->
  exists seg n,
    xml_last_path_segment segment_zero path None = Ok (seg, n) /\
    (segment_constraints s = [] -> query seg = []) /\
    forall h c b, xml_attribute_match h (Some c) seg = Ok b ->
      (b = true <-> constraint_of h c s).
Proof.
  intros Hwf Hend.
  destruct (xml_last_path_segment_text path (segment_text s)) as [n Hlast];
    [by apply segment_text_nonempty|by apply segment_text_no_slash|done|].
  destruct (segment_read s [] Hwf) as (seg & Hseg & _ & _ & Hq & Hattr); [by left|].
  rewrite app_nil_r in Hseg. rewrite Hseg in Hlast. cbn [bind] in Hlast.
  by exists seg, n.
Qed.

(** Element [x] has the name of the element [le], up to case. *)
Definition same_name_as (h : list xml_element) (x : nat) (le : xml_element) : Prop :=
  exists xe k lk, h !! x = Some xe /\ e_key xe = Some k /\ e_key le = Some lk /\
    map tolower (cstring k) = map tolower (cstring lk).

(** What xml_find_next looks for behind the element [le] with the last
    segment [s]. *)
Definition next_ok (h : list xml_element) (le : xml_element) (s : segment) (x : nat)
  : Prop :=
  same_name_as h x le /\ constraint_of h x s.

Lemma next_match_ok h le seg s x xe b :
  (forall h c b, xml_attribute_match h (Some c) seg = Ok b ->
     (b = true <-> constraint_of h c s)) ->
  h !! x = Some xe ->
  next_match h (e_key le) seg x xe = Ok b ->
  (b = true <-> next_ok h le s x).
Proof.
  intros Hattr Hxe H. unfold next_match in H. unfold next_ok, same_name_as.
  destruct (e_key xe) as [k|] eqn:Hk.
  - destruct (e_key le) as [lk|] eqn:Hlk; [|done].
    destruct (strcasecmp_eq (cstring k) (cstring lk)) eqn:Hcmp.
    + rewrite (Hattr h x b H). split; [|by intros [_ ?]].
      intros Hc. split; [|done]. exists xe, k, lk. split_and!; try done.
      by apply strcasecmp_eq_iff.
    + injection H as <-. split; [done|].
      intros [(xe' & k' & lk' & Hxe' & Hk' & Hlk' & Heq) _].
      rewrite Hxe in Hxe'. injection Hxe' as <-. rewrite Hk in Hk'. injection Hk' as <-.
      injection Hlk' as <-. apply strcasecmp_eq_iff in Heq. by rewrite Heq in Hcmp.
  - injection H as <-. split; [done|].
    intros [(xe' & k' & lk' & Hxe' & Hk' & _) _].
    rewrite Hxe in Hxe'. injection Hxe' as <-. by rewrite Hk in Hk'.
Qed.






(** X12.  Whatever xml_find_next returns, from the siblings behind the
    last match or from another branch of the tree, is an element with a
    key equal up to case to the key of the last match, and every
    constraint of the last segment of the path, the text behind its last
    '/', holds of it: for a constraint [k] it has an attribute with key
    [k], for [k=v] an attribute with key [k] and value [v], byte for
    byte.  The name in the last segment is not looked at.  With a NULL
    path there is no constraint. *)
Theorem xml_find_next_same_name (fuel : nat) (h : list xml_element) (li x : nat)
    (le : xml_element) (path : cstr) (s : segment) :
  segment_wf s -> ends_with_segment path (segment_text s) ->
  h !! li = Some le ->
  (xml_find_next fuel h (Some li) (Some path) = Ok (Some x) ->
   same_name_as h x le /\ constraint_of h x s) /\
  (xml_find_next fuel h (Some li) None = Ok (Some x) -> same_name_as h x le).
Proof.
  intros Hwf Hend Hle.
  destruct (last_segment_read path s Hwf Hend) as (seg & n & Hseg & _ & Hattr).
  split; intros H; unfold xml_find_next in H;
    destruct (xml_find_next_from_sound _ _ _ _ _ _ _ H Hle) as (seg' & xe & Hxe & Hm & Hp).
  - destruct Hp as [n' Hp]. rewrite Hseg in Hp. injection Hp as <- <-.
    by apply (next_match_ok h le seg s x xe true Hattr Hxe Hm).
  - subst seg'.
    assert (forall h c b, xml_attribute_match h (Some c) segment_zero = Ok b ->
              (b = true <-> constraint_of h c (seg_name []))) as Hattr0.
    { intros h0 c b H0. unfold xml_attribute_match in H0.
      apply bind_Ok in H0 as (el & _ & H0). injection H0 as <-.
      split; [by constructor|done]. }
    by apply (next_match_ok h le segment_zero (seg_name []) x xe true Hattr0 Hxe Hm).
Qed.

Lemma xml_find_next_same_name_witness :
  same_name_as tree2 4 (element_at tree2 2) /\
  constraint_of tree2 4 (seg_key_value (cs "b") (cs "x") (cs "2")).
Proof.
  apply (proj1 (xml_find_next_same_name 10 tree2 2 4 (element_at tree2 2)
                  (cs "a/b?x=2") (seg_key_value (cs "b") (cs "x") (cs "2"))
                  ltac:(repeat split; try done; unfold avoids; by repeat constructor)
                  ltac:(right; by exists (cs "a"))
                  eq_refl)).
  vm_compute. reflexivity.
Defined.

(** ** The key of a special tag, from the text of the tag *)

Lemma xml_element_create_index h parent h' k :
  xml_element_create h parent = Ok (h', k) -> k = length h /\ length h' = S (length h).
Proof.
  intros H. destruct parent as [p|].
  - split; [|by eapply xml_element_create_length].
    unfold xml_element_create in H. apply bind_Ok in H as (h2 & _ & H). by injection H.
  - injection H as <- <-. split; [done|]. rewrite length_app. cbn. lia.
Qed.

Lemma xml_element_create_key h parent h' k :
  xml_element_create h parent = Ok (h', k) ->
  exists ek, h' !! k = Some ek /\ e_key ek = None.
Proof.
  intros H. destruct parent as [p|].
  - destruct (xml_element_create_cases h p) as [(h2 & Hcr & _ & ek & Hek & Hkey)|Hu];
      [|by rewrite Hu in H].
    rewrite Hcr in H. injection H as <- <-. by exists ek.
  - injection H as <- <-. exists element_zero. split; [|done].
    by apply list_lookup_middle.
Qed.

(** The round of xml_parse_tag_opening at a character that matches no
    opening pattern: the body of the latest matching pattern is entered
    with a new element, and the character is left to the body. *)
Lemma xml_parse_tag_opening_end st c d t sb rest1 :
  match_opening (st_cursor st) c = (None, 0) ->
  st_tag st = Some t -> type t <> TAG_ELEMENT_CLOSE ->
  xml_parse_tag_opening st (c :: d) = Ok (sb, rest1) ->
  rest1 = c :: d /\ st_tag sb = Some t /\ st_parser sb = Some parse_tag_body /\
  st_length sb = 0 /\ st_cursor sb = 0 /\
  exists k ek, st_current sb = Some k /\ k < length (st_heap sb) /\
    st_heap sb !! k = Some ek /\ e_key ek = None.
Proof.
  intros Hm Ht Hty H. cbn [xml_parse_tag_opening] in H. rewrite Hm in H.
  replace (st_tag (with_cursor 0 st)) with (Some t) in H by (by destruct st).
  apply bind_Ok in H as (st1 & H1 & H). apply bind_Ok in H as (st3 & H3 & H).
  injection H as <- <-.
  assert (st_tag st1 = Some t) as Ht1.
  { destruct (0 <? _); [|injection H1 as <-; by destruct st].
    unfold xml_close_element in H1. destruct (st_current _); [|done].
    apply bind_Ok in H1 as (e & _ & H1). injection H1 as <-. by destruct st. }
  replace (type t =? TAG_ELEMENT_CLOSE) with false in H3
    by (symmetry; by apply Nat.eqb_neq).
  cbn [negb] in H3. apply bind_Ok in H3 as ([h e] & Hcr & H3). injection H3 as <-.
  pose proof (xml_element_create_key _ _ _ _ Hcr) as (ek & Hek & Hkey).
  apply xml_element_create_index in Hcr as [-> Hlen].
  split_and!; try done.
  eexists _, ek. split; [reflexivity|]. cbn in *. split_and!; [lia|done|done].
Qed.

Lemma match_opening_4 (c : ascii) :
  c <> "D"%char -> match_opening 4 c = (None, 0).
Proof.
  intros H1. unfold match_opening. cbn -[Ascii.eqb].
  destruct (Ascii.eqb "D" c) eqn:E1; [apply Ascii.eqb_eq in E1; congruence|].
  reflexivity.
Qed.

Lemma match_opening_9 (c : ascii) : match_opening 9 c = (None, 0).
Proof. reflexivity. Qed.

Ltac opening_step_in H t n :=
  rewrite (xml_parse_tag_opening_step _ _ _ t n) in H by reflexivity;
  unfold with_tag, with_cursor, with_parser in H;
  cbn [st_heap st_root st_current st_tag st_length st_cursor st_empty st_parser] in H.

Definition pat_pi : xml_tag_pattern :=
  {| type := TAG_PI; open := cs "<?"; open_len := 2; close := cs "?>" |}.

(** xml_parse_tag_opening on the opening pattern of a special tag that
    stands in the input in full, followed by a character that goes on
    with no opening pattern: the body of that tag is entered. *)
Lemma special_opening t st c d sb rest1 :
  special t -> st_cursor st = 0 ->
  (open_len t = 2 -> c <> "-"%char /\ c <> "["%char) ->
  (open_len t = 4 -> c <> "D"%char) ->
  xml_parse_tag_opening st (open t ++ c :: d) = Ok (sb, rest1) ->
  rest1 = c :: d /\ st_tag sb = Some t /\ st_parser sb = Some parse_tag_body /\
  st_length sb = 0 /\ st_cursor sb = 0 /\
  exists k ek, st_current sb = Some k /\ k < length (st_heap sb) /\
    st_heap sb !! k = Some ek /\ e_key ek = None.
Proof.
  intros (Hin & Ho & Hc) Hcur H2 H4 H.
  destruct st as [h ro cu tg len cur em pa]. cbn in Hcur. subst cur.
  table_cases Hin; try done.
  - destruct (H2 eq_refl) as [Hc1 Hc2].
    change (open _ ++ c :: d) with ("<"%char :: "?"%char :: c :: d) in H.
    opening_step_in H pat_open 0. opening_step_in H pat_pi 1.
    apply (xml_parse_tag_opening_end _ c d pat_pi) in H; try done.
    by apply match_opening_2.
  - destruct (H2 eq_refl) as [Hc1 Hc2].
    change (open _ ++ c :: d) with ("<"%char :: "!"%char :: c :: d) in H.
    opening_step_in H pat_open 0. opening_step_in H pat_type 1.
    apply (xml_parse_tag_opening_end _ c d pat_type) in H; try done.
    by apply match_opening_2.
  - specialize (H4 eq_refl).
    change (open _ ++ c :: d)
      with ("<"%char :: "!"%char :: "-"%char :: "-"%char :: c :: d) in H.
    opening_step_in H pat_open 0. opening_step_in H pat_type 1.
    opening_step_in H pat_comment 2. opening_step_in H pat_comment 3.
    apply (xml_parse_tag_opening_end _ c d pat_comment) in H; try done.
    by apply match_opening_4.
  - change (open _ ++ c :: d)
      with ("<"%char :: "!"%char :: "["%char :: "C"%char :: "D"%char :: "A"%char ::
            "T"%char :: "A"%char :: "["%char :: c :: d) in H.
    opening_step_in H pat_open 0. opening_step_in H pat_type 1.
    opening_step_in H pat_cdata 2. opening_step_in H pat_cdata 3.
    opening_step_in H pat_cdata 4. opening_step_in H pat_cdata 5.
    opening_step_in H pat_cdata 6. opening_step_in H pat_cdata 7.
    opening_step_in H pat_cdata 8.
    apply (xml_parse_tag_opening_end _ c d pat_cdata) in H; try done.
Qed.

(** The opening tag of an element whose text is a name alone: the key
    of the new element is the text between '<' and '>'. *)
Lemma name_alone_key st a t z rest sb rest1 :
  st_cursor st = 0 ->
  a <> "/"%char -> a <> "?"%char -> a <> "!"%char ->
  avoids (NUL :: ">"%char :: WHITESPACE) (a :: t) ->
  last (a :: t) = Some z -> z <> "/"%char ->
  xml_parse_tag_opening st ("<"%char :: (a :: t) ++ ">"%char :: rest) = Ok (sb, rest1) ->
  rest1 = (a :: t) ++ ">"%char :: rest /\
  exists k s, st_current sb = Some k /\
    xml_parse_tag_body sb rest1 = Ok (s, rest) /\ key_at k s = Some (a :: t) /\
    st_parser s = Some parse_content.
Proof.
  intros Hcur Ha1 Ha2 Ha3 Hav Hz Hz2 H.
  destruct (avoids_drop_gt _ _ Hav) as [Hav' Hgt].
  assert (NUL ∉ a :: t) as Hnul by (by apply (avoids_not_in _ _ _ Hav)).
  assert (avoids WHITESPACE (a :: t)) as Hws.
  { eapply avoids_weaken; [|exact Hav']. intros ch. cbn [chr_in existsb].
    intros Hch. by apply orb_false_iff in Hch as [_ Hch]. }
  assert (chr_in z WHITESPACE = false) as Hz1.
  { apply last_Some_elem_of in Hz. unfold avoids in Hws.
    rewrite Forall_forall in Hws. by apply Hws. }
  apply last_Some in Hz as [b Hb].
  destruct st as [h ro cu tg len cur em pa]. cbn in Hcur. subst cur.
  cbn [app] in H. opening_step_in H pat_open 0.
  apply (xml_parse_tag_opening_end _ a (t ++ ">"%char :: rest) pat_open) in H;
    [|by apply match_opening_1|done|done].
  destruct H as (-> & Ht & Hp & Hl & Hcu & k & ek & Hk & Hlt & Hek & Hkey).
  split; [done|].
  change (a :: t ++ ">"%char :: rest) with ((a :: t) ++ ">"%char :: rest).
  rewrite (tag_body_open sb k ek a t rest) by done.
  set (X := with_cursor 1 (with_length (length (a :: t))
              (with_heap (<[k := set_key (Some (a :: t)) ek]> (st_heap sb)) sb))).
  assert (xml_parse_tag_name X =
          Ok (with_empty (st_empty sb)
                (with_heap (<[k := set_key (Some (a :: t)) (set_key (Some (a :: t)) ek)]>
                              (st_heap X)) X))) as Hname.
  { unfold xml_parse_tag_name, xml_check_empty, deref, store.
    assert (st_current X = Some k) as -> by done.
    assert (st_heap X !! k = Some (set_key (Some (a :: t)) ek)) as HX
      by (cbn; by apply list_lookup_insert_eq).
    rewrite HX. cbn [bind e_key set_key]. rewrite (cstring_id _ Hnul).
    rewrite Hb at 1 2. rewrite (check_empty_loop_none b z Hz1 Hz2). rewrite <- Hb.
    cbn [bind orb st_current with_empty with_heap st_heap].
    assert (st_current X = Some k) as -> by done.
    rewrite list_lookup_insert_eq by (cbn; by rewrite length_insert).
    cbn [bind e_key set_key]. rewrite (cstring_id _ Hnul).
    rewrite (strcspn_end _ _ Hws), rd_end. cbn [bind].
    change (Ascii.eqb NUL NUL) with true. cbv iota. done. }
  rewrite Hname. cbn [bind st_empty with_empty].
  set (Y := with_empty (st_empty sb) _).
  assert (st_heap Y !! k = Some (set_key (Some (a :: t)) (set_key (Some (a :: t)) ek)))
    as HY by (cbn; apply list_lookup_insert_eq; by rewrite length_insert).
  destruct (st_empty sb).
  - unfold xml_close_element, deref.
    assert (st_current Y = Some k) as -> by done. rewrite HY. cbn [bind].
    eexists k, _. split_and!; [done|reflexivity| |done].
    unfold key_at. cbn -[Y]. by rewrite HY.
  - cbn [bind]. eexists k, _. split_and!; [done|reflexivity| |done].
    unfold key_at. cbn -[Y]. by rewrite HY.
Qed.

(** Where the opening pattern was matched in part only, the key starts
    with the whole pattern all the same: in [<a><!-x--></a>] the text
    between the delimiters of the tag is [!-x--], and the key is
    [!--x--]. *)
Lemma partial_opener_key_from_table :
  key_of (tree_of (cs "<a><!-x--></a>")) 2 = Some (cs "!--x--") /\
  cs "!--x--" <> cs "!-x--".
Proof. split; [vm_compute; reflexivity|discriminate]. Qed.

(** C2, amended.  Let the opening pattern of a processing instruction,
    a declaration, a comment or a CDATA section stand in the input in
    full, followed by a character that goes on with no opening pattern
    (no '-' or '[' behind [<?] or [<!], no 'D' behind [<!--]): then
    xml_parse_tag_opening enters the body of that tag with a new element
    and leaves the character to xml_parse_tag_body.  When
    xml_parse_tag_body then matches the closing pattern in full and goes
    back to content mode, having read [w], the text of the tag in the
    input is the opening pattern followed by [w], it ends with the
    closing pattern, and the key of the element is that text without its
    first and its last character: the opening pattern behind its first
    byte, the data, and the closing pattern before its last byte.  For
    the closing tag of an element xml_key_append stores nothing.  For the
    opening tag of an element whose text is a name alone, without white
    space and without a '/' at its end, the key is the text between '<'
    and '>'. *)
Theorem special_tag_key (t : xml_tag_pattern) (st sb s : xml_state) (c : ascii)
    (d rest1 d' : cstr) :
  special t -> st_cursor st = 0 ->
  (open_len t = 2 -> c <> "-"%char /\ c <> "["%char) ->
  (open_len t = 4 -> c <> "D"%char) ->
  xml_parse_tag_opening st (open t ++ c :: d) = Ok (sb, rest1) ->
  xml_parse_tag_body sb rest1 = Ok (s, d') ->
  st_parser s = Some parse_content ->
  rest1 = c :: d /\ st_tag sb = Some t /\
  (exists k w,
     st_current sb = Some k /\ c :: d = w ++ d' /\
     (exists x, drop 1 (open t) ++ w = x ++ close t) /\
     key_at k s = Some (removelast (drop 1 (open t ++ w)))) /\
  (forall st' tc data,
     st_tag st' = Some tc -> type tc = TAG_ELEMENT_CLOSE -> is_Some (st_current st') ->
     xml_key_append st' data = Ok st') /\
  (forall st' a n z rest sb' rest',
     st_cursor st' = 0 -> a <> "/"%char -> a <> "?"%char -> a <> "!"%char ->
     avoids (NUL :: ">"%char :: WHITESPACE) (a :: n) ->
     last (a :: n) = Some z -> z <> "/"%char ->
     xml_parse_tag_opening st' ("<"%char :: (a :: n) ++ ">"%char :: rest) =
       Ok (sb', rest') ->
     rest' = (a :: n) ++ ">"%char :: rest /\
     exists k s',
       st_current sb' = Some k /\ xml_parse_tag_body sb' rest' = Ok (s', rest) /\
       key_at k s' = Some (a :: n) /\ st_parser s' = Some parse_content).
Proof.
  intros Hsp Hcur H2 H4 Hop Hbody Hps.
  destruct (special_opening t st c d sb rest1 Hsp Hcur H2 H4 Hop)
    as (-> & Ht & Hp & Hl & Hcu & k & ek & Hk & Hlt & _).
  split; [done|]. split; [done|]. split; [|split].
  - assert (scan_inv t k sb) as Hi.
    { unfold scan_inv. split_and!;
        [done|done|done|done|intros Hn; congruence
        |rewrite Hcu; by apply close_nonempty|done]. }
    destruct (tag_body_loop_view t k _ _ _ _ _ Hsp Hi Hbody Hps) as (w & x & Hd & Hx & Hkey).
    assert (raw t k sb = drop 1 (open t)) as Hraw.
    { unfold raw, key_view. by rewrite Hl, Hcu, take_0, app_nil_r. }
    rewrite Hraw in Hx, Hkey. exists k, w. split_and!; [done|done|by exists x|].
    rewrite Hkey. do 2 f_equal.
    destruct (special_opener t Hsp) as (_ & a & r & _ & Hdrop).
    destruct (open t) as [|o op]; [done|]. done.
  - intros st' tc data Htc Hty [c' Hc']. by apply (xml_key_append_close st' tc c').
  - intros st' a n z rest sb' rest'. apply name_alone_key.
Qed.

Lemma special_tag_key_witness :
  exists k w,
    st_current st_in_comment = Some k /\ cs "x-y-->z" = w ++ cs "z" /\
    (exists x, drop 1 (cs "<!--") ++ w = x ++ cs "-->") /\
    key_at k st_after_comment = Some (removelast (drop 1 (cs "<!--" ++ w))).
Proof.
  destruct (special_tag_key
              {| type := TAG_COMMENT; open := cs "<!--"; open_len := 4; close := cs "-->" |}
              (with_parser (Some parse_tag_opening) st_after_open)
              st_in_comment st_after_comment "x"%char (cs "-y-->z") (cs "x-y-->z") (cs "z"))
    as (_ & _ & H & _ & _).
  - split_and!; [|done..].
    repeat first [apply list_elem_of_here | apply list_elem_of_further].
  - reflexivity.
  - discriminate.
  - discriminate.
  - vm_compute. reflexivity.
  - vm_compute. reflexivity.
  - reflexivity.
  - exact H.
Defined.

(** ** A self-closing element, wherever it stands *)

Lemma xml_parse_chunks_left k e0 ds : forall st s,
  left_behind k e0 st -> is_Some (st_root st) -> is_Some (st_parser st) ->
  xml_parse_chunks st ds = Ok s -> left_behind k e0 s.
Proof.
  induction ds as [|d ds IH]; intros st s Hl Hr Hp H.
  - by injection H as <-.
  - cbn [xml_parse_chunks] in H. apply bind_Ok in H as (s1 & H1 & H).
    rewrite xml_parse_chunk_run, chunk_init_id in H1 by done.
    pose proof (parse_loop_keeps _ _ _ _ H1) as [Hr1 Hp1].
    apply (IH s1); [by apply (parse_loop_left _ _ _ _ _ _ Hl H1)|by rewrite Hr1|auto|done].
Qed.

(** C6.  A self-closing tag, wherever it stands.  In content mode,
    with the tag handled in element [p], let the text of an opening tag
    up to its '>' end with '/' and white space, whatever stands before
    the '/': a name alone as in [<a/>], attributes, white space.  When the
    tag is complete its element, the next one of the arena, is a child of
    [p] without children and without a value, and the insertion point is
    [p] again.  Whatever follows, in the same chunk and in any number of
    further chunks, if it is parsed with success the element is what it
    was then in its key, attributes, parent and value, it still has no
    children, no element has it as parent and it is not the insertion
    point: nothing behind the tag became its body.  For [<a/>] itself the
    element has the key a. *)
Theorem self_closing_element (st s : xml_state) (p : nat) (a : ascii)
    (body ws rest : cstr) (ds : list cstr) :
  st_parser st = Some parse_content -> st_cursor st = 0 -> is_Some (st_root st) ->
  is_Some (st_current st) -> insertion_point st = Some p ->
  p < length (st_heap st) -> no_dangling (st_heap st) ->
  a <> "/"%char -> a <> "?"%char -> a <> "!"%char ->
  ">"%char ∉ a :: body -> NUL ∉ a :: body -> Forall is_space ws ->
  xml_parse_chunks st
    (("<"%char :: (a :: body) ++ "/"%char :: ws ++ ">"%char :: rest) :: ds) = Ok s ->
  (exists s1 e1 e,
     xml_parse_chunk st
       (Some ("<"%char :: (a :: body) ++ "/"%char :: ws ++ [">"%char])) = Ok s1 /\
     xml_parse_chunks s1 (rest :: ds) = Ok s /\
     st_current s1 = Some p /\ st_parser s1 = Some parse_content /\
     st_heap s1 !! length (st_heap st) = Some e1 /\
     e_parent e1 = Some p /\ e_first_child e1 = None /\ e_last_child e1 = None /\
     e_value e1 = None /\
     st_heap s !! length (st_heap st) = Some e /\
     e_key e = e_key e1 /\ e_attributes e = e_attributes e1 /\
     e_parent e = Some p /\ e_first_child e = None /\ e_last_child e = None /\
     e_value e = None /\
     (forall i c, st_heap s !! i = Some c -> e_parent c <> Some (length (st_heap st))) /\
     st_current s <> Some (length (st_heap st))) /\
  xml_parse_chunk state_zero (Some (cs "<a/>")) = Ok st_after_empty /\
  st_heap st_after_empty !! 1 = Some empty_a /\
  key_of (st_heap st_after_empty) 1 = Some (cs "a") /\
  e_first_child empty_a = None /\ e_parent empty_a = Some 0 /\
  st_current st_after_empty = Some 0.
Proof.
  intros Hpa Hcur Hr Hc Hip Hp Hd Ha1 Ha2 Ha3 Hgt Hnul Hws H.
  split; [|split_and!; reflexivity].
  cbn [xml_parse_chunks] in H. apply bind_Ok in H as (s' & H1 & H).
  rewrite xml_parse_chunk_run, chunk_init_id in H1 by (by rewrite ?Hpa).
  destruct (run_self_closing st p a body ws) as [(s1 & e1 & Hdone & Hrun)|Hno];
    try done; [|by apply Hno in H1].
  rewrite Hrun in H1.
  destruct Hdone as (Hc1 & Hp1 & Hr1 & Hleft & Hpar & Hfc & Hlc & Hv).
  pose proof Hleft as [[_ (e1' & He1 & Heq1)] _].
  pose proof (parse_loop_left _ _ _ _ _ _ Hleft H1) as Hleft'.
  pose proof (parse_loop_keeps _ _ _ _ H1) as [Hr' Hp'].
  pose proof (xml_parse_chunks_left _ _ ds s' s Hleft'
                ltac:(by rewrite Hr', Hr1) ltac:(apply Hp'; by rewrite Hp1) H)
    as [[Hnp (e & He & Heq)] Hcs].
  assert (forall x y : xml_element, set_next None x = set_next None y ->
            e_key x = e_key y /\ e_attributes x = e_attributes y /\
            e_parent x = e_parent y /\ e_first_child x = e_first_child y /\
            e_last_child x = e_last_child y /\ e_value x = e_value y) as Hsame.
  { intros x y Hq. split_and!;
      [apply (f_equal e_key) in Hq|apply (f_equal e_attributes) in Hq
      |apply (f_equal e_parent) in Hq|apply (f_equal e_first_child) in Hq
      |apply (f_equal e_last_child) in Hq|apply (f_equal e_value) in Hq]; done. }
  destruct (Hsame _ _ Heq1) as (Hk1 & Ha1' & Hp1' & Hf1 & Hl1 & Hv1).
  destruct (Hsame _ _ Heq) as (Hk2 & Ha2' & Hp2' & Hf2 & Hl2 & Hv2).
  exists s1, e1', e. split_and!; try congruence.
  - rewrite xml_parse_chunk_run, chunk_init_id by (by rewrite ?Hpa).
    by rewrite Hrun.
  - cbn [xml_parse_chunks].
    rewrite xml_parse_chunk_run, chunk_init_id; [|by rewrite Hr1|by rewrite Hp1].
    by rewrite H1.
  - done.
  - intros Hk. by apply (Hcs _ Hk).
Qed.

Definition st_self_closed_chunks : xml_state :=
  Eval vm_compute in
    state_of (xml_parse_chunks st_after_open [cs "<b x='1'/ >t<c>"; cs "u</c></a>"]).

Lemma self_closing_element_witness :
  exists s1 e1 e,
     xml_parse_chunk st_after_open (Some (cs "<b x='1'/ >")) = Ok s1 /\
     xml_parse_chunks s1 [cs "t<c>"; cs "u</c></a>"] = Ok st_self_closed_chunks /\
     st_current s1 = Some 1 /\ st_parser s1 = Some parse_content /\
     st_heap s1 !! 2 = Some e1 /\
     e_parent e1 = Some 1 /\ e_first_child e1 = None /\ e_last_child e1 = None /\
     e_value e1 = None /\
     st_heap st_self_closed_chunks !! 2 = Some e /\
     e_key e = e_key e1 /\ e_attributes e = e_attributes e1 /\
     e_parent e = Some 1 /\ e_first_child e = None /\ e_last_child e = None /\
     e_value e = None /\
     (forall i c, st_heap st_self_closed_chunks !! i = Some c -> e_parent c <> Some 2) /\
     st_current st_self_closed_chunks <> Some 2.
Proof.
  apply (self_closing_element st_after_open st_self_closed_chunks 1 "b"%char
           (cs " x='1'") (cs " ") (cs "t<c>") [cs "u</c></a>"]); try done.
  all: try (by eexists).
  all: try apply no_dangling_after_open.
  all: try (by apply not_in_string).
  all: try (by apply Forall_singleton).
  cbn. lia.
Defined.

(** ** The content of a leaf, from its opening tag on *)

(** In a tree every parent link and every last-child link stays inside
    the arena. *)
Lemma tree_ok_bounded h i e :
  tree_ok h -> h !! i = Some e ->
  (forall q, e_parent e = Some q -> q < length h) /\
  (forall q, e_last_child e = Some q -> q < length h).
Proof.
  intros [Hpar Hch] Hi. pose proof (lookup_lt_Some _ _ _ Hi) as Hlt. split.
  - intros q Hq. pose proof (Hpar i e q Hi Hq). lia.
  - intros q Hq. destruct (Hch i e Hi) as (l & _ & Hla & _ & Hin).
    rewrite Hq in Hla. symmetry in Hla. apply last_Some_elem_of in Hla.
    apply Hin in Hla as (ek & Hk & _). by eapply lookup_lt_Some.
Qed.

Lemma tree_ok_no_dangling h : tree_ok h -> no_dangling h.
Proof.
  intros Ht i e Hi. destruct (tree_ok_bounded h i e Ht Hi) as [H1 H2].
  split; intros Hq; [apply H1 in Hq|apply H2 in Hq]; lia.
Qed.

(** xml_check_empty on a tag text that ends, before its white space, in
    a character other than '/': the tag is not self-closing and the text
    is left as it is. *)
Lemma check_empty_loop_open body z ws : forall tail,
  chr_in z WHITESPACE = false -> z <> "/"%char -> Forall is_space ws ->
  check_empty_loop (body ++ z :: ws ++ tail) (length body + 1 + length ws) =
  (body ++ z :: ws ++ tail, false).
Proof.
  induction ws as [|w ws IH] using rev_ind; intros tail Hz1 Hz2 Hws.
  - cbn [length app]. replace (length body + 1 + 0) with (S (length body)) by lia.
    cbn [check_empty_loop]. rewrite list_lookup_middle by done. rewrite Hz1.
    destruct (Ascii.eqb z "/") eqn:E; [apply Ascii.eqb_eq in E; done|done].
  - apply Forall_app in Hws as [Hws Hw]. rewrite Forall_singleton in Hw.
    rewrite length_app. cbn [length].
    replace (length body + 1 + (length ws + 1)) with (S (length body + 1 + length ws))
      by lia.
    cbn [check_empty_loop]. rewrite <- !app_assoc. cbn [app].
    replace (body ++ z :: ws ++ w :: tail)
      with ((body ++ z :: ws) ++ w :: tail)
      by (by rewrite <- app_assoc).
    rewrite (list_lookup_middle (body ++ z :: ws) tail w)
      by (rewrite length_app; cbn [length]; lia).
    unfold is_space in Hw. rewrite Hw.
    rewrite <- app_assoc. cbn [app]. by rewrite (IH (w :: tail)).
Qed.

(** An opening tag that is not self-closing, met in content mode in the
    element [p]: when its '>' has been read the parser is in the state in
    which the text of a leaf starts, with the new element as insertion
    point. *)
Lemma run_open_leaf st p a body z ws :
  st_parser st = Some parse_content -> st_cursor st = 0 -> st_empty st = false ->
  insertion_point st = Some p ->
  p < length (st_heap st) -> tree_ok (st_heap st) ->
  a <> "/"%char -> a <> "?"%char -> a <> "!"%char ->
  ">"%char ∉ a :: body -> NUL ∉ a :: body ->
  last (a :: body) = Some z -> chr_in z WHITESPACE = false -> z <> "/"%char ->
  Forall is_space ws ->
  (exists s1 pe, fresh_leaf s1 (length (st_heap st)) pe /\
     e_parent pe = Some p /\ st_root s1 = st_root st /\
     forall rest,
       run st ("<"%char :: (a :: body) ++ ws ++ ">"%char :: rest) = run s1 rest) \/
  (forall rest s,
     run st ("<"%char :: (a :: body) ++ ws ++ ">"%char :: rest) <> Ok s).
Proof.
  intros Hpa Hcur Hem0 Hip Hp Htree Ha1 Ha2 Ha3 Hgt Hnul Hz Hz1 Hz2 Hws.
  assert (is_Some (st_current st)) as Hc.
  { unfold insertion_point in Hip. destruct (0 <? st_length st); [|by eexists].
    destruct (st_current st); [by eexists|done]. }
  pose proof (tree_ok_no_dangling _ Htree) as Hd.
  apply last_Some in Hz as [b Hb].
  set (t := body ++ ws).
  assert (forall rest, (a :: body) ++ ws ++ ">"%char :: rest =
                       (a :: t) ++ ">"%char :: rest) as Hshape.
  { intros rest. unfold t. cbn [app]. by rewrite <- app_assoc. }
  assert (">"%char ∉ a :: t) as Hgt'.
  { unfold t. rewrite app_comm_cons. intros Hin.
    apply elem_of_app in Hin as [Hin|Hin]; [done|].
    by apply (is_space_not ">"%char ws). }
  assert (NUL ∉ a :: t) as Hnul'.
  { unfold t. rewrite app_comm_cons. intros Hin.
    apply elem_of_app in Hin as [Hin|Hin]; [done|].
    by apply (is_space_not NUL ws). }
  destruct (xml_element_create (st_heap st) (Some p)) as [[h2 k]| | |] eqn:Hcr.
  2-4: right; intros rest s; rewrite Hshape; cbn [app];
       rewrite (run_open_tag st p) by done; by rewrite Hcr.
  destruct (xml_element_create_fresh _ _ _ _ Hp Hd Hcr) as (-> & Hk & Hnp).
  destruct (xml_element_create_tree _ _ _ _ Htree Hp Hcr) as (Htree2 & _ & Hlen2).
  set (k := length (st_heap st)) in *.
  set (e0 := set_parent (Some p) element_zero) in *.
  set (X := with_cursor 1 (with_length (length (a :: t))
              (with_heap (<[k := set_key (Some (a :: t)) e0]> h2) (tag_entered st h2 k)))).
  assert (forall rest,
            run st ("<"%char :: (a :: body) ++ ws ++ ">"%char :: rest) =
            do2 st', d' <-
              (do st4 <- xml_parse_tag_name X;
               do st5 <- (if st_empty st4 then xml_close_element st4 else Ok st4);
               Ok (xml_close_tag st5, rest));
            run st' d') as Hrun.
  { intros rest. rewrite Hshape. cbn [app].
    rewrite (run_open_tag st p) by done. rewrite Hcr. cbn [bind].
    rewrite run_cons. cbn [tag_entered st_parser with_current with_heap with_parser
                            call_parser].
    change (a :: t ++ ">"%char :: rest) with ((a :: t) ++ ">"%char :: rest).
    by rewrite (tag_body_open _ k e0 a t rest). }
  destruct (xml_parse_tag_name X) as [st4| | |] eqn:Hn.
  2-4: right; intros rest s; by rewrite Hrun.
  left.
  pose proof (lookup_lt_Some _ _ _ Hk) as Hlt.
  assert (st_heap X !! k = Some (set_key (Some (a :: t)) e0)) as HX.
  { cbn. by apply list_lookup_insert_eq. }
  destruct (xml_parse_tag_name_shape X st4 k _ (a :: t) eq_refl HX eq_refl Hn)
    as (Hc4 & Hem & key & attrs & Hh4).
  rewrite (cstring_id _ Hnul') in Hem.
  assert (a :: t = b ++ z :: ws ++ []) as Ht.
  { unfold t. rewrite app_comm_cons, Hb, <- app_assoc. cbn [app].
    by rewrite app_nil_r. }
  rewrite Ht in Hem at 1.
  replace (length (a :: t)) with (length b + 1 + length ws) in Hem
    by (rewrite Ht, length_app; cbn [length]; rewrite app_nil_r; lia).
  rewrite (check_empty_loop_open b z ws [] Hz1 Hz2 Hws) in Hem.
  cbn [snd orb] in Hem.
  change (st_empty X) with (st_empty st) in Hem. rewrite Hem0 in Hem.
  set (e1 := set_attributes attrs (set_key key (set_key (Some (a :: t)) e0))) in *.
  assert (st_heap st4 !! k = Some e1) as Hk4.
  { rewrite Hh4. apply list_lookup_insert_eq. cbn. by rewrite length_insert. }
  assert (st_heap st4 = <[k := e1]> h2) as Hh4'.
  { rewrite Hh4. cbn. by rewrite list_insert_insert_eq. }
  assert (tree_ok (st_heap st4)) as Htree4.
  { rewrite Hh4'. unfold e1.
    by apply (tree_ok_content h2 k e0
                (fun e => set_attributes attrs (set_key key (set_key (Some (a :: t)) e)))). }
  assert (length (st_heap st4) = S k) as Hlen4.
  { by rewrite Hh4', length_insert. }
  exists (xml_close_tag st4), e1. split_and!.
  - split_and!; try done.
    intros i e Hi. cbn in Hi. split_and!.
    + rewrite Hh4' in Hi. destruct (decide (i = k)) as [->|Hne].
      * rewrite list_lookup_insert_eq in Hi by done.
        injection Hi as <-. cbn. intros [= ->]. lia.
      * rewrite list_lookup_insert_ne in Hi by done. by apply (Hnp i e).
    + destruct (tree_ok_bounded _ i e Htree4 Hi) as [H1 _].
      cbn [xml_close_tag st_heap with_parser with_empty with_cursor with_length
           with_tag]. intros Hq. apply H1 in Hq. lia.
    + destruct (tree_ok_bounded _ i e Htree4 Hi) as [_ H2].
      cbn [xml_close_tag st_heap with_parser with_empty with_cursor with_length
           with_tag]. intros Hq. apply H2 in Hq. lia.
  - done.
  - cbn. apply xml_parse_tag_name_keeps in Hn as [Hr _]. by rewrite Hr.
  - intros rest. rewrite Hrun. cbn [bind]. by rewrite Hem.
Qed.

(** The text of a leaf and its closing tag, read from the state in which
    the text starts: xml_content gives the text back. *)
Lemma leaf_text_content st s p pe a x name rest f :
  fresh_leaf st p pe ->
  "<"%char ∉ a :: x -> NUL ∉ a :: x ->
  close_name_ok name -> ">"%char ∉ name ->
  run st ((a :: x) ++ cs "</" ++ name ++ ">"%char :: rest) = Ok s ->
  (exists e, st_heap s !! p = Some e /\ e_parent e = e_parent pe) /\
  xml_content (S (S f)) (st_heap s) (Some p) = Ok (Some (a :: x)).
Proof.
  intros Hf Hlt Hnul Hname Hgt H.
  rewrite (run_app _ _ _ _ (Nat.le_refl _) (wf_fresh_leaf _ _ _ Hf)) in H.
  rewrite (run_leaf_text st p pe a x Hf Hlt) in H. cbn [bind] in H.
  change (cs "</" ++ name ++ ">"%char :: rest)
    with ("<"%char :: "/"%char :: name ++ ">"%char :: rest) in H.
  rewrite (run_leaf_close st p pe a x name rest Hf Hname Hgt) in H.
  apply (parse_loop_leaf p (length (st_heap st)) (leaf_parent_elem (st_heap st) pe)
           (leaf_text_elem p (a :: x))) in H as [HP _];
    [|by apply framed_leaf_closed].
  split.
  - destruct HP as (_ & _ & (e & He & Heq) & _). exists e. split; [done|].
    by apply (f_equal e_parent) in Heq.
  - by apply (xml_content_leaf p (length (st_heap st))
                (leaf_parent_elem (st_heap st) pe) (leaf_text_elem p (a :: x))).
Qed.

(** The closing tag right behind the opening tag: the element is left
    without children, and xml_content gives NULL. *)
Lemma leaf_empty_content st s p pe q name rest f :
  fresh_leaf st p pe -> e_parent pe = Some q -> q <> p ->
  close_name_ok name -> ">"%char ∉ name ->
  run st (cs "</" ++ name ++ ">"%char :: rest) = Ok s ->
  (exists e, st_heap s !! p = Some e /\ e_parent e = e_parent pe) /\
  xml_content (S f) (st_heap s) (Some p) = Ok None.
Proof.
  intros (Hpa & Htag & Hl & Hcur & Hc & Hp & Hfc & Hfree) Hq Hqp Hname Hgt H.
  change (cs "</" ++ name ++ ">"%char :: rest)
    with ("<"%char :: "/"%char :: name ++ ">"%char :: rest) in H.
  rewrite (run_close_tag st p pe name rest) in H;
    [|done|done|by rewrite Hc|by unfold insertion_point; rewrite Hl|done..].
  apply (parse_loop_left p pe) in H as [[_ (e & He & Heq)] _].
  - split; [exists e; split; [done|by apply (f_equal e_parent) in Heq]|].
    apply (f_equal e_first_child) in Heq. cbn in Heq. rewrite Hfc in Heq.
    unfold xml_content. cbn. unfold deref. rewrite He. cbn. rewrite Heq. by destruct f.
  - split; cbn.
    + split; [|by exists pe]. intros i e Hi. by destruct (Hfree i e Hi).
    + rewrite Hq. by intros c [= <-].
Qed.

(** C7, amended.  A leaf, wherever it stands in a document.  In content
    mode, with tags handled in element [p] of a tree, let an opening tag
    that is not self-closing be followed by a text without '<', which may
    be empty, by a closing tag and by any further input.  If the chunk is
    parsed with success, the element of the tag, the next one of the
    arena, is a child of [p], and xml_content on it returns the text as it
    stood between the tags, byte for byte, when the text is not empty, and
    NULL when it is empty.  Nothing is escaped or unescaped: [&amp;] in
    the text is [&amp;] in the content, and for [<a></a>] xml_content
    returns NULL. *)
Theorem content_of_leaf (st s : xml_state) (p : nat) (a z : ascii)
    (body ws text name rest : cstr) (f : nat) :
  st_parser st = Some parse_content -> st_cursor st = 0 -> st_empty st = false ->
  is_Some (st_root st) -> insertion_point st = Some p ->
  p < length (st_heap st) -> tree_ok (st_heap st) ->
  a <> "/"%char -> a <> "?"%char -> a <> "!"%char ->
  ">"%char ∉ a :: body -> NUL ∉ a :: body ->
  last (a :: body) = Some z -> chr_in z WHITESPACE = false -> z <> "/"%char ->
  Forall is_space ws ->
  "<"%char ∉ text -> NUL ∉ text ->
  close_name_ok name -> ">"%char ∉ name ->
  xml_parse_chunk st
    (Some ("<"%char :: (a :: body) ++ ws ++ ">"%char ::
           text ++ cs "</" ++ name ++ ">"%char :: rest)) = Ok s ->
  (exists e, st_heap s !! length (st_heap st) = Some e /\ e_parent e = Some p) /\
  xml_content (S (S f)) (st_heap s) (Some (length (st_heap st))) =
    Ok (match text with [] => None | _ :: _ => Some text end) /\
  xml_content_find 10 (tree_of (cs "<a>x &amp; y</a>")) 0 (Some (cs "a")) =
    Ok (Some (cs "x &amp; y")) /\
  xml_content_find 10 (tree_of (cs "<a></a>")) 0 (Some (cs "a")) = Ok None.
Proof.
  intros Hpa Hcur Hem Hr Hip Hp Htree Ha1 Ha2 Ha3 Hgt Hnul Hz Hz1 Hz2 Hws
    Hlt Hnult Hname Hgtn H.
  cut ((exists e, st_heap s !! length (st_heap st) = Some e /\ e_parent e = Some p) /\
       xml_content (S (S f)) (st_heap s) (Some (length (st_heap st))) =
         Ok (match text with [] => None | _ :: _ => Some text end)).
  { intros [H1 H2]. split_and!; [done|done|vm_compute; reflexivity..]. }
  rewrite xml_parse_chunk_run, chunk_init_id in H by (by rewrite ?Hpa).
  destruct (run_open_leaf st p a body z ws) as [(s1 & pe & Hf & Hpar & _ & Hrun)|Hno];
    try done; [|by apply Hno in H].
  rewrite Hrun in H. rewrite <- Hpar.
  destruct text as [|c x].
  - apply (leaf_empty_content s1 s _ pe p name rest (S f) Hf Hpar); [lia|done..].
  - by apply (leaf_text_content s1 s _ pe c x name rest f Hf).
Qed.

Definition st_leaf_done : xml_state :=
  Eval vm_compute in
    state_of (xml_parse_chunk (chunk_init state_zero)
                (Some (cs "<a id='1' >R&amp;D</a><b>x</b>"))).

Lemma content_of_leaf_witness :
  (exists e, st_heap st_leaf_done !! 1 = Some e /\ e_parent e = Some 0) /\
  xml_content 2 (st_heap st_leaf_done) (Some 1) = Ok (Some (cs "R&amp;D")) /\
  xml_content_find 10 (tree_of (cs "<a>x &amp; y</a>")) 0 (Some (cs "a")) =
    Ok (Some (cs "x &amp; y")) /\
  xml_content_find 10 (tree_of (cs "<a></a>")) 0 (Some (cs "a")) = Ok None.
Proof.
  apply (content_of_leaf (chunk_init state_zero) st_leaf_done 0 "a"%char "'"%char
           (cs " id='1'") (cs " ") (cs "R&amp;D") (cs "a") (cs "<b>x</b>") 0);
    try done.
  all: try (by eexists).
  all: try (by apply not_in_string).
  all: try (by apply Forall_singleton).
  - cbn. lia.
  - apply (tree_ok_alloc [] tree_ok_nil).
Defined.
